(* ===== verification/_CoqProject ===== *)
-Q . S2P
Prelude.v
Str.v
Bitcoin.v
BitcoinModel.v
RskCommitment.v
MergeState.v
MergeInvariant.v
MergeContextProps.v
MergeMining.v
MergeService.v
MergeServiceProps.v
MergeTemplateProps.v
MergeProvenance.v
F32.v
Sv1.v
RecentJobs.v
ShareLimits.v
ShareLimitsProps.v
Effects.v
Stats.v
ProxyState.v
Downstream.v
DownstreamProps.v
DiffManagement.v
DiffManagementProps.v
TaskManager.v
TaskList.v
SessionTiming.v
Sv2.v
Bridge.v
BridgeProps.v
Upstream.v
UpstreamProps.v
UpstreamDiff.v
DownstreamTasks.v
DownstreamTasksProps.v
BindingFlow.v
ReceiveLoop.v
TranslatorStart.v
TranslatorStartProps.v
SetupConnection.v
Net.v
JdData.v
JdClient.v
JdState.v
JdUpstream.v
JobDeclarator.v
MiningDownstream.v
MinerTag.v
TemplateReceiver.v
JdModel.v
JdUpstreamProps.v
JobDeclaratorProps.v
MiningDownstreamProps.v
TemplateReceiverProps.v
JdParts.v
ShareAccounter.v
ShareAccounterProps.v
Monitor.v
MonitorProps.v
NodeRpc.v
TxPriority.v
TxPriorityProps.v
ProxyProtocol.v
ProxyProtocolProps.v
Ingress.v
IngressProps.v
Router.v
Supervisor.v
Config.v
ConfigProps.v
Routes.v
