(* ===== verification/Prelude.v ===== *)
(** * Verification of the DMND client

    The client ([src/], Rust) stands between SV1 miners and an SV2 mining pool.  It
    accepts miners, translates their [mining.submit] into SV2 shares and the pool's
    jobs into [mining.notify], limits and validates shares, watches its own health,
    and, beside this, merge mines RSK: it puts an RSK commitment in the coinbase of the
    templates it declares and looks for RSK proofs in the shares of its miners.

    ** How the parts interact

    A miner's message reaches [Downstream::handle_incoming_sv1]
    ([translator/downstream/downstream.rs]).  A [mining.submit] is validated against the
    job that was sent to this miner ([RecentJobs], [validate_share]), offered to the
    merge-mining observer, forwarded to the bridge with a reply channel, and answered.
    The bridge ([translator/proxy/bridge.rs]) translates it, asks the channel factory of
    [roles_logic_sv2] for a verdict, and answers the reply channel or hands it over with
    the share to the upstream ([translator/upstream/upstream.rs]), which keeps it pending
    under a sequence number until the pool answers.  In the other direction the upstream
    orders jobs and previous hashes for the bridge, which builds notifications, activates
    their merge-mining binding and broadcasts them to the downstreams.  Failures are
    reported to the global [ProxyState] ([proxy_state.rs]); counters go to the statistics
    task ([api/stats.rs]).

    These parts are tasks.  [translator::start] asks the pool for a channel and spawns the
    upstream and a start-up task, which waits for the channel, builds the bridge and starts
    the accept loop; the accept loop opens a channel of the bridge for each miner and gives
    it a reader, a writer, a notify task and an update task.  Task managers keep the handles
    of the tasks: dropping a manager's handle, or the kill signal of a miner that leaves,
    aborts them.

    When the miner's jobs are declared, the job declaration client ([jd_client/]) stands
    between the translator and the pool.  The template receiver takes a token, receives a
    template, has the miners' node build its job, asks for the transactions and spawns its
    declaration; the job declarator tracks declarations by request identifiers until the
    server accepts them and a previous hash makes them a custom job; the upstream side sends
    custom jobs one at a time and maps the miner's job identifiers to the pool's, which
    relayed shares wait for.  The four parts share three flags ([JdFlags]) and the
    merge-mining service.

    Around them, the supervisor ([lib.rs]) reads the configuration, chooses a pool with the
    router, connects to it, starts the parts and watches the health state: it starts them
    again when one is down, when the pool disconnects, or when a faster pool is measured.
    The share accounting relay stands between the translator and the pool's connection and
    turns the pool's verdicts back into answers.  The worker monitor counts sessions and
    shares and reports them to an HTTP server.  Transactions the user (or mempool.space)
    prioritises are recorded beside what the miners' node is told over its RPC.

    ** Files

    - [Prelude]: machine integers, bytes, slices, queues, mutexes and results, and the
      automation; [Str]: Rust strings and number formatting; [F32]: binary32 and
      binary64; [Effects]: handlers as computations with errors and panics over shared
      objects, and locking with poisoning.
    - [Bitcoin], [Sv1], [Sv2]: the interfaces to the crates the client calls, as
      typeclasses ([BitcoinLib], [Sv1Lib], [MiningLib], [BinaryLib], and
      [SubmitErrorCodes] and [ExtranonceLib] where they are used).  Theorems are proved against the class;
      [BitcoinModel] and the models beside the witnesses are concrete instances at which
      every theorem with hypotheses is instantiated.
    - Merge mining ([merge_mining.rs]): [RskCommitment] (commitment and tag checks,
      parsing of pairs, tree height), [MergeState] ([ContextState] and its locked
      sections), [MergeInvariant] (its well-formedness and that every section keeps it),
      [MergeContextProps] (what that means for bindings and queues), [MergeMining] (the
      service, the observer and the HTTP handlers), [MergeService] (every public call as
      a sequence of locked sections: the refinement), [MergeServiceProps],
      [MergeTemplateProps] and [MergeProvenance] (authorization, templates, and where each
      polled job comes from).
    - [RecentJobs]: the jobs of a miner under SV1 identifiers.  [ShareLimits] and
      [ShareLimitsProps]: [translator/utils.rs] and [difficulty_to_target].
    - [Downstream], [DownstreamProps]: the miner's side.  The record [Downstream] is the
      struct; [DownWorld] adds what the handlers share.
    - [DiffManagement], [DiffManagementProps]: the difficulty of a miner, its retargets,
      and its part in the channel's hash rate; [UpstreamDiff]: the task that tells the
      pool the aggregate.
    - [Stats], [ProxyState]: the statistics task and the health state; [SessionTiming]
      ([debug_timing.rs]): the time a miner's connection spends in each stage.
    - [TaskManager] ([translator/downstream/task_manager.rs]): the handles of the miners'
      tasks and the kill signals; [TaskList]: the ten task managers that keep a list.
    - [DownstreamTasks], [DownstreamTasksProps]: accepting a miner, its creation, its notify
      task, update task and writer; [ReceiveLoop] ([receive_from_downstream.rs]): its reader
      and what it cleans up.
    - [TranslatorStart], [TranslatorStartProps] ([translator/mod.rs] and the constructors
      and starts of the upstream, the bridge and the accept loop): [TranslatorWorld] holds
      what they share, [translator_event] interleaves them.
    - [Bridge], [BridgeProps]; [Upstream], [UpstreamProps]: the two middle tasks and the
      submits pending at the pool.  [BindingFlow]: both tasks and the merge-mining
      service together.
    - [SetupConnection]: the setup messages to the pool, the declaration server and the
      template provider, and what is made of the answers.
    - The job declaration client: [JdClient] ([jd_client/mod.rs]: its start, and the address
      of the template provider), [JdData] (messages, and the class [PoolLib] of what it
      calls), [JdState] (the objects behind their mutexes, and computations that move them
      along a relation), [JdUpstream] ([mining_upstream]), [JobDeclarator]
      ([job_declarator]), [MiningDownstream] ([mining_downstream]), [TemplateReceiver]
      ([template_receiver]), [MinerTag] ([shared/miner_tag.rs]); [JdModel] is a concrete
      pool library, and the four [Props] files of the same names hold the theorems.
      [JdParts] starts the four parts for [JdClient] and follows their tasks.
    - [Net]: addresses of [std::net] and segmented streams; [ProxyProtocol] and
      [ProxyProtocolProps] ([proxy_protocol.rs]); [Ingress] and [IngressProps]
      ([ingress/sv1_ingress.rs]).
    - [ShareAccounter], [ShareAccounterProps] ([share_accounter/mod.rs]): both relays and
      the map they share, one step per point where a task waits ([accounter_step]).
    - [Monitor], [MonitorProps] ([monitor/mod.rs], [monitor/worker_summary.rs]): the
      dispatcher, the calls of the miners' tasks, snapshots and requests.
    - [NodeRpc] ([api/bitcoin_rpc.rs], over the class [NodeLib] of the miners' node);
      [TxPriority], [TxPriorityProps] ([prioritized_transactions.rs], [api/mod.rs] and the
      prioritisation handlers of [api/routes.rs]); [Routes]: the statistics, pool and
      health handlers of [api/routes.rs].
    - [Router] ([router/mod.rs], [minin_pool_connection]): measuring and choosing a pool,
      the connection as a state machine and its relays; [Supervisor] ([lib.rs]): the loop
      that starts, watches and restarts the parts, and the theorems of both.
    - [Config], [ConfigProps] ([config.rs]): the settings and their parsers.

    Definitions carry the name of the function they translate; where the source has
    several functions of one name, the comment above the definition names it.  A field
    [x_name] of a record is the field [name] of the struct.  [set_x] is the assignment of
    a field.

    ** What the theorems show

    - Invariants: [ContextState] and the found-job queue under every sequence of calls,
      whatever the interleaving of the callers and the observer, because each call is a
      sequence of locked sections; the identifier maps of [RecentJobs]; the pending
      submits; the connection failures of [ProxyState].
    - The path of a share: a submit is answered exactly once under its own identifier, and
      one command for the statistics is issued (the channel drops it when it is full), except
      where the handler panics: a job with the sign bit in its version, or a difficulty
      without a target.  Only valid shares of authorized workers are forwarded; the version
      the bridge submits is the one validated exactly when the last valid job agrees with the
      share's outside the mask; the reply channel is settled exactly once, and the upstream
      neither loses nor repeats an answer.
    - The path of a job: the job sent to a miner is found again from the identifier it
      returns; a new previous hash activates the right future job and clears the others.
    - Merge mining: a template is extended completely or left alone, decodes again and is
      not extended twice; a binding in use is never evicted; a pending binding always
      travels with a job between the upstream and the bridge; a polled job is a proof of a
      share that was observed, in the context it resolved to, for a pair that was set.
    - Limits: the share window is an exact sliding window, the pool sees a bounded number
      of channel updates, targets are exact for powers of two, and the statistics are
      those of the connection's session.
    - The job declaration client: whatever the order of the answers of the pool, the
      server and the template provider, and whatever the interleaving of the tasks, custom
      jobs, declarations and relayed shares are about the job they are for, no token and no
      declaration is used twice, and an open channel stays open.  The calls that send custom
      jobs finish in every fair run once the channel is known (or the mutex poisoned); before
      that they wait for it.  A relayed share is sent in the turn in which the pool's
      identifier is known, and given up only after twenty seconds without.
    - Tasks and start-up: the bridge belongs to the first channel the pool opened and nobody
      is let in before it; the start-up task ends in three turns once the pool has answered;
      the translator and the job declaration client start completely or not at all, and
      dropping the handle of either aborts each task its managers were handed once; the
      declarations, share relays and solutions that the job declaration client detaches run
      on; no handle of a miner's
      task is lost or dropped twice, and only a miner that left has its tasks aborted; a
      miner that leaves is taken out of everything (a retarget that begins after that adds to
      the channel's hash rate what nobody takes back); it gets no job before it is authorized,
      and then every job in order, under an identifier that none of its jobs has, as long as
      the random draws reach a free one; the template provider's address is in place or tried by
      exactly one task; the session timings are those of the samples.
    - Connections: the acceptance of a connection depends on its bytes, not on how they
      arrive; headers are read back; active connections and the rate of new ones are
      bounded.
    - Around the translator: the pool's acknowledgements give each share sent up at most
      one answer, for the newest share of its job; a worker's session count is the
      number of connections that use it, and its hash rate is that of the last five
      minutes; what the stores record is what the node was told, and restoring takes
      exactly that back, as long as nobody else changes the node's deltas; a reconciliation
      brings the stores back to the node whoever changed them; the supervisor uses configured pools only and leaves one only for
      a pool measured faster by the margin; the environment decides only what neither the
      command line nor the file gives, and what an accepted configuration satisfies is listed
      field by field; the health
      endpoint answers 200 exactly when a miner could be taken.
    - What the code does not do as intended: a second [mining.configure] loses the
      upstream identifier of the job; two guards (the largest difficulty and the
      extranonce size) can never fire; an answer of the template provider that is ignored
      stops the template receiver for good; a declaration accepted late is put on the wrong
      previous hash; a second share of a job stops the share accounting relay; a worker
      that returns can be expired at once; a pool that hangs up early is measured faster; a
      transaction with two sources is restored twice, and one the node refused is
      accelerated again; a hash rate whose unit is not ASCII panics, its unit is ignored in
      the environment, and the file's minimum difficulty is not checked; a miner whose writer
      has ended makes the proxy restart, and one that never authorizes keeps its connection
      unserved; a task that is registered after its miner's kill signal is never aborted; a
      template provider given by name, or one that refuses the setup, panics the client; so
      do a token of more than 229 bytes and, silently, a miner's password of more than 255;
      a pool that refuses the channel is not noticed; a share for an older job is submitted
      with another version when the pool changed bits outside the mask; a retarget that runs
      after its miner left stays in the channel's hash rate; four kinds of tasks outlive the
      job declaration client that spawned them.

    ** Conventions and bounds

    Integers are values of [N] (or [Z] where they are signed), kept in their width by the
    operations, with wrapping, saturating and checked arithmetic written out; collection
    lengths are [nat].  Wrapping stands for the release build.  Instants and durations
    are nanoseconds and, like random draws and the environment, inputs.  A [None] or
    [Panicked] result is a panic where the definition says so, and a panic under a
    [roles_logic_sv2] mutex poisons it.  Recursion with fuel is used only where a loop
    shrinks a list: the evictions of [MergeState] take the length of the queue as fuel,
    the decimal digits the size of the number, the tree height the width of its
    argument; lemmas beside these definitions show that the fuel is enough.  Asynchronous
    tasks are modelled by the sequence of messages each of them takes; sends to a channel
    record the message, or fail when the receiver is gone.

    ** Not modelled

    Sockets, the Noise handshake and framing, task spawning and logging.  The SV1 and SV2
    crates, the [bitcoin] crate, the controller of the [pid] crate, clap, TOML and name
    resolution are parameters or inputs.  The HTTP routing table and its listener, the system
    statistics, the HTTP client of the monitor, signal handling ([shutdown.rs]) and the
    self-update ([auto_update.rs]) do process I/O and do not touch the state modelled here;
    the conversions between error types carry text only. *)

From Stdlib Require Export NArith ZArith Lia.
From Stdlib Require Import Strings.Byte Strings.String Strings.Ascii.
From stdpp Require Export base gmap sets strings fin_maps option list.

Set Default Proof Using "Type".

(** Notations of the library live in a scope of their own. *)
Declare Scope dmnd_scope.
Delimit Scope dmnd_scope with dmnd.
Open Scope dmnd_scope.

Create HintDb dmnd.
Create Rewrite HintDb dmnd.

(** ** Machine integers

    Unsigned integers of the source are values of [N] kept below the maximum of
    their width by the operations themselves: the checked, saturating and
    narrowing operations of Rust are written out here. *)
Definition u16_max : N := 65535.
Definition u32_max : N := 4294967295.
Definition i32_max : N := 2147483647.
Definition u64_max : N := 18446744073709551615.
Definition usize_max : N := u64_max.

Definition checked_add (limit a b : N) : option N :=
  if (a + b <=? limit)%N then Some (a + b)%N else None.
Definition checked_sub (a b : N) : option N :=
  if (b <=? a)%N then Some (a - b)%N else None.
Definition saturating_add (limit a b : N) : N := N.min limit (a + b).
Definition wrapping_add (limit a b : N) : N := ((a + b) mod (limit + 1))%N.
Definition try_from (limit a : N) : option N :=
  if (a <=? limit)%N then Some a else None.

(** Lengths and indices of slices are [nat]; [usize_of] is their value in the
    source's arithmetic. *)
Definition usize_of (n : nat) : N := N.of_nat n.

Lemma checked_add_Some limit a b c :
  checked_add limit a b = Some c ↔ c = (a + b)%N ∧ (a + b <= limit)%N.
Proof. unfold checked_add. destruct (N.leb_spec (a + b) limit); naive_solver lia. Qed.
Lemma checked_sub_Some a b c :
  checked_sub a b = Some c ↔ c = (a - b)%N ∧ (b <= a)%N.
Proof. unfold checked_sub. destruct (N.leb_spec b a); naive_solver lia. Qed.
Lemma try_from_Some limit a b : try_from limit a = Some b ↔ b = a ∧ (a <= limit)%N.
Proof. unfold try_from. destruct (N.leb_spec a limit); naive_solver lia. Qed.

(** ** Bytes *)
Abbreviation byte := Init.Byte.byte (only parsing).
Abbreviation bytes := (list byte) (only parsing).

#[export] Instance byte_eq_dec : EqDecision byte := Byte.byte_eq_dec.
#[export] Instance byte_countable : Countable byte :=
  inj_countable Byte.to_N Byte.of_N Byte.of_to_N.

Definition byte_of_N (n : N) : byte := default Byte.x00 (Byte.of_N (n mod 256)).

(** The [k] least significant bytes of [n], least significant first
    ([to_le_bytes]). *)
Fixpoint le_bytes (k : nat) (n : N) : bytes :=
  match k with
  | 0 => []
  | S k => byte_of_N n :: le_bytes k (n / 256)
  end.
Definition be_bytes (k : nat) (n : N) : bytes := reverse (le_bytes k n).

(** The value of a byte list, most significant byte first. *)
Definition be_value (l : bytes) : N :=
  fold_left (λ acc b, acc * 256 + Byte.to_N b)%N l 0%N.
Definition le_value (l : bytes) : N := be_value (reverse l).

Definition ascii_bytes (s : string) : bytes := list_byte_of_string s.

Lemma length_le_bytes k n : length (le_bytes k n) = k.
Proof. revert n. induction k; simpl; auto. Qed.
#[export] Hint Rewrite length_le_bytes : dmnd.

Lemma byte_of_N_lt n : (n < 256)%N → Byte.to_N (byte_of_N n) = n.
Proof.
  intros Hn. unfold byte_of_N. rewrite N.mod_small by done.
  destruct (Byte.of_N n) as [b|] eqn:E; simpl.
  - by apply Byte.to_of_N.
  - apply Byte.of_N_None_iff in E. lia.
Qed.

Lemma byte_lt b : (Byte.to_N b < 256)%N.
Proof. pose proof (Byte.to_N_bounded b). lia. Qed.

Lemma byte_to_N_inj a b : Byte.to_N a = Byte.to_N b → a = b.
Proof.
  intros H. pose proof (Byte.of_to_N a) as Ha. pose proof (Byte.of_to_N b) as Hb.
  rewrite H in Ha. congruence.
Qed.

Lemma be_value_be_bytes k n : (n < 256 ^ N.of_nat k)%N → be_value (be_bytes k n) = n.
Proof.
  revert n. induction k as [|k IH]; intros n Hn; unfold be_value, be_bytes; simpl.
  - simpl in Hn. lia.
  - rewrite Nat2N.inj_succ, N.pow_succ_r' in Hn. rewrite reverse_cons, fold_left_app.
    change (fold_left _ _ 0%N) with (be_value (be_bytes k (n / 256))). simpl.
    rewrite IH by (apply N.Div0.div_lt_upper_bound; lia).
    assert (Byte.to_N (byte_of_N n) = n mod 256)%N as ->.
    { assert (byte_of_N n = byte_of_N (n mod 256)) as -> by
        (unfold byte_of_N; by rewrite N.Div0.mod_mod).
      apply byte_of_N_lt, N.mod_lt. done. }
    pose proof (N.div_mod n 256 ltac:(done)). lia.
Qed.
Lemma length_be_bytes k n : length (be_bytes k n) = k.
Proof. unfold be_bytes. by rewrite length_reverse, length_le_bytes. Qed.

(** [<[u8; n]>::try_from] on a vector. *)
Definition to_array (n : nat) (l : bytes) : option bytes :=
  if length l =? n then Some l else None.

(** ** Slices: search and windows *)
Section slices.
Context {A : Type}.
Implicit Types (P : A → bool) (l : list A).

(** [Iterator::position] *)
Fixpoint position P l : option nat :=
  match l with
  | [] => None
  | x :: l => if P x then Some 0 else S <$> position P l
  end.

(** [Iterator::rposition] *)
Fixpoint rposition P l : option nat :=
  match l with
  | [] => None
  | x :: l =>
      match rposition P l with
      | Some i => Some (S i)
      | None => if P x then Some 0 else None
      end
  end.

Lemma position_Some P l i :
  position P l = Some i ↔
    ∃ x, l !! i = Some x ∧ P x = true ∧
         ∀ j y, j < i → l !! j = Some y → P y = false.
Proof.
  revert i. induction l as [|a l IH]; intros i; simpl; [naive_solver|].
  destruct (P a) eqn:Ha.
  - split.
    + intros [= <-]. exists a. repeat split; [done|]. intros; lia.
    + intros (x & Hx & HP & Hbefore). destruct i as [|i]; [done|].
      pose proof (Hbefore 0 a ltac:(lia) eq_refl). congruence.
  - destruct i as [|i]; simpl.
    + split; [destruct (position P l); naive_solver|].
      intros (x & [= ->] & ? & _). congruence.
    + rewrite fmap_Some. setoid_rewrite IH. split.
      * intros (j & (x & ? & ? & Hb) & [= ->]). exists x. repeat split; auto.
        intros [|j'] y ?; simpl; [by intros [= <-]|]. apply Hb. lia.
      * intros (x & ? & ? & Hb). exists i. split; [|done]. exists x.
        repeat split; auto. intros j y ??. apply (Hb (S j)); [lia|done].
Qed.

Lemma position_None P l : position P l = None ↔ ∀ x, x ∈ l → P x = false.
Proof.
  induction l as [|a l IH]; simpl.
  { split; [intros _ x Hx; by apply elem_of_nil in Hx|done]. }
  destruct (P a) eqn:Ha.
  - split; [done|]. intros H. specialize (H a ltac:(left)). congruence.
  - rewrite fmap_None, IH. split; intros H x Hx.
    + apply elem_of_cons in Hx as [->|]; auto.
    + apply H. by right.
Qed.

Lemma rposition_Some P l i :
  rposition P l = Some i ↔
    ∃ x, l !! i = Some x ∧ P x = true ∧
         ∀ j y, i < j → l !! j = Some y → P y = false.
Proof.
  revert i. induction l as [|a l IH]; intros i; simpl; [naive_solver|].
  destruct (rposition P l) as [k|] eqn:Hk.
  - destruct (proj1 (IH k) eq_refl) as (x & Hx & HP & Hafter). split.
    + intros [= <-]. exists x. repeat split; auto.
      intros [|j] y ?; simpl; [lia|]. apply Hafter. lia.
    + intros (z & Hz & HPz & Hb). destruct i as [|i]; simpl in *.
      * pose proof (Hb (S k) x ltac:(lia) Hx). congruence.
      * assert (Some k = Some i) as [= ->]; [|done]. apply IH.
        exists z. repeat split; auto. intros j y ??. apply (Hb (S j)); [lia|done].
  - assert (∀ j x, l !! j = Some x → P x = false) as Hnone.
    { intros j x Hj. destruct (P x) eqn:HPx; [|done]. exfalso.
      assert (∃ k, rposition P l = Some k) as [k ?]; [|congruence].
      clear -Hj HPx. revert j Hj. induction l as [|b l IHl]; intros j Hj; [done|].
      simpl. destruct (rposition P l) as [k|] eqn:E; [eauto|].
      destruct j as [|j]; simpl in *; [simplify_eq; rewrite HPx; eauto|].
      destruct (IHl j Hj) as [? ?]. congruence. }
    split.
    + destruct (P a) eqn:Ha; [|done]. intros [= <-]. exists a.
      repeat split; auto. intros [|j] y ?; simpl; [lia|]. apply Hnone.
    + intros (z & Hz & HPz & _). destruct i as [|i]; simpl in *.
      * simplify_eq. by rewrite HPz.
      * apply Hnone in Hz. congruence.
Qed.

Lemma rposition_None P l : rposition P l = None ↔ ∀ j x, l !! j = Some x → P x = false.
Proof.
  split.
  - intros HN. induction l as [|a l IH]; intros j x; [done|]. simpl in HN.
    destruct (rposition P l); [done|]. destruct (P a) eqn:Ha; [done|].
    destruct j; simpl; [by intros [= <-]|]. by apply IH.
  - intros H. destruct (rposition P l) as [k|] eqn:E; [|done].
    apply rposition_Some in E as (x & Hx & HP & _). apply H in Hx. congruence.
Qed.

Lemma position_ext P Q l : (∀ x, P x = Q x) → position P l = position Q l.
Proof. intros H. induction l as [|x l IH]; simpl; [done|]. by rewrite H, IH. Qed.

(** [slice::windows(n)] for [n > 0]: every contiguous run of [n] elements. *)
Fixpoint windows (n : nat) l : list (list A) :=
  match l with
  | [] => []
  | _ :: l' => if n <=? length l then take n l :: windows n l' else []
  end.

Lemma lookup_windows n l i :
  0 < n →
  windows n l !! i = if i + n <=? length l then Some (take n (drop i l)) else None.
Proof.
  intros Hn. revert i. induction l as [|a l IH]; intros i; simpl.
  - destruct (Nat.leb_spec (i + n) 0); [lia|done].
  - destruct (Nat.leb_spec n (S (length l))) as [Hle|Hgt]; simpl.
    + destruct i as [|i]; simpl.
      * destruct (Nat.leb_spec n (S (length l))); [done|lia].
      * rewrite IH. destruct (Nat.leb_spec (i + n) (length l)),
          (Nat.leb_spec (S (i + n)) (S (length l))); auto; lia.
    + destruct (Nat.leb_spec (i + n) (S (length l))); [lia|done].
Qed.

Lemma lookup_windows_Some n l i w :
  0 < n →
  windows n l !! i = Some w ↔
    length w = n ∧ ∃ pre post, l = pre ++ w ++ post ∧ length pre = i.
Proof.
  intros Hn. rewrite lookup_windows by done.
  destruct (Nat.leb_spec (i + n) (length l)) as [Hle|Hgt].
  - split.
    + intros [= <-]. rewrite length_take, length_drop. split; [lia|].
      exists (take i l), (drop n (drop i l)).
      rewrite (take_drop n), take_drop, length_take. split; [done|lia].
    + intros [Hw (pre & post & -> & <-)]. f_equal.
      rewrite drop_app_length, take_app_le by lia. by rewrite take_ge by lia.
  - split; [done|]. intros [Hw (pre & post & -> & <-)].
    rewrite !length_app in Hgt. lia.
Qed.

(** [VecDeque] as a queue that drops its oldest element when full. *)
Definition push_bounded (cap : nat) (l : list A) (x : A) : list A :=
  (if cap <=? length l then tail l else l) ++ [x].

Lemma length_push_bounded cap l x :
  0 < cap → length l ≤ cap → length (push_bounded cap l x) ≤ cap.
Proof.
  intros ??. unfold push_bounded. rewrite length_app. simpl.
  destruct (Nat.leb_spec cap (length l)); destruct l; simpl in *; lia.
Qed.

Lemma last_push_bounded cap l x : last (push_bounded cap l x) = Some x.
Proof. apply last_snoc. Qed.

Lemma elem_of_push_bounded cap l x y :
  y ∈ push_bounded cap l x → y ∈ l ∨ y = x.
Proof.
  unfold push_bounded. rewrite elem_of_app, list_elem_of_singleton.
  intros [H|]; [left|by right].
  destruct (cap <=? length l); [|done]. destruct l; [done|]. by right.
Qed.
End slices.

#[export] Hint Resolve length_push_bounded : dmnd.

(** ** Removing elements from a queue by identity ([VecDeque::retain]) *)
Definition retain {A} (P : A → bool) (l : list A) : list A := base.filter P l.

Section retain.
Context {A : Type}.
Implicit Types (P : A → bool) (l : list A).

Lemma elem_of_retain P l x : x ∈ retain P l ↔ P x = true ∧ x ∈ l.
Proof. unfold retain. rewrite list_elem_of_filter, Is_true_true. done. Qed.
Lemma retain_cons P x l : retain P (x :: l) = if P x then x :: retain P l else retain P l.
Proof.
  unfold retain. rewrite filter_cons. case_decide as H.
  - by rewrite (Is_true_true_1 _ H).
  - by rewrite (Is_true_false_1 _ H).
Qed.
Lemma NoDup_retain P l : NoDup l → NoDup (retain P l).
Proof. apply NoDup_filter. Qed.
Lemma length_retain P l : length (retain P l) ≤ length l.
Proof. apply length_filter. Qed.
Lemma retain_app P l1 l2 : retain P (l1 ++ l2) = retain P l1 ++ retain P l2.
Proof. apply filter_app. Qed.
Lemma retain_all P l : (∀ x, x ∈ l → P x = true) → retain P l = l.
Proof.
  induction l as [|x l IH]; intros H; [done|]. rewrite retain_cons, H by left.
  f_equal. apply IH. intros y Hy. apply H. by right.
Qed.
Lemma retain_none P l : (∀ x, x ∈ l → P x = false) → retain P l = [].
Proof.
  induction l as [|x l IH]; intros H; [done|]. rewrite retain_cons, H by left.
  apply IH. intros y Hy. apply H. by right.
Qed.
End retain.
#[export] Hint Resolve NoDup_retain : dmnd.

(** ** Mutexes

    A [std::sync::Mutex] guards a value and is poisoned when a holder panicked;
    [lock] fails exactly on a poisoned mutex. *)
Record Mutex (A : Type) := MkMutex { guarded : A; poisoned : bool }.
Arguments MkMutex {A} _ _.
Arguments guarded {A} _.
Arguments poisoned {A} _.

Definition new_mutex {A} (a : A) : Mutex A := MkMutex a false.
Definition lock {A} (m : Mutex A) : option A :=
  if poisoned m then None else Some (guarded m).
Definition store {A} (m : Mutex A) (a : A) : Mutex A := MkMutex a (poisoned m).
Definition poison {A} (m : Mutex A) : Mutex A := MkMutex (guarded m) true.

Lemma lock_store {A} (m : Mutex A) a b : lock m = Some a → lock (store m b) = Some b.
Proof. unfold lock, store. simpl. by destruct (poisoned m). Qed.
Lemma lock_guarded {A} (m : Mutex A) a : lock m = Some a → guarded m = a.
Proof. unfold lock. destruct (poisoned m); congruence. Qed.

(** ** Results *)
Inductive result (A E : Type) := Ok (a : A) | Err (e : E).
Arguments Ok {A E} _.
Arguments Err {A E} _.

Definition rbind {A B E} (r : result A E) (k : A → result B E) : result B E :=
  match r with Ok a => k a | Err e => Err e end.
Definition ok_or {A E} (o : option A) (e : E) : result A E :=
  match o with Some a => Ok a | None => Err e end.

Notation "'let?' x := r 'in' k" := (rbind r (λ x, k))
  (at level 10, x pattern, r at level 100, k at level 200,
   format "'let?'  x  :=  r  'in' '//' k") : dmnd_scope.

Lemma rbind_Ok {A B E} (r : result A E) (k : A → result B E) b :
  rbind r k = Ok b ↔ ∃ a, r = Ok a ∧ k a = Ok b.
Proof. destruct r; simpl; naive_solver. Qed.
Lemma ok_or_Ok {A E} (o : option A) (e : E) a : ok_or o e = Ok a ↔ o = Some a.
Proof. destruct o; simpl; naive_solver. Qed.

(** ** Automation *)

(** Split the condition of an [if] or the scrutinee of a [match] found in the
    goal or in a hypothesis, keeping the equation. *)
Ltac case_if :=
  match goal with
  | |- context [if ?b then _ else _] => destruct b eqn:?
  | H : context [if ?b then _ else _] |- _ => destruct b eqn:?
  end.

(** Turn boolean tests into the propositions they decide. *)
Ltac bool_to_prop :=
  repeat match goal with
  | H : negb _ = true |- _ => apply negb_true_iff in H
  | H : negb _ = false |- _ => apply negb_false_iff in H
  | H : _ && _ = true |- _ => apply andb_true_iff in H as [? ?]
  | H : _ || _ = false |- _ => apply orb_false_iff in H as [? ?]
  | H : bool_decide _ = true |- _ => apply bool_decide_eq_true in H
  | H : bool_decide _ = false |- _ => apply bool_decide_eq_false in H
  | H : (_ <=? _) = true |- _ => apply Nat.leb_le in H
  | H : (_ <=? _) = false |- _ => apply Nat.leb_gt in H
  | H : (_ <? _) = true |- _ => apply Nat.ltb_lt in H
  | H : (_ <? _) = false |- _ => apply Nat.ltb_ge in H
  | H : (_ =? _) = true |- _ => apply Nat.eqb_eq in H
  | H : (_ =? _) = false |- _ => apply Nat.eqb_neq in H
  | H : (_ <=? _)%N = true |- _ => apply N.leb_le in H
  | H : (_ <=? _)%N = false |- _ => apply N.leb_gt in H
  | H : (_ <? _)%N = true |- _ => apply N.ltb_lt in H
  | H : (_ <? _)%N = false |- _ => apply N.ltb_ge in H
  | H : (_ =? _)%N = true |- _ => apply N.eqb_eq in H
  | H : (_ =? _)%N = false |- _ => apply N.eqb_neq in H
  end.

(** Prove a decidable closed proposition by evaluating its decision. *)
Ltac decide_now :=
  lazymatch goal with
  | |- ?P => apply (bool_decide_unpack P); vm_compute; exact I
  end.
