(* ===== verification/Str.v ===== *)
(** * Rust strings

    A [&str] or [String] is the list of its Unicode scalar values; [str_len] is
    the length Rust reports, the number of bytes of the UTF-8 encoding.  The
    string operations of the standard library that the client uses are written
    out on this representation. *)

From S2P Require Import Prelude.

Abbreviation char := N (only parsing).
Abbreviation str := (list N) (only parsing).

(** A literal of the source. *)
Definition lit (s : string) : str := Ascii.N_of_ascii <$> String.list_ascii_of_string s.

Definition char_len_utf8 (c : char) : nat :=
  if (c <? 128)%N then 1
  else if (c <? 2048)%N then 2
  else if (c <? 65536)%N then 3
  else 4.

Definition str_len (s : str) : nat := sum_list_with char_len_utf8 s.

(** [char::is_whitespace]: the Unicode property White_Space. *)
Definition is_whitespace (c : char) : bool :=
  ((9 <=? c)%N && (c <=? 13)%N) || (c =? 32)%N || (c =? 133)%N || (c =? 160)%N
  || (c =? 5760)%N || ((8192 <=? c)%N && (c <=? 8202)%N)
  || (c =? 8232)%N || (c =? 8233)%N || (c =? 8239)%N || (c =? 8287)%N
  || (c =? 12288)%N.

(** [str::trim_start_matches] with a predicate, [trim_end_matches], [trim]. *)
Fixpoint trim_start_matches (p : char → bool) (s : str) : str :=
  match s with
  | [] => []
  | c :: s' => if p c then trim_start_matches p s' else s
  end.
Definition trim_end_matches (p : char → bool) (s : str) : str :=
  reverse (trim_start_matches p (reverse s)).
Definition trim (s : str) : str :=
  trim_end_matches is_whitespace (trim_start_matches is_whitespace s).

Definition char_to_ascii_lowercase (c : char) : char :=
  if (65 <=? c)%N && (c <=? 90)%N then (c + 32)%N else c.
Definition to_ascii_lowercase (s : str) : str := char_to_ascii_lowercase <$> s.

Fixpoint str_starts_with (p s : str) : bool :=
  match p, s with
  | [], _ => true
  | a :: p, b :: s => (a =? b)%N && str_starts_with p s
  | _ :: _, [] => false
  end.

(** [std::str::from_utf8]: overlong forms, surrogates and values above 0x10FFFF are
    refused. *)
Definition is_continuation (b : byte) : bool := (Byte.to_N b / 64 =? 2)%N.
Definition low_bits (b : byte) : N := (Byte.to_N b mod 64)%N.
Fixpoint from_utf8 (l : bytes) : option str :=
  match l with
  | [] => Some []
  | b :: l =>
      let n := Byte.to_N b in
      if (n <? 128)%N then cons n <$> from_utf8 l
      else match l with
      | [] => None
      | b1 :: l =>
          if negb (is_continuation b1) then None
          else if (194 <=? n)%N && (n <=? 223)%N then
            cons ((n mod 32) * 64 + low_bits b1)%N <$> from_utf8 l
          else match l with
          | [] => None
          | b2 :: l =>
              if negb (is_continuation b2) then None
              else
                let c := ((n mod 16) * 4096 + low_bits b1 * 64 + low_bits b2)%N in
                if (224 <=? n)%N && (n <=? 239)%N then
                  if (2048 <=? c)%N && negb ((55296 <=? c)%N && (c <=? 57343)%N)
                  then cons c <$> from_utf8 l else None
                else match l with
                | [] => None
                | b3 :: l =>
                    if negb (is_continuation b3) then None
                    else
                      let c := ((n mod 8) * 262144 + low_bits b1 * 4096
                                + low_bits b2 * 64 + low_bits b3)%N in
                      if (240 <=? n)%N && (n <=? 244)%N && (65536 <=? c)%N
                         && (c <=? 1114111)%N
                      then cons c <$> from_utf8 l else None
                end
          end
      end
  end.

(** [str::strip_prefix], [str::strip_suffix] *)
Definition strip_prefix (p s : str) : option str :=
  if str_starts_with p s then Some (drop (length p) s) else None.
Definition strip_suffix (p s : str) : option str :=
  reverse <$> strip_prefix (reverse p) (reverse s).

(** [str::split] on one character: always at least one piece. *)
Fixpoint split_on (sep : char) (s : str) : list str :=
  match s with
  | [] => [[]]
  | c :: s' =>
      if (c =? sep)%N then [] :: split_on sep s'
      else match split_on sep s' with
           | [] => [[c]]
           | w :: ws => (c :: w) :: ws
           end
  end.

(** [str::split_whitespace]: the non-empty pieces between white space. *)
Fixpoint words_aux (cur : str) (s : str) : list str :=
  match s with
  | [] => if decide (cur = []) then [] else [reverse cur]
  | c :: s' =>
      if is_whitespace c then
        (if decide (cur = []) then words_aux [] s'
         else reverse cur :: words_aux [] s')
      else words_aux (c :: cur) s'
  end.
Definition split_whitespace (s : str) : list str := words_aux [] s.

(** [Display] of an unsigned integer: its decimal digits.  A number has no more
    digits than bits, which bounds the recursion ([digits_value_decimal]). *)
Fixpoint decimal (fuel : nat) (n : N) (acc : str) : str :=
  let acc := (48 + n mod 10)%N :: acc in
  if (n <? 10)%N then acc
  else match fuel with
  | 0 => acc
  | S fuel => decimal fuel (n / 10) acc
  end.
Definition display_N (n : N) : str := decimal (N.size_nat n) n [].

(** [str::parse] to an unsigned integer with largest value [limit]: an optional
    plus sign and at least one digit. *)
Definition is_digit (c : char) : bool := (48 <=? c)%N && (c <=? 57)%N.
Definition digits_value (s : str) (start : N) : N :=
  fold_left (λ acc c, acc * 10 + (c - 48))%N s start.
Definition parse_digits (limit : N) (s : str) : option N :=
  if negb (length s =? 0) && forallb is_digit s
  then try_from limit (digits_value s 0) else None.
Definition parse_uint (limit : N) (s : str) : option N :=
  match s with
  | c :: rest => if (c =? 43)%N then parse_digits limit rest else parse_digits limit s
  | [] => None
  end.

(** ** Facts *)
Lemma str_starts_with_spec p s : str_starts_with p s = true ↔ ∃ t, s = p ++ t.
Proof.
  revert s. induction p as [|a p IH]; intros s; simpl; [naive_solver|].
  destruct s as [|b s]; [naive_solver|].
  rewrite andb_true_iff, N.eqb_eq, IH. naive_solver.
Qed.

Lemma strip_prefix_Some p s t : strip_prefix p s = Some t ↔ s = p ++ t.
Proof.
  unfold strip_prefix. destruct (str_starts_with p s) eqn:E.
  - apply str_starts_with_spec in E as [u ->]. rewrite drop_app_length.
    split; [by intros [= ->]|]. intros H%(inj (app p)). congruence.
  - split; [done|]. intros ->.
    assert (str_starts_with p (p ++ t) = true); [|congruence].
    apply str_starts_with_spec. eauto.
Qed.

Lemma strip_suffix_Some p s t : strip_suffix p s = Some t ↔ s = t ++ p.
Proof.
  unfold strip_suffix. rewrite fmap_Some. setoid_rewrite strip_prefix_Some.
  split.
  - intros (x & Hx & ->). rewrite <- (reverse_involutive s), Hx, reverse_app.
    by rewrite reverse_involutive.
  - intros ->. exists (reverse t). rewrite reverse_app, reverse_involutive. done.
Qed.

Lemma trim_start_suffix p s : ∃ t, s = t ++ trim_start_matches p s.
Proof.
  induction s as [|c s [t IH]]; [by exists []|]. simpl.
  destruct (p c); [exists (c :: t); simpl; by f_equal|by exists []].
Qed.

Lemma trim_start_head p s c t : trim_start_matches p s = c :: t → p c = false.
Proof.
  induction s as [|a s IH]; [done|]. simpl. destruct (p a) eqn:E; [done|].
  by intros [= -> _].
Qed.

Lemma trim_start_id p s : (∀ c t, s = c :: t → p c = false) → trim_start_matches p s = s.
Proof. destruct s as [|c s]; [done|]. intros H. simpl. by rewrite (H c s). Qed.

Lemma str_len_cons c s : str_len (c :: s) = char_len_utf8 c + str_len s.
Proof. done. Qed.
Lemma str_len_app s t : str_len (s ++ t) = str_len s + str_len t.
Proof. apply sum_list_with_app. Qed.
Lemma ascii_len s : Forall (λ c, (c < 128)%N) s → str_len s = length s.
Proof.
  induction 1 as [|c s Hc Hs IH]; [done|]. rewrite str_len_cons, IH. unfold char_len_utf8.
  destruct (N.ltb_spec c 128); [done|lia].
Qed.

Lemma length_to_ascii_lowercase s : length (to_ascii_lowercase s) = length s.
Proof. apply length_fmap. Qed.

(** ** Numbers *)
Lemma digits_value_decimal fuel n acc :
  (n < 10 * 2 ^ N.of_nat fuel)%N →
  digits_value (decimal fuel n acc) 0 = digits_value acc n.
Proof.
  revert n acc. induction fuel as [|fuel IH]; intros n acc Hn; simpl.
  - change (2 ^ N.of_nat 0)%N with 1%N in Hn. destruct (N.ltb_spec n 10); [|lia].
    unfold digits_value. simpl. f_equal. rewrite N.mod_small; lia.
  - pose proof (N.div_mod n 10 ltac:(done)) as Hdm.
    pose proof (N.mod_lt n 10 ltac:(done)) as Hm.
    rewrite Nat2N.inj_succ, N.pow_succ_r' in Hn. destruct (N.ltb_spec n 10) as [H|H].
    + unfold digits_value. simpl. f_equal. rewrite N.mod_small; lia.
    + rewrite IH; [|revert Hdm Hm Hn; 
        generalize (n / 10)%N (n mod 10)%N (2 ^ N.of_nat fuel)%N; lia].
      unfold digits_value. simpl. f_equal.
      revert Hdm Hm. generalize (n / 10)%N (n mod 10)%N. lia.
Qed.

Lemma decimal_digits fuel n acc :
  forallb is_digit acc = true → forallb is_digit (decimal fuel n acc) = true.
Proof.
  revert n acc. induction fuel as [|fuel IH]; intros n acc Hacc; simpl;
    pose proof (N.mod_lt n 10 ltac:(done)) as Hm;
    assert (is_digit (48 + n mod 10)%N = true) as Hd
      by (unfold is_digit; apply andb_true_iff; split; apply N.leb_le; revert Hm;
          generalize (n mod 10)%N; lia);
    destruct (n <? 10)%N; simpl; try (by rewrite Hd, Hacc).
  apply IH. simpl. by rewrite Hd, Hacc.
Qed.

Lemma decimal_nonempty fuel n acc : decimal fuel n acc ≠ [].
Proof.
  revert n acc. induction fuel as [|fuel IH]; intros n acc; simpl; destruct (n <? 10)%N; done.
Qed.

Lemma size_nat_bound n : (n < 2 ^ N.of_nat (N.size_nat n))%N.
Proof.
  destruct n as [|p]; [done|]. simpl.
  induction p as [p IH|p IH|]; cbn [Pos.size_nat];
    rewrite ?Nat2N.inj_succ, ?N.pow_succ_r'; [lia|lia|done].
Qed.

(** Parsing reads back what [Display] writes. *)
Lemma parse_uint_display limit n :
  (n <= limit)%N → parse_uint limit (display_N n) = Some n.
Proof.
  intros Hn. assert (parse_digits limit (display_N n) = Some n) as H.
  { unfold parse_digits, display_N. rewrite decimal_digits by done.
    destruct (Nat.eqb_spec (length (decimal (N.size_nat n) n [])) 0) as [E|_];
      [by apply nil_length_inv, decimal_nonempty in E|]. cbn [negb andb].
    rewrite digits_value_decimal; [by apply try_from_Some|].
    pose proof (size_nat_bound n). lia. }
  unfold parse_uint. destruct (display_N n) as [|c l] eqn:E; [by apply decimal_nonempty in E|].
  assert (is_digit c = true) as Hc.
  { pose proof (decimal_digits (N.size_nat n) n [] eq_refl) as Hd.
    fold (display_N n) in Hd. rewrite E in Hd. simpl in Hd. by apply andb_true_iff in Hd as [? _]. }
  destruct (N.eqb_spec c 43) as [->|]; [done|exact H].
Qed.

Lemma parse_uint_le limit s n : parse_uint limit s = Some n → (n <= limit)%N.
Proof.
  unfold parse_uint, parse_digits. intros H. repeat (case_match; try done);
    by apply try_from_Some in H as [-> ?].
Qed.
