(* ===== verification/Bitcoin.v ===== *)
(** * Interface to the Bitcoin and Stratum V2 crates

    The client calls the [bitcoin] crate (consensus encoding, scripts, hashes,
    hex) and [roles_logic_sv2] (targets, Merkle root from a path).  None of that
    code is part of the repository: the operations are the fields of a type
    class, every definition that uses them takes the class as an argument, and
    the documented behaviour that a theorem relies on is a field of the law
    class [BitcoinLaws]. *)

From S2P Require Import Prelude Str.

(** Script instructions as the [bitcoin] crate enumerates them. *)
Inductive Instruction :=
| PushBytes (data : bytes)
| Op (opcode : N).

(** [opcodes::all::OP_RETURN] *)
Definition OP_RETURN : N := 106.

(** [block::Header] *)
Record Header := MkHeader {
  hd_version : Z;
  hd_prev_blockhash : bytes;
  hd_merkle_root : bytes;
  hd_time : N;
  hd_bits : N;
  hd_nonce : N
}.

Class BitcoinLib := {
  (** [ScriptBuf] and [TxOut] *)
  ScriptBuf : Type;
  TxOut : Type;
  mk_txout : N → ScriptBuf → TxOut;
  script_pubkey : TxOut → ScriptBuf;
  (** [TxOut::consensus_decode] on a cursor and [serialize] *)
  txout_consensus_decode : bytes → option (TxOut * bytes);
  serialize_txout : TxOut → bytes;
  (** [PushBytesBuf::try_from] and [ScriptBuf::new_op_return] *)
  push_bytes_try_from : bytes → option bytes;
  new_op_return : bytes → ScriptBuf;
  (** [Script::is_op_return] and [Script::instructions], [None] for an
      instruction that does not parse *)
  is_op_return : ScriptBuf → bool;
  instructions : ScriptBuf → list (option Instruction);
  (** [Transaction]: the inputs with their witnesses, the outputs, and the rest *)
  TxInRest : Type;
  TxRest : Type;
  deserialize_transaction :
    bytes → option (TxRest * list (TxInRest * list bytes) * list TxOut);
  serialize_transaction :
    TxRest * list (TxInRest * list bytes) * list TxOut → bytes;
  compute_txid : TxRest * list (TxInRest * list bytes) * list TxOut → bytes;
  (** [sha256d::Hash::hash] *)
  sha256d : bytes → bytes;
  (** [merkle_root_from_path_] *)
  merkle_root_from_path : bytes → list bytes → bytes;
  (** [Header]: [serialize], [block_hash], and the display of a hash *)
  serialize_header : Header → bytes;
  block_hash : Header → bytes;
  block_hash_to_string : bytes → str;
  (** [mining_sv2::Target::from([u8; 32])], as the number it compares *)
  target_from : bytes → N;
  (** [Vec::from_hex] and [as_hex().to_string()] *)
  vec_from_hex : str → option bytes;
  as_hex : bytes → str;
  (** [B064K::try_from], as the test that succeeds *)
  b064k_fits : bytes → bool
}.

(** A [Transaction] value. *)
Definition Transaction `{BitcoinLib} : Type :=
  (TxRest * list (TxInRest * list bytes) * list TxOut)%type.
Definition tx_output `{BitcoinLib} (tx : Transaction) : list TxOut := snd tx.

(** [template_distribution_sv2::NewTemplate] *)
Record NewTemplate := MkNewTemplate {
  nt_template_id : N;
  nt_future_template : bool;
  nt_version : N;
  nt_coinbase_tx_version : N;
  nt_coinbase_prefix : bytes;
  nt_coinbase_tx_input_sequence : N;
  nt_coinbase_tx_value_remaining : N;
  nt_coinbase_tx_outputs_count : N;
  nt_coinbase_tx_outputs : bytes;
  nt_coinbase_tx_locktime : N;
  nt_merkle_path : list bytes
}.

(** The documented behaviour of the crates that theorems rely on: an encoded
    output is read back whatever follows it, the decoder accepts canonical
    encodings only, and hexadecimal text has two digits per byte. *)
Class BitcoinLaws (B : BitcoinLib) : Prop := {
  decode_serialize_txout o rest :
    txout_consensus_decode (serialize_txout o ++ rest) = Some (o, rest);
  decode_txout_canonical bs o rest :
    txout_consensus_decode bs = Some (o, rest) → bs = serialize_txout o ++ rest;
  from_hex_length s bs :
    vec_from_hex s = Some bs → str_len s = 2 * length bs
}.

Section laws.
Context `{!BitcoinLib} `{!BitcoinLaws _}.

(** A decoded prefix decodes the same way when more bytes follow. *)
Lemma decode_txout_app bs o rest more :
  txout_consensus_decode bs = Some (o, rest) →
  txout_consensus_decode (bs ++ more) = Some (o, rest ++ more).
Proof.
  intros ->%decode_txout_canonical. rewrite <- (assoc_L (++)).
  apply decode_serialize_txout.
Qed.
End laws.
