(* ===== verification/BitcoinModel.v ===== *)
(** * A concrete model of the Bitcoin interface

    One instance of [BitcoinLib] that satisfies [BitcoinLaws]: it shows that the
    laws can hold together and lets theorems be evaluated on concrete inputs.
    Outputs use the real consensus encoding for scripts of at most 252 bytes,
    scripts and hexadecimal text are the real ones; transactions are reduced to a
    header, the outputs and a trailer, and hashes are replaced by a checksum. *)

From S2P Require Import Prelude Str Bitcoin.

(** ** Little-endian integers *)
Lemma le_value_app l1 l2 :
  le_value (l1 ++ l2) = (le_value l1 + 256 ^ N.of_nat (length l1) * le_value l2)%N.
Proof.
  unfold le_value, be_value. rewrite reverse_app, fold_left_app.
  set (f := λ acc b, (acc * 256 + Byte.to_N b)%N).
  assert (∀ l a, fold_left f l a = (fold_left f l 0 + 256 ^ N.of_nat (length l) * a)%N) as Hf.
  { induction l as [|b l IH]; intros a; [simpl; change (256 ^ N.of_nat 0)%N with 1%N; lia|].
    simpl length. rewrite Nat2N.inj_succ, N.pow_succ_r'. simpl.
    rewrite (IH (f a b)), (IH (f 0%N b)). unfold f. lia. }
  rewrite Hf, length_reverse. done.
Qed.

Lemma le_value_cons b l : le_value (b :: l) = (Byte.to_N b + 256 * le_value l)%N.
Proof.
  change (b :: l) with ([b] ++ l). rewrite le_value_app. simpl length.
  unfold le_value at 1, be_value. simpl. change (256 ^ N.of_nat 1)%N with 256%N. lia.
Qed.

Lemma le_value_le_bytes k n : (n < 256 ^ N.of_nat k)%N → le_value (le_bytes k n) = n.
Proof.
  revert n. induction k as [|k IH]; intros n Hn; simpl.
  - change (256 ^ N.of_nat 0)%N with 1%N in Hn. assert (n = 0)%N as -> by lia. done.
  - rewrite Nat2N.inj_succ, N.pow_succ_r' in Hn. rewrite le_value_cons, IH.
    + unfold byte_of_N. pose proof (N.mod_lt n 256 ltac:(done)) as Hm.
      pose proof (byte_of_N_lt (n mod 256) Hm) as Hb. unfold byte_of_N in Hb.
      rewrite N.Div0.mod_mod in Hb. rewrite Hb. pose proof (N.div_mod n 256 ltac:(done)). lia.
    + apply N.Div0.div_lt_upper_bound. done.
Qed.

Lemma le_bytes_le_value l : le_bytes (length l) (le_value l) = l.
Proof.
  induction l as [|b l IH]; [done|]. simpl. rewrite le_value_cons.
  pose proof (byte_lt b) as Hb.
  assert ((Byte.to_N b + 256 * le_value l) mod 256 = Byte.to_N b)%N as Hm.
  { rewrite (N.mul_comm 256), N.Div0.mod_add. by apply N.mod_small. }
  assert ((Byte.to_N b + 256 * le_value l) / 256 = le_value l)%N as Hd.
  { rewrite (N.mul_comm 256), N.div_add by done. by rewrite N.div_small. }
  f_equal; [|by rewrite Hd].
  apply byte_to_N_inj. unfold byte_of_N. rewrite Hm. by rewrite Byte.of_to_N.
Qed.

Lemma le_value_lt l : (le_value l < 256 ^ N.of_nat (length l))%N.
Proof.
  induction l as [|b l IH]; [done|]. rewrite le_value_cons. simpl length.
  rewrite Nat2N.inj_succ, N.pow_succ_r'. pose proof (byte_lt b). lia.
Qed.

#[local] Arguments byte_of_N : simpl never.
#[local] Arguments le_bytes : simpl never.

(** ** Outputs *)
Definition output_ok (o : N * bytes) : bool :=
  (fst o <=? u64_max)%N && (length (snd o) <=? 252).
Definition output : Type := { o : N * bytes | output_ok o = true }.

Definition make_output (value : N) (script : bytes) : output :=
  match decide (output_ok (value, script) = true) with
  | left H => (value, script) ↾ H
  | right _ => (0%N, []) ↾ eq_refl
  end.

Definition encode_output (o : output) : bytes :=
  le_bytes 8 (fst (`o)) ++ byte_of_N (N.of_nat (length (snd (`o)))) :: snd (`o).

Definition decode_output (bs : bytes) : option (output * bytes) :=
  match drop 8 bs with
  | len :: rest =>
      let n := N.to_nat (Byte.to_N len) in
      let o := (le_value (take 8 bs), take n rest) in
      match decide (output_ok o = true ∧ n ≤ length rest) with
      | left H => Some (o ↾ proj1 H, drop n rest)
      | right _ => None
      end
  | [] => None
  end.

(** The fields of an encoding, whatever follows it. *)
Lemma encode_fields (v : bytes) len sc rest :
  length v = 8 →
  drop 8 ((v ++ len :: sc) ++ rest) = len :: sc ++ rest ∧
  take 8 ((v ++ len :: sc) ++ rest) = v.
Proof.
  intros Hv. rewrite <- (assoc_L (++)), <- Hv.
  by rewrite drop_app_length, take_app_length.
Qed.

Lemma decode_encode_output o rest : decode_output (encode_output o ++ rest) = Some (o, rest).
Proof.
  destruct o as [[v sc] Ho]. unfold decode_output, encode_output. cbn [fst snd proj1_sig].
  pose proof Ho as Ho'. unfold output_ok in Ho'. cbn [fst snd] in Ho'. bool_to_prop.
  destruct (encode_fields (le_bytes 8 v) (byte_of_N (N.of_nat (length sc))) sc rest)
    as [-> ->]; [apply length_le_bytes|].
  rewrite byte_of_N_lt by lia. rewrite Nat2N.id, take_app_length, drop_app_length.
  rewrite le_value_le_bytes; [|change (256 ^ N.of_nat 8)%N with (u64_max + 1)%N; lia].
  destruct (decide _) as [[H1 H2]|Hn].
  - do 2 f_equal. by apply (sig_eq_pi _).
  - destruct Hn. split; [done|]. rewrite length_app. lia.
Qed.

Lemma decode_output_canonical bs o rest :
  decode_output bs = Some (o, rest) → bs = encode_output o ++ rest.
Proof.
  unfold decode_output. destruct (drop 8 bs) as [|len more] eqn:Hd; [done|].
  destruct (decide _) as [[H1 H2]|]; [|done]. intros [= <- <-].
  unfold encode_output. cbn [fst snd proj1_sig].
  assert (length (take 8 bs) = 8) as Hl.
  { rewrite length_take. apply (f_equal length) in Hd. rewrite length_drop in Hd.
    cbn [length] in Hd. lia. }
  rewrite length_take, Nat.min_l, N2Nat.id by done.
  rewrite <- Hl at 1. rewrite le_bytes_le_value, <- (assoc_L (++)). cbn [app].
  rewrite take_drop. rewrite <- (take_drop 8 bs) at 1. rewrite Hd. do 2 f_equal.
  apply byte_to_N_inj. rewrite byte_of_N_lt by apply byte_lt. done.
Qed.

(** ** Scripts *)
Definition parse_instructions (script : bytes) : list (option Instruction) :=
  (fix go (fuel : nat) (s : bytes) : list (option Instruction) :=
     match fuel, s with
     | S fuel, op :: s =>
         let n := Byte.to_N op in
         if (n <=? 75)%N then
           if N.to_nat n <=? length s
           then Some (PushBytes (take (N.to_nat n) s)) :: go fuel (drop (N.to_nat n) s)
           else [None]
         else Some (Op n) :: go fuel s
     | _, _ => []
     end) (length script) script.

(** ** Hexadecimal text *)
Definition hex_digit (n : N) : char := if (n <? 10)%N then (48 + n)%N else (87 + n)%N.
Definition hex_value (c : char) : option N :=
  if (48 <=? c)%N && (c <=? 57)%N then Some (c - 48)%N
  else if (97 <=? c)%N && (c <=? 102)%N then Some (c - 87)%N
  else if (65 <=? c)%N && (c <=? 70)%N then Some (c - 55)%N
  else None.

Definition encode_hex (l : bytes) : str :=
  flat_map (λ b, [hex_digit (Byte.to_N b / 16); hex_digit (Byte.to_N b mod 16)]) l.

Fixpoint decode_hex (s : str) : option bytes :=
  match s with
  | [] => Some []
  | [_] => None
  | a :: b :: s =>
      match hex_value a, hex_value b, decode_hex s with
      | Some x, Some y, Some l => Some (byte_of_N (16 * x + y) :: l)
      | _, _, _ => None
      end
  end.

Lemma hex_value_ascii c v : hex_value c = Some v → char_len_utf8 c = 1.
Proof.
  unfold hex_value, char_len_utf8. intros H.
  destruct (N.ltb_spec c 128); [done|].
  exfalso. repeat (case_if; [bool_to_prop; lia|]). done.
Qed.

Lemma decode_hex_length n s bs :
  length s ≤ n → decode_hex s = Some bs → str_len s = 2 * length bs.
Proof.
  revert s bs. induction n as [|n IH]; intros [|a [|b s]] bs Hn H;
    cbn [decode_hex length] in *; try lia; simplify_eq; try done.
  destruct (hex_value a) eqn:Ha; [|done]. destruct (hex_value b) eqn:Hb; [|done].
  destruct (decode_hex s) as [l|] eqn:Hs; [|done]. injection H as <-.
  rewrite !str_len_cons. apply hex_value_ascii in Ha as ->. apply hex_value_ascii in Hb as ->.
  rewrite (IH s l) by (done || lia). simpl. lia.
Qed.

(** ** Transactions and hashes *)
Fixpoint decode_outputs_of (count : nat) (bs : bytes) : option (list output * bytes) :=
  match count with
  | 0 => Some ([], bs)
  | S count =>
      match decode_output bs with
      | Some (o, bs) =>
          match decode_outputs_of count bs with
          | Some (os, bs) => Some (o :: os, bs)
          | None => None
          end
      | None => None
      end
  end.

(** Eight bytes, the number of outputs, the outputs, the trailer. *)
Definition decode_transaction (bs : bytes)
    : option ((bytes * bytes) * list (unit * list bytes) * list output) :=
  match drop 8 bs with
  | count :: rest =>
      match decode_outputs_of (N.to_nat (Byte.to_N count)) rest with
      | Some (os, rest) => Some ((take 8 bs, rest), [], os)
      | None => None
      end
  | [] => None
  end.

Definition encode_transaction
    (tx : (bytes * bytes) * list (unit * list bytes) * list output) : bytes :=
  let '((head_, rest), _, os) := tx in
  head_ ++ byte_of_N (N.of_nat (length os)) :: flat_map encode_output os ++ rest.

(** A 32-byte checksum. *)
Definition checksum (l : bytes) : bytes :=
  le_bytes 32 (fold_left (λ acc b, (acc * 3 + Byte.to_N b) mod 65536) l 7)%N.

Definition encode_header (h : Header) : bytes :=
  le_bytes 4 (Z.to_N (hd_version h mod 4294967296)) ++ hd_prev_blockhash h
  ++ hd_merkle_root h ++ le_bytes 4 (hd_time h) ++ le_bytes 4 (hd_bits h)
  ++ le_bytes 4 (hd_nonce h).

#[export] Instance bitcoin_model : BitcoinLib := {
  ScriptBuf := bytes;
  TxOut := output;
  mk_txout := make_output;
  script_pubkey := λ o, snd (`o);
  txout_consensus_decode := decode_output;
  serialize_txout := encode_output;
  push_bytes_try_from := Some;
  new_op_return := λ data, byte_of_N 106 :: byte_of_N (N.of_nat (length data)) :: data;
  is_op_return := λ s, bool_decide (head s = Some (byte_of_N 106));
  instructions := parse_instructions;
  TxInRest := unit;
  TxRest := bytes * bytes;
  deserialize_transaction := decode_transaction;
  serialize_transaction := encode_transaction;
  compute_txid := λ tx, checksum (encode_transaction tx);
  sha256d := checksum;
  merkle_root_from_path := λ txid path, fold_left (λ acc h, checksum (acc ++ h)) path txid;
  serialize_header := encode_header;
  block_hash := λ h, checksum (encode_header h);
  block_hash_to_string := λ h, encode_hex (reverse h);
  target_from := le_value;
  vec_from_hex := decode_hex;
  as_hex := encode_hex;
  b064k_fits := λ l, (usize_of (length l) <=? 65535)%N
}.

#[export] Instance bitcoin_model_laws : BitcoinLaws bitcoin_model.
Proof.
  split.
  - exact decode_encode_output.
  - exact decode_output_canonical.
  - intros s bs H. by eapply decode_hex_length.
Qed.
