(* ===== verification/RskCommitment.v ===== *)
(** * RSK commitments in coinbase bytes

    Models the pure helpers of [src/src/merge_mining.rs]: what an RSK payload
    is, where the last raw [RSKBLOCK:] marker of a coinbase lies and whether it
    carries the desired payload, the height of the Merkle tree of a block, the
    payload of an OP_RETURN script, and the comparison of API secrets. *)

From S2P Require Import Prelude Str Bitcoin.

(** ** Constants *)
Definition RESERVED_COINBASE_OUTPUT_BYTES : N := 100.
Definition MAX_PAYLOAD_BYTES : nat := 80.
Definition RSK_TAG : bytes := ascii_bytes "RSKBLOCK:"%string.
Definition RSK_HASH_BYTES : nat := 32.
Definition RSK_MAX_TRAILING_COINBASE_BYTES : N := 128.

(** The pair an operator wants committed: the payload, its text, the target in
    both encodings and the serialized output that carries the payload. *)
Record DesiredPair := MkDesiredPair {
  dp_payload : bytes;
  dp_payload_hex : str;
  dp_target_le : bytes;
  dp_target_hex : str;
  dp_output : bytes
}.

(** ** Markers *)
Definition bytes_start_with (p l : bytes) : bool := bool_decide (take (length p) l = p).

Definition is_tag (window : bytes) : bool := bool_decide (window = RSK_TAG).

Definition is_rsk_payload (payload : bytes) : bool :=
  (length payload =? length RSK_TAG + RSK_HASH_BYTES) && bytes_start_with RSK_TAG payload.

Definition last_raw_tag_position (l : bytes) : option nat :=
  rposition is_tag (windows (length RSK_TAG) l).

(** [slice.get(lo..hi)] *)
Definition slice_get (lo hi : nat) (l : bytes) : option bytes :=
  if (lo <=? hi) && (hi <=? length l) then Some (take (hi - lo) (drop lo l)) else None.

Definition raw_rsk_commitment_matches (l : bytes) (desired : DesiredPair) : bool :=
  if negb (is_rsk_payload (dp_payload desired)) then false
  else match last_raw_tag_position l with
  | None => false
  | Some position =>
      match checked_add usize_max (usize_of position)
              (usize_of (length (dp_payload desired))) with
      | None => false
      | Some end_ =>
          bool_decide
            (slice_get position (N.to_nat end_) l = Some (dp_payload desired))
          && match checked_sub (usize_of (length l)) end_ with
             | Some trailing => (trailing <=? RSK_MAX_TRAILING_COINBASE_BYTES)%N
             | None => false
             end
      end
  end.

(** ** Scripts and transactions *)
Section scripts.
Context `{B : !BitcoinLib}.

Definition single_op_return_payload (script : ScriptBuf) : option bytes :=
  if negb (is_op_return script) then None
  else match instructions script with
  | Some (Op op) :: rest =>
      if (op =? OP_RETURN)%N then
        match rest with
        | Some (PushBytes data) :: rest => match rest with [] => Some data | _ => None end
        | _ => None
        end
      else None
  | _ => None
  end.

Definition has_canonical_last_rsk_commitment
    (transaction : Transaction) (desired : DesiredPair) : bool :=
  default false (last (omap (λ output,
    match single_op_return_payload (script_pubkey output) with
    | Some payload =>
        if bytes_start_with RSK_TAG payload
        then Some (bool_decide (serialize_txout output = dp_output desired))
        else None
    | None => None
    end) (tx_output transaction))).
End scripts.

(** ** Height of the Merkle tree *)

(** [usize::div_ceil] *)
Definition div_ceil (a b : N) : N :=
  (if 0 <? a mod b then a / b + 1 else a / b)%N.

(** The loop of [tree_height]; each round halves the width, so 32 rounds are
    more than a 32-bit width needs (see [tree_height_loop_exit]). *)
Fixpoint tree_height_loop (fuel : nat) (width : N) (height : nat) : nat :=
  match fuel with
  | 0 => height
  | S fuel =>
      if (1 <? width)%N then tree_height_loop fuel (div_ceil width 2) (S height)
      else height
  end.

Definition tree_height (block_tx_count : N) : option nat :=
  if ((block_tx_count =? 0)%N || (i32_max <? block_tx_count)%N)%bool then None
  else Some (tree_height_loop 32 block_tx_count 0).

(** ** Comparison of secrets *)
Definition byte_at (l : bytes) (index : nat) : N := default 0%N (Byte.to_N <$> l !! index).

Definition constant_time_eq (expected supplied : bytes) : bool :=
  let difference := N.lxor (usize_of (length expected)) (usize_of (length supplied)) in
  let length_ := length expected `max` length supplied in
  let difference :=
    fold_left (λ difference index,
        N.lor difference (N.lxor (byte_at expected index) (byte_at supplied index)))
      (seq 0 length_) difference in
  (difference =? 0)%N.

(** ** Facts about markers *)
Lemma is_tag_true w : is_tag w = true ↔ w = RSK_TAG.
Proof. unfold is_tag. apply bool_decide_eq_true. Qed.

Lemma bytes_start_with_true p l : bytes_start_with p l = true ↔ ∃ t, l = p ++ t.
Proof.
  unfold bytes_start_with. rewrite bool_decide_eq_true. split.
  - intros H. exists (drop (length p) l). by rewrite <- H at 1; rewrite take_drop.
  - intros [t ->]. by rewrite take_app_length.
Qed.

Lemma is_rsk_payload_true p :
  is_rsk_payload p = true ↔ ∃ hash, p = RSK_TAG ++ hash ∧ length hash = RSK_HASH_BYTES.
Proof.
  unfold is_rsk_payload. rewrite andb_true_iff, Nat.eqb_eq, bytes_start_with_true.
  split.
  - intros [Hlen [t ->]]. exists t. rewrite length_app in Hlen. split; [done|lia].
  - intros (t & -> & Ht). rewrite length_app, Ht. split; [done|by exists t].
Qed.

(** The last marker, in terms of decompositions of the bytes. *)
Lemma last_raw_tag_position_Some l i :
  last_raw_tag_position l = Some i ↔
    (∃ pre post, l = pre ++ RSK_TAG ++ post ∧ length pre = i) ∧
    ∀ pre post, l = pre ++ RSK_TAG ++ post → length pre ≤ i.
Proof.
  assert (0 < length RSK_TAG) as Hpos by (vm_compute; lia).
  assert (∀ j, windows (length RSK_TAG) l !! j = Some RSK_TAG ↔
    ∃ pre post, l = pre ++ RSK_TAG ++ post ∧ length pre = j) as Hw.
  { intros j. rewrite lookup_windows_Some by done. naive_solver. }
  unfold last_raw_tag_position. rewrite rposition_Some. split.
  - intros (w & Hi & ->%is_tag_true & Hafter). split; [by apply Hw|].
    intros pre post ->. destruct (decide (length pre ≤ i)) as [|Hgt]; [done|].
    exfalso. assert (is_tag RSK_TAG = false); [|by vm_compute].
    apply (Hafter (length pre)); [lia|]. apply Hw. eauto.
  - intros [Hi Hlast]. exists RSK_TAG.
    split; [by apply Hw|]. split; [by apply is_tag_true|].
    intros j w ? Hj. destruct (is_tag w) eqn:E; [|done]. exfalso.
    apply is_tag_true in E as ->. apply Hw in Hj as (pre & post & Heq & <-).
    apply Hlast in Heq. lia.
Qed.

Lemma slice_get_Some lo hi l s :
  slice_get lo hi l = Some s ↔
    ∃ pre post, l = pre ++ s ++ post ∧ length pre = lo ∧ lo + length s = hi.
Proof.
  unfold slice_get. destruct ((lo <=? hi) && (hi <=? length l)) eqn:E.
  - bool_to_prop. split.
    + intros [= <-]. exists (take lo l), (drop (hi - lo) (drop lo l)).
      rewrite (take_drop (hi - lo)), take_drop, !length_take, length_drop.
      repeat split; lia.
    + intros (pre & post & -> & <- & <-). f_equal.
      rewrite drop_app_length, take_app_le by lia. by rewrite take_ge by lia.
  - split; [done|]. intros (pre & post & -> & <- & <-).
    rewrite !length_app in E.
    apply andb_false_iff in E as [E|E]; bool_to_prop; lia.
Qed.

(** What RskJ selects: the payload at the last marker of the coinbase, with at
    most 128 bytes after it. *)
Definition rskj_selects (l payload : bytes) : Prop :=
  ∃ pre post,
    l = pre ++ payload ++ post ∧
    (usize_of (length post) <= RSK_MAX_TRAILING_COINBASE_BYTES)%N ∧
    ∀ pre' post', l = pre' ++ RSK_TAG ++ post' → length pre' ≤ length pre.

Lemma rsk_commitment_sound l desired :
  raw_rsk_commitment_matches l desired = true →
  is_rsk_payload (dp_payload desired) = true ∧ rskj_selects l (dp_payload desired).
Proof.
  unfold raw_rsk_commitment_matches.
  destruct (is_rsk_payload (dp_payload desired)) eqn:Hrsk; [simpl|done].
  destruct (last_raw_tag_position l) as [i|] eqn:Hlast; [|done].
  destruct (checked_add _ _ _) as [e|] eqn:He; [|done].
  apply checked_add_Some in He as [-> He]. intros [Hget Hsub]%andb_true_iff.
  apply bool_decide_eq_true, slice_get_Some in Hget as (pre & post & -> & <- & _).
  split; [done|]. exists pre, post. split; [done|]. split.
  - destruct (checked_sub _ _) as [t|] eqn:Ht; [|done].
    apply checked_sub_Some in Ht as [-> _]. apply N.leb_le in Hsub.
    unfold usize_of in *. rewrite !length_app in Hsub. lia.
  - by apply last_raw_tag_position_Some in Hlast as [_ ?].
Qed.

Lemma rsk_commitment_complete l desired :
  (usize_of (length l) <= usize_max)%N →
  is_rsk_payload (dp_payload desired) = true →
  rskj_selects l (dp_payload desired) →
  raw_rsk_commitment_matches l desired = true.
Proof.
  intros Hmax Hrsk (pre & post & -> & Hpost & Hlast).
  unfold raw_rsk_commitment_matches. rewrite Hrsk. simpl.
  destruct (proj1 (is_rsk_payload_true _) Hrsk) as (hash & Hp & _).
  assert (last_raw_tag_position (pre ++ dp_payload desired ++ post) = Some (length pre))
    as ->.
  { apply last_raw_tag_position_Some. split; [|done].
    exists pre, (hash ++ post). rewrite Hp. by rewrite <- !(assoc_L (++)). }
  unfold usize_of in *. rewrite !length_app in *.
  destruct (checked_add _ _ _) as [e|] eqn:He.
  - apply checked_add_Some in He as [-> _]. apply andb_true_iff. split.
    + apply bool_decide_eq_true, slice_get_Some. exists pre, post.
      split; [done|]. split; [done|lia].
    + destruct (checked_sub _ _) as [t|] eqn:Ht.
      * apply checked_sub_Some in Ht as [-> _]. apply N.leb_le. lia.
      * unfold checked_sub in Ht. case_if; [done|]. bool_to_prop. lia.
  - unfold checked_add in He. case_if; [done|]. bool_to_prop. lia.
Qed.

(** ** Facts about the Merkle tree *)
Lemma div_ceil_2 w : (w <= 2 * div_ceil w 2 <= w + 1)%N.
Proof.
  unfold div_ceil. pose proof (N.div_mod w 2 ltac:(done)) as Hdm.
  pose proof (N.mod_lt w 2 ltac:(done)) as Hlt. revert Hdm Hlt.
  generalize (w / 2)%N (w mod 2)%N. intros q r ??. destruct (N.ltb_spec 0 r); lia.
Qed.

Lemma log2_up_div_ceil w :
  (1 < w)%N → N.log2_up w = (N.log2_up (div_ceil w 2) + 1)%N.
Proof.
  intros Hw. pose proof (div_ceil_2 w) as Hd.
  destruct (decide (div_ceil w 2 = 1)%N) as [E|E].
  - rewrite E. assert (w = 2)%N as -> by lia. reflexivity.
  - destruct (N.log2_up_spec (div_ceil w 2) ltac:(lia)) as [Hlo Hhi].
    apply N.log2_up_unique; [lia|].
    assert (0 < N.log2_up (div_ceil w 2))%N by (apply N.log2_up_pos; lia).
    replace (N.log2_up (div_ceil w 2) + 1)%N with (N.succ (N.log2_up (div_ceil w 2))) by lia.
    rewrite N.pred_succ, N.pow_succ_r'. split; [|lia].
    rewrite <- (N.succ_pred (N.log2_up (div_ceil w 2))), N.pow_succ_r' by lia. lia.
Qed.

(** With enough fuel the loop stops because its guard is false, having counted
    the halvings. *)
Lemma tree_height_loop_exit fuel w h :
  (0 < w)%N → (w <= 2 ^ N.of_nat fuel)%N →
  tree_height_loop fuel w h = h + N.to_nat (N.log2_up w).
Proof.
  revert w h. induction fuel as [|fuel IH]; intros w h Hw Hf; simpl.
  - change (2 ^ N.of_nat 0)%N with 1%N in Hf.
    assert (w = 1)%N as -> by lia. vm_compute (N.log2_up 1). simpl. lia.
  - destruct (N.ltb_spec 1 w) as [H1|H1].
    + pose proof (div_ceil_2 w).
      rewrite Nat2N.inj_succ, N.pow_succ_r' in Hf.
      rewrite IH by lia. rewrite (log2_up_div_ceil w) by done. lia.
    + assert (w = 1)%N as -> by lia. vm_compute (N.log2_up 1). simpl. lia.
Qed.

Lemma tree_height_Some n h :
  tree_height n = Some h ↔
    (1 <= n <= i32_max)%N ∧ h = N.to_nat (N.log2_up n).
Proof.
  unfold tree_height.
  destruct ((n =? 0)%N || (i32_max <? n)%N) eqn:E.
  - split; [done|]. intros [Hn _].
    apply orb_true_iff in E as [E|E]; [apply N.eqb_eq in E|apply N.ltb_lt in E]; lia.
  - bool_to_prop. rewrite tree_height_loop_exit.
    + split; [intros [= <-]; split; [lia|done]|by intros [_ ->]].
    + lia.
    + unfold i32_max in *. change (2 ^ N.of_nat 32)%N with 4294967296%N. lia.
Qed.

(** ** Facts about the comparison of secrets *)
Lemma fold_lor_zero {A} (f : A → N) (l : list A) d :
  fold_left (λ d i, N.lor d (f i)) l d = 0%N ↔ d = 0%N ∧ ∀ x, x ∈ l → f x = 0%N.
Proof.
  revert d. induction l as [|a l IH]; intros d; simpl.
  - split; [|naive_solver]. intros ->. split; [done|].
    intros x Hx. by apply elem_of_nil in Hx.
  - rewrite IH, N.lor_eq_0_iff. split.
    + intros [[-> Ha] Hl]. split; [done|]. intros x [->|]%elem_of_cons; auto.
    + intros [-> Hl]. repeat split; [apply Hl; left|]. intros; apply Hl. by right.
Qed.

Lemma constant_time_eq_true expected supplied :
  constant_time_eq expected supplied = true ↔ expected = supplied.
Proof.
  unfold constant_time_eq. rewrite N.eqb_eq, fold_lor_zero, N.lxor_eq_0_iff.
  unfold usize_of. split.
  - intros [Hlen Hbytes]. apply list_eq. intros i.
    destruct (decide (i < length expected)) as [Hi|Hi].
    + specialize (Hbytes i). rewrite N.lxor_eq_0_iff in Hbytes. unfold byte_at in Hbytes.
      destruct (lookup_lt_is_Some_2 expected i ltac:(lia)) as [a Ha].
      destruct (lookup_lt_is_Some_2 supplied i ltac:(lia)) as [b Hb].
      rewrite Ha, Hb in *. f_equal. apply byte_to_N_inj. apply Hbytes.
      apply elem_of_seq. lia.
    + rewrite !lookup_ge_None_2 by lia. done.
  - intros ->. split; [done|]. intros i _. apply N.lxor_nilpotent.
Qed.
