(* ===== verification/MergeState.v ===== *)
(** * The merge-mining context

    Models [ContextState] of [src/src/merge_mining.rs] and the functions that
    update it under its mutex: template drafts by generation, job bindings by
    binding identifier, the announcement queue and the protected bindings. *)

From S2P Require Import Prelude Str Bitcoin RskCommitment.

(** ** Data *)
Definition MAX_TEMPLATES : nat := 128.
Definition MAX_JOBS : nat := 256.
Definition MAX_JOB_ANNOUNCEMENTS : nat := 256.

Record ChainState := MkChainState { ch_prev_hash : bytes; ch_n_bits : N }.

Record TemplateDraft := MkTemplateDraft {
  td_template_id : N;
  td_desired : DesiredPair;
  td_merkle_path : list bytes;
  td_block_tx_count : option N;
  td_chain : option ChainState
}.

Record JobBinding := MkJobBinding {
  jb_binding_id : N;
  jb_job_id : N;
  jb_template_id : N;
  jb_template_generation : N;
  jb_chain : option ChainState;
  jb_coinbase_prefix : bytes;
  jb_coinbase_suffix : bytes
}.

Record ContextState := MkContextState {
  cs_desired : option DesiredPair;
  cs_templates : gmap N TemplateDraft;
  cs_current_templates : gmap N N;
  cs_template_order : list N;
  cs_active_chain : option ChainState;
  cs_jobs : gmap N JobBinding;
  cs_current_jobs : gmap N N;
  cs_job_order : list N;
  cs_job_announcements : list (N * option N);
  cs_active_binding : option N;
  cs_pending_activation_bindings : gset N
}.

(** [ContextState::default] *)
Definition default_context : ContextState :=
  MkContextState None ∅ ∅ [] None ∅ ∅ [] [] None ∅.

(** Field assignments. *)
Definition set_desired v s := MkContextState v (cs_templates s) (cs_current_templates s)
  (cs_template_order s) (cs_active_chain s) (cs_jobs s) (cs_current_jobs s) (cs_job_order s)
  (cs_job_announcements s) (cs_active_binding s) (cs_pending_activation_bindings s).
Definition set_templates v s := MkContextState (cs_desired s) v (cs_current_templates s)
  (cs_template_order s) (cs_active_chain s) (cs_jobs s) (cs_current_jobs s) (cs_job_order s)
  (cs_job_announcements s) (cs_active_binding s) (cs_pending_activation_bindings s).
Definition set_current_templates v s := MkContextState (cs_desired s) (cs_templates s) v
  (cs_template_order s) (cs_active_chain s) (cs_jobs s) (cs_current_jobs s) (cs_job_order s)
  (cs_job_announcements s) (cs_active_binding s) (cs_pending_activation_bindings s).
Definition set_template_order v s := MkContextState (cs_desired s) (cs_templates s)
  (cs_current_templates s) v (cs_active_chain s) (cs_jobs s) (cs_current_jobs s)
  (cs_job_order s) (cs_job_announcements s) (cs_active_binding s)
  (cs_pending_activation_bindings s).
Definition set_active_chain v s := MkContextState (cs_desired s) (cs_templates s)
  (cs_current_templates s) (cs_template_order s) v (cs_jobs s) (cs_current_jobs s)
  (cs_job_order s) (cs_job_announcements s) (cs_active_binding s)
  (cs_pending_activation_bindings s).
Definition set_jobs v s := MkContextState (cs_desired s) (cs_templates s)
  (cs_current_templates s) (cs_template_order s) (cs_active_chain s) v (cs_current_jobs s)
  (cs_job_order s) (cs_job_announcements s) (cs_active_binding s)
  (cs_pending_activation_bindings s).
Definition set_current_jobs v s := MkContextState (cs_desired s) (cs_templates s)
  (cs_current_templates s) (cs_template_order s) (cs_active_chain s) (cs_jobs s) v
  (cs_job_order s) (cs_job_announcements s) (cs_active_binding s)
  (cs_pending_activation_bindings s).
Definition set_job_order v s := MkContextState (cs_desired s) (cs_templates s)
  (cs_current_templates s) (cs_template_order s) (cs_active_chain s) (cs_jobs s)
  (cs_current_jobs s) v (cs_job_announcements s) (cs_active_binding s)
  (cs_pending_activation_bindings s).
Definition set_job_announcements v s := MkContextState (cs_desired s) (cs_templates s)
  (cs_current_templates s) (cs_template_order s) (cs_active_chain s) (cs_jobs s)
  (cs_current_jobs s) (cs_job_order s) v (cs_active_binding s)
  (cs_pending_activation_bindings s).
Definition set_active_binding v s := MkContextState (cs_desired s) (cs_templates s)
  (cs_current_templates s) (cs_template_order s) (cs_active_chain s) (cs_jobs s)
  (cs_current_jobs s) (cs_job_order s) (cs_job_announcements s) v
  (cs_pending_activation_bindings s).
Definition set_pending_activation_bindings v s := MkContextState (cs_desired s)
  (cs_templates s) (cs_current_templates s) (cs_template_order s) (cs_active_chain s)
  (cs_jobs s) (cs_current_jobs s) (cs_job_order s) (cs_job_announcements s)
  (cs_active_binding s) v.

(** [map.get(key) == Some(&value)] and then [map.remove(key)]: drop an index
    entry that still points at [value]. *)
Definition remove_if_current (key value : N) (m : gmap N N) : gmap N N :=
  if decide (m !! key = Some value) then delete key m else m.

(** ** Templates *)

(** [invalidate_current_template] keeps the job pointers of other templates. *)
Definition job_of_other_template (s : ContextState) (template_id binding_id : N) : bool :=
  match cs_jobs s !! binding_id with
  | Some job => negb (jb_template_id job =? template_id)%N
  | None => false
  end.

Definition invalidate_current_template (s : ContextState) (template_id : N) : ContextState :=
  let s := set_current_templates (delete template_id (cs_current_templates s)) s in
  set_current_jobs
    (filter (λ entry, job_of_other_template s template_id entry.2 = true)
       (cs_current_jobs s)) s.

(** Does the job bound to [binding_id] belong to [generation]? *)
Definition binding_in_generation (s : ContextState) (generation binding_id : N) : bool :=
  match cs_jobs s !! binding_id with
  | Some job => (jb_template_generation job =? generation)%N
  | None => false
  end.

(** [generation_is_protected] *)
Definition generation_is_protected (s : ContextState) (generation : N) : bool :=
  match cs_active_binding s with
  | Some binding_id => binding_in_generation s generation binding_id
  | None => false
  end
  || existsb (binding_in_generation s generation)
       (elements (cs_pending_activation_bindings s)).

(** [jobs.values().any(|job| job.template_generation == generation)] *)
Definition generation_has_job (s : ContextState) (generation : N) : bool :=
  existsb (λ entry, (jb_template_generation entry.2 =? generation)%N)
    (map_to_list (cs_jobs s)).

(** Is a job of [generation] still waiting in the announcement queue? *)
Definition generation_is_announced (s : ContextState) (generation : N) : bool :=
  existsb (λ announcement,
    match announcement.2 with
    | Some binding_id => binding_in_generation s generation binding_id
    | None => false
    end) (cs_job_announcements s).

(** The bindings of a generation, and the removal of one of them. *)
Definition expired_bindings (s : ContextState) (generation : N) : list N :=
  (filter (λ entry, jb_template_generation entry.2 = generation)
     (map_to_list (cs_jobs s))).*1.

Definition remove_expired_job (s : ContextState) (binding_id : N) : ContextState :=
  match cs_jobs s !! binding_id with
  | Some job =>
      let s := set_jobs (delete binding_id (cs_jobs s)) s in
      set_current_jobs
        (remove_if_current (jb_job_id job) binding_id (cs_current_jobs s)) s
  | None => s
  end.

(** The draft leaves the queue, the map and, when it is current, the index. *)
Definition remove_draft (s : ContextState) (generation : N) : ContextState :=
  let s := set_template_order
    (retain (λ candidate, negb (candidate =? generation)%N) (cs_template_order s)) s in
  match cs_templates s !! generation with
  | Some template =>
      let s := set_templates (delete generation (cs_templates s)) s in
      set_current_templates
        (remove_if_current (td_template_id template) generation
           (cs_current_templates s)) s
  | None => s
  end.

(** The expired bindings leave the active slot, the pending set and the queue. *)
Definition unprotect_expired (s : ContextState) (expired : list N) : ContextState :=
  let s :=
    match cs_active_binding s with
    | Some binding_id =>
        if bool_decide (binding_id ∈ expired) then set_active_binding None s else s
    | None => s
    end in
  let s := set_pending_activation_bindings
    (filter (λ binding_id, binding_id ∉ expired) (cs_pending_activation_bindings s)) s in
  set_job_order
    (retain (λ binding_id, negb (bool_decide (binding_id ∈ expired))) (cs_job_order s)) s.

(** [remove_template_generation] *)
Definition remove_template_generation (s : ContextState) (generation : N) : ContextState :=
  let s := remove_draft s generation in
  let expired := expired_bindings s generation in
  unprotect_expired (fold_left remove_expired_job expired s) expired.

(** The candidate that [insert_template] expires next: the oldest generation
    without jobs, else the oldest one that is neither protected nor announced. *)
Definition expired_template_index (s : ContextState) (generation : N) : option nat :=
  match position (λ candidate, negb (candidate =? generation)%N
          && negb (generation_has_job s candidate)) (cs_template_order s) with
  | Some index => Some index
  | None =>
      position (λ candidate, negb (candidate =? generation)%N
          && negb (generation_is_protected s candidate)
          && negb (generation_is_announced s candidate)) (cs_template_order s)
  end.

(** The [while] loop of [insert_template].  Every round shortens the queue, so
    the length of the queue is enough fuel ([evict_templates_exit]). *)
Fixpoint evict_templates (fuel : nat) (s : ContextState) (generation : N)
    : ContextState * bool :=
  match fuel with
  | 0 => (s, true)
  | S fuel =>
      if MAX_TEMPLATES <? length (cs_template_order s) then
        match expired_template_index s generation with
        | Some index =>
            match cs_template_order s !! index with
            | Some expired =>
                let s := set_template_order
                  (delete index (cs_template_order s)) s in
                evict_templates fuel (remove_template_generation s expired) generation
            | None => (remove_template_generation s generation, false)
            end
        | None => (remove_template_generation s generation, false)
        end
      else (s, true)
  end.

(** [insert_template] *)
Definition insert_template (s : ContextState) (generation : N) (template : TemplateDraft)
    : ContextState * bool :=
  let s := set_templates (<[generation := template]> (cs_templates s)) s in
  let s := set_current_templates
    (<[td_template_id template := generation]> (cs_current_templates s)) s in
  let s := set_template_order (cs_template_order s ++ [generation]) s in
  evict_templates (length (cs_template_order s)) s generation.

(** ** Jobs *)

(** May [insert_job] evict this binding? *)
Definition job_is_evictable (s : ContextState) (candidate : N) : bool :=
  negb (bool_decide (Some candidate = cs_active_binding s))
  && negb (bool_decide (candidate ∈ cs_pending_activation_bindings s)).

(** The [while] loop of [insert_job] ([evict_jobs_exit]). *)
Fixpoint evict_jobs (fuel : nat) (s : ContextState) : ContextState :=
  match fuel with
  | 0 => s
  | S fuel =>
      if MAX_JOBS <? length (cs_job_order s) then
        match position (job_is_evictable s) (cs_job_order s) with
        | Some index =>
            match cs_job_order s !! index with
            | Some expired =>
                let s := set_job_order (delete index (cs_job_order s)) s in
                evict_jobs fuel (remove_expired_job s expired)
            | None => s
            end
        | None => s
        end
      else s
  end.

(** [insert_job] *)
Definition insert_job (s : ContextState) (job : JobBinding) : ContextState :=
  let binding_id := jb_binding_id job in
  let s := set_current_jobs (<[jb_job_id job := binding_id]> (cs_current_jobs s)) s in
  let s := set_jobs (<[binding_id := job]> (cs_jobs s)) s in
  let s := set_job_order (cs_job_order s ++ [binding_id]) s in
  evict_jobs (length (cs_job_order s)) s.

(** [next_id]: hand out the current value of a counter, [None] once it would
    overflow. *)
Definition next_id (counter : N) : option N * N :=
  match checked_add u64_max counter 1 with
  | Some next => ((if (counter =? 0)%N then None else Some counter), next)
  | None => (None, counter)
  end.

(** [create_job_binding]: the result and the binding counter afterwards. *)
Definition create_job_binding (next_binding_id : N) (s : ContextState)
    (job_id template_generation : N) (coinbase_prefix coinbase_suffix : bytes)
    : option N * ContextState * N :=
  let s := set_current_jobs (delete job_id (cs_current_jobs s)) s in
  match cs_templates s !! template_generation with
  | None => (None, s, next_binding_id)
  | Some template =>
      if negb (is_rsk_payload (dp_payload (td_desired template)))
      then (None, s, next_binding_id)
      else
        match next_id next_binding_id with
        | (None, next_binding_id) => (None, s, next_binding_id)
        | (Some binding_id, next_binding_id) =>
            let job := MkJobBinding binding_id job_id (td_template_id template)
              template_generation (td_chain template) coinbase_prefix coinbase_suffix in
            (Some binding_id, insert_job s job, next_binding_id)
        end
  end.

(** [announce_job] *)
Definition announce_job (s : ContextState) (job_id : N) (binding_id : option N)
    : ContextState :=
  set_job_announcements
    (push_bounded MAX_JOB_ANNOUNCEMENTS (cs_job_announcements s) (job_id, binding_id)) s.

(** ** Locked sections of the public operations *)

(** [MergeMining::clear_template_session] *)
Definition clear_template_session (s : ContextState) : ContextState :=
  set_pending_activation_bindings ∅
    (set_job_announcements []
       (set_current_jobs ∅ (set_active_chain None (set_current_templates ∅ s)))).

(** [MergeMining::record_transaction_count]: the count with its bounds, and the
    update of the draft (the first count wins). *)
Definition block_tx_count_of (transaction_count : N) : option N :=
  match checked_add usize_max transaction_count 1 with
  | Some count =>
      match try_from u32_max count with
      | Some count => if (count <=? i32_max)%N then Some count else None
      | None => None
      end
  | None => None
  end.

Definition record_block_tx_count (s : ContextState) (generation block_tx_count : N)
    : ContextState :=
  match cs_templates s !! generation with
  | Some template =>
      match td_block_tx_count template with
      | None =>
          set_templates
            (<[generation := MkTemplateDraft (td_template_id template) (td_desired template)
                 (td_merkle_path template) (Some block_tx_count) (td_chain template)]>
               (cs_templates s)) s
      | Some _ => s
      end
  | None => s
  end.

(** [MergeMining::record_chain_state] *)
Definition bind_chain (generation : N) (chain : ChainState) (job : JobBinding) : JobBinding :=
  if (jb_template_generation job =? generation)%N && bool_decide (jb_chain job = None)
  then MkJobBinding (jb_binding_id job) (jb_job_id job) (jb_template_id job)
         (jb_template_generation job) (Some chain) (jb_coinbase_prefix job)
         (jb_coinbase_suffix job)
  else job.

Definition template_with_chain (chain : ChainState) (template : TemplateDraft)
    : TemplateDraft :=
  MkTemplateDraft (td_template_id template) (td_desired template) (td_merkle_path template)
    (td_block_tx_count template) (Some chain).

Definition record_chain_state (s : ContextState) (template_id : N) (prev_hash : bytes)
    (n_bits : N) : ContextState :=
  let chain := MkChainState prev_hash n_bits in
  let s := set_active_chain (Some chain) s in
  match cs_current_templates s !! template_id with
  | Some generation =>
      let s := set_templates
        (alter (template_with_chain chain) generation (cs_templates s)) s in
      set_jobs (bind_chain generation chain <$> cs_jobs s) s
  | None => s
  end.

(** [MergeMining::announce_unbound_job] *)
Definition announce_unbound_job (s : ContextState) (job_id : N) : ContextState :=
  announce_job (set_current_jobs (delete job_id (cs_current_jobs s)) s) job_id None.

(** [MergeMining::claim_job_binding_]: [None] when no announcement matches, the
    claimed binding and the state otherwise. *)
Definition claim_job_binding (s : ContextState) (job_id : N) (mark_pending : bool)
    : option (option N * ContextState) :=
  match position (λ announcement, (announcement.1 =? job_id)%N) (cs_job_announcements s) with
  | None => None
  | Some index =>
      match cs_job_announcements s !! index with
      | None => None
      | Some (_, binding_id) =>
          let s := set_job_announcements (drop (S index) (cs_job_announcements s)) s in
          let s :=
            match binding_id with
            | Some b =>
                if mark_pending && bool_decide (is_Some (cs_jobs s !! b))
                then set_pending_activation_bindings
                       ({[b]} ∪ cs_pending_activation_bindings s) s
                else s
            | None => s
            end in
          Some (binding_id, s)
      end
  end.

(** [MergeMining::set_active_job_binding] *)
Definition set_active_job_binding (s : ContextState) (binding_id : option N) : ContextState :=
  let s :=
    match binding_id with
    | Some b => set_pending_activation_bindings
                  (cs_pending_activation_bindings s ∖ {[b]}) s
    | None => s
    end in
  let retained_binding :=
    match binding_id with
    | Some b => if bool_decide (is_Some (cs_jobs s !! b)) then Some b else None
    | None => None
    end in
  set_active_binding retained_binding s.

(** [MergeMining::clear_pending_job_binding] *)
Definition clear_pending_job_binding (s : ContextState) (binding_id : N) : ContextState :=
  set_pending_activation_bindings (cs_pending_activation_bindings s ∖ {[binding_id]}) s.

(** [MergeMining::template_generation] *)
Definition template_generation (s : ContextState) (template_id : N) : option N :=
  cs_current_templates s !! template_id.

#[export] Instance chain_state_eq_dec : EqDecision ChainState.
Proof. solve_decision. Defined.
