(* ===== verification/MergeInvariant.v ===== *)
(** * Invariant of the merge-mining context

    The well-formedness of [ContextState], its preservation by every locked
    section of [src/src/merge_mining.rs], and the step relation whose steps are
    those sections: any interleaving of the public operations is a sequence of
    these steps. *)

From S2P Require Import Prelude Str Bitcoin RskCommitment MergeState.

(** ** Well-formedness *)

(** The templates: the queue lists exactly the drafts, the index points at
    drafts of its template. *)
Record templates_wf (s : ContextState) : Prop := {
  wf_order_nodup : NoDup (cs_template_order s);
  wf_order_dom g : g ∈ cs_template_order s ↔ is_Some (cs_templates s !! g);
  wf_current_templates tid g :
    cs_current_templates s !! tid = Some g →
    ∃ t, cs_templates s !! g = Some t ∧ td_template_id t = tid
}.

(** The jobs: the queue lists exactly the bindings, every binding belongs to a
    live RSK draft of its template, the index points at bindings of its job, and
    the protected bindings are live. *)
Record jobs_wf (s : ContextState) : Prop := {
  wf_job_order_nodup : NoDup (cs_job_order s);
  wf_job_order_dom b : b ∈ cs_job_order s ↔ is_Some (cs_jobs s !! b);
  wf_job_binding b j : cs_jobs s !! b = Some j → jb_binding_id j = b;
  wf_job_template b j :
    cs_jobs s !! b = Some j →
    ∃ t, cs_templates s !! jb_template_generation j = Some t
       ∧ td_template_id t = jb_template_id j
       ∧ is_rsk_payload (dp_payload (td_desired t)) = true;
  wf_current_jobs jid b :
    cs_current_jobs s !! jid = Some b →
    ∃ j, cs_jobs s !! b = Some j ∧ jb_job_id j = jid;
  wf_active b : cs_active_binding s = Some b → is_Some (cs_jobs s !! b);
  wf_pending b : b ∈ cs_pending_activation_bindings s → is_Some (cs_jobs s !! b)
}.

(** The queues are bounded. *)
Record bounded (s : ContextState) : Prop := {
  bd_templates : length (cs_template_order s) ≤ MAX_TEMPLATES;
  bd_jobs : length (cs_job_order s) ≤ MAX_JOBS;
  bd_announcements : length (cs_job_announcements s) ≤ MAX_JOB_ANNOUNCEMENTS
}.

Record ctx_wf (s : ContextState) : Prop := {
  wf_templates : templates_wf s;
  wf_jobs : jobs_wf s;
  wf_bounded : bounded s
}.

(** A binding that the client must keep: active, or claimed for activation. *)
Definition protected_binding (s : ContextState) (b : N) : Prop :=
  cs_active_binding s = Some b ∨ b ∈ cs_pending_activation_bindings s.

(** ** Index maps *)
Lemma remove_if_current_Some k v m i w :
  remove_if_current k v m !! i = Some w ↔ m !! i = Some w ∧ (i = k → w ≠ v).
Proof.
  unfold remove_if_current. case_decide as H.
  - rewrite lookup_delete_Some. naive_solver.
  - naive_solver.
Qed.

Lemma elem_of_expired_bindings s g b :
  b ∈ expired_bindings s g ↔
    ∃ j, cs_jobs s !! b = Some j ∧ jb_template_generation j = g.
Proof.
  unfold expired_bindings. rewrite list_elem_of_fmap. split.
  - intros ([b' j] & -> & Hin). apply list_elem_of_filter in Hin as [Hg Hin].
    apply elem_of_map_to_list in Hin. eauto.
  - intros (j & Hj & Hg). exists (b, j). split; [done|].
    apply list_elem_of_filter. split; [done|]. by apply elem_of_map_to_list.
Qed.

(** ** Removing jobs *)

(** [remove_expired_job] touches the job maps only. *)
Lemma remove_expired_job_frame s b :
  let s' := remove_expired_job s b in
  cs_desired s' = cs_desired s ∧ cs_templates s' = cs_templates s ∧
  cs_current_templates s' = cs_current_templates s ∧
  cs_template_order s' = cs_template_order s ∧ cs_active_chain s' = cs_active_chain s ∧
  cs_job_order s' = cs_job_order s ∧ cs_job_announcements s' = cs_job_announcements s ∧
  cs_active_binding s' = cs_active_binding s ∧
  cs_pending_activation_bindings s' = cs_pending_activation_bindings s.
Proof. unfold remove_expired_job. by destruct (cs_jobs s !! b). Qed.

Lemma remove_expired_jobs_frame l s :
  let s' := fold_left remove_expired_job l s in
  cs_desired s' = cs_desired s ∧ cs_templates s' = cs_templates s ∧
  cs_current_templates s' = cs_current_templates s ∧
  cs_template_order s' = cs_template_order s ∧ cs_active_chain s' = cs_active_chain s ∧
  cs_job_order s' = cs_job_order s ∧ cs_job_announcements s' = cs_job_announcements s ∧
  cs_active_binding s' = cs_active_binding s ∧
  cs_pending_activation_bindings s' = cs_pending_activation_bindings s.
Proof.
  revert s. induction l as [|b l IH]; intros s; [done|]. simpl.
  specialize (IH (remove_expired_job s b)). simpl in IH.
  pose proof (remove_expired_job_frame s b) as H. simpl in H.
  destruct_and!. repeat split; congruence.
Qed.

Lemma remove_expired_job_jobs s b :
  cs_jobs (remove_expired_job s b) = delete b (cs_jobs s).
Proof.
  unfold remove_expired_job. destruct (cs_jobs s !! b) eqn:E; simpl; [done|].
  by rewrite delete_id.
Qed.

Lemma remove_expired_jobs_lookup l s b j :
  cs_jobs (fold_left remove_expired_job l s) !! b = Some j ↔
    cs_jobs s !! b = Some j ∧ b ∉ l.
Proof.
  revert s. induction l as [|c l IH]; intros s; simpl.
  - split; [|naive_solver]. intros H. split; [done|]. apply not_elem_of_nil.
  - rewrite IH, remove_expired_job_jobs, lookup_delete_Some, not_elem_of_cons. naive_solver.
Qed.

(** The job index stays accurate. *)
Definition current_jobs_wf (s : ContextState) : Prop :=
  ∀ jid b, cs_current_jobs s !! jid = Some b →
    ∃ j, cs_jobs s !! b = Some j ∧ jb_job_id j = jid.

Lemma remove_expired_job_current s b :
  current_jobs_wf s → current_jobs_wf (remove_expired_job s b).
Proof.
  intros Hwf jid c. unfold remove_expired_job.
  destruct (cs_jobs s !! b) as [j|] eqn:Hj; simpl; [|by apply Hwf].
  intros [Hc Hne]%remove_if_current_Some.
  destruct (Hwf _ _ Hc) as (j' & Hj' & <-). exists j'. split; [|done].
  destruct (decide (c = b)) as [->|].
  - simplify_eq. by destruct (Hne eq_refl).
  - by rewrite lookup_delete_ne.
Qed.

Lemma remove_expired_jobs_current l s :
  current_jobs_wf s → current_jobs_wf (fold_left remove_expired_job l s).
Proof.
  revert s. induction l as [|b l IH]; intros s Hs; [done|]. simpl.
  by apply IH, remove_expired_job_current.
Qed.

(** ** Removing a generation *)
Section remove_generation.
Variables (s : ContextState) (g : N).
Let s' := remove_template_generation s g.

Lemma remove_draft_frame :
  let s1 := remove_draft s g in
  cs_desired s1 = cs_desired s ∧ cs_active_chain s1 = cs_active_chain s ∧
  cs_jobs s1 = cs_jobs s ∧ cs_current_jobs s1 = cs_current_jobs s ∧
  cs_job_order s1 = cs_job_order s ∧
  cs_job_announcements s1 = cs_job_announcements s ∧
  cs_active_binding s1 = cs_active_binding s ∧
  cs_pending_activation_bindings s1 = cs_pending_activation_bindings s ∧
  cs_templates s1 = delete g (cs_templates s) ∧
  cs_template_order s1 = retain (λ c, negb (c =? g)%N) (cs_template_order s).
Proof.
  unfold remove_draft. simpl.
  destruct (cs_templates s !! g) eqn:E; simpl; [by auto 20|].
  rewrite delete_id by done. by auto 20.
Qed.

Lemma expired_after_remove_draft :
  expired_bindings (remove_draft s g) g = expired_bindings s g.
Proof. unfold expired_bindings. by destruct remove_draft_frame as (_ & _ & -> & _). Qed.

(** What is left of each field. *)
Lemma remove_generation_fields :
  cs_desired s' = cs_desired s ∧ cs_active_chain s' = cs_active_chain s ∧
  cs_templates s' = delete g (cs_templates s) ∧
  cs_template_order s' = retain (λ c, negb (c =? g)%N) (cs_template_order s) ∧
  cs_job_announcements s' = cs_job_announcements s ∧
  cs_job_order s' =
    retain (λ b, negb (bool_decide (b ∈ expired_bindings s g))) (cs_job_order s).
Proof.
  unfold s', remove_template_generation. rewrite expired_after_remove_draft.
  set (l := expired_bindings s g). set (s1 := remove_draft s g).
  pose proof (remove_expired_jobs_frame l s1) as Hf. simpl in Hf.
  pose proof remove_draft_frame as Hd. simpl in Hd. fold s1 in Hd.
  destruct_and!. unfold unprotect_expired.
  destruct (cs_active_binding (fold_left _ _ _)); [case_bool_decide|];
    simpl; repeat split; congruence.
Qed.

Lemma remove_generation_jobs b j :
  cs_jobs s' !! b = Some j ↔
    cs_jobs s !! b = Some j ∧ jb_template_generation j ≠ g.
Proof.
  assert (cs_jobs s' = cs_jobs (fold_left remove_expired_job (expired_bindings s g)
    (remove_draft s g))) as ->.
  { unfold s', remove_template_generation, unprotect_expired.
    rewrite expired_after_remove_draft.
    destruct (cs_active_binding _); [case_bool_decide|]; done. }
  rewrite remove_expired_jobs_lookup, elem_of_expired_bindings.
  destruct remove_draft_frame as (_ & _ & -> & _). naive_solver.
Qed.

Lemma remove_generation_current_jobs :
  current_jobs_wf s → current_jobs_wf s'.
Proof.
  intros Hwf.
  assert (current_jobs_wf (fold_left remove_expired_job (expired_bindings s g)
    (remove_draft s g))) as H.
  { apply remove_expired_jobs_current. intros jid b. unfold current_jobs_wf in Hwf.
    destruct remove_draft_frame as (_ & _ & -> & -> & _). apply Hwf. }
  intros jid b. unfold s', remove_template_generation, unprotect_expired.
  rewrite expired_after_remove_draft.
  destruct (cs_active_binding _); [case_bool_decide|]; apply H.
Qed.

Lemma remove_generation_protected :
  (∀ b, cs_active_binding s' = Some b ↔
     cs_active_binding s = Some b ∧ b ∉ expired_bindings s g) ∧
  (∀ b, b ∈ cs_pending_activation_bindings s' ↔
     b ∈ cs_pending_activation_bindings s ∧ b ∉ expired_bindings s g).
Proof.
  unfold s', remove_template_generation. rewrite expired_after_remove_draft.
  set (l := expired_bindings s g).
  destruct (remove_expired_jobs_frame l (remove_draft s g))
    as (_ & _ & _ & _ & _ & _ & _ & Hact & Hpend).
  destruct remove_draft_frame as (_ & _ & _ & _ & _ & _ & Hact1 & Hpend1 & _).
  rewrite Hact1 in Hact. rewrite Hpend1 in Hpend.
  unfold unprotect_expired. rewrite Hact.
  destruct (cs_active_binding s) as [a|]; [case_bool_decide|];
    (split; intros b; simpl; [try rewrite Hact; naive_solver|]);
    rewrite elem_of_filter, Hpend; naive_solver.
Qed.

Lemma remove_generation_current_templates tid g' :
  cs_current_templates s' !! tid = Some g' →
  cs_current_templates s !! tid = Some g' ∧
  (∀ t, cs_templates s !! g = Some t → tid = td_template_id t → g' ≠ g).
Proof.
  assert (cs_current_templates s' = cs_current_templates (remove_draft s g)) as ->.
  { unfold s', remove_template_generation, unprotect_expired.
    rewrite expired_after_remove_draft.
    destruct (remove_expired_jobs_frame (expired_bindings s g) (remove_draft s g))
      as (_ & _ & <- & _).
    destruct (cs_active_binding _); [case_bool_decide|]; done. }
  unfold remove_draft. simpl. destruct (cs_templates s !! g) as [t|] eqn:E; simpl.
  - intros [? ?]%remove_if_current_Some. naive_solver.
  - naive_solver.
Qed.
End remove_generation.

(** Removing a generation keeps the context well formed. *)
Lemma remove_generation_templates_wf s g :
  templates_wf s → templates_wf (remove_template_generation s g).
Proof.
  intros [Hnd Hdom Hcur].
  destruct (remove_generation_fields s g) as (_ & _ & Ht & Ho & _).
  split.
  - rewrite Ho. by apply NoDup_retain.
  - intros g'. rewrite Ho, Ht, elem_of_retain, negb_true_iff, N.eqb_neq, Hdom.
    destruct (decide (g' = g)) as [->|].
    + rewrite lookup_delete_eq. unfold is_Some. naive_solver.
    + rewrite lookup_delete_ne by done. naive_solver.
  - intros tid g' [Hc Hne]%remove_generation_current_templates.
    destruct (Hcur _ _ Hc) as (t & Hg & Htid). exists t. split; [|done].
    rewrite Ht, lookup_delete_Some. split; [|done]. intros <-. by apply (Hne t).
Qed.

Lemma remove_generation_jobs_wf s g :
  jobs_wf s → jobs_wf (remove_template_generation s g).
Proof.
  intros Hj.
  destruct (remove_generation_fields s g) as (_ & _ & Ht & _ & _ & Ho).
  destruct (remove_generation_protected s g) as [Ha Hp].
  assert (∀ b, is_Some (cs_jobs s !! b) → b ∉ expired_bindings s g →
    is_Some (cs_jobs (remove_template_generation s g) !! b)) as Hlive.
  { intros b [j Hb] Hne. exists j. apply remove_generation_jobs. split; [done|].
    intros <-. apply Hne, elem_of_expired_bindings. eauto. }
  split.
  - rewrite Ho. apply NoDup_retain, Hj.
  - intros b. rewrite Ho, elem_of_retain, negb_true_iff, bool_decide_eq_false,
      (wf_job_order_dom _ Hj). split.
    + intros [Hne Hb]. by apply Hlive.
    + intros [j Hb]. apply remove_generation_jobs in Hb as [Hb Hg].
      split; [|by exists j]. rewrite elem_of_expired_bindings. naive_solver.
  - intros b j [Hb _]%remove_generation_jobs. by apply (wf_job_binding _ Hj).
  - intros b j [Hb Hg]%remove_generation_jobs.
    destruct (wf_job_template _ Hj _ _ Hb) as (t & Htg & ?). exists t.
    rewrite Ht, lookup_delete_ne by done. done.
  - apply remove_generation_current_jobs. exact (wf_current_jobs _ Hj).
  - intros b [Hb Hne]%Ha. apply Hlive; [by apply (wf_active _ Hj)|done].
  - intros b [Hb Hne]%Hp. apply Hlive; [by apply (wf_pending _ Hj)|done].
Qed.

(** ** Inserting a template *)

(** The boolean tests of the code, as propositions. *)
Lemma binding_in_generation_true s g b :
  binding_in_generation s g b = true ↔
    ∃ j, cs_jobs s !! b = Some j ∧ jb_template_generation j = g.
Proof.
  unfold binding_in_generation. destruct (cs_jobs s !! b) as [j|]; [|naive_solver].
  rewrite N.eqb_eq. naive_solver.
Qed.

Lemma existsb_true {A} (f : A → bool) l : existsb f l = true ↔ ∃ x, x ∈ l ∧ f x = true.
Proof.
  rewrite existsb_exists. setoid_rewrite list_elem_of_In. done.
Qed.

Lemma generation_is_protected_true s g :
  generation_is_protected s g = true ↔
    ∃ b j, protected_binding s b ∧ cs_jobs s !! b = Some j ∧ jb_template_generation j = g.
Proof.
  unfold generation_is_protected, protected_binding. rewrite orb_true_iff, existsb_true.
  setoid_rewrite elem_of_elements. setoid_rewrite binding_in_generation_true.
  destruct (cs_active_binding s) as [a|].
  - rewrite binding_in_generation_true. naive_solver.
  - naive_solver.
Qed.

Lemma generation_has_job_true s g :
  generation_has_job s g = true ↔
    ∃ b j, cs_jobs s !! b = Some j ∧ jb_template_generation j = g.
Proof.
  unfold generation_has_job. rewrite existsb_true. split.
  - intros ([b j] & Hin%elem_of_map_to_list & Hg%N.eqb_eq). eauto.
  - intros (b & j & Hj & Hg). exists (b, j). split; [by apply elem_of_map_to_list|].
    by apply N.eqb_eq.
Qed.

Lemma generation_is_announced_true s g :
  generation_is_announced s g = true ↔
    ∃ jid b j, (jid, Some b) ∈ cs_job_announcements s ∧
      cs_jobs s !! b = Some j ∧ jb_template_generation j = g.
Proof.
  unfold generation_is_announced. rewrite existsb_true. split.
  - intros ([jid [b|]] & Hin & Hb); simpl in *; [|done].
    apply binding_in_generation_true in Hb. naive_solver.
  - intros (jid & b & j & Hin & Hj). exists (jid, Some b). split; [done|].
    simpl. apply binding_in_generation_true. eauto.
Qed.

(** What the loop knows about the generation it expires. *)
Definition expirable (s : ContextState) (generation expired : N) : Prop :=
  expired ∈ cs_template_order s ∧ expired ≠ generation ∧
  (generation_has_job s expired = false ∨
   (generation_is_protected s expired = false ∧
    generation_is_announced s expired = false)).

Lemma expired_template_index_Some s g i :
  expired_template_index s g = Some i →
  ∃ e, cs_template_order s !! i = Some e ∧ expirable s g e.
Proof.
  unfold expired_template_index, expirable.
  destruct (position _ _) as [i'|] eqn:E1; [intros [= ->]|intros E2].
  - apply position_Some in E1 as (e & He & Hp & _). exists e.
    split; [done|]. bool_to_prop. apply list_elem_of_lookup_2 in He. auto.
  - apply position_Some in E2 as (e & He & Hp & _). exists e.
    split; [done|]. bool_to_prop. apply list_elem_of_lookup_2 in He. auto 7.
Qed.

(** Taking the expired generation out of the queue first makes no difference. *)
Lemma retain_delete (l : list N) i e :
  l !! i = Some e →
  retain (λ c, negb (c =? e)%N) (delete i l) = retain (λ c, negb (c =? e)%N) l.
Proof.
  intros Hi. rewrite <- (take_drop_middle l i e Hi) at 2.
  rewrite delete_take_drop. unfold retain.
  rewrite !filter_app, filter_cons_False; [done|].
  rewrite N.eqb_refl. simpl. tauto.
Qed.

Lemma remove_generation_dequeued s i e :
  cs_template_order s !! i = Some e →
  remove_template_generation (set_template_order (delete i (cs_template_order s)) s) e
  = remove_template_generation s e.
Proof.
  intros Hi. unfold remove_template_generation.
  assert (remove_draft (set_template_order (delete i (cs_template_order s)) s) e
    = remove_draft s e) as ->; [|done].
  unfold remove_draft. simpl. rewrite retain_delete by done.
  by destruct (cs_templates s !! e).
Qed.

(** Induction over the loop of [insert_template]. *)
Lemma evict_templates_ind g (P : ContextState → Prop) :
  (∀ s e, P s → expirable s g e → P (remove_template_generation s e)) →
  (∀ s, P s → P (remove_template_generation s g)) →
  ∀ fuel s, P s → P (evict_templates fuel s g).1.
Proof.
  intros Hstep Hfail. induction fuel as [|fuel IH]; intros s Hs; [done|]. simpl.
  destruct (_ <? _); [|done].
  destruct (expired_template_index s g) as [i|] eqn:Ei; [|by apply Hfail].
  apply expired_template_index_Some in Ei as (e & He & Hexp). rewrite He.
  rewrite remove_generation_dequeued by done. auto.
Qed.

Lemma remove_generation_shorter s e :
  e ∈ cs_template_order s →
  length (cs_template_order (remove_template_generation s e))
  < length (cs_template_order s).
Proof.
  intros He. destruct (remove_generation_fields s e) as (_ & _ & _ & -> & _).
  apply (length_filter_lt _ _ e); [done|].
  rewrite N.eqb_refl. simpl. tauto.
Qed.

(** With the length of the queue as fuel, the loop ends because the queue fits,
    or because nothing can be expired. *)
Lemma evict_templates_exit fuel s g :
  length (cs_template_order s) ≤ fuel →
  (evict_templates fuel s g).2 = true →
  length (cs_template_order (evict_templates fuel s g).1) ≤ MAX_TEMPLATES.
Proof.
  revert s. induction fuel as [|fuel IH]; intros s Hlen; simpl; [lia|].
  destruct (Nat.ltb_spec MAX_TEMPLATES (length (cs_template_order s))); [|done].
  destruct (expired_template_index s g) as [i|] eqn:Ei; [|done].
  apply expired_template_index_Some in Ei as (e & He & Hexp). rewrite He.
  rewrite remove_generation_dequeued by done. apply IH.
  pose proof (remove_generation_shorter s e (list_elem_of_lookup_2 _ _ _ He)). lia.
Qed.

Lemma evict_templates_done fuel s g :
  length (cs_template_order s) ≤ MAX_TEMPLATES → evict_templates fuel s g = (s, true).
Proof.
  intros H. destruct fuel as [|fuel]; [done|]. simpl.
  destruct (Nat.ltb_spec MAX_TEMPLATES (length (cs_template_order s))); [lia|done].
Qed.

Lemma evict_templates_length fuel s g :
  g ∈ cs_template_order s → length (cs_template_order s) ≤ S fuel →
  length (cs_template_order s) ≤ S MAX_TEMPLATES →
  length (cs_template_order (evict_templates (S fuel) s g).1) ≤ MAX_TEMPLATES.
Proof.
  intros Hg _ Hmax. simpl.
  destruct (Nat.ltb_spec MAX_TEMPLATES (length (cs_template_order s))); [|simpl; lia].
  destruct (expired_template_index s g) as [i|] eqn:Ei.
  - apply expired_template_index_Some in Ei as (e & He & Hexp). rewrite He.
    rewrite remove_generation_dequeued by done.
    pose proof (remove_generation_shorter s e (list_elem_of_lookup_2 _ _ _ He)).
    rewrite evict_templates_done by lia. cbn [fst]. lia.
  - pose proof (remove_generation_shorter s g Hg). cbn [fst]. lia.
Qed.

#[local] Arguments remove_template_generation : simpl never.
#[local] Arguments evict_templates : simpl never.

(** The state [insert_template] starts its loop with. *)
Definition enqueue_template (s : ContextState) (g : N) (t : TemplateDraft) : ContextState :=
  set_template_order (cs_template_order s ++ [g])
    (set_current_templates (<[td_template_id t := g]> (cs_current_templates s))
       (set_templates (<[g := t]> (cs_templates s)) s)).

Lemma insert_template_unfold s g t :
  insert_template s g t =
    evict_templates (S (length (cs_template_order s))) (enqueue_template s g t) g.
Proof.
  unfold insert_template. simpl. rewrite length_app. simpl.
  by rewrite Nat.add_comm.
Qed.

Lemma enqueue_template_templates_wf s g t :
  templates_wf s → cs_templates s !! g = None → templates_wf (enqueue_template s g t).
Proof.
  intros [Hnd Hdom Hcur] Hg. split; simpl.
  - apply NoDup_app. split; [done|]. split; [|apply NoDup_singleton].
    intros x Hx ->%list_elem_of_singleton. apply Hdom in Hx. rewrite Hg in Hx.
    by apply is_Some_None in Hx.
  - intros g'. rewrite elem_of_app, list_elem_of_singleton, Hdom.
    destruct (decide (g' = g)) as [->|].
    + rewrite lookup_insert_eq. split; [eauto|by right].
    + rewrite lookup_insert_ne by done. naive_solver.
  - intros tid g'. destruct (decide (tid = td_template_id t)) as [->|].
    + rewrite lookup_insert_eq. intros [= <-]. exists t.
      by rewrite lookup_insert_eq.
    + rewrite lookup_insert_ne by done. intros Hc.
      destruct (Hcur _ _ Hc) as (t' & Ht' & ?). exists t'. split; [|done].
      rewrite lookup_insert_ne; [done|]. congruence.
Qed.

Lemma enqueue_template_jobs_wf s g t :
  jobs_wf s → cs_templates s !! g = None → jobs_wf (enqueue_template s g t).
Proof.
  intros Hj Hg. split; simpl.
  - exact (wf_job_order_nodup _ Hj).
  - exact (wf_job_order_dom _ Hj).
  - exact (wf_job_binding _ Hj).
  - intros b j Hb. destruct (wf_job_template _ Hj _ _ Hb) as (t' & Ht' & ?).
    exists t'. rewrite lookup_insert_ne by congruence. done.
  - exact (wf_current_jobs _ Hj).
  - exact (wf_active _ Hj).
  - exact (wf_pending _ Hj).
Qed.

Lemma insert_template_wf s g t :
  ctx_wf s → cs_templates s !! g = None → ctx_wf (insert_template s g t).1.
Proof.
  intros [Ht Hj [Hbt Hbj Hba]] Hg. rewrite insert_template_unfold.
  set (P s' := (templates_wf s' ∧ jobs_wf s') ∧
    length (cs_job_order s') ≤ MAX_JOBS ∧
    length (cs_job_announcements s') ≤ MAX_JOB_ANNOUNCEMENTS).
  assert (∀ s e, P s → P (remove_template_generation s e)) as Hrm.
  { intros s1 e ((?&?)&?&?). destruct (remove_generation_fields s1 e) as (_&_&_&_&Ha&Ho).
    split; [split; [by apply remove_generation_templates_wf|by apply remove_generation_jobs_wf]|].
    rewrite Ha, Ho. split; [|done]. etrans; [apply length_retain|done]. }
  set (s0 := enqueue_template s g t).
  assert (P (evict_templates (S (length (cs_template_order s))) s0 g).1)
    as ((?&?)&?&?).
  { apply evict_templates_ind; [auto|auto|].
    split; [split; [by apply enqueue_template_templates_wf|by apply enqueue_template_jobs_wf]|].
    done. }
  split; [done|done|]. split; [|done|done].
  apply evict_templates_length; unfold s0; simpl.
  - apply elem_of_app. right. by apply list_elem_of_singleton.
  - rewrite length_app. simpl. lia.
  - rewrite length_app. simpl. lia.
Qed.

(** ** Inserting a job *)

Lemma remove_expired_job_jobs_wf s i e :
  jobs_wf s → cs_job_order s !! i = Some e → ¬ protected_binding s e →
  jobs_wf (remove_expired_job (set_job_order (delete i (cs_job_order s)) s) e).
Proof.
  intros Hj Hi Hprot. set (s1 := set_job_order _ s).
  pose proof (remove_expired_job_frame s1 e) as Hf. simpl in Hf.
  destruct Hf as (_ & Ht & _ & _ & _ & Ho & _ & Ha & Hp).
  pose proof (remove_expired_job_jobs s1 e) as Hjobs.
  assert (Ho' : cs_job_order s = take i (cs_job_order s) ++ e :: drop (S i) (cs_job_order s))
    by (symmetry; by apply take_drop_middle).
  pose proof (wf_job_order_nodup _ Hj) as Hnd. rewrite Ho' in Hnd.
  apply NoDup_app in Hnd as (Hnd1 & Hdisj & Hnd2). apply NoDup_cons in Hnd2 as [Hne Hnd2].
  assert (∀ b, is_Some (cs_jobs s !! b) → b ≠ e →
    is_Some (cs_jobs (remove_expired_job s1 e) !! b)) as Hlive.
  { intros b ??. by rewrite Hjobs, lookup_delete_ne. }
  split.
  - rewrite Ho. simpl. rewrite delete_take_drop. apply NoDup_app.
    split; [done|]. split; [|done]. intros x Hx ?. apply (Hdisj x Hx). by right.
  - intros b. rewrite Ho, Hjobs. simpl. rewrite delete_take_drop, elem_of_app.
    pose proof (wf_job_order_dom _ Hj b) as Hd.
    rewrite Ho', elem_of_app, elem_of_cons in Hd. destruct (decide (b = e)) as [->|].
    + rewrite lookup_delete_eq. split; [|by intros ?%is_Some_None].
      intros [?|?]; [|done]. exfalso. apply (Hdisj e); [done|left].
    + rewrite lookup_delete_ne by done. simpl. naive_solver.
  - intros b j. rewrite Hjobs, lookup_delete_Some. intros [_ Hb].
    by apply (wf_job_binding _ Hj).
  - intros b j. rewrite Hjobs, lookup_delete_Some, Ht. intros [_ Hb].
    by apply (wf_job_template _ Hj b).
  - apply remove_expired_job_current. exact (wf_current_jobs _ Hj).
  - intros b Hb. rewrite Ha in Hb. apply Hlive; [by apply (wf_active _ Hj)|].
    intros ->. apply Hprot. by left.
  - intros b Hb. rewrite Hp in Hb. apply Hlive; [by apply (wf_pending _ Hj)|].
    intros ->. apply Hprot. by right.
Qed.

Lemma job_is_evictable_true s e : job_is_evictable s e = true ↔ ¬ protected_binding s e.
Proof.
  unfold job_is_evictable, protected_binding.
  rewrite andb_true_iff, !negb_true_iff, !bool_decide_eq_false. naive_solver.
Qed.

(** Induction over the loop of [insert_job]. *)
Lemma evict_jobs_ind (P : ContextState → Prop) :
  (∀ s i e, P s → cs_job_order s !! i = Some e → ¬ protected_binding s e →
     P (remove_expired_job (set_job_order (delete i (cs_job_order s)) s) e)) →
  ∀ fuel s, P s → P (evict_jobs fuel s).
Proof.
  intros Hstep. induction fuel as [|fuel IH]; intros s Hs; [done|]. simpl.
  destruct (_ <? _); [|done].
  destruct (position _ _) as [i|] eqn:Ei; [|done].
  apply position_Some in Ei as (e & He & Hev%job_is_evictable_true & _). rewrite He. auto.
Qed.

(** With the length of the queue as fuel, the loop ends because the queue fits,
    or because every binding is protected. *)
Lemma evict_jobs_exit fuel s :
  length (cs_job_order s) ≤ fuel →
  length (cs_job_order (evict_jobs fuel s)) ≤ MAX_JOBS ∨
  (∀ b, b ∈ cs_job_order (evict_jobs fuel s) → protected_binding (evict_jobs fuel s) b).
Proof.
  revert s. induction fuel as [|fuel IH]; intros s Hlen; simpl; [left; lia|].
  destruct (Nat.ltb_spec MAX_JOBS (length (cs_job_order s))); [|by left].
  destruct (position _ _) as [i|] eqn:Ei.
  - apply position_Some in Ei as (e & He & _). rewrite He. apply IH.
    destruct (remove_expired_job_frame (set_job_order (delete i (cs_job_order s)) s) e)
      as (_ & _ & _ & _ & _ & -> & _). simpl.
    rewrite length_delete by eauto. lia.
  - right. intros b Hb. rewrite position_None in Ei. apply Ei in Hb.
    destruct (decide (protected_binding s b)) as [|Hn]; [done|].
    apply job_is_evictable_true in Hn. congruence.
Qed.

Lemma evict_jobs_done fuel s :
  length (cs_job_order s) ≤ MAX_JOBS → evict_jobs fuel s = s.
Proof.
  intros H. destruct fuel as [|fuel]; [done|]. simpl.
  destruct (Nat.ltb_spec MAX_JOBS (length (cs_job_order s))); [lia|done].
Qed.

#[local] Arguments remove_expired_job : simpl never.

Lemma evict_jobs_length fuel s b :
  b ∈ cs_job_order s → ¬ protected_binding s b →
  length (cs_job_order s) ≤ S MAX_JOBS →
  length (cs_job_order (evict_jobs (S fuel) s)) ≤ MAX_JOBS.
Proof.
  intros Hb Hnp Hmax. simpl.
  destruct (Nat.ltb_spec MAX_JOBS (length (cs_job_order s))); [|done].
  destruct (position _ _) as [i|] eqn:Ei.
  - apply position_Some in Ei as (e & He & _). rewrite He.
    destruct (remove_expired_job_frame (set_job_order (delete i (cs_job_order s)) s) e)
      as (_ & _ & _ & _ & _ & Ho & _).
    assert (length (cs_job_order (remove_expired_job
      (set_job_order (delete i (cs_job_order s)) s) e)) ≤ MAX_JOBS) as Hle.
    { rewrite Ho. cbn [cs_job_order set_job_order].
      rewrite length_delete by eauto. lia. }
    by rewrite evict_jobs_done.
  - rewrite position_None in Ei. apply Ei in Hb.
    apply job_is_evictable_true in Hnp. congruence.
Qed.

#[local] Arguments evict_jobs : simpl never.

(** The state [insert_job] starts its loop with. *)
Definition enqueue_job (s : ContextState) (job : JobBinding) : ContextState :=
  set_job_order (cs_job_order s ++ [jb_binding_id job])
    (set_jobs (<[jb_binding_id job := job]> (cs_jobs s))
       (set_current_jobs (<[jb_job_id job := jb_binding_id job]> (cs_current_jobs s)) s)).

Lemma insert_job_unfold s job :
  insert_job s job = evict_jobs (S (length (cs_job_order s))) (enqueue_job s job).
Proof. unfold insert_job. simpl. rewrite length_app. simpl. by rewrite Nat.add_comm. Qed.

(** The draft a binding is created for. *)
Definition job_has_template (s : ContextState) (job : JobBinding) : Prop :=
  ∃ t, cs_templates s !! jb_template_generation job = Some t
     ∧ td_template_id t = jb_template_id job
     ∧ is_rsk_payload (dp_payload (td_desired t)) = true.

Lemma enqueue_job_jobs_wf s job :
  jobs_wf s → cs_jobs s !! jb_binding_id job = None → job_has_template s job →
  jobs_wf (enqueue_job s job).
Proof.
  intros Hj Hfresh Htempl. set (b0 := jb_binding_id job) in *.
  assert (∀ b, is_Some (cs_jobs s !! b) →
    is_Some (<[b0 := job]> (cs_jobs s) !! b)) as Hlive.
  { intros b Hb. rewrite lookup_insert_is_Some. destruct (decide (b0 = b)); auto. }
  split; simpl.
  - apply NoDup_app. split; [apply Hj|]. split; [|apply NoDup_singleton].
    intros x Hx ->%list_elem_of_singleton. apply (wf_job_order_dom _ Hj) in Hx.
    fold b0 in Hx. rewrite Hfresh in Hx. by apply is_Some_None in Hx.
  - intros b. rewrite elem_of_app, list_elem_of_singleton, (wf_job_order_dom _ Hj).
    fold b0. rewrite lookup_insert_is_Some'. naive_solver.
  - intros b j. fold b0. rewrite lookup_insert_Some.
    intros [[<- <-]|[_ Hb]]; [done|by apply (wf_job_binding _ Hj)].
  - intros b j. fold b0. rewrite lookup_insert_Some.
    intros [[<- <-]|[_ Hb]]; [done|by apply (wf_job_template _ Hj b)].
  - intros jid b. simpl. fold b0. rewrite lookup_insert_Some.
    intros [[<- <-]|[Hne Hc]].
    + exists job. by rewrite lookup_insert_eq.
    + destruct (wf_current_jobs _ Hj _ _ Hc) as (j & Hb & ?). exists j.
      rewrite lookup_insert_ne by congruence. done.
  - intros b Hb. apply Hlive. by apply (wf_active _ Hj).
  - intros b Hb. apply Hlive. by apply (wf_pending _ Hj).
Qed.

Lemma insert_job_wf s job :
  ctx_wf s → cs_jobs s !! jb_binding_id job = None → job_has_template s job →
  ctx_wf (insert_job s job).
Proof.
  intros [Ht Hj [Hbt Hbj Hba]] Hfresh Htempl. rewrite insert_job_unfold.
  set (s0 := enqueue_job s job).
  set (P s' := jobs_wf s' ∧ templates_wf s' ∧
    length (cs_template_order s') ≤ MAX_TEMPLATES ∧
    length (cs_job_announcements s') ≤ MAX_JOB_ANNOUNCEMENTS).
  assert (P (evict_jobs (S (length (cs_job_order s))) s0)) as (?&?&?&?).
  { apply evict_jobs_ind.
    - intros s1 i e (Hj1 & Ht1 & Hl1 & Ha1) Hi Hnp.
      split; [by apply remove_expired_job_jobs_wf|].
      destruct (remove_expired_job_frame (set_job_order (delete i (cs_job_order s1)) s1) e)
        as (_ & H1 & H2 & H3 & _ & _ & H4 & _). simpl in *.
      split; [|by rewrite H3, H4].
      split; [rewrite H3; apply Ht1|rewrite H1, H3; apply Ht1|rewrite H1, H2; apply Ht1].
    - split; [by apply enqueue_job_jobs_wf|]. split; [|done].
      split; apply Ht. }
  split; [done|done|]. split; [done| |done].
  apply (evict_jobs_length _ _ (jb_binding_id job)); unfold s0; simpl.
  - apply elem_of_app. right. by apply list_elem_of_singleton.
  - intros [Ha|Hp]; simpl in *.
    + apply (wf_active _ Hj) in Ha. rewrite Hfresh in Ha. by apply is_Some_None in Ha.
    + apply (wf_pending _ Hj) in Hp. rewrite Hfresh in Hp. by apply is_Some_None in Hp.
  - rewrite length_app. simpl. lia.
Qed.

(** ** The other locked sections *)

(** Split a well-formedness goal, closing the parts that did not change. *)
Ltac wf_frame H :=
  destruct H as [[? ? ?] [? ? ? ? ? ? ?] [? ? ?]]; split; split; simpl; try assumption.

Lemma set_desired_wf d s : ctx_wf s → ctx_wf (set_desired d s).
Proof. intros H. wf_frame H. Qed.

Lemma clear_template_session_wf s : ctx_wf s → ctx_wf (clear_template_session s).
Proof.
  intros H. wf_frame H.
  - intros tid g Hc. by rewrite lookup_empty in Hc.
  - intros jid b Hc. by rewrite lookup_empty in Hc.
  - set_solver.
  - apply Nat.le_0_l.
Qed.

Lemma invalidate_current_template_wf s tid :
  ctx_wf s → ctx_wf (invalidate_current_template s tid).
Proof.
  intros H. wf_frame H.
  - intros tid' g Hc. apply lookup_delete_Some in Hc as [_ Hc]. auto.
  - intros jid b Hc. apply map_lookup_filter_Some in Hc as [Hc _]. auto.
Qed.

Lemma remove_template_generation_wf s g :
  ctx_wf s → ctx_wf (remove_template_generation s g).
Proof.
  intros [Ht Hj [? ? ?]].
  destruct (remove_generation_fields s g) as (_ & _ & _ & Ho & Ha & Hjo).
  split; [by apply remove_generation_templates_wf|by apply remove_generation_jobs_wf|].
  split; [rewrite Ho|rewrite Hjo|by rewrite Ha];
    (etrans; [apply length_retain|done]).
Qed.

Lemma announce_job_wf s jid b : ctx_wf s → ctx_wf (announce_job s jid b).
Proof. intros H. wf_frame H. apply length_push_bounded; [vm_compute; lia|done]. Qed.

Lemma delete_current_job_wf s jid :
  ctx_wf s → ctx_wf (set_current_jobs (delete jid (cs_current_jobs s)) s).
Proof.
  intros H. wf_frame H. intros jid' b Hc. apply lookup_delete_Some in Hc as [_ Hc]. auto.
Qed.

Lemma announce_unbound_job_wf s jid : ctx_wf s → ctx_wf (announce_unbound_job s jid).
Proof. intros H. by apply announce_job_wf, delete_current_job_wf. Qed.

Lemma record_block_tx_count_wf s g n : ctx_wf s → ctx_wf (record_block_tx_count s g n).
Proof.
  intros H. unfold record_block_tx_count.
  destruct (cs_templates s !! g) as [t|] eqn:Hg; [|done].
  destruct (td_block_tx_count t); [done|]. wf_frame H.
  - intros g'. rewrite wf_order_dom0.
    rewrite lookup_insert_is_Some'. split; [by right|intros [<-|]; [by rewrite Hg|done]].
  - intros tid g' Hc. apply wf_current_templates0 in Hc as (t' & Ht' & <-).
    rewrite lookup_insert. case_decide as E; [subst|by eauto].
    simplify_eq. by eexists.
  - intros b j Hb. apply wf_job_template0 in Hb as (t' & Ht' & Hid & Hrsk).
    rewrite lookup_insert. case_decide as E; [|by eauto].
    rewrite <- E in Ht'. simplify_eq. by eexists.
Qed.

Lemma record_chain_state_wf s tid p n : ctx_wf s → ctx_wf (record_chain_state s tid p n).
Proof.
  intros H. unfold record_chain_state. simpl.
  destruct (cs_current_templates s !! tid) as [g|]; simpl; [|by wf_frame H].
  set (c := MkChainState p n).
  assert (∀ j, jb_binding_id (bind_chain g c j) = jb_binding_id j
    ∧ jb_job_id (bind_chain g c j) = jb_job_id j
    ∧ jb_template_id (bind_chain g c j) = jb_template_id j
    ∧ jb_template_generation (bind_chain g c j) = jb_template_generation j) as Hbc.
  { intros j. unfold bind_chain. by case_if. }
  assert (∀ b, is_Some ((bind_chain g c <$> cs_jobs s) !! b) ↔ is_Some (cs_jobs s !! b))
    as Hjobs by (intros b; rewrite lookup_fmap; apply fmap_is_Some).
  assert (∀ g' t, cs_templates s !! g' = Some t → ∃ t',
    alter (template_with_chain c) g (cs_templates s) !! g' = Some t' ∧
    td_template_id t' = td_template_id t ∧ td_desired t' = td_desired t) as Halter.
  { intros g' t Ht. rewrite lookup_alter. case_decide as E; [subst g'|]; rewrite Ht; by eexists. }
  wf_frame H.
  - intros g'. rewrite wf_order_dom0, lookup_alter.
    case_decide as E; [subst g'|done]. by rewrite fmap_is_Some.
  - intros tid' g' Hc. apply wf_current_templates0 in Hc as (t & Ht & <-).
    destruct (Halter _ _ Ht) as (t' & ? & ? & _). eauto.
  - intros b. by rewrite Hjobs.
  - intros b j. rewrite lookup_fmap. intros (j' & Hb & ->)%fmap_Some.
    rewrite (proj1 (Hbc j')). auto.
  - intros b j. rewrite lookup_fmap. intros (j' & Hb & ->)%fmap_Some.
    destruct (Hbc j') as (_ & _ & -> & ->).
    apply wf_job_template0 in Hb as (t & Ht & ? & ?).
    destruct (Halter _ _ Ht) as (t' & Ht' & Hid & Hdes). exists t'.
    rewrite Hid, Hdes. auto.
  - intros jid b Hc. apply wf_current_jobs0 in Hc as (j & Hb & <-).
    exists (bind_chain g c j). rewrite lookup_fmap, Hb. split; [done|]. apply Hbc.
  - intros b Hb. rewrite Hjobs. auto.
  - intros b Hb. rewrite Hjobs. auto.
Qed.

Lemma claim_job_binding_wf s jid mark r s' :
  ctx_wf s → claim_job_binding s jid mark = Some (r, s') → ctx_wf s'.
Proof.
  intros H. unfold claim_job_binding. destruct (position _ _) as [i|]; [|done].
  destruct (cs_job_announcements s !! i) as [[jid' b]|]; [|done].
  assert (length (drop (S i) (cs_job_announcements s)) ≤ MAX_JOB_ANNOUNCEMENTS) as Hl.
  { rewrite length_drop. pose proof (bd_announcements _ (wf_bounded _ H)). lia. }
  destruct b as [b|]; [case_if|]; intros [= _ <-]; wf_frame H.
  bool_to_prop. intros b'. rewrite elem_of_union, elem_of_singleton.
  intros [->|]; auto.
Qed.

Lemma set_active_job_binding_wf s b : ctx_wf s → ctx_wf (set_active_job_binding s b).
Proof.
  intros H. unfold set_active_job_binding.
  destruct b as [b|]; [case_bool_decide as E|]; wf_frame H; try done.
  - by intros ? [= <-].
  - set_solver.
  - set_solver.
Qed.

Lemma clear_pending_job_binding_wf s b : ctx_wf s → ctx_wf (clear_pending_job_binding s b).
Proof. intros H. wf_frame H. set_solver. Qed.

(** [next_id] hands out the counter and advances it. *)
Lemma next_id_Some n i n' :
  next_id n = (Some i, n') → i = n ∧ n' = (n + 1)%N ∧ (0 < n)%N ∧ (n' <= u64_max)%N.
Proof.
  unfold next_id. destruct (checked_add u64_max n 1) as [m|] eqn:E; [|done].
  apply checked_add_Some in E as [-> ?]. destruct (N.eqb_spec n 0); [done|].
  intros [= <- <-]. lia.
Qed.
Lemma next_id_le n r n' : next_id n = (r, n') → (n <= n')%N.
Proof.
  unfold next_id. destruct (checked_add u64_max n 1) as [m|] eqn:E; intros [= _ <-]; [|lia].
  apply checked_add_Some in E as [-> ?]. lia.
Qed.

(** ** What the insertions do to existing jobs *)

(** A binding whose job is still wanted: protected, or queued for a claim. *)
Definition wanted_binding (s : ContextState) (b : N) : Prop :=
  protected_binding s b ∨ ∃ jid, (jid, Some b) ∈ cs_job_announcements s.

Lemma insert_template_jobs s g t b j :
  cs_jobs (insert_template s g t).1 !! b = Some j → cs_jobs s !! b = Some j.
Proof.
  rewrite insert_template_unfold.
  set (P s' := ∀ b j, cs_jobs s' !! b = Some j → cs_jobs s !! b = Some j).
  assert (P (evict_templates (S (length (cs_template_order s))) (enqueue_template s g t) g).1)
    as HP; [|exact (HP b j)].
  assert (∀ s' e, P s' → P (remove_template_generation s' e)) as Hrm.
  { intros s' e Hs' b' j' [Hb _]%remove_generation_jobs. auto. }
  apply evict_templates_ind; [auto|auto|]. by intros b' j'.
Qed.

(** Expiring a generation the loop may choose keeps the wanted bindings. *)
Lemma expire_keeps_wanted s g e b j :
  expirable s g e → wanted_binding s b → cs_jobs s !! b = Some j →
  jb_template_generation j ≠ e.
Proof.
  intros (_ & _ & [Hnone|[Hp Ha]]) Hw Hj <-.
  - assert (generation_has_job s (jb_template_generation j) = true); [|congruence].
    apply generation_has_job_true. eauto.
  - destruct Hw as [Hprot|[jid Hin]].
    + assert (generation_is_protected s (jb_template_generation j) = true); [|congruence].
      apply generation_is_protected_true. eauto.
    + assert (generation_is_announced s (jb_template_generation j) = true); [|congruence].
      apply generation_is_announced_true. eauto 6.
Qed.

Lemma remove_generation_keeps_wanted s g b j :
  cs_jobs s !! b = Some j → jb_template_generation j ≠ g →
  (wanted_binding s b → wanted_binding (remove_template_generation s g) b).
Proof.
  intros Hj Hg.
  destruct (remove_generation_fields s g) as (_ & _ & _ & _ & Hann & _).
  destruct (remove_generation_protected s g) as [Ha Hp].
  assert (b ∉ expired_bindings s g) as Hne
    by (rewrite elem_of_expired_bindings; naive_solver).
  unfold wanted_binding, protected_binding. rewrite Ha, Hp, Hann. naive_solver.
Qed.

Lemma insert_template_keeps s g t b j :
  jobs_wf s → cs_templates s !! g = None →
  wanted_binding s b → cs_jobs s !! b = Some j →
  cs_jobs (insert_template s g t).1 !! b = Some j.
Proof.
  intros Hwf Hg Hw Hj. rewrite insert_template_unfold.
  set (P s' := cs_jobs s' !! b = Some j ∧ wanted_binding s' b).
  assert (jb_template_generation j ≠ g) as Hjg.
  { intros <-. destruct (wf_job_template _ Hwf _ _ Hj) as (? & ? & _). congruence. }
  assert (∀ s' e, P s' → jb_template_generation j ≠ e → P (remove_template_generation s' e))
    as Hrm.
  { intros s' e [Hb Hw'] Hne. split; [by apply remove_generation_jobs|].
    by apply (remove_generation_keeps_wanted s' e b j). }
  apply (evict_templates_ind g P); [|auto|done].
  intros s' e [Hb Hw'] Hexp. apply Hrm; [done|]. by apply (expire_keeps_wanted s' g e b j).
Qed.

Lemma remove_expired_job_protected s i e b :
  protected_binding (remove_expired_job (set_job_order (delete i (cs_job_order s)) s) e) b
  ↔ protected_binding s b.
Proof.
  unfold protected_binding.
  destruct (remove_expired_job_frame (set_job_order (delete i (cs_job_order s)) s) e)
    as (_ & _ & _ & _ & _ & _ & _ & -> & ->). done.
Qed.

Lemma insert_job_jobs s job b j :
  cs_jobs (insert_job s job) !! b = Some j →
  (b = jb_binding_id job ∧ j = job) ∨ (b ≠ jb_binding_id job ∧ cs_jobs s !! b = Some j).
Proof.
  rewrite insert_job_unfold.
  set (P s' := ∀ b j, cs_jobs s' !! b = Some j → cs_jobs (enqueue_job s job) !! b = Some j).
  assert (P (evict_jobs (S (length (cs_job_order s))) (enqueue_job s job))) as HP.
  { apply evict_jobs_ind; [|by intros ??]. intros s' i e Hs' Hi Hnp b' j'.
    rewrite remove_expired_job_jobs, lookup_delete_Some. intros [_ ?]. by apply Hs'. }
  intros Hb%HP. simpl in Hb. apply lookup_insert_Some in Hb. naive_solver.
Qed.

Lemma insert_job_keeps s job b j :
  protected_binding s b → b ≠ jb_binding_id job → cs_jobs s !! b = Some j →
  cs_jobs (insert_job s job) !! b = Some j.
Proof.
  intros Hp Hne Hj. rewrite insert_job_unfold.
  set (P s' := cs_jobs s' !! b = Some j ∧ protected_binding s' b).
  assert (P (evict_jobs (S (length (cs_job_order s))) (enqueue_job s job))) as [? _];
    [|done].
  apply evict_jobs_ind.
  - intros s' i e [Hb Hp'] Hi Hnp. split.
    + rewrite remove_expired_job_jobs, lookup_delete_ne by (intros ->; done). done.
    + by apply remove_expired_job_protected.
  - split; [|done]. simpl. by rewrite lookup_insert_ne.
Qed.

(** ** The shared state and its steps *)

(** The context, the counters, and the generations handed out to a caller that
    has not inserted its draft yet. *)
Record World := MkWorld {
  w_context : ContextState;
  w_next_generation : N;
  w_next_binding : N;
  w_reserved : gset N
}.

Definition initial_world : World := MkWorld default_context 1 1 ∅.

(** One constructor per locked section or counter access. *)
Inductive Op :=
| OpSetDesired (desired : DesiredPair)
| OpClearSession
| OpInvalidate (template_id : N)
| OpReserveGeneration
| OpInsertTemplate (generation template_id : N) (desired : DesiredPair)
    (merkle_path : list bytes) (future : bool)
| OpDiscard (generation : N)
| OpRecordCount (generation transaction_count : N)
| OpRecordChain (template_id : N) (prev_hash : bytes) (n_bits : N)
| OpBindJob (job_id generation : N) (coinbase_prefix coinbase_suffix : bytes)
| OpAnnounceUnbound (job_id : N)
| OpClaim (job_id : N) (mark_pending : bool)
| OpSetActive (binding_id : option N)
| OpClearPending (binding_id : N).

Definition with_context (w : World) (s : ContextState) : World :=
  MkWorld s (w_next_generation w) (w_next_binding w) (w_reserved w).

Definition run_op (w : World) (op : Op) : World :=
  let s := w_context w in
  match op with
  | OpSetDesired d => with_context w (set_desired (Some d) s)
  | OpClearSession => with_context w (clear_template_session s)
  | OpInvalidate tid => with_context w (invalidate_current_template s tid)
  | OpReserveGeneration =>
      let '(r, n) := next_id (w_next_generation w) in
      MkWorld s n (w_next_binding w)
        (match r with Some g => {[g]} ∪ w_reserved w | None => w_reserved w end)
  | OpInsertTemplate g tid d path future =>
      if decide (g ∈ w_reserved w) then
        let chain := if future : bool then None else cs_active_chain s in
        MkWorld (insert_template s g (MkTemplateDraft tid d path None chain)).1
          (w_next_generation w) (w_next_binding w) (w_reserved w ∖ {[g]})
      else w
  | OpDiscard g => with_context w (remove_template_generation s g)
  | OpRecordCount g n =>
      match block_tx_count_of n with
      | Some c => with_context w (record_block_tx_count s g c)
      | None => w
      end
  | OpRecordChain tid p n => with_context w (record_chain_state s tid p n)
  | OpBindJob jid g prefix suffix =>
      let '(r, s, n) := create_job_binding (w_next_binding w) s jid g prefix suffix in
      MkWorld (match r with Some b => announce_job s jid (Some b) | None => s end)
        (w_next_generation w) n (w_reserved w)
  | OpAnnounceUnbound jid => with_context w (announce_unbound_job s jid)
  | OpClaim jid mark =>
      match claim_job_binding s jid mark with
      | Some (_, s) => with_context w s
      | None => w
      end
  | OpSetActive b => with_context w (set_active_job_binding s b)
  | OpClearPending b => with_context w (clear_pending_job_binding s b)
  end.

(** Identifiers come from the counters and are never reused. *)
Record world_wf (w : World) : Prop := {
  ww_context : ctx_wf (w_context w);
  ww_generation g : is_Some (cs_templates (w_context w) !! g) → (g < w_next_generation w)%N;
  ww_reserved g : g ∈ w_reserved w →
    (g < w_next_generation w)%N ∧ cs_templates (w_context w) !! g = None;
  ww_binding b : is_Some (cs_jobs (w_context w) !! b) → (b < w_next_binding w)%N;
  ww_announced jid b :
    (jid, Some b) ∈ cs_job_announcements (w_context w) → (b < w_next_binding w)%N;
  ww_counters : (0 < w_next_generation w)%N ∧ (0 < w_next_binding w)%N
}.

(** A section that adds no template, no binding and no announced binding. *)
Record shrinks (s s' : ContextState) : Prop := {
  sh_templates g : is_Some (cs_templates s' !! g) → is_Some (cs_templates s !! g);
  sh_jobs b : is_Some (cs_jobs s' !! b) → is_Some (cs_jobs s !! b);
  sh_announced jid b : (jid, Some b) ∈ cs_job_announcements s' →
    (jid, Some b) ∈ cs_job_announcements s
}.

Lemma with_context_wf w s :
  world_wf w → ctx_wf s → shrinks (w_context w) s → world_wf (with_context w s).
Proof.
  intros [? Hg Hr Hb Ha ?] Hs [St Sj Sa]. split; simpl; try done.
  - auto.
  - intros g [? Hn]%Hr. split; [done|].
    destruct (cs_templates s !! g) eqn:E; [|done].
    assert (is_Some (cs_templates (w_context w) !! g)) as [? ?] by (apply St; eauto).
    congruence.
  - auto.
  - eauto.
Qed.

Lemma shrinks_same s s' :
  cs_templates s' = cs_templates s → cs_jobs s' = cs_jobs s →
  cs_job_announcements s' = cs_job_announcements s → shrinks s s'.
Proof. intros Ht Hj Ha. split; [by rewrite Ht|by rewrite Hj|by rewrite Ha]. Qed.

Lemma remove_template_generation_shrinks s g :
  shrinks s (remove_template_generation s g).
Proof.
  destruct (remove_generation_fields s g) as (_ & _ & Ht & _ & Ha & _). split.
  - intros g'. rewrite Ht. intros [t [_ ?]%lookup_delete_Some]. eauto.
  - intros b [j [? _]%remove_generation_jobs]. eauto.
  - by rewrite Ha.
Qed.

Lemma record_block_tx_count_shrinks s g n : shrinks s (record_block_tx_count s g n).
Proof.
  unfold record_block_tx_count. destruct (cs_templates s !! g) as [t|] eqn:Hg; [|done].
  destruct (td_block_tx_count t); [done|]. split; [|done|done].
  intros g'. simpl. rewrite lookup_insert_is_Some'. intros [<-|]; [by rewrite Hg|done].
Qed.

Lemma record_chain_state_shrinks s tid p n : shrinks s (record_chain_state s tid p n).
Proof.
  unfold record_chain_state. simpl. destruct (cs_current_templates s !! tid); [|done].
  split; [| |done]; simpl.
  - intros g'. rewrite lookup_alter. case_decide; [subst|done]. by rewrite fmap_is_Some.
  - intros b. by rewrite lookup_fmap, fmap_is_Some.
Qed.

Lemma claim_job_binding_shrinks s jid mark r s' :
  claim_job_binding s jid mark = Some (r, s') → shrinks s s'.
Proof.
  unfold claim_job_binding. destruct (position _ _) as [i|]; [|done].
  destruct (cs_job_announcements s !! i) as [[jid' b]|]; [|done].
  assert (∀ x, x ∈ drop (S i) (cs_job_announcements s) → x ∈ cs_job_announcements s)
    as Hsub by (intros x Hx; rewrite <- (take_drop (S i)), elem_of_app; by right).
  destruct b as [b|]; [case_if|]; intros [= _ <-]; (split; [done|done|]); simpl; auto.
Qed.

Lemma insert_template_fields s g t :
  (∀ g', is_Some (cs_templates (insert_template s g t).1 !! g') →
     g' = g ∨ is_Some (cs_templates s !! g')) ∧
  cs_job_announcements (insert_template s g t).1 = cs_job_announcements s.
Proof.
  rewrite insert_template_unfold.
  apply (evict_templates_ind g (λ s', (∀ g', is_Some (cs_templates s' !! g') →
     g' = g ∨ is_Some (cs_templates s !! g')) ∧
     cs_job_announcements s' = cs_job_announcements s)).
  - intros s' e [Ht Ha] _. destruct (remove_template_generation_shrinks s' e) as [St _ _].
    destruct (remove_generation_fields s' e) as (_ & _ & _ & _ & Ha' & _).
    split; [auto|congruence].
  - intros s' [Ht Ha]. destruct (remove_template_generation_shrinks s' g) as [St _ _].
    destruct (remove_generation_fields s' g) as (_ & _ & _ & _ & Ha' & _).
    split; [auto|congruence].
  - split; [|done]. simpl. intros g'. rewrite lookup_insert_is_Some'. naive_solver.
Qed.

Lemma insert_job_fields s job :
  cs_templates (insert_job s job) = cs_templates s ∧
  cs_job_announcements (insert_job s job) = cs_job_announcements s ∧
  cs_active_binding (insert_job s job) = cs_active_binding s ∧
  cs_pending_activation_bindings (insert_job s job) = cs_pending_activation_bindings s.
Proof.
  rewrite insert_job_unfold.
  apply (evict_jobs_ind (λ s', cs_templates s' = cs_templates s ∧
    cs_job_announcements s' = cs_job_announcements s ∧
    cs_active_binding s' = cs_active_binding s ∧
    cs_pending_activation_bindings s' = cs_pending_activation_bindings s)); [|done].
  intros s' i e (? & ? & ? & ?) _ _.
  destruct (remove_expired_job_frame (set_job_order (delete i (cs_job_order s')) s') e)
    as (_ & -> & _ & _ & _ & _ & -> & -> & ->). done.
Qed.

(** [create_job_binding], by cases: refused, or a binding with the next id. *)
Lemma create_job_binding_cases n s jid g prefix suffix :
  let s1 := set_current_jobs (delete jid (cs_current_jobs s)) s in
  (∃ n', create_job_binding n s jid g prefix suffix = (None, s1, n') ∧ (n <= n')%N) ∨
  (∃ t, cs_templates s !! g = Some t ∧ is_rsk_payload (dp_payload (td_desired t)) = true ∧
     (0 < n)%N ∧
     create_job_binding n s jid g prefix suffix =
       (Some n, insert_job s1 (MkJobBinding n jid (td_template_id t) g (td_chain t)
          prefix suffix), (n + 1)%N)).
Proof.
  intros s1. unfold create_job_binding. fold s1.
  change (cs_templates s1) with (cs_templates s).
  destruct (cs_templates s !! g) as [t|] eqn:Hg; [|left; exists n; split; [done|lia]].
  destruct (is_rsk_payload _) eqn:Hrsk; simpl; [|left; exists n; split; [done|lia]].
  destruct (next_id n) as [[b|] n'] eqn:En.
  - apply next_id_Some in En as (-> & -> & ? & _). right. exists t. auto.
  - left. exists n'. split; [done|]. by eapply next_id_le.
Qed.

Lemma clear_template_session_shrinks s : shrinks s (clear_template_session s).
Proof. split; [done|done|]. intros ?? Hin. by apply elem_of_nil in Hin. Qed.

Lemma announce_unbound_job_shrinks s jid : shrinks s (announce_unbound_job s jid).
Proof. split; [done|done|]. intros jid' b [Hin|]%elem_of_push_bounded; done. Qed.

Lemma set_active_job_binding_shrinks s b : shrinks s (set_active_job_binding s b).
Proof. by apply shrinks_same; destruct b. Qed.

#[export] Hint Resolve set_desired_wf clear_template_session_wf invalidate_current_template_wf
  remove_template_generation_wf record_block_tx_count_wf record_chain_state_wf
  announce_unbound_job_wf set_active_job_binding_wf clear_pending_job_binding_wf
  remove_template_generation_shrinks record_block_tx_count_shrinks
  record_chain_state_shrinks clear_template_session_shrinks announce_unbound_job_shrinks
  set_active_job_binding_shrinks : dmnd.
#[export] Hint Extern 5 (shrinks _ _) => (apply shrinks_same; reflexivity) : dmnd.

Lemma reserve_generation_wf w : world_wf w → world_wf (run_op w OpReserveGeneration).
Proof.
  intros [? Hg Hr ? ? [? ?]]. simpl.
  destruct (next_id (w_next_generation w)) as [r n] eqn:En.
  pose proof (next_id_le _ _ _ En) as Hle.
  split; simpl; try done; [intros g Hlt%Hg; lia| |lia].
  destruct r as [g0|].
  - apply next_id_Some in En as (-> & -> & ? & _). intros g.
    rewrite elem_of_union, elem_of_singleton. intros [->|[? ?]%Hr]; [|split; [lia|done]].
    split; [lia|]. destruct (cs_templates (w_context w) !! w_next_generation w) eqn:E; [|done].
    assert (w_next_generation w < w_next_generation w)%N by (apply Hg; eauto). lia.
  - intros g [? ?]%Hr. split; [lia|done].
Qed.

Lemma insert_template_op_wf w g tid d path future :
  world_wf w → world_wf (run_op w (OpInsertTemplate g tid d path future)).
Proof.
  intros Hw. simpl. destruct (decide _) as [Hres|]; [|done].
  destruct Hw as [Hc Hg Hr Hb Ha ?]. destruct (Hr _ Hres) as [Hlt Hnone].
  set (t := MkTemplateDraft _ _ _ _ _).
  destruct (insert_template_fields (w_context w) g t) as [St Sa].
  split; simpl; try done.
  - by apply insert_template_wf.
  - intros g' [->|?]%St; auto.
  - intros g'. rewrite elem_of_difference, not_elem_of_singleton.
    intros [[? Hn]%Hr Hne]. split; [done|].
    destruct (cs_templates (insert_template (w_context w) g t).1 !! g') eqn:E; [|done].
    assert (g' = g ∨ is_Some (cs_templates (w_context w) !! g')) as [->|[? ?]]
      by (apply St; eauto); congruence.
  - intros b [j Hj%insert_template_jobs]. eauto.
  - intros jid b. rewrite Sa. apply Ha.
Qed.

Lemma bind_job_wf w jid g prefix suffix :
  world_wf w → world_wf (run_op w (OpBindJob jid g prefix suffix)).
Proof.
  intros [Hc Hg Hr Hb Ha [? ?]]. simpl. set (s := w_context w) in *.
  pose proof (delete_current_job_wf s jid Hc) as Hc1.
  set (s1 := set_current_jobs (delete jid (cs_current_jobs s)) s) in *.
  destruct (create_job_binding_cases (w_next_binding w) s jid g prefix suffix)
    as [(n' & -> & Hle)|(t & Ht & Hrsk & Hpos & ->)]; fold s1.
  - split; simpl; try done; [|intros ?? H'%Ha; lia|lia]. intros b H'%Hb. lia.
  - set (job := MkJobBinding _ _ _ _ _ _ _).
    destruct (insert_job_fields s1 job) as (Et & Ea & _ & _).
    assert (cs_jobs s !! w_next_binding w = None) as Hfresh.
    { destruct (cs_jobs s !! w_next_binding w) eqn:E; [|done].
      assert (w_next_binding w < w_next_binding w)%N by (apply Hb; eauto). lia. }
    split; simpl; try rewrite Et; try done.
    + apply announce_job_wf, insert_job_wf; [done|done|]. exists t. done.
    + intros b [j Hj]. apply insert_job_jobs in Hj as [[-> _]|[_ Hj]]; [simpl; lia|].
      assert (b < w_next_binding w)%N by (apply Hb; eauto). lia.
    + intros jid' b. rewrite Ea. intros [Hin|[= _ ->]]%elem_of_push_bounded; [|lia].
      apply Ha in Hin. lia.
    + lia.
Qed.

(** Every locked section keeps the shared state well formed. *)
Lemma run_op_wf w op : world_wf w → world_wf (run_op w op).
Proof.
  intros Hw. pose proof (ww_context _ Hw) as Hc.
  destruct op; try by (simpl; apply with_context_wf; [done|eauto with dmnd|eauto with dmnd]).
  - by apply reserve_generation_wf.
  - by apply insert_template_op_wf.
  - simpl. destruct (block_tx_count_of transaction_count); [|done].
    apply with_context_wf; eauto with dmnd.
  - by apply bind_job_wf.
  - simpl. destruct (claim_job_binding _ _ _) as [[r s]|] eqn:E; [|done].
    apply with_context_wf; [done|by eapply claim_job_binding_wf|].
    by eapply claim_job_binding_shrinks.
Qed.

Lemma default_context_wf : ctx_wf default_context.
Proof.
  split; split; simpl; try apply NoDup_nil_2; try apply Nat.le_0_l;
    try (intros * H; by rewrite lookup_empty in H); try done.
  - intros g. rewrite lookup_empty. split; [by intros ?%elem_of_nil|by intros ?%is_Some_None].
  - intros b. rewrite lookup_empty. split; [by intros ?%elem_of_nil|by intros ?%is_Some_None].
Qed.

Lemma initial_world_wf : world_wf initial_world.
Proof.
  split; simpl; [apply default_context_wf| | | | |lia].
  - intros g [t Ht]. by rewrite lookup_empty in Ht.
  - set_solver.
  - intros b [j Hj]. by rewrite lookup_empty in Hj.
  - intros jid b Hin. by apply elem_of_nil in Hin.
Qed.

Lemma run_ops_wf ops w : world_wf w → world_wf (fold_left run_op ops w).
Proof.
  revert w. induction ops as [|op ops IH]; intros w Hw; [done|]. by apply IH, run_op_wf.
Qed.
