(* ===== verification/MergeContextProps.v ===== *)
(** * Properties of the merge-mining context

    What the invariant of [MergeInvariant] gives for every interleaving of the
    public operations of [src/src/merge_mining.rs]: well-formedness and bounds,
    protected bindings survive, bindings keep their identity and their chain,
    announcements are claimed in order, and transaction counts are recorded
    once. *)

From S2P Require Import Prelude Str Bitcoin RskCommitment MergeState MergeInvariant.

(** ** Evolution of a binding *)

(** A binding only ever gains the chain it was missing. *)
Definition job_evolves (j j' : JobBinding) : Prop :=
  j' = j ∨
  (jb_chain j = None ∧ ∃ c,
     j' = MkJobBinding (jb_binding_id j) (jb_job_id j) (jb_template_id j)
            (jb_template_generation j) (Some c) (jb_coinbase_prefix j)
            (jb_coinbase_suffix j)).

Lemma job_evolves_refl j : job_evolves j j.
Proof. by left. Qed.

Lemma job_evolves_trans j1 j2 j3 : job_evolves j1 j2 → job_evolves j2 j3 → job_evolves j1 j3.
Proof.
  intros [->|[H1 [c ->]]]; [done|]. intros [->|[H2 _]]; [by right; eauto|done].
Qed.

Lemma job_evolves_generation j j' :
  job_evolves j j' → jb_template_generation j' = jb_template_generation j.
Proof. by intros [->|[_ [c ->]]]. Qed.

Lemma bind_chain_evolves g c j : job_evolves j (bind_chain g c j).
Proof.
  unfold bind_chain. case_if; [|by left]. bool_to_prop. right. eauto.
Qed.

#[export] Hint Resolve job_evolves_refl bind_chain_evolves : dmnd.

#[local] Arguments remove_template_generation : simpl never.
#[local] Arguments record_chain_state : simpl never.
#[local] Arguments set_active_job_binding : simpl never.
#[local] Arguments create_job_binding : simpl never.
#[local] Arguments insert_template : simpl never.
#[local] Arguments insert_job : simpl never.
#[local] Arguments announce_job : simpl never.

(** The jobs after a section are old jobs, evolved, or the new binding. *)
Lemma run_op_jobs w op b j' :
  world_wf w → cs_jobs (w_context (run_op w op)) !! b = Some j' →
  (∃ j, cs_jobs (w_context w) !! b = Some j ∧ job_evolves j j') ∨
  (b = w_next_binding w ∧ w_next_binding (run_op w op) = (b + 1)%N).
Proof.
  intros Hw. destruct op; simpl; try (by intros Hb; left; eauto with dmnd).
  - destruct (next_id _). simpl. intros Hb. left. eauto with dmnd.
  - destruct (decide _); simpl; intros Hb; left; [|by eauto with dmnd].
    apply insert_template_jobs in Hb. eauto with dmnd.
  - intros [Hb _]%remove_generation_jobs. left. eauto with dmnd.
  - destruct (block_tx_count_of _); simpl; [unfold record_block_tx_count|];
      repeat case_match; simpl; intros Hb; left; eauto with dmnd.
  - unfold record_chain_state. simpl. case_match; simpl; [|intros Hb; left; by eauto with dmnd].
    rewrite lookup_fmap. intros (j & Hj & ->)%fmap_Some. left. eauto with dmnd.
  - destruct (create_job_binding_cases (w_next_binding w) (w_context w) job_id generation
      coinbase_prefix coinbase_suffix) as [(n' & -> & _)|(t & _ & _ & _ & ->)]; simpl.
    + intros Hb. left. eauto with dmnd.
    + intros [[-> _]|[_ Hb]]%insert_job_jobs; [by right|left; eauto with dmnd].
  - unfold claim_job_binding. repeat case_match; simplify_eq/=; intros Hb; left;
      eauto with dmnd.
  - unfold set_active_job_binding. repeat case_match; simpl; intros Hb; left;
      eauto with dmnd.
Qed.

Lemma run_op_next_binding w op : (w_next_binding w <= w_next_binding (run_op w op))%N.
Proof.
  destruct op; simpl; try lia; try (by repeat case_match; simpl; lia).
  - destruct (create_job_binding_cases (w_next_binding w) (w_context w) job_id generation
      coinbase_prefix coinbase_suffix) as [(n' & -> & ?)|(t & _ & _ & _ & ->)]; simpl; lia.
Qed.

Lemma run_ops_job_evolves ops w b j :
  world_wf w → (b < w_next_binding w)%N →
  (∀ j', cs_jobs (w_context w) !! b = Some j' → job_evolves j j') →
  ∀ j', cs_jobs (w_context (fold_left run_op ops w)) !! b = Some j' → job_evolves j j'.
Proof.
  revert w. induction ops as [|op ops IH]; intros w Hw Hlt Hev; [done|]. simpl.
  pose proof (run_op_next_binding w op) as Hle.
  apply IH; [by apply run_op_wf|lia|]. intros j' Hj'.
  destruct (run_op_jobs _ _ _ _ Hw Hj') as [(j0 & Hj0 & He)|[-> ?]]; [|lia].
  eapply job_evolves_trans; [by apply Hev|done].
Qed.

(** A protected binding is still there after any section but its discard. *)
Lemma run_op_keeps_protected w op b j :
  world_wf w → protected_binding (w_context w) b →
  cs_jobs (w_context w) !! b = Some j → op ≠ OpDiscard (jb_template_generation j) →
  is_Some (cs_jobs (w_context (run_op w op)) !! b).
Proof.
  intros Hw Hp Hj Hop. assert (is_Some (cs_jobs (w_context w) !! b)) as Hsome by eauto.
  destruct op; simpl; try done.
  - by destruct (next_id _).
  - destruct (decide _) as [Hres|]; [|done]. simpl.
    destruct (ww_reserved _ Hw _ Hres) as [_ Hnone]. exists j.
    apply insert_template_keeps; [apply Hw|done|by left|done].
  - exists j. apply remove_generation_jobs. split; [done|]. congruence.
  - destruct (block_tx_count_of _); simpl; [unfold record_block_tx_count|done].
    by repeat case_match.
  - unfold record_chain_state. simpl. case_match; simpl; [|done].
    by rewrite lookup_fmap, fmap_is_Some.
  - destruct (create_job_binding_cases (w_next_binding w) (w_context w) job_id generation
      coinbase_prefix coinbase_suffix) as [(n' & -> & _)|(t & _ & _ & _ & ->)]; simpl; [done|].
    exists j. apply insert_job_keeps; [done| |done]. simpl. intros ->.
    pose proof (ww_binding _ Hw _ Hsome). lia.
  - unfold claim_job_binding. by repeat case_match; simplify_eq/=.
  - unfold set_active_job_binding. by repeat case_match; simplify_eq/=.
Qed.

(** ** Claiming an announcement *)

(** The first announcement of a job, by decomposition of the queue. *)
Lemma position_announcement l (job_id : N) (b : option N) pre post :
  l = pre ++ (job_id, b) :: post →
  (∀ b', (job_id, b') ∉ pre) →
  position (λ announcement : N * option N, (announcement.1 =? job_id)%N) l
  = Some (length pre).
Proof.
  intros -> Hpre. apply position_Some. exists (job_id, b). split.
  { rewrite lookup_app_r by done. by rewrite Nat.sub_diag. }
  split; [simpl; apply N.eqb_refl|]. intros i [jid b'] Hi Hl.
  rewrite lookup_app_l in Hl by done. apply list_elem_of_lookup_2 in Hl.
  simpl. apply N.eqb_neq. intros ->. by apply (Hpre b').
Qed.

(** ** Theorems *)

(** C3: whatever locked sections run, in whatever order, the merge-mining
    context stays well formed: queues and maps list the same drafts and
    bindings, the indices point at entries of their key, every binding has a
    live RSK draft, the active and pending bindings are live, and the queues
    never exceed 128 templates, 256 jobs and 256 announcements. *)
Theorem context_invariant ops :
  ctx_wf (w_context (fold_left run_op ops initial_world)).
Proof. apply ww_context, run_ops_wf, initial_world_wf. Qed.

(** Evictions never take the work of the miners away: a binding that is
    active or pending activation survives every section except the explicit
    discard of its own generation, with its identity, its coinbase halves and
    any chain it had, and with the draft it was created from. *)
Theorem protected_binding_survives ops op b j :
  let w := fold_left run_op ops initial_world in
  protected_binding (w_context w) b →
  cs_jobs (w_context w) !! b = Some j →
  op ≠ OpDiscard (jb_template_generation j) →
  ∃ j', cs_jobs (w_context (run_op w op)) !! b = Some j' ∧ job_evolves j j' ∧
    is_Some (cs_templates (w_context (run_op w op)) !! jb_template_generation j).
Proof.
  intros w Hp Hj Hop.
  assert (world_wf w) as Hw by apply run_ops_wf, initial_world_wf.
  destruct (run_op_keeps_protected w op b j Hw Hp Hj Hop) as [j' Hj'].
  assert (job_evolves j j') as Hev.
  { apply (run_ops_job_evolves [op] w b j Hw); [apply Hw; eauto| |done].
    intros j0. rewrite Hj. intros [= ->]. apply job_evolves_refl. }
  exists j'. split; [done|]. split; [done|].
  destruct (wf_job_template _ (wf_jobs _ (ww_context _ (run_op_wf _ op Hw))) _ _ Hj')
    as (t & Ht & _).
  rewrite <- (job_evolves_generation _ _ Hev), Ht. done.
Qed.

(** A binding identifier denotes one job for ever: between any two moments
    of a run its job, template, generation and coinbase halves are the same, and
    the chain it was bound to is never rewritten. *)
Theorem job_binding_stable ops ops' b j j' :
  cs_jobs (w_context (fold_left run_op ops initial_world)) !! b = Some j →
  cs_jobs (w_context (fold_left run_op (ops ++ ops') initial_world)) !! b = Some j' →
  job_evolves j j'.
Proof.
  rewrite fold_left_app. intros Hj Hj'.
  assert (world_wf (fold_left run_op ops initial_world)) as Hw
    by apply run_ops_wf, initial_world_wf.
  apply (run_ops_job_evolves ops' _ b j Hw); [apply Hw; eauto| |done].
  intros j0. rewrite Hj. intros [= ->]. apply job_evolves_refl.
Qed.

(** Inserting a template draft never removes a binding that is active,
    pending activation, or still waiting in the announcement queue. *)
Theorem insert_template_keeps_wanted s g t b j :
  ctx_wf s → cs_templates s !! g = None →
  wanted_binding s b → cs_jobs s !! b = Some j →
  cs_jobs (insert_template s g t).1 !! b = Some j.
Proof. intros [_ Hj _]. by apply insert_template_keeps. Qed.

(** Claiming a job takes its oldest announcement, drops the announcements
    queued before it and keeps those after it in order; a live claimed binding
    becomes pending activation when asked to; with no announcement nothing
    changes. *)
Theorem claim_takes_first_announcement s job_id mark :
  (∀ pre b post,
     cs_job_announcements s = pre ++ (job_id, b) :: post →
     (∀ b', (job_id, b') ∉ pre) →
     ∃ s', claim_job_binding s job_id mark = Some (b, s') ∧
       cs_job_announcements s' = post ∧ cs_jobs s' = cs_jobs s ∧
       ∀ b', b' ∈ cs_pending_activation_bindings s' ↔
         b' ∈ cs_pending_activation_bindings s ∨
         (mark = true ∧ b = Some b' ∧ is_Some (cs_jobs s !! b'))) ∧
  ((∀ b, (job_id, b) ∉ cs_job_announcements s) → claim_job_binding s job_id mark = None).
Proof.
  split.
  - intros pre b post Hq Hpre. unfold claim_job_binding.
    rewrite (position_announcement _ _ b pre post Hq Hpre), Hq.
    rewrite lookup_app_r, Nat.sub_diag by done. simpl.
    assert (drop (S (length pre)) (pre ++ (job_id, b) :: post) = post) as ->.
    { rewrite drop_app_ge by lia. replace (S (length pre) - length pre) with 1 by lia. done. }
    eexists. split; [done|].
    destruct b as [b|]; [case_if; bool_to_prop|]; simpl; (split; [done|split; [done|]]);
      intros b'; rewrite ?elem_of_union, ?elem_of_singleton; try naive_solver.
    split; [by left|]. intros [|(-> & [= <-] & Hsome)]; [done|].
    rewrite bool_decide_true in Heqb0 by done. done.
  - intros Hnone. unfold claim_job_binding.
    destruct (position _ _) as [i|] eqn:Ei; [|done]. exfalso.
    apply position_Some in Ei as ([jid b] & Hi & Hp%N.eqb_eq & _). simpl in Hp.
    apply list_elem_of_lookup_2 in Hi. rewrite Hp in Hi. by apply (Hnone b).
Qed.

(** A template's block transaction count is the reported count plus the
    coinbase, accepted up to [i32::MAX] only, and once recorded it is never
    overwritten by a later report. *)
Theorem transaction_count_recorded_once n c s g :
  (block_tx_count_of n = Some c ↔ c = (n + 1)%N ∧ (c <= i32_max)%N) ∧
  (∀ c', record_block_tx_count (record_block_tx_count s g c) g c' =
         record_block_tx_count s g c) ∧
  (∀ t, cs_templates s !! g = Some t → td_block_tx_count t = None →
     td_block_tx_count <$> cs_templates (record_block_tx_count s g c) !! g = Some (Some c)).
Proof.
  split; [|split].
  - unfold block_tx_count_of.
    destruct (checked_add usize_max n 1) as [m|] eqn:E1.
    + apply checked_add_Some in E1 as [-> ?].
      destruct (try_from u32_max (n + 1)) as [m|] eqn:E2.
      * apply try_from_Some in E2 as [-> ?].
        destruct (N.leb_spec (n + 1) i32_max); naive_solver lia.
      * split; [done|]. intros [-> Hc]. unfold try_from in E2. case_if; [done|].
        bool_to_prop. unfold i32_max, u32_max in *. lia.
    + split; [done|]. intros [-> Hc]. unfold checked_add in E1. case_if; [done|].
      bool_to_prop. unfold i32_max, usize_max, u64_max in *. lia.
  - intros c'. unfold record_block_tx_count.
    destruct (cs_templates s !! g) as [t|] eqn:Ht; [|by rewrite Ht].
    destruct (td_block_tx_count t) eqn:Hc; [by rewrite Ht, Hc|].
    simpl. by rewrite lookup_insert_eq.
  - intros t Ht Hc. unfold record_block_tx_count. rewrite Ht, Hc. simpl.
    by rewrite lookup_insert_eq.
Qed.

(** ** Witnesses *)

(** An RSK pair, its draft, and a job claimed for activation. *)
Definition example_pair : DesiredPair :=
  MkDesiredPair (RSK_TAG ++ replicate 32 Byte.x2a) [] [] [] [].
Definition example_ops : list Op :=
  [OpReserveGeneration; OpInsertTemplate 1 7 example_pair [] false;
   OpBindJob 10 1 [] []; OpClaim 10 true].
Definition example_job : JobBinding := MkJobBinding 1 10 7 1 None [] [].

Lemma protected_binding_survives_witness :
  ∃ j', cs_jobs (w_context (run_op (fold_left run_op example_ops initial_world)
          OpClearSession)) !! 1%N = Some j' ∧ job_evolves example_job j' ∧
    is_Some (cs_templates (w_context (run_op (fold_left run_op example_ops initial_world)
          OpClearSession)) !! 1%N).
Proof.
  apply (protected_binding_survives example_ops OpClearSession 1 example_job).
  - right. decide_now.
  - vm_compute. reflexivity.
  - discriminate.
Defined.

Lemma job_binding_stable_witness :
  job_evolves example_job (MkJobBinding 1 10 7 1 (Some (MkChainState [] 5)) [] []).
Proof.
  apply (job_binding_stable example_ops [OpRecordChain 7 [] 5] 1); vm_compute; reflexivity.
Defined.

Lemma insert_template_keeps_wanted_witness :
  let s := w_context (fold_left run_op example_ops initial_world) in
  cs_jobs (insert_template s 2 (MkTemplateDraft 8 example_pair [] None None)).1 !! 1%N
    = Some example_job.
Proof.
  intros s. apply insert_template_keeps_wanted.
  - apply ww_context, run_ops_wf, initial_world_wf.
  - vm_compute. reflexivity.
  - left. right. decide_now.
  - vm_compute. reflexivity.
Defined.
