(* ===== verification/MergeMining.v ===== *)
(** * Merge mining: the service

    Models [MergeMining], [DesiredPair::parse], the observer thread and the HTTP
    handlers of [src/src/merge_mining.rs] on top of the context of [MergeState].
    The shared objects behind the [Arc]s are the fields of [MergeMining]; every
    method takes the current value and returns the next one.  What the outside
    world decides (clock, thread creation, contention of [try_lock]) is an
    [ObserverEnv] argument. *)

From S2P Require Import Prelude Str Bitcoin RskCommitment MergeState.

(** ** Constants *)
Definition MAX_PENDING_SHARES : nat := 128.
Definition MAX_EARLY_SHARES : nat := 64.
Definition MAX_FOUND_JOBS : nat := 32.
Definition MAX_DEDUP_IDENTITIES : nat := 128.
Definition MAX_SINGLE_BYTE_COINBASE_OUTPUTS : N := 252.

(** ** Data *)
Record FoundJob := MkFoundJob {
  fj_id : N;
  fj_observed_at_unix_ts : N;
  fj_template_id : N;
  fj_version : N;
  fj_header_timestamp : N;
  fj_header_nonce : N;
  fj_bitcoin_block_hash_hex : str;
  fj_block_header_hex : str;
  fj_coinbase_tx_hex : str;
  fj_merkle_hashes_hex : list str;
  fj_block_tx_count : N;
  fj_op_return_payload_hex : str;
  fj_rsk_target_hex : str
}.

Record FoundState := MkFoundState {
  fs_pending : list FoundJob;
  fs_recent : list (str * str)
}.

Record ShareObservation := MkShareObservation {
  so_binding_id : N;
  so_observed_at_unix_ts : N;
  so_version : N;
  so_timestamp : N;
  so_nonce : N;
  so_full_extranonce : bytes
}.

Inductive Work := Share (observation : ShareObservation) | Wake.

Record CandidateContext := MkCandidateContext {
  cc_template_id : N;
  cc_desired : DesiredPair;
  cc_merkle_path : list bytes;
  cc_block_tx_count : N;
  cc_chain : ChainState;
  cc_coinbase_prefix : bytes;
  cc_coinbase_suffix : bytes
}.

Inductive ResolveContext :=
| Ready (context : CandidateContext)
| Incomplete
| Obsolete.

Record AcceptedPair := MkAcceptedPair {
  ap_payload_len_bytes : nat;
  ap_tx_out_len_bytes : nat;
  ap_replaced_pending : bool
}.

Inductive MergeMiningError :=
| EmptyPayload
| InvalidPayloadHex
| AmbiguousRskPayload
| PayloadTooLarge (len : nat)
| InvalidTarget
| OutputTooLarge (len : nat)
| InvalidTemplateOutputs
| InvalidRskCommitment
| TooManyTemplateOutputs
| TemplateOutputsTooLarge
| StateUnavailable.

#[export] Instance merge_mining_error_eq_dec : EqDecision MergeMiningError.
Proof. solve_decision. Defined.

(** [impl Display for MergeMiningError] *)
Definition error_to_string (e : MergeMiningError) : str :=
  match e with
  | EmptyPayload => lit "OP_RETURN payload cannot be empty"
  | InvalidPayloadHex => lit "OP_RETURN payload must be even-length hex"
  | AmbiguousRskPayload => lit "RSK work hash contains a second RSKBLOCK: marker"
  | PayloadTooLarge len =>
      lit "OP_RETURN payload is " ++ display_N (N.of_nat len)
      ++ lit " bytes; the maximum is " ++ display_N (N.of_nat MAX_PAYLOAD_BYTES)
  | InvalidTarget => lit "RSK target must be exactly 32 bytes of big-endian hex"
  | OutputTooLarge len =>
      lit "serialized OP_RETURN output is " ++ display_N (N.of_nat len)
      ++ lit " bytes; only " ++ display_N RESERVED_COINBASE_OUTPUT_BYTES
      ++ lit " bytes are reserved"
  | InvalidTemplateOutputs => lit "template contains invalid serialized coinbase outputs"
  | InvalidRskCommitment => lit "appended RSK commitment would not be selected by RskJ"
  | TooManyTemplateOutputs =>
      lit "template coinbase output count cannot be safely increased"
  | TemplateOutputsTooLarge => lit "modified template outputs exceed the SV2 field limit"
  | StateUnavailable => lit "merge-mining state is unavailable"
  end.

(** [Core]: the two mutexes and the atomic counters. *)
Record Core := MkCore {
  co_context : Mutex ContextState;
  co_found : Mutex FoundState;
  co_next_template_generation : N;
  co_next_binding_id : N;
  co_next_found_id : N;
  co_dropped_observations : N;
  co_queue_overflows : N;
  co_announcement_mismatches : N;
  co_observer_ready : bool
}.

(** The channel of the observer: the queued messages and the early shares of the
    thread that receives them, [None] once that thread has ended. *)
Record Channel := MkChannel {
  ch_queue : list Work;
  ch_worker : option (list ShareObservation)
}.

Record ObserverState := MkObserverState {
  ob_work_tx : option Channel;
  ob_retry_after : option N
}.

Record MergeMining := MkMergeMining { mm_core : Core; mm_observer : ObserverState }.

(** Field assignments of [Core]. *)
Definition with_co_context v c := MkCore v (co_found c) (co_next_template_generation c)
  (co_next_binding_id c) (co_next_found_id c) (co_dropped_observations c)
  (co_queue_overflows c) (co_announcement_mismatches c) (co_observer_ready c).
Definition with_co_found v c := MkCore (co_context c) v (co_next_template_generation c)
  (co_next_binding_id c) (co_next_found_id c) (co_dropped_observations c)
  (co_queue_overflows c) (co_announcement_mismatches c) (co_observer_ready c).
Definition with_next_template_generation v c := MkCore (co_context c) (co_found c) v
  (co_next_binding_id c) (co_next_found_id c) (co_dropped_observations c)
  (co_queue_overflows c) (co_announcement_mismatches c) (co_observer_ready c).
Definition with_next_binding_id v c := MkCore (co_context c) (co_found c)
  (co_next_template_generation c) v (co_next_found_id c) (co_dropped_observations c)
  (co_queue_overflows c) (co_announcement_mismatches c) (co_observer_ready c).
Definition with_next_found_id v c := MkCore (co_context c) (co_found c)
  (co_next_template_generation c) (co_next_binding_id c) v (co_dropped_observations c)
  (co_queue_overflows c) (co_announcement_mismatches c) (co_observer_ready c).
Definition with_dropped_observations v c := MkCore (co_context c) (co_found c)
  (co_next_template_generation c) (co_next_binding_id c) (co_next_found_id c) v
  (co_queue_overflows c) (co_announcement_mismatches c) (co_observer_ready c).
Definition with_queue_overflows v c := MkCore (co_context c) (co_found c)
  (co_next_template_generation c) (co_next_binding_id c) (co_next_found_id c)
  (co_dropped_observations c) v (co_announcement_mismatches c) (co_observer_ready c).
Definition with_announcement_mismatches v c := MkCore (co_context c) (co_found c)
  (co_next_template_generation c) (co_next_binding_id c) (co_next_found_id c)
  (co_dropped_observations c) (co_queue_overflows c) v (co_observer_ready c).
Definition with_observer_ready v c := MkCore (co_context c) (co_found c)
  (co_next_template_generation c) (co_next_binding_id c) (co_next_found_id c)
  (co_dropped_observations c) (co_queue_overflows c) (co_announcement_mismatches c) v.
Definition with_core c m := MkMergeMining c (mm_observer m).
Definition with_observer o m := MkMergeMining (mm_core m) o.

(** [AtomicU64::fetch_add(1, _)] *)
Definition fetch_add_1 (counter : N) : N := wrapping_add u64_max counter 1.

(** A section that runs [f] under the context mutex, skipped when the mutex is
    poisoned ([if let Ok(mut state) = self.core.context.lock()]). *)
Definition update_context (f : ContextState → ContextState) (m : MergeMining)
    : MergeMining :=
  match lock (co_context (mm_core m)) with
  | Some state =>
      with_core (with_co_context (store (co_context (mm_core m)) (f state)) (mm_core m)) m
  | None => m
  end.

(** ** The observer *)

(** What the outside world decides during one call: whether [try_lock] on the
    observer succeeds in [ensure_observer] and in [observer_sender], the clock
    (nanoseconds of [Instant], whose largest value is [instant_max]), whether a
    thread can be created, and the time of day in seconds. *)
Record ObserverEnv := MkObserverEnv {
  env_try_lock : bool;
  env_sender_try_lock : bool;
  env_now : N;
  env_spawn : bool;
  env_unix_timestamp : N
}.

Definition instant_max : N := 9223372036854775807999999999.
Definition OBSERVER_RETRY : N := 5000000000.

(** [MergeMining::ensure_observer] *)
Definition ensure_observer (env : ObserverEnv) (m : MergeMining) : bool * MergeMining :=
  let core := mm_core m in
  let observer := mm_observer m in
  if co_observer_ready core then (true, m)
  else if negb (env_try_lock env) then (false, m)
  else if co_observer_ready core then (true, m)
  else if match ob_retry_after observer with
          | Some retry_after => (env_now env <? retry_after)%N
          | None => false
          end then (false, m)
  else if env_spawn env then
    (true, MkMergeMining (with_observer_ready true core)
             (MkObserverState (Some (MkChannel [] (Some []))) None))
  else
    (false, MkMergeMining core
              (MkObserverState None (checked_add instant_max (env_now env) OBSERVER_RETRY))).

(** [MergeMining::observer_sender] *)
Definition observer_sender (env : ObserverEnv) (m : MergeMining) : option Channel :=
  if negb (co_observer_ready (mm_core m)) then None
  else if negb (env_sender_try_lock env) then None
  else ob_work_tx (mm_observer m).

(** [SyncSender::try_send] on a channel of capacity [MAX_PENDING_SHARES] *)
Inductive TrySendError := Full | Disconnected.

Definition try_send (work : Work) (channel : Channel) : result Channel TrySendError :=
  match ch_worker channel with
  | None => Err Disconnected
  | Some _ =>
      if MAX_PENDING_SHARES <=? length (ch_queue channel) then Err Full
      else Ok (MkChannel (ch_queue channel ++ [work]) (ch_worker channel))
  end.

Definition with_channel (channel : Channel) (m : MergeMining) : MergeMining :=
  with_observer (MkObserverState (Some channel) (ob_retry_after (mm_observer m))) m.

(** [MergeMining::wake_worker] *)
Definition wake_worker (env : ObserverEnv) (m : MergeMining) : MergeMining :=
  let '(ready, m) := ensure_observer env m in
  if negb ready then m
  else match observer_sender env m with
  | Some sender =>
      match try_send Wake sender with
      | Ok channel => with_channel channel m
      | Err _ => m
      end
  | None => m
  end.

(** [MergeMining::new] *)
Definition new_core : Core :=
  MkCore (new_mutex default_context) (new_mutex (MkFoundState [] [])) 1 1 1 0 0 0 false.
Definition new (env : ObserverEnv) : MergeMining :=
  (ensure_observer env (MkMergeMining new_core (MkObserverState None None))).2.

(** ** [DesiredPair::parse] *)
Section parse.
Context `{B : !BitcoinLib}.

(** The payload of the pair and its normalized text. *)
Definition parse_payload (data_hex : str) : result (bytes * str) MergeMiningError :=
  let payload_hex := to_ascii_lowercase (trim data_hex) in
  if str_len payload_hex =? 0 then Err EmptyPayload
  else if negb (str_len payload_hex mod 2 =? 0) then Err InvalidPayloadHex
  else
    let? payload := ok_or (vec_from_hex payload_hex) InvalidPayloadHex in
    if length payload =? 0 then Err EmptyPayload
    else if MAX_PAYLOAD_BYTES <? length payload then Err (PayloadTooLarge (length payload))
    else if is_rsk_payload payload
         && existsb is_tag (windows (length RSK_TAG) (drop (length RSK_TAG) payload))
    then Err AmbiguousRskPayload
    else Ok (payload, payload_hex).

(** The target of the pair, with or without its [0x] prefix. *)
Definition normalize_target (target_hex : str) : str :=
  let trimmed := trim target_hex in
  to_ascii_lowercase
    (match strip_prefix (lit "0x") trimmed with
     | Some rest => rest
     | None =>
         match strip_prefix (lit "0X") trimmed with
         | Some rest => rest
         | None => trimmed
         end
     end).

Definition parse_target (target_hex : str) : result (bytes * str) MergeMiningError :=
  let normalized_target := normalize_target target_hex in
  let? target_be := ok_or (vec_from_hex normalized_target) InvalidTarget in
  let? target_be := ok_or (to_array 32 target_be) InvalidTarget in
  Ok (reverse target_be, normalized_target).

(** [DesiredPair::parse] *)
Definition parse (data_hex target_hex : str) : result DesiredPair MergeMiningError :=
  let? (payload, payload_hex) := parse_payload data_hex in
  let? (target_le, target_text) := parse_target target_hex in
  let? push := ok_or (push_bytes_try_from payload) InvalidPayloadHex in
  let encoded := serialize_txout (mk_txout 0 (new_op_return push)) in
  if (RESERVED_COINBASE_OUTPUT_BYTES <? usize_of (length encoded))%N
  then Err (OutputTooLarge (length encoded))
  else Ok (MkDesiredPair payload payload_hex target_le target_text encoded).
End parse.

(** ** Methods of [MergeMining] *)
Section methods.
Context `{B : !BitcoinLib}.

(** [MergeMining::set_desired_pair] *)
Definition set_desired_pair (env : ObserverEnv) (m : MergeMining)
    (data_hex target_hex : str) : result AcceptedPair MergeMiningError * MergeMining :=
  match parse data_hex target_hex with
  | Err e => (Err e, m)
  | Ok desired =>
      let '(ready, m) := ensure_observer env m in
      if negb ready then (Err StateUnavailable, m)
      else match lock (co_context (mm_core m)) with
      | None => (Err StateUnavailable, m)
      | Some state =>
          let accepted := MkAcceptedPair (length (dp_payload desired))
            (length (dp_output desired)) (bool_decide (is_Some (cs_desired state))) in
          (Ok accepted, update_context (set_desired (Some desired)) m)
      end
  end.

(** [MergeMining::begin_template_session] *)
Definition begin_template_session (env : ObserverEnv) (m : MergeMining) : MergeMining :=
  wake_worker env (update_context clear_template_session m).

(** The decoding loop of [apply_to_template_with_output_limit]: the rest of the
    cursor and the marker of the last output equal to the desired one. *)
Fixpoint decode_outputs (count : nat) (output_bytes cursor : bytes)
    (desired : DesiredPair) (desired_tag_offset last : option nat)
    : result (bytes * option nat) MergeMiningError :=
  match count with
  | 0 => Ok (cursor, last)
  | S count =>
      let output_start := length output_bytes - length cursor in
      let? (output, cursor) :=
        ok_or (txout_consensus_decode cursor) InvalidTemplateOutputs in
      let last :=
        if bool_decide (serialize_txout output = dp_output desired)
        then (λ offset, output_start + offset) <$> desired_tag_offset
        else last in
      decode_outputs count output_bytes cursor desired desired_tag_offset last
  end.

(** The next outputs of the template, [None] when they stay as they are, with
    their number. *)
Definition next_template_outputs (template : NewTemplate) (desired : DesiredPair)
    (max_template_outputs : N) : result (N * option bytes) MergeMiningError :=
  let output_bytes := nt_coinbase_tx_outputs template in
  let locktime := le_bytes 4 (nt_coinbase_tx_locktime template) in
  let desired_tag_offset :=
    position is_tag (windows (length RSK_TAG) (dp_output desired)) in
  let? (cursor, last_desired_canonical_tag) :=
    decode_outputs (N.to_nat (nt_coinbase_tx_outputs_count template)) output_bytes
      output_bytes desired desired_tag_offset None in
  if negb (length cursor =? 0) then Err InvalidTemplateOutputs
  else
    let output_tail := output_bytes ++ locktime in
    let already_last :=
      is_rsk_payload (dp_payload desired)
      && raw_rsk_commitment_matches output_tail desired
      && bool_decide (last_raw_tag_position output_tail = last_desired_canonical_tag) in
    if already_last then
      if (max_template_outputs <? nt_coinbase_tx_outputs_count template)%N
      then Err TooManyTemplateOutputs
      else Ok (nt_coinbase_tx_outputs_count template, None)
    else
      let? count := ok_or (checked_add u32_max (nt_coinbase_tx_outputs_count template) 1)
                      TooManyTemplateOutputs in
      if (max_template_outputs <? count)%N then Err TooManyTemplateOutputs
      else
        let outputs := output_bytes ++ dp_output desired in
        let expected_tag_position :=
          (λ offset, length output_bytes + offset) <$> desired_tag_offset in
        let prospective_tail := outputs ++ locktime in
        if is_rsk_payload (dp_payload desired)
           && (negb (raw_rsk_commitment_matches prospective_tail desired)
               || negb (bool_decide (last_raw_tag_position prospective_tail
                                     = expected_tag_position)))
        then Err InvalidRskCommitment
        else if negb (b064k_fits outputs) then Err TemplateOutputsTooLarge
        else Ok (count, Some outputs).

(** The template's Merkle path as arrays. *)
Fixpoint merkle_path_of (path : list bytes) : result (list bytes) MergeMiningError :=
  match path with
  | [] => Ok []
  | sibling :: path =>
      let? sibling := ok_or (to_array 32 sibling) InvalidTemplateOutputs in
      let? path := merkle_path_of path in
      Ok (sibling :: path)
  end.

Definition with_outputs (outputs : bytes) (count : N) (template : NewTemplate)
    : NewTemplate :=
  MkNewTemplate (nt_template_id template) (nt_future_template template)
    (nt_version template) (nt_coinbase_tx_version template) (nt_coinbase_prefix template)
    (nt_coinbase_tx_input_sequence template) (nt_coinbase_tx_value_remaining template) count outputs (nt_coinbase_tx_locktime template)
    (nt_merkle_path template).

(** [MergeMining::apply_to_template_with_output_limit]: the result, the template
    after the call and the service after the call. *)
Definition apply_to_template_with_output_limit (env : ObserverEnv) (m : MergeMining)
    (template : NewTemplate) (reserved_bytes : nat) (max_template_outputs : N)
    : result bool MergeMiningError * NewTemplate * MergeMining :=
  match lock (co_context (mm_core m)) with
  | None => (Err StateUnavailable, template, m)
  | Some _ =>
      let m := update_context
        (λ state, invalidate_current_template state (nt_template_id template)) m in
      let '(ready, m) := ensure_observer env m in
      if negb ready then (Err StateUnavailable, template, m)
      else match cs_desired (guarded (co_context (mm_core m))) with
      | None => (Ok false, template, m)
      | Some desired =>
          if reserved_bytes <? length (dp_output desired)
          then (Err (OutputTooLarge (length (dp_output desired))), template, m)
          else match (let? outputs :=
                        next_template_outputs template desired max_template_outputs in
                      let? path := merkle_path_of (nt_merkle_path template) in
                      Ok (outputs, path)) with
          | Err e => (Err e, template, m)
          | Ok (next_count, next_outputs, merkle_path) =>
              match next_id (co_next_template_generation (mm_core m)) with
              | (None, next) =>
                  (Err StateUnavailable, template,
                   with_core (with_next_template_generation next (mm_core m)) m)
              | (Some generation, next) =>
                  let m := with_core (with_next_template_generation next (mm_core m)) m in
                  let state := guarded (co_context (mm_core m)) in
                  let chain := if nt_future_template template then None
                               else cs_active_chain state in
                  let draft := MkTemplateDraft (nt_template_id template) desired
                    merkle_path None chain in
                  let '(state, inserted) := insert_template state generation draft in
                  let m := update_context (λ _, state) m in
                  if negb inserted then (Ok false, template, m)
                  else match next_outputs with
                  | Some outputs =>
                      (Ok true, with_outputs outputs next_count template, m)
                  | None => (Ok true, template, m)
                  end
              end
          end
      end
  end.

(** [MergeMining::apply_to_template_with_pool_output_count] *)
Definition apply_to_template_with_pool_output_count (env : ObserverEnv) (m : MergeMining)
    (template : NewTemplate) (reserved_bytes : nat) (pool_output_count : N)
    : result bool MergeMiningError * NewTemplate * MergeMining :=
  match try_from u32_max pool_output_count with
  | None => (Err TooManyTemplateOutputs, template, m)
  | Some pool_output_count =>
      match checked_sub MAX_SINGLE_BYTE_COINBASE_OUTPUTS pool_output_count with
      | None => (Err TooManyTemplateOutputs, template, m)
      | Some max_template_outputs =>
          apply_to_template_with_output_limit env m template reserved_bytes
            max_template_outputs
      end
  end.

(** [MergeMining::discard_template_generation] *)
Definition discard_template_generation (m : MergeMining) (generation : N) : MergeMining :=
  update_context (λ state, remove_template_generation state generation) m.

(** [MergeMining::record_transaction_count] *)
Definition record_transaction_count (env : ObserverEnv) (m : MergeMining)
    (template_generation transaction_count : N) : MergeMining :=
  match block_tx_count_of transaction_count with
  | None => m
  | Some block_tx_count =>
      wake_worker env (update_context
        (λ state, record_block_tx_count state template_generation block_tx_count) m)
  end.

(** [MergeMining::record_chain_state] *)
Definition record_chain_state_ (env : ObserverEnv) (m : MergeMining)
    (template_id : N) (prev_hash : bytes) (n_bits : N) : MergeMining :=
  wake_worker env
    (update_context (λ state, record_chain_state state template_id prev_hash n_bits) m).

(** [MergeMining::template_generation] *)
Definition template_generation_ (m : MergeMining) (template_id : N) : option N :=
  match lock (co_context (mm_core m)) with
  | Some state => template_generation state template_id
  | None => None
  end.

(** [MergeMining::bind_job_generation] *)
Definition bind_job_generation (env : ObserverEnv) (m : MergeMining)
    (job_id template_generation : N) (coinbase_prefix coinbase_suffix : bytes)
    : bool * MergeMining :=
  match lock (co_context (mm_core m)) with
  | None => (false, m)
  | Some state =>
      match create_job_binding (co_next_binding_id (mm_core m)) state job_id
              template_generation coinbase_prefix coinbase_suffix with
      | (None, state, next) =>
          let m := update_context (λ _, state) m in
          (false, with_core (with_next_binding_id next (mm_core m)) m)
      | (Some binding_id, state, next) =>
          let state := announce_job state job_id (Some binding_id) in
          let m := update_context (λ _, state) m in
          (true, wake_worker env (with_core (with_next_binding_id next (mm_core m)) m))
      end
  end.

(** [MergeMining::announce_unbound_job] *)
Definition announce_unbound_job_ (m : MergeMining) (job_id : N) : MergeMining :=
  update_context (λ state, announce_unbound_job state job_id) m.

(** [MergeMining::claim_job_binding_] *)
Definition claim_job_binding_ (m : MergeMining) (job_id : N) (mark_pending : bool)
    : option N * MergeMining :=
  match lock (co_context (mm_core m)) with
  | None => (None, m)
  | Some state =>
      match claim_job_binding state job_id mark_pending with
      | None =>
          (None, with_core (with_announcement_mismatches
                   (fetch_add_1 (co_announcement_mismatches (mm_core m))) (mm_core m)) m)
      | Some (binding_id, state) => (binding_id, update_context (λ _, state) m)
      end
  end.

(** [MergeMining::claim_job_binding_pending] *)
Definition claim_job_binding_pending (m : MergeMining) (job_id : N)
    : option N * MergeMining := claim_job_binding_ m job_id true.

(** [MergeMining::set_active_job_binding], [MergeMining::clear_pending_job_binding] *)
Definition set_active_job_binding_ (m : MergeMining) (binding_id : option N)
    : MergeMining := update_context (λ state, set_active_job_binding state binding_id) m.
Definition clear_pending_job_binding_ (m : MergeMining) (binding_id : N) : MergeMining :=
  update_context (λ state, clear_pending_job_binding state binding_id) m.

(** [MergeMining::try_observe_share] *)
Definition try_observe_share (env : ObserverEnv) (m : MergeMining)
    (binding_id version timestamp nonce : N) (full_extranonce : bytes) : MergeMining :=
  let work := Share (MkShareObservation binding_id (env_unix_timestamp env) version
    timestamp nonce full_extranonce) in
  let dropped := with_core (with_dropped_observations
    (fetch_add_1 (co_dropped_observations (mm_core m))) (mm_core m)) m in
  match observer_sender env m with
  | Some sender =>
      match try_send work sender with
      | Ok channel => with_channel channel m
      | Err _ => dropped
      end
  | None => dropped
  end.

(** [MergeMining::take_found_job] *)
Definition take_found_job (env : ObserverEnv) (m : MergeMining)
    : result (option FoundJob) MergeMiningError * MergeMining :=
  let '(ready, m) := ensure_observer env m in
  if negb ready then (Err StateUnavailable, m)
  else match lock (co_found (mm_core m)) with
  | None => (Err StateUnavailable, m)
  | Some found =>
      let found' := MkFoundState (tail (fs_pending found)) (fs_recent found) in
      (Ok (head (fs_pending found)),
       with_core (with_co_found (store (co_found (mm_core m)) found') (mm_core m)) m)
  end.
End methods.

(** ** The observer thread *)
Section worker.
Context `{B : !BitcoinLib}.

(** [resolve_context] *)
Definition resolve_context (core : Core) (observation : ShareObservation)
    : ResolveContext :=
  match lock (co_context core) with
  | None => Obsolete
  | Some state =>
      match cs_jobs state !! so_binding_id observation with
      | None => Obsolete
      | Some job =>
          match cs_templates state !! jb_template_generation job with
          | None => Obsolete
          | Some template =>
              if negb (is_rsk_payload (dp_payload (td_desired template))) then Obsolete
              else match td_block_tx_count template, jb_chain job with
              | Some block_tx_count, Some chain =>
                  if negb (bool_decide (tree_height block_tx_count
                                        = Some (length (td_merkle_path template))))
                  then Obsolete
                  else Ready (MkCandidateContext (jb_template_id job)
                         (td_desired template) (td_merkle_path template) block_tx_count
                         chain (jb_coinbase_prefix job) (jb_coinbase_suffix job))
              | _, _ => Incomplete
              end
          end
      end
  end.

(** The coinbase of a share: the halves of the job around the extranonce, and
    the transaction with every witness cleared. *)
Definition coinbase_bytes (observation : ShareObservation) (context : CandidateContext)
    : bytes :=
  cc_coinbase_prefix context ++ so_full_extranonce observation
  ++ cc_coinbase_suffix context.
Definition clear_witnesses (tx : Transaction) : Transaction :=
  let '(rest, inputs, outputs) := tx in
  (rest, (λ input, (input.1, [])) <$> inputs, outputs).

(** [as i32] *)
Definition as_i32 (n : N) : Z :=
  if (n <=? i32_max)%N then Z.of_N n else (Z.of_N n - 4294967296)%Z.

(** The header of a share. *)
Definition candidate_header (observation : ShareObservation) (context : CandidateContext)
    (coinbase : Transaction) : Header :=
  MkHeader (as_i32 (so_version observation)) (ch_prev_hash (cc_chain context))
    (merkle_root_from_path (compute_txid coinbase) (cc_merkle_path context))
    (so_timestamp observation) (ch_n_bits (cc_chain context)) (so_nonce observation).

Definition found_job (id : N) (observation : ShareObservation)
    (context : CandidateContext) (coinbase : Transaction) : FoundJob :=
  let header := candidate_header observation context coinbase in
  MkFoundJob id (so_observed_at_unix_ts observation) (cc_template_id context)
    (so_version observation) (so_timestamp observation) (so_nonce observation)
    (block_hash_to_string (block_hash header)) (as_hex (serialize_header header))
    (as_hex (serialize_transaction coinbase))
    ((λ hash, as_hex (reverse hash)) <$> cc_merkle_path context)
    (cc_block_tx_count context) (dp_payload_hex (cc_desired context))
    (dp_target_hex (cc_desired context)).

(** The queueing of a found job at the end of [process_candidate]. *)
Definition queue_found_job (core : Core) (job : FoundJob) : Core :=
  match lock (co_found core) with
  | None => core
  | Some found =>
      let identity := (fj_block_header_hex job, fj_coinbase_tx_hex job) in
      if bool_decide (identity ∈ fs_recent found) then core
      else
        let recent := push_bounded MAX_DEDUP_IDENTITIES (fs_recent found) identity in
        let core :=
          if MAX_FOUND_JOBS <=? length (fs_pending found)
          then with_queue_overflows (fetch_add_1 (co_queue_overflows core)) core
          else core in
        let pending := push_bounded MAX_FOUND_JOBS (fs_pending found) job in
        with_co_found (store (co_found core) (MkFoundState pending recent)) core
  end.

(** [process_candidate] *)
Definition process_candidate (core : Core) (observation : ShareObservation)
    (context : CandidateContext) : Core :=
  match deserialize_transaction (coinbase_bytes observation context) with
  | None => core
  | Some coinbase =>
      let coinbase := clear_witnesses coinbase in
      let stripped_coinbase := serialize_transaction coinbase in
      if negb (has_canonical_last_rsk_commitment coinbase (cc_desired context))
         || negb (raw_rsk_commitment_matches stripped_coinbase (cc_desired context))
      then core
      else
        let header := candidate_header observation context coinbase in
        if (target_from (dp_target_le (cc_desired context))
            <? target_from (block_hash header))%N then core
        else match next_id (co_next_found_id core) with
        | (None, next) => with_next_found_id next core
        | (Some id, next) =>
            queue_found_job (with_next_found_id next core)
              (found_job id observation context coinbase)
        end
  end.

(** [handle_observation] *)
Definition handle_observation (core : Core) (observation : ShareObservation)
    (early : list ShareObservation) : Core * list ShareObservation :=
  match resolve_context core observation with
  | Ready context => (process_candidate core observation context, early)
  | Incomplete =>
      let core :=
        if MAX_EARLY_SHARES <=? length early
        then with_dropped_observations (fetch_add_1 (co_dropped_observations core)) core
        else core in
      (core, push_bounded MAX_EARLY_SHARES early observation)
  | Obsolete => (core, early)
  end.

(** [retry_early]: one attempt for each share that is queued at the start. *)
Fixpoint retry_attempts (attempts : nat) (core : Core) (early : list ShareObservation)
    : Core * list ShareObservation :=
  match attempts with
  | 0 => (core, early)
  | S attempts =>
      match early with
      | [] => (core, early)
      | observation :: early =>
          let '(core, early) := handle_observation core observation early in
          retry_attempts attempts core early
      end
  end.
Definition retry_early (core : Core) (early : list ShareObservation)
    : Core * list ShareObservation :=
  retry_attempts (length early) core early.

(** One turn of [worker_loop]: a received message, or the 250 ms timeout. *)
Definition worker_turn (core : Core) (early : list ShareObservation)
    (message : option Work) : Core * list ShareObservation :=
  match message with
  | Some (Share observation) =>
      let '(core, early) := handle_observation core observation early in
      retry_early core early
  | Some Wake | None => retry_early core early
  end.

(** The observer thread takes the oldest message of its channel. *)
Definition observer_step (m : MergeMining) : MergeMining :=
  match ob_work_tx (mm_observer m) with
  | Some channel =>
      match ch_worker channel with
      | Some early =>
          let '(core, early) :=
            worker_turn (mm_core m) early (head (ch_queue channel)) in
          with_channel (MkChannel (tail (ch_queue channel)) (Some early))
            (with_core core m)
      | None => m
      end
  | None => m
  end.

(** The observer thread ends: its receiver is dropped, and [ObserverLiveness]
    clears the flag. *)
Definition observer_exit (m : MergeMining) : MergeMining :=
  match ob_work_tx (mm_observer m) with
  | Some channel =>
      with_channel (MkChannel [] None)
        (with_core (with_observer_ready false (mm_core m)) m)
  | None => m
  end.
End worker.

(** ** Public functions and HTTP handlers *)
Section api.
Context `{B : !BitcoinLib}.

(** [configured] and [enabled], given the [API_SECRET] variable. *)
Definition configured (api_secret : option bytes) : bool :=
  match api_secret with
  | Some secret => negb (length secret =? 0)
  | None => false
  end.
Definition enabled (api_secret : option bytes) : bool := configured api_secret.

(** The free functions: they act on the global service when merge mining is
    enabled and the service exists. *)
Definition claim_job_binding_pending_global (api_secret : option bytes)
    (global : option MergeMining) (job_id : N) : option N * option MergeMining :=
  if negb (enabled api_secret) then (None, global)
  else match global with
  | None => (None, None)
  | Some m => let '(r, m) := claim_job_binding_pending m job_id in (r, Some m)
  end.
Definition set_active_job_binding_global (api_secret : option bytes)
    (global : option MergeMining) (binding_id : option N) : option MergeMining :=
  if negb (enabled api_secret) then global
  else (λ m, set_active_job_binding_ m binding_id) <$> global.
Definition clear_pending_job_binding_global (api_secret : option bytes)
    (global : option MergeMining) (binding_id : option N) : option MergeMining :=
  if negb (enabled api_secret) then global
  else match global, binding_id with
  | Some m, Some binding_id => Some (clear_pending_job_binding_ m binding_id)
  | _, _ => global
  end.

(** Status codes used by the handlers. *)
Definition OK : N := 200.
Definition ACCEPTED : N := 202.
Definition BAD_REQUEST : N := 400.
Definition UNAUTHORIZED : N := 401.
Definition SERVICE_UNAVAILABLE : N := 503.

Record ApiEnvelope (T : Type) := MkApiEnvelope {
  ae_success : bool;
  ae_message : option str;
  ae_data : option T
}.

Definition envelope_success {T} (data : option T) : ApiEnvelope T :=
  MkApiEnvelope T true None data.
Definition envelope_error {T} (message : str) : ApiEnvelope T :=
  MkApiEnvelope T false (Some message) None.

(** [authorize] *)
Definition authorize (api_secret : option bytes) (supplied : bytes)
    : result unit (N * str) :=
  match api_secret with
  | Some expected =>
      if length expected =? 0
      then Err (SERVICE_UNAVAILABLE, lit "merge-mining API secret is not configured")
      else if constant_time_eq expected supplied then Ok tt
      else Err (UNAUTHORIZED, lit "unauthorized")
  | None => Err (SERVICE_UNAVAILABLE, lit "merge-mining API secret is not configured")
  end.

Record SetPairRequest := MkSetPairRequest {
  sp_secret : bytes;
  sp_data_hex : str;
  sp_rsk_target_hex : option str
}.

(** [set_pair_api] *)
Definition set_pair_api (api_secret : option bytes) (env : ObserverEnv) (m : MergeMining)
    (request : SetPairRequest) : N * ApiEnvelope AcceptedPair * MergeMining :=
  match authorize api_secret (sp_secret request) with
  | Err (status, message) => (status, envelope_error message, m)
  | Ok _ =>
      match sp_rsk_target_hex request with
      | None => (BAD_REQUEST, envelope_error (error_to_string InvalidTarget), m)
      | Some rsk_target_hex =>
          match set_desired_pair env m (sp_data_hex request) rsk_target_hex with
          | (Ok accepted, m) => (ACCEPTED, envelope_success (Some accepted), m)
          | (Err StateUnavailable, m) =>
              (SERVICE_UNAVAILABLE,
               envelope_error (lit "merge-mining state is unavailable"), m)
          | (Err error, m) => (BAD_REQUEST, envelope_error (error_to_string error), m)
          end
      end
  end.

(** [poll_found_job_api] *)
Definition poll_found_job_api (api_secret : option bytes) (env : ObserverEnv)
    (m : MergeMining) (secret : bytes) : N * ApiEnvelope FoundJob * MergeMining :=
  match authorize api_secret secret with
  | Err (status, message) => (status, envelope_error message, m)
  | Ok _ =>
      match take_found_job env m with
      | (Ok job, m) => (OK, envelope_success job, m)
      | (Err error, m) => (SERVICE_UNAVAILABLE, envelope_error (error_to_string error), m)
      end
  end.
End api.
