(* ===== verification/MergeService.v ===== *)
(** * Merge mining: the service as a transition system

    Every public method of [MergeMining], the turns of the observer thread and
    its death are the calls of one transition system.  Each call acts on the
    context by a sequence of the locked sections of [MergeInvariant], so the
    invariant holds at every moment; the observer's queues have an invariant of
    their own. *)

From S2P Require Import Prelude Str Bitcoin RskCommitment MergeState MergeInvariant MergeMining.

#[local] Arguments run_op : simpl never.
#[local] Arguments insert_template : simpl never.
#[local] Arguments create_job_binding : simpl never.
#[local] Arguments claim_job_binding : simpl never.
#[local] Arguments remove_template_generation : simpl never.
#[local] Arguments next_id : simpl never.
#[local] Arguments fetch_add_1 : simpl never.

(** ** Calls *)
Inductive Call :=
| CSetDesiredPair (env : ObserverEnv) (data_hex target_hex : str)
| CBeginTemplateSession (env : ObserverEnv)
| CApplyToTemplate (env : ObserverEnv) (template : NewTemplate) (reserved_bytes : nat)
    (pool_output_count : N)
| CDiscard (generation : N)
| CRecordCount (env : ObserverEnv) (generation transaction_count : N)
| CRecordChain (env : ObserverEnv) (template_id : N) (prev_hash : bytes) (n_bits : N)
| CBindJob (env : ObserverEnv) (job_id generation : N) (prefix suffix : bytes)
| CAnnounceUnbound (job_id : N)
| CClaimPending (job_id : N)
| CSetActive (binding_id : option N)
| CClearPending (binding_id : N)
| CObserve (env : ObserverEnv) (binding_id version timestamp nonce : N)
    (full_extranonce : bytes)
| CTakeFound (env : ObserverEnv)
| CObserverStep
| CObserverExit.

Section service.
Context `{B : !BitcoinLib}.

Definition run_call (m : MergeMining) (c : Call) : MergeMining :=
  match c with
  | CSetDesiredPair env d t => (set_desired_pair env m d t).2
  | CBeginTemplateSession env => begin_template_session env m
  | CApplyToTemplate env t r n => (apply_to_template_with_pool_output_count env m t r n).2
  | CDiscard g => discard_template_generation m g
  | CRecordCount env g n => record_transaction_count env m g n
  | CRecordChain env t p n => record_chain_state_ env m t p n
  | CBindJob env j g p s => (bind_job_generation env m j g p s).2
  | CAnnounceUnbound j => announce_unbound_job_ m j
  | CClaimPending j => (claim_job_binding_pending m j).2
  | CSetActive b => set_active_job_binding_ m b
  | CClearPending b => clear_pending_job_binding_ m b
  | CObserve env b v t n e => try_observe_share env m b v t n e
  | CTakeFound env => (take_found_job env m).2
  | CObserverStep => observer_step m
  | CObserverExit => observer_exit m
  end.

(** ** The part of the service that the context's invariant is about *)
Definition world_of (m : MergeMining) : World :=
  MkWorld (guarded (co_context (mm_core m))) (co_next_template_generation (mm_core m))
    (co_next_binding_id (mm_core m)) ∅.

(** [m'] comes from [m] by locked sections. *)
Definition refines (m m' : MergeMining) : Prop :=
  ∃ ops, world_of m' = fold_left run_op ops (world_of m).

Lemma refines_same m m' : world_of m' = world_of m → refines m m'.
Proof. by exists []. Qed.
Lemma refines_trans m1 m2 m3 : refines m1 m2 → refines m2 m3 → refines m1 m3.
Proof. intros [o1 H1] [o2 H2]. exists (o1 ++ o2). by rewrite fold_left_app, <- H1. Qed.
Lemma refines_ops m m' ops : world_of m' = fold_left run_op ops (world_of m) → refines m m'.
Proof. by exists ops. Qed.

Lemma world_of_ensure_observer env m : world_of (ensure_observer env m).2 = world_of m.
Proof. unfold ensure_observer. by repeat case_if. Qed.

Lemma world_of_wake_worker env m : world_of (wake_worker env m) = world_of m.
Proof.
  unfold wake_worker. pose proof (world_of_ensure_observer env m) as H.
  destruct (ensure_observer env m) as [ready m']. simpl in H. rewrite <- H.
  destruct ready; [|done]. simpl. by repeat case_match.
Qed.

Lemma update_context_world f m :
  world_of (update_context f m) = world_of m ∨
  world_of (update_context f m) =
    with_context (world_of m) (f (guarded (co_context (mm_core m)))).
Proof.
  unfold update_context. destruct (lock _) as [s|] eqn:E; [right|by left].
  by apply lock_guarded in E as <-.
Qed.

Lemma refines_update f m ops :
  with_context (world_of m) (f (guarded (co_context (mm_core m)))) =
    fold_left run_op ops (world_of m) →
  refines m (update_context f m).
Proof.
  intros H. destruct (update_context_world f m) as [E|E].
  - by apply refines_same.
  - apply refines_ops with ops. by rewrite E.
Qed.

Lemma refines_wake env m m' : refines m m' → refines m (wake_worker env m').
Proof.
  intros H. eapply refines_trans; [exact H|]. apply refines_same, world_of_wake_worker.
Qed.

(** Poisoning is the only thing that disables an update, and no call poisons. *)
Lemma poisoned_update f m :
  poisoned (co_context (mm_core (update_context f m))) = poisoned (co_context (mm_core m)).
Proof. unfold update_context. by destruct (lock _). Qed.

Lemma context_ensure_observer env m :
  co_context (mm_core (ensure_observer env m).2) = co_context (mm_core m).
Proof. unfold ensure_observer. by repeat case_if. Qed.

Lemma lock_not_poisoned {A} (x : Mutex A) : poisoned x = false → lock x = Some (guarded x).
Proof. unfold lock. by intros ->. Qed.
Lemma lock_Some_not_poisoned {A} (x : Mutex A) a : lock x = Some a → poisoned x = false.
Proof. unfold lock. by destruct (poisoned x). Qed.

Lemma update_context_locked f m :
  poisoned (co_context (mm_core m)) = false →
  update_context f m =
    with_core (with_co_context (MkMutex (f (guarded (co_context (mm_core m)))) false)
      (mm_core m)) m.
Proof.
  intros H. unfold update_context, store. by rewrite lock_not_poisoned, H by done.
Qed.

(** ** Refinement of the methods with several sections *)
Lemma refines_set_desired env m d t : refines m (set_desired_pair env m d t).2.
Proof.
  unfold set_desired_pair. destruct (parse d t) as [desired|e]; [|by apply refines_same].
  pose proof (world_of_ensure_observer env m) as H.
  destruct (ensure_observer env m) as [ready m']. simpl in H.
  destruct ready; simpl; [|by apply refines_same].
  destruct (lock _) as [s|]; simpl; [|by apply refines_same].
  eapply refines_trans; [by apply refines_same|].
  by apply refines_update with [OpSetDesired desired].
Qed.

Lemma refines_apply env m t r max :
  refines m (apply_to_template_with_output_limit env m t r max).2.
Proof.
  unfold apply_to_template_with_output_limit.
  destruct (lock _) as [s0|] eqn:Hl; simpl; [|by apply refines_same].
  apply lock_Some_not_poisoned in Hl. set (m1 := update_context _ m).
  assert (refines m m1) as H1 by by apply refines_update with [OpInvalidate (nt_template_id t)].
  pose proof (world_of_ensure_observer env m1) as H2.
  pose proof (context_ensure_observer env m1) as Hc2.
  destruct (ensure_observer env m1) as [ready m2]. simpl in H2, Hc2.
  assert (poisoned (co_context (mm_core m2)) = false) as Hp.
  { rewrite Hc2. unfold m1. by rewrite poisoned_update. }
  assert (refines m m2) as H12 by (eapply refines_trans; [exact H1|by apply refines_same]).
  destruct ready; simpl; [|done].
  destruct (cs_desired _) as [d|]; simpl; [|done].
  case_if; simpl; [done|].
  destruct (rbind _ _) as [[[cnt outs] path]|e]; simpl; [|done].
  destruct (next_id _) as [[g|] next] eqn:En; simpl; last first.
  - eapply refines_trans; [exact H12|]. apply refines_ops with [OpReserveGeneration].
    unfold world_of. simpl. unfold run_op. simpl. by rewrite En.
  - set (m3 := with_core _ m2).
    set (dr := MkTemplateDraft (nt_template_id t) d path None _).
    destruct (insert_template (guarded (co_context (mm_core m2))) g dr)
      as [s' inserted] eqn:Ei.
    assert (refines m2 (update_context (λ _, s') m3)) as H3.
    { apply refines_ops with [OpReserveGeneration;
        OpInsertTemplate g (nt_template_id t) d path (nt_future_template t)].
      rewrite update_context_locked by done. unfold world_of, run_op. simpl.
      rewrite En. simpl. rewrite decide_True by set_solver. fold dr. rewrite Ei. simpl.
      f_equal. set_solver. }
    destruct inserted, outs; simpl; by eapply refines_trans.
Qed.

Lemma refines_bind_job env m j g p s :
  refines m (bind_job_generation env m j g p s).2.
Proof.
  unfold bind_job_generation.
  destruct (lock _) as [s0|] eqn:Hl; simpl; [|by apply refines_same].
  pose proof (lock_Some_not_poisoned _ _ Hl) as Hp. apply lock_guarded in Hl as <-.
  destruct (create_job_binding _ _ _ _ _ _) as [[[b|] s'] next] eqn:Ec; simpl;
    [apply refines_wake|]; rewrite update_context_locked by done;
    apply refines_ops with [OpBindJob j g p s]; unfold world_of, run_op; simpl;
    by rewrite Ec.
Qed.

Lemma refines_claim m j mark : refines m (claim_job_binding_ m j mark).2.
Proof.
  unfold claim_job_binding_.
  destruct (lock _) as [s0|] eqn:Hl; simpl; [|by apply refines_same].
  pose proof (lock_Some_not_poisoned _ _ Hl) as Hp. apply lock_guarded in Hl as <-.
  destruct (claim_job_binding _ _ _) as [[b s']|] eqn:Ec; simpl; [|by apply refines_same].
  rewrite update_context_locked by done. apply refines_ops with [OpClaim j mark].
  unfold world_of, run_op. simpl. by rewrite Ec.
Qed.

(** ** The observer thread never touches the context *)
Lemma world_of_try_observe env m b v t n e :
  world_of (try_observe_share env m b v t n e) = world_of m.
Proof. unfold try_observe_share. by repeat case_match. Qed.

Lemma world_of_take_found env m : world_of (take_found_job env m).2 = world_of m.
Proof.
  unfold take_found_job. pose proof (world_of_ensure_observer env m) as H.
  destruct (ensure_observer env m) as [ready m']. simpl in H. rewrite <- H.
  destruct ready; simpl; [|done]. by destruct (lock _).
Qed.

(** What the observer thread leaves alone in [Core]. *)
Definition same_context (c c' : Core) : Prop :=
  co_context c' = co_context c ∧
  co_next_template_generation c' = co_next_template_generation c ∧
  co_next_binding_id c' = co_next_binding_id c ∧
  co_announcement_mismatches c' = co_announcement_mismatches c ∧
  co_observer_ready c' = co_observer_ready c.

Lemma same_context_refl c : same_context c c.
Proof. done. Qed.
Lemma same_context_trans c1 c2 c3 :
  same_context c1 c2 → same_context c2 c3 → same_context c1 c3.
Proof. unfold same_context. intros. destruct_and!. repeat split; congruence. Qed.

Lemma same_context_process c o x : same_context c (process_candidate c o x).
Proof.
  unfold process_candidate, queue_found_job.
  by repeat (case_match; try (by apply same_context_refl)).
Qed.

Lemma same_context_handle c o early : same_context c (handle_observation c o early).1.
Proof.
  unfold handle_observation. destruct (resolve_context c o); simpl.
  - apply same_context_process.
  - by case_if.
  - done.
Qed.

Lemma same_context_retry n c early : same_context c (retry_attempts n c early).1.
Proof.
  revert c early. induction n as [|n IH]; intros c early; [done|]. simpl.
  destruct early as [|o early]; [done|].
  pose proof (same_context_handle c o early) as H.
  destruct (handle_observation c o early) as [c' early']. simpl in H.
  eapply same_context_trans; [exact H|apply IH].
Qed.

Lemma same_context_turn c early msg : same_context c (worker_turn c early msg).1.
Proof.
  unfold worker_turn, retry_early. destruct msg as [[o|]|]; try apply same_context_retry.
  pose proof (same_context_handle c o early) as H.
  destruct (handle_observation c o early) as [c' early']. simpl in H.
  eapply same_context_trans; [exact H|apply same_context_retry].
Qed.

Lemma world_of_observer_step m : world_of (observer_step m) = world_of m.
Proof.
  unfold observer_step. destruct (ob_work_tx _) as [ch|]; [|done].
  destruct (ch_worker ch) as [early|]; [|done].
  pose proof (same_context_turn (mm_core m) early (head (ch_queue ch))) as H.
  destruct (worker_turn _ _ _) as [c early']. simpl in H.
  destruct H as (Hc & Hg & Hb & _). unfold world_of. simpl. by rewrite Hc, Hg, Hb.
Qed.

Lemma world_of_observer_exit m : world_of (observer_exit m) = world_of m.
Proof. unfold observer_exit. by destruct (ob_work_tx _). Qed.

(** ** Refinement of every call *)
Lemma refines_call m c : refines m (run_call m c).
Proof.
  destruct c; simpl.
  - apply refines_set_desired.
  - by apply refines_wake, refines_update with [OpClearSession].
  - unfold apply_to_template_with_pool_output_count.
    destruct (try_from _ _); [|by apply refines_same].
    destruct (checked_sub _ _); [|by apply refines_same]. apply refines_apply.
  - by apply refines_update with [OpDiscard generation].
  - unfold record_transaction_count.
    destruct (block_tx_count_of _) as [n|] eqn:E; [|by apply refines_same].
    apply refines_wake, refines_update with [OpRecordCount generation transaction_count].
    unfold run_op. simpl. by rewrite E.
  - by apply refines_wake, refines_update with [OpRecordChain template_id prev_hash n_bits].
  - apply refines_bind_job.
  - by apply refines_update with [OpAnnounceUnbound job_id].
  - apply refines_claim.
  - by apply refines_update with [OpSetActive binding_id].
  - by apply refines_update with [OpClearPending binding_id].
  - apply refines_same, world_of_try_observe.
  - apply refines_same, world_of_take_found.
  - apply refines_same, world_of_observer_step.
  - apply refines_same, world_of_observer_exit.
Qed.

Lemma refines_calls cs m : refines m (fold_left run_call cs m).
Proof.
  revert m. induction cs as [|c cs IH]; intros m; [by apply refines_same|]. simpl.
  eapply refines_trans; [apply refines_call|apply IH].
Qed.

Lemma world_of_new env : world_of (new env) = initial_world.
Proof. unfold new. by rewrite world_of_ensure_observer. Qed.

Lemma run_calls_wf env cs : world_wf (world_of (fold_left run_call cs (new env))).
Proof.
  destruct (refines_calls cs (new env)) as [ops ->]. rewrite world_of_new.
  apply run_ops_wf, initial_world_wf.
Qed.
End service.
