(* ===== verification/MergeServiceProps.v ===== *)
(** * Properties of the merge-mining service

    Refinement of the context's sections by every call, bounds of the found-job queue
    (where its jobs come from is in [MergeProvenance]), order of the early shares, retries of the observer, and
    the authorization of the HTTP handlers. *)

From Stdlib Require Import Sorting.Sorted.
From S2P Require Import Prelude Str Bitcoin BitcoinModel RskCommitment MergeState MergeInvariant MergeMining MergeService.

#[local] Arguments next_id : simpl never.
#[local] Arguments push_bounded : simpl never.
#[local] Arguments fetch_add_1 : simpl never.

(** ** Bounded queues *)
Lemma push_bounded_suffix {A} small large (l k : list A) x :
  0 < small < large → length l ≤ small → l `suffix_of` k →
  push_bounded small l x `suffix_of` push_bounded large k x.
Proof.
  intros Hs Hl [p ->]. unfold push_bounded.
  destruct (Nat.leb_spec large (length (p ++ l))) as [Hk|Hk];
    destruct (Nat.leb_spec small (length l)) as [Hll|Hll];
    rewrite ?length_app in Hk.
  - destruct p as [|a p]; simpl in Hk; [lia|]. destruct l as [|b l]; simpl.
    + exists p. by rewrite app_nil_r.
    + exists (p ++ [b]). simpl. by rewrite <- !(assoc_L (++)).
  - destruct p as [|a p]; simpl in Hk; [lia|]. exists p. simpl. by rewrite (assoc_L (++)).
  - destruct l as [|b l]; simpl; [exists p; by rewrite app_nil_r|].
    exists (p ++ [b]). by rewrite <- !(assoc_L (++)).
  - exists p. by rewrite (assoc_L (++)).
Qed.

Lemma tail_suffix {A} (l k : list A) : l `suffix_of` k → tail l `suffix_of` k.
Proof.
  intros [p ->]. destruct l as [|a l]; simpl; [by exists (p ++ []); rewrite !app_nil_r|].
  exists (p ++ [a]). by rewrite <- (assoc_L (++)).
Qed.

Lemma NoDup_push_bounded {A} cap (l : list A) x :
  NoDup l → x ∉ l → NoDup (push_bounded cap l x).
Proof.
  intros Hl Hx. unfold push_bounded. apply NoDup_app. split; [|split].
  - case_if; [|done]. destruct l; [done|]. by apply NoDup_cons in Hl as [_ ?].
  - intros y Hy ->%list_elem_of_singleton. apply Hx. case_if; [|done].
    destruct l; [done|]. by right.
  - apply NoDup_singleton.
Qed.

(** ** Found jobs *)
Section found.
Context `{B : !BitcoinLib}.

Definition identity (job : FoundJob) : str * str :=
  (fj_block_header_hex job, fj_coinbase_tx_hex job).

Record found_wf (core : Core) (found : FoundState) : Prop := {
  fw_pending : length (fs_pending found) ≤ MAX_FOUND_JOBS;
  fw_recent : length (fs_recent found) ≤ MAX_DEDUP_IDENTITIES;
  fw_nodup : NoDup (fs_recent found);
  fw_suffix : (identity <$> fs_pending found) `suffix_of` fs_recent found;
  fw_sorted : StronglySorted N.lt (fj_id <$> fs_pending found);
  fw_ids job : job ∈ fs_pending found → (0 < fj_id job < co_next_found_id core)%N
}.

Definition core_found_wf (core : Core) : Prop := found_wf core (guarded (co_found core)).

Lemma fmap_push_bounded {A C} (f : A → C) cap l x :
  f <$> push_bounded cap l x = push_bounded cap (f <$> l) (f x).
Proof.
  unfold push_bounded. rewrite length_fmap, fmap_app.
  by destruct (cap <=? length l), l.
Qed.

Lemma StronglySorted_push_bounded cap l x :
  StronglySorted N.lt l → (∀ y, y ∈ l → (y < x)%N) →
  StronglySorted N.lt (push_bounded cap l x).
Proof.
  intros Hs Hlt. unfold push_bounded.
  set (l' := if cap <=? length l then tail l else l).
  assert (StronglySorted N.lt l' ∧ ∀ y, y ∈ l' → (y < x)%N) as [Hs' Hlt'].
  { unfold l'. case_if; [|done]. destruct l as [|a l]; [done|]. simpl.
    apply StronglySorted_inv in Hs as [? _]. split; [done|]. intros. apply Hlt. by right. }
  clear Hs Hlt. clearbody l'. induction l' as [|a l' IH]; simpl.
  { repeat constructor. }
  apply StronglySorted_inv in Hs' as [Hs' Ha]. constructor.
  - apply IH; [done|]. intros. apply Hlt'. by right.
  - apply Forall_app. split; [done|]. repeat constructor. apply Hlt'. left.
Qed.

Lemma queue_found_job_wf core id next job :
  core_found_wf core → next_id (co_next_found_id core) = (Some id, next) →
  fj_id job = id →
  core_found_wf (queue_found_job (with_next_found_id next core) job).
Proof.
  intros [Hp Hr Hnd Hsuf Hs Hids] [-> [-> [Hpos Hmax]]]%next_id_Some Hid.
  assert (core_found_wf (with_next_found_id (co_next_found_id core + 1) core)) as Hnew.
  { split; try done. simpl. intros j Hj%Hids. lia. }
  unfold queue_found_job. simpl.
  destruct (lock (co_found core)) as [f|] eqn:Hf; [|done]. apply lock_guarded in Hf as <-.
  set (found := guarded (co_found core)) in *. fold (identity job).
  case_bool_decide as Hin; [done|].
  assert (∀ c : Core, co_next_found_id c = (co_next_found_id core + 1)%N →
    found_wf c (MkFoundState (push_bounded MAX_FOUND_JOBS (fs_pending found) job)
      (push_bounded MAX_DEDUP_IDENTITIES (fs_recent found) (identity job)))) as Hw.
  { intros c Hc. split; simpl; rewrite ?fmap_push_bounded.
    - apply length_push_bounded; [unfold MAX_FOUND_JOBS; lia|done].
    - apply length_push_bounded; [unfold MAX_DEDUP_IDENTITIES; lia|done].
    - by apply NoDup_push_bounded.
    - apply push_bounded_suffix; [unfold MAX_FOUND_JOBS, MAX_DEDUP_IDENTITIES; lia| |done].
      by rewrite length_fmap.
    - apply StronglySorted_push_bounded; [done|]. intros y (j & -> & Hj)%list_elem_of_fmap.
      apply Hids in Hj. lia.
    - intros j [Hj| ->]%elem_of_push_bounded; rewrite Hc; [apply Hids in Hj|]; lia. }
  unfold core_found_wf. case_if; simpl; by apply Hw.
Qed.

Lemma process_candidate_wf core o x :
  core_found_wf core → core_found_wf (process_candidate core o x).
Proof.
  intros Hw. unfold process_candidate. destruct (deserialize_transaction _) as [raw|]; [|done].
  case_if; [done|]. case_if; [done|].
  destruct (next_id _) as [[id|] next] eqn:En; [by eapply queue_found_job_wf|].
  destruct Hw. split; try done. simpl. intros j Hj.
  apply next_id_le in En. specialize (fw_ids0 j Hj). lia.
Qed.

Lemma core_found_wf_same c c' :
  core_found_wf c → co_found c' = co_found c →
  co_next_found_id c' = co_next_found_id c → core_found_wf c'.
Proof. intros Hw Hf Hn. unfold core_found_wf. rewrite Hf. destruct Hw. split; rewrite ?Hn; done. Qed.

Lemma handle_observation_wf core o early :
  core_found_wf core → length early ≤ MAX_EARLY_SHARES →
  core_found_wf (handle_observation core o early).1 ∧
  length (handle_observation core o early).2 ≤ MAX_EARLY_SHARES.
Proof.
  intros Hw Hl. unfold handle_observation.
  destruct (resolve_context core o) eqn:Hx; simpl; [|split|done].
  - split; [|done]. by apply process_candidate_wf.
  - case_if; [|done]. by eapply core_found_wf_same.
  - apply length_push_bounded; [unfold MAX_EARLY_SHARES; lia|done].
Qed.

Lemma retry_attempts_wf n core early :
  core_found_wf core → length early ≤ MAX_EARLY_SHARES →
  core_found_wf (retry_attempts n core early).1 ∧
  length (retry_attempts n core early).2 ≤ MAX_EARLY_SHARES.
Proof.
  revert core early. induction n as [|n IH]; intros core early Hw Hl; [done|]. simpl.
  destruct early as [|o early]; [done|]. simpl in Hl.
  destruct (handle_observation_wf core o early Hw ltac:(lia)) as [H1 H2].
  destruct (handle_observation core o early) as [c e]. by apply IH.
Qed.

Lemma worker_turn_wf core early msg :
  core_found_wf core → length early ≤ MAX_EARLY_SHARES →
  core_found_wf (worker_turn core early msg).1 ∧
  length (worker_turn core early msg).2 ≤ MAX_EARLY_SHARES.
Proof.
  intros Hw Hl. unfold worker_turn, retry_early.
  destruct msg as [[o|]|]; try by apply retry_attempts_wf.
  destruct (handle_observation_wf core o early Hw Hl) as [H1 H2].
  destruct (handle_observation core o early) as [c e]. by apply retry_attempts_wf.
Qed.

(** The observer: bounded queues, and found jobs that are proofs. *)
Definition channel_wf (ch : Channel) : Prop :=
  length (ch_queue ch) ≤ MAX_PENDING_SHARES ∧
  ∀ early, ch_worker ch = Some early → length early ≤ MAX_EARLY_SHARES.

Record service_wf (m : MergeMining) : Prop := {
  sw_found : core_found_wf (mm_core m);
  sw_channel ch : ob_work_tx (mm_observer m) = Some ch → channel_wf ch
}.

Lemma ensure_observer_wf env m : service_wf m → service_wf (ensure_observer env m).2.
Proof.
  intros [Hf Hc]. unfold ensure_observer.
  destruct (co_observer_ready _); [by split|]. destruct (env_try_lock env); [|by split].
  simpl. case_if; [by split|]. destruct (env_spawn env); [|by split].
  split; [by eapply core_found_wf_same|].
  simpl. intros ch [= <-]. split; simpl; [lia|]. intros early [= <-]. simpl. lia.
Qed.

Lemma try_send_wf w ch ch' : channel_wf ch → try_send w ch = Ok ch' → channel_wf ch'.
Proof.
  intros [Hq He]. unfold try_send. destruct (ch_worker ch) as [early|] eqn:Hw; [|done].
  case_if; [done|]. bool_to_prop. intros [= <-]. split; simpl.
  - rewrite length_app. simpl. lia.
  - by intros early' [= <-]; apply He.
Qed.

Lemma with_channel_wf ch m : service_wf m → channel_wf ch → service_wf (with_channel ch m).
Proof. intros [Hf _] Hc. split; [done|]. by intros ch' [= <-]. Qed.

Lemma wake_worker_wf env m : service_wf m → service_wf (wake_worker env m).
Proof.
  intros Hm. apply (ensure_observer_wf env) in Hm. unfold wake_worker.
  destruct (ensure_observer env m) as [ready m']. simpl in Hm.
  destruct ready; [|done]. simpl. unfold observer_sender. repeat (case_match; try done).
  apply with_channel_wf; [done|]. eapply try_send_wf; [|done].
  repeat case_match; try done. by eapply (sw_channel _ Hm).
Qed.

Lemma service_wf_core c m :
  service_wf m → co_found c = co_found (mm_core m) →
  co_next_found_id c = co_next_found_id (mm_core m) → service_wf (with_core c m).
Proof. intros [Hf Hc] ??. split; [|done]. by eapply core_found_wf_same. Qed.

Lemma update_context_service_wf f m : service_wf m → service_wf (update_context f m).
Proof.
  intros Hm. unfold update_context. case_match; [|done]. by apply service_wf_core.
Qed.
End found.

#[export] Hint Resolve ensure_observer_wf wake_worker_wf update_context_service_wf : dmnd.

Section service_props.
Context `{B : !BitcoinLib}.

Lemma core_update_apply_wf env m t r max :
  service_wf m → service_wf (apply_to_template_with_output_limit env m t r max).2.
Proof.
  intros Hm. unfold apply_to_template_with_output_limit.
  destruct (lock _); simpl; [|done].
  set (m1 := update_context _ m).
  assert (service_wf m1) as H1 by (by apply update_context_service_wf).
  apply (ensure_observer_wf env) in H1.
  destruct (ensure_observer env m1) as [ready m2]. simpl in H1.
  destruct ready; simpl; [|done]. destruct (cs_desired _); simpl; [|done].
  case_if; simpl; [done|]. destruct (rbind _ _) as [[[cnt outs] path]|e]; simpl; [|done].
  destruct (next_id _) as [[g|] next]; simpl; [|by apply service_wf_core].
  destruct (insert_template _ _ _) as [s' inserted].
  assert (service_wf (update_context (λ _, s')
    (with_core (with_next_template_generation next (mm_core m2)) m2))) as H2.
  { apply update_context_service_wf. by apply service_wf_core. }
  by destruct inserted, outs.
Qed.

Lemma observer_step_wf m : service_wf m → service_wf (observer_step m).
Proof.
  intros Hm. unfold observer_step. destruct (ob_work_tx _) as [ch|] eqn:Hch; [|done].
  destruct (ch_worker ch) as [early|] eqn:He; [|done].
  destruct (sw_channel _ Hm _ Hch) as [Hq Hearly].
  destruct (worker_turn_wf (mm_core m) early (head (ch_queue ch)) (sw_found _ Hm)
    (Hearly _ He)) as [Hc Hl].
  destruct (worker_turn _ _ _) as [c early']. split; [done|].
  intros ch' [= <-]. split; simpl.
  - destruct (ch_queue ch); simpl in *; lia.
  - by intros early'' [= <-].
Qed.

Lemma take_found_wf env m : service_wf m → service_wf (take_found_job env m).2.
Proof.
  intros Hm. apply (ensure_observer_wf env) in Hm. unfold take_found_job.
  destruct (ensure_observer env m) as [ready m']. simpl in Hm.
  destruct ready; simpl; [|done].
  destruct (lock (co_found (mm_core m'))) as [f|] eqn:Hf; simpl; [|done].
  apply lock_guarded in Hf as <-. destruct Hm as [[Hp Hr Hnd Hsuf Hs Hids] Hc].
  split; [|done]. unfold core_found_wf. simpl.
  assert (∀ j, j ∈ tail (fs_pending (guarded (co_found (mm_core m')))) →
    j ∈ fs_pending (guarded (co_found (mm_core m')))) as Htl.
  { destruct (fs_pending _); [done|]. intros j ?. by right. }
  split; simpl; auto.
  - destruct (fs_pending _); simpl in *; lia.
  - assert (identity <$> tail (fs_pending (guarded (co_found (mm_core m')))) =
      tail (identity <$> fs_pending (guarded (co_found (mm_core m'))))) as ->
      by by destruct (fs_pending _).
    by apply tail_suffix.
  - destruct (fs_pending (guarded (co_found (mm_core m')))) as [|a l]; [done|].
    by apply StronglySorted_inv in Hs as [? _].
Qed.

Lemma run_call_wf m c : service_wf m → service_wf (run_call m c).
Proof.
  intros Hm. destruct c; simpl; auto with dmnd.
  - unfold set_desired_pair. destruct (parse _ _); [|done].
    apply (ensure_observer_wf env) in Hm. destruct (ensure_observer env m) as [ready m'].
    simpl in Hm. destruct ready; simpl; [|done]. destruct (lock _); simpl; auto with dmnd.
  - unfold begin_template_session. auto with dmnd.
  - unfold apply_to_template_with_pool_output_count. destruct (try_from _ _); [|done].
    destruct (checked_sub _ _); [|done]. by apply core_update_apply_wf.
  - unfold discard_template_generation. auto with dmnd.
  - unfold record_transaction_count. destruct (block_tx_count_of _); auto with dmnd.
  - unfold record_chain_state_. auto with dmnd.
  - unfold bind_job_generation. destruct (lock _); simpl; [|done].
    destruct (create_job_binding _ _ _ _ _ _) as [[[b|] s'] next]; simpl.
    + apply wake_worker_wf, service_wf_core; auto with dmnd.
    + apply service_wf_core; auto with dmnd.
  - unfold announce_unbound_job_. auto with dmnd.
  - unfold claim_job_binding_pending, claim_job_binding_. destruct (lock _); simpl; [|done].
    destruct (claim_job_binding _ _ _) as [[b s']|]; simpl; auto with dmnd.
    by apply service_wf_core.
  - unfold set_active_job_binding_. auto with dmnd.
  - unfold clear_pending_job_binding_. auto with dmnd.
  - unfold try_observe_share, observer_sender.
    destruct (negb _); [by apply service_wf_core|].
    destruct (negb _); [by apply service_wf_core|].
    destruct (ob_work_tx _) as [ch|] eqn:Hch; [|by apply service_wf_core].
    destruct (try_send _ _) eqn:Hs; [|by apply service_wf_core].
    apply with_channel_wf; [done|]. eapply try_send_wf; [|done].
    by apply (sw_channel _ Hm).
  - by apply take_found_wf.
  - by apply observer_step_wf.
  - unfold observer_exit. destruct (ob_work_tx _); [|done].
    apply with_channel_wf; [by apply service_wf_core|]. split; simpl; [lia|done].
Qed.

Lemma new_wf env : service_wf (new env).
Proof.
  apply ensure_observer_wf. split; simpl; [|done]. unfold core_found_wf. simpl.
  split; simpl; try lia; try done; try apply NoDup_nil_2; try by intros ? ?%elem_of_nil.
  constructor.
Qed.

Lemma run_calls_service_wf cs m : service_wf m → service_wf (fold_left run_call cs m).
Proof.
  revert m. induction cs as [|c cs IH]; intros m Hm; [done|]. by apply IH, run_call_wf.
Qed.

(** ** Early shares *)

(** Resolution depends on the context only. *)
Lemma resolve_same_context c c' o :
  same_context c c' → resolve_context c' o = resolve_context c o.
Proof. intros (H & _). unfold resolve_context. by rewrite H. Qed.

Definition incomplete (core : Core) (o : ShareObservation) : bool :=
  match resolve_context core o with Incomplete => true | _ => false end.

Lemma retry_attempts_filter c core todo kept :
  same_context c core → length todo + length kept ≤ MAX_EARLY_SHARES →
  (retry_attempts (length todo) core (todo ++ kept)).2 = kept ++ retain (incomplete c) todo.
Proof.
  revert core kept. induction todo as [|o todo IH]; intros core kept Hsame Hl; simpl.
  { by rewrite app_nil_r. }
  simpl in Hl. unfold handle_observation. rewrite (resolve_same_context _ _ _ Hsame).
  rewrite retain_cons. unfold incomplete at 1. destruct (resolve_context c o) eqn:Ho.
  - apply IH; [|lia]. eapply same_context_trans; [exact Hsame|]. apply same_context_process.
  - unfold push_bounded.
    destruct (Nat.leb_spec MAX_EARLY_SHARES (length (todo ++ kept))) as [H|_];
      [rewrite length_app in H; lia|].
    rewrite <- (assoc_L (++)), IH; [by rewrite <- (assoc_L (++))|done|].
    rewrite length_app. simpl. lia.
  - apply IH; [done|lia].
Qed.

(** ** Theorems *)

(** C25: the service refines the locked sections: after any sequence of public
    calls, observer turns and observer deaths, from any start, the context and
    the identifier counters are those of a sequence of locked sections on the
    initial state, so they satisfy the invariant of those sections. *)
Theorem service_refines_sections env calls :
  let m := fold_left run_call calls (new env) in
  (∃ ops, world_of m = fold_left run_op ops initial_world) ∧
  ctx_wf (guarded (co_context (mm_core m))).
Proof.
  simpl. split.
  - destruct (refines_calls calls (new env)) as [ops ->]. rewrite world_of_new. by exists ops.
  - apply (ww_context _ (run_calls_wf env calls)).
Qed.

(** The found-job queue is bounded and free of duplicates: at most 32 jobs
    wait, in increasing order of identifier, with pairwise different headers and
    coinbases, and at most 128 identities are remembered. *)
Theorem found_queue_invariant env calls :
  let found := guarded (co_found (mm_core (fold_left run_call calls (new env)))) in
  length (fs_pending found) ≤ MAX_FOUND_JOBS ∧
  length (fs_recent found) ≤ MAX_DEDUP_IDENTITIES ∧
  NoDup (identity <$> fs_pending found) ∧
  StronglySorted N.lt (fj_id <$> fs_pending found).
Proof.
  destruct (sw_found _ (run_calls_service_wf calls _ (new_wf env)))
    as [Hp Hr Hnd [p Hsuf] Hs _]. repeat split; try done.
  rewrite Hsuf in Hnd. by apply NoDup_app in Hnd as (_ & _ & ?).
Qed.

(** Retrying the early shares keeps exactly those whose context is still
    incomplete, in their order, and drops none of them. *)
Theorem retry_early_keeps_incomplete core early :
  length early ≤ MAX_EARLY_SHARES →
  (retry_early core early).2 = retain (incomplete core) early.
Proof.
  intros Hl. unfold retry_early.
  rewrite <- (app_nil_r early) at 2. rewrite (retry_attempts_filter core); [done|done|].
  simpl. lia.
Qed.

(** A share that reaches the observer is queued exactly when it is a new
    proof: its coinbase parses and carries the commitment, its hash meets the
    target, an identifier is left and its identity is not among the recent ones;
    it then goes to the back of the queue, displacing the oldest job of a full
    one, and in every other case the queue is unchanged. *)
Theorem candidate_queued_iff_proof core observation context found :
  lock (co_found core) = Some found →
  let accepted raw id :=
    let coinbase := clear_witnesses raw in
    deserialize_transaction (coinbase_bytes observation context) = Some raw ∧
    has_canonical_last_rsk_commitment coinbase (cc_desired context) = true ∧
    raw_rsk_commitment_matches (serialize_transaction coinbase) (cc_desired context) = true ∧
    (target_from (block_hash (candidate_header observation context coinbase))
       <= target_from (dp_target_le (cc_desired context)))%N ∧
    (next_id (co_next_found_id core)).1 = Some id ∧
    identity (found_job id observation context coinbase) ∉ fs_recent found in
  let core' := process_candidate core observation context in
  (∀ raw id, accepted raw id →
     let job := found_job id observation context (clear_witnesses raw) in
     lock (co_found core') = Some (MkFoundState
       (push_bounded MAX_FOUND_JOBS (fs_pending found) job)
       (push_bounded MAX_DEDUP_IDENTITIES (fs_recent found) (identity job)))) ∧
  ((∀ raw id, ¬ accepted raw id) → lock (co_found core') = Some found).
Proof.
  intros Hf accepted core'. unfold core', process_candidate. split.
  - intros raw id (-> & Hcan & Hraw & Ht & Hid & Hnew). rewrite Hcan, Hraw. simpl.
    apply N.ltb_ge in Ht as ->. destruct (next_id _) as [[?|] next]; simplify_eq/=.
    unfold queue_found_job. simpl. rewrite Hf, bool_decide_false by done.
    case_if; simpl; unfold lock, store in *; simpl; by destruct (poisoned _).
  - intros Hno. destruct (deserialize_transaction _) as [raw|] eqn:Hraw; [|done].
    case_if; [done|]. bool_to_prop. case_if; [done|]. bool_to_prop.
    destruct (next_id _) as [[id|] next] eqn:Hid; [|done].
    unfold queue_found_job. simpl. rewrite Hf.
    case_bool_decide as Hin; [done|]. exfalso. by apply (Hno raw id).
Qed.

(** A failed start of the observer is retried: for five seconds no call
    tries again, and from then on the first call that gets the lock starts it. *)
Theorem observer_retried_after_backoff env m :
  co_observer_ready (mm_core m) = false → env_try_lock env = true →
  env_spawn env = false → (env_now env + OBSERVER_RETRY <= instant_max)%N →
  (∀ retry, ob_retry_after (mm_observer m) = Some retry → (retry <= env_now env)%N) →
  let m' := (ensure_observer env m).2 in
  (ensure_observer env m).1 = false ∧
  (∀ env', (env_now env' < env_now env + OBSERVER_RETRY)%N →
     ensure_observer env' m' = (false, m')) ∧
  (∀ env', (env_now env + OBSERVER_RETRY <= env_now env')%N →
     env_try_lock env' = true → env_spawn env' = true →
     (ensure_observer env' m').1 = true ∧
     co_observer_ready (mm_core (ensure_observer env' m').2) = true).
Proof.
  intros Hr Hl Hs Hmax Hretry.
  assert (ensure_observer env m = (false, MkMergeMining (mm_core m)
    (MkObserverState None (Some (env_now env + OBSERVER_RETRY)%N)))) as ->.
  { unfold ensure_observer. rewrite Hr, Hl, Hs. simpl.
    assert (checked_add instant_max (env_now env) OBSERVER_RETRY =
      Some (env_now env + OBSERVER_RETRY)%N) as -> by by apply checked_add_Some.
    destruct (ob_retry_after _) as [r|] eqn:E; [|done].
    specialize (Hretry _ eq_refl). apply N.ltb_ge in Hretry as ->. done. }
  split; [done|]. split; intros env' Hnow; unfold ensure_observer; simpl; rewrite Hr.
  - apply N.ltb_lt in Hnow as ->. by destruct (env_try_lock env').
  - intros -> ->. simpl. apply N.ltb_ge in Hnow as ->. done.
Qed.

(** Observing a share never disturbs share handling: it either goes to the
    back of the observer's queue or is counted as dropped; the context, the
    found jobs and the identifiers are untouched either way. *)
Theorem observe_share_accounted env m b v t n e :
  let m' := try_observe_share env m b v t n e in
  let work := Share (MkShareObservation b (env_unix_timestamp env) v t n e) in
  world_of m' = world_of m ∧ co_found (mm_core m') = co_found (mm_core m) ∧
  ((∃ ch, ob_work_tx (mm_observer m) = Some ch ∧ length (ch_queue ch) < MAX_PENDING_SHARES ∧
      ob_work_tx (mm_observer m') =
        Some (MkChannel (ch_queue ch ++ [work]) (ch_worker ch)) ∧
      co_dropped_observations (mm_core m') = co_dropped_observations (mm_core m)) ∨
   (mm_observer m' = mm_observer m ∧
      co_dropped_observations (mm_core m') =
        fetch_add_1 (co_dropped_observations (mm_core m)))).
Proof.
  simpl. split; [apply world_of_try_observe|].
  unfold try_observe_share, observer_sender.
  destruct (negb _); [split; [done|]; by right|].
  destruct (negb _); [split; [done|]; by right|].
  destruct (ob_work_tx _) as [ch|]; [|split; [done|]; by right].
  unfold try_send. destruct (ch_worker ch) as [early|] eqn:He; [|split; [done|]; by right].
  case_if; [split; [done|]; by right|]. bool_to_prop.
  split; [done|]. left. exists ch. rewrite He. done.
Qed.

(** Without the configured secret the HTTP handlers change nothing and
    reveal nothing: any other secret, and any secret while none is configured, is
    refused with 401 or 503 and no data. *)
Theorem handlers_require_secret api_secret env m request supplied :
  api_secret ≠ Some supplied ∨ supplied = [] →
  sp_secret request = supplied →
  (∃ status message, (status = UNAUTHORIZED ∨ status = SERVICE_UNAVAILABLE) ∧
     set_pair_api api_secret env m request = (status, envelope_error message, m) ∧
     poll_found_job_api api_secret env m supplied = (status, envelope_error message, m)).
Proof.
  intros Hs Heq. unfold set_pair_api, poll_found_job_api. rewrite Heq.
  assert (∃ status message, (status = UNAUTHORIZED ∨ status = SERVICE_UNAVAILABLE) ∧
    authorize api_secret supplied = Err (status, message)) as (st & msg & Hst & ->).
  { unfold authorize. destruct api_secret as [expected|]; [|eauto].
    destruct (Nat.eqb_spec (length expected) 0) as [E|E]; [eauto|].
    destruct (constant_time_eq expected supplied) eqn:Hct; [|eauto]. exfalso.
    apply constant_time_eq_true in Hct as ->. destruct Hs as [|Hs]; [done|]. by subst. }
  exists st, msg. done.
Qed.
End service_props.

(** ** Witnesses *)
Definition example_env (now : N) (spawn : bool) : ObserverEnv :=
  MkObserverEnv true true now spawn 0.

Lemma retry_early_keeps_incomplete_witness :
  (retry_early new_core [MkShareObservation 1 0 0 0 0 []]).2 = [].
Proof. apply (retry_early_keeps_incomplete new_core). vm_compute. lia. Defined.

Lemma observer_retried_after_backoff_witness :
  let m := new (example_env 0 false) in
  let m' := (ensure_observer (example_env OBSERVER_RETRY false) m).2 in
  (ensure_observer (example_env OBSERVER_RETRY false) m).1 = false ∧
  (∀ env', (env_now env' < OBSERVER_RETRY + OBSERVER_RETRY)%N →
     ensure_observer env' m' = (false, m')) ∧
  (∀ env', (OBSERVER_RETRY + OBSERVER_RETRY <= env_now env')%N →
     env_try_lock env' = true → env_spawn env' = true →
     (ensure_observer env' m').1 = true ∧
     co_observer_ready (mm_core (ensure_observer env' m').2) = true).
Proof.
  apply (observer_retried_after_backoff (example_env OBSERVER_RETRY false)
    (new (example_env 0 false))); try reflexivity.
  - vm_compute. discriminate.
  - intros retry H. vm_compute in H. injection H as <-. vm_compute. discriminate.
Defined.

Lemma handlers_require_secret_witness :
  ∃ status message, (status = UNAUTHORIZED ∨ status = SERVICE_UNAVAILABLE) ∧
    set_pair_api (Some [Byte.x61]) (example_env 0 true) (new (example_env 0 true))
      (MkSetPairRequest [Byte.x62] [] None)
      = (status, envelope_error message, new (example_env 0 true)) ∧
    poll_found_job_api (Some [Byte.x61]) (example_env 0 true) (new (example_env 0 true))
      [Byte.x62] = (status, envelope_error message, new (example_env 0 true)).
Proof. apply handlers_require_secret; [left; discriminate|reflexivity]. Defined.

(** A service that holds no found job and a share that is not a coinbase. *)
Lemma candidate_queued_iff_proof_witness :
  let obs := MkShareObservation 1 0 0 0 0 [] in
  let ctx := MkCandidateContext 7 (MkDesiredPair [] [] [] [] []) [] 1 (MkChainState [] 0)
    [] [] in
  lock (co_found (process_candidate new_core obs ctx)) = Some (MkFoundState [] []).
Proof.
  intros obs ctx.
  destruct (candidate_queued_iff_proof new_core obs ctx (MkFoundState [] []) eq_refl)
    as [_ Hrefused].
  apply Hrefused. intros raw id Haccepted. destruct Haccepted as [Hraw _].
  assert (match deserialize_transaction (coinbase_bytes obs ctx) with
          | Some _ => False | None => True end) as Hnone by (vm_compute; exact I).
  rewrite Hraw in Hnone. exact Hnone.
Defined.
