(* ===== verification/MergeTemplateProps.v ===== *)
(** * Properties of desired pairs and of template rewriting

    What [DesiredPair::parse] accepts, what a call of [apply_to_template] leaves
    behind on every branch, and that rewriting a template is idempotent. *)

From S2P Require Import Prelude Str Bitcoin BitcoinModel RskCommitment MergeState MergeInvariant MergeMining MergeService.

#[local] Arguments next_id : simpl never.
#[local] Arguments insert_template : simpl never.
#[local] Arguments remove_template_generation : simpl never.

(** ** Markers inside a payload *)

(** The tag has no border, so two of its occurrences are at least nine bytes
    apart. *)
Lemma tag_no_overlap hash pre post :
  RSK_TAG ++ hash = pre ++ RSK_TAG ++ post → pre = [] ∨ length RSK_TAG ≤ length pre.
Proof.
  intros H. destruct (decide (pre = [])) as [|Hne]; [by left|right].
  destruct (decide (length RSK_TAG ≤ length pre)) as [|Hlt]; [done|]. exfalso.
  assert (RSK_TAG !! length pre = Some Byte.x52) as Hr.
  { rewrite <- (lookup_app_l RSK_TAG hash) by lia. rewrite H.
    rewrite lookup_app_r, Nat.sub_diag by done. reflexivity. }
  assert (length pre ≠ 0) by (destruct pre; done). revert Hr.
  change (length RSK_TAG) with 9 in Hlt. generalize dependent (length pre).
  intros n Hn ?. do 9 (destruct n as [|n]; [done|]). lia.
Qed.

(** The payload has no marker after its own. *)
Definition single_marker (payload : bytes) : Prop :=
  ∀ pre post, payload = pre ++ RSK_TAG ++ post → pre = [].

Lemma single_marker_test payload :
  is_rsk_payload payload = true →
  existsb is_tag (windows (length RSK_TAG) (drop (length RSK_TAG) payload)) = false ↔
  single_marker payload.
Proof.
  intros (hash & -> & Hh)%is_rsk_payload_true. rewrite drop_app_length.
  assert (0 < length RSK_TAG) as Hpos by (vm_compute; lia).
  rewrite <- not_true_iff_false, existsb_true. split.
  - intros Hno pre post Heq. destruct (tag_no_overlap _ _ _ Heq) as [|Hlen]; [done|].
    exfalso. apply Hno. exists RSK_TAG. split; [|by apply is_tag_true].
    apply list_elem_of_lookup. exists (length pre - length RSK_TAG).
    apply lookup_windows_Some; [done|]. split; [done|].
    exists (drop (length RSK_TAG) pre), post. split; [|by rewrite length_drop].
    apply (f_equal (drop (length RSK_TAG))) in Heq.
    rewrite drop_app_length, drop_app_le in Heq by lia. done.
  - intros Hone (w & Hw & ->%is_tag_true). apply list_elem_of_lookup in Hw as [i Hi].
    apply lookup_windows_Some in Hi as [_ (pre & post & -> & _)]; [|done].
    assert (RSK_TAG ++ pre = []) as Habs; [|by vm_compute in Habs].
    apply (Hone _ post). by rewrite <- (assoc_L (++)).
Qed.

(** ** The current generation after an insertion *)
Lemma remove_generation_current s e :
  cs_current_templates (remove_template_generation s e) =
    match cs_templates s !! e with
    | Some t => remove_if_current (td_template_id t) e (cs_current_templates s)
    | None => cs_current_templates s
    end.
Proof.
  assert (cs_current_templates (remove_template_generation s e) =
    cs_current_templates (remove_draft s e)) as ->.
  { unfold remove_template_generation, unprotect_expired.
    rewrite expired_after_remove_draft.
    destruct (remove_expired_jobs_frame (expired_bindings s e) (remove_draft s e))
      as (_ & _ & <- & _).
    destruct (cs_active_binding _); [case_bool_decide|]; done. }
  unfold remove_draft. simpl. by destruct (cs_templates s !! e).
Qed.

Section insertion.
Variables (g : N) (t : TemplateDraft).

Definition is_current (s : ContextState) : Prop :=
  cs_templates s !! g = Some t ∧ cs_current_templates s !! td_template_id t = Some g.

Lemma expire_keeps_current s e :
  is_current s → e ≠ g → is_current (remove_template_generation s e).
Proof.
  intros [Ht Hc] Hne. destruct (remove_generation_fields s e) as (_ & _ & HT & _).
  split; [by rewrite HT, lookup_delete_ne|]. rewrite remove_generation_current.
  destruct (cs_templates s !! e) as [te|]; [|done].
  apply remove_if_current_Some. split; [done|]. congruence.
Qed.

Lemma remove_current s :
  is_current s →
  cs_current_templates (remove_template_generation s g) !! td_template_id t = None.
Proof.
  intros [Ht Hc]. rewrite remove_generation_current, Ht. unfold remove_if_current.
  rewrite decide_True by done. apply lookup_delete_eq.
Qed.

Lemma evict_templates_current fuel s :
  is_current s →
  let r := evict_templates fuel s g in
  if r.2 then is_current r.1
  else cs_current_templates r.1 !! td_template_id t = None.
Proof.
  revert s. induction fuel as [|fuel IH]; intros s Hs; [done|].
  cbn [evict_templates]. destruct (MAX_TEMPLATES <? _); [|done].
  destruct (expired_template_index s g) as [i|] eqn:Ei; [|by apply remove_current].
  apply expired_template_index_Some in Ei as (e & He & _ & Hne & _). rewrite He.
  rewrite remove_generation_dequeued by done. by apply IH, expire_keeps_current.
Qed.

Lemma insert_template_current s :
  let r := insert_template s g t in
  if r.2 then is_current r.1
  else cs_current_templates r.1 !! td_template_id t = None.
Proof.
  rewrite insert_template_unfold. apply evict_templates_current.
  split; simpl; by rewrite lookup_insert_eq.
Qed.
End insertion.

(** ** Rewriting the outputs *)
Section outputs.
Context `{B : !BitcoinLib}.

Lemma next_template_outputs_Ok t d max n outs :
  next_template_outputs t d max = Ok (n, outs) →
  (n <= max)%N ∧
  let bytes_after := default (nt_coinbase_tx_outputs t) outs in
  (is_rsk_payload (dp_payload d) = true →
     rskj_selects (bytes_after ++ le_bytes 4 (nt_coinbase_tx_locktime t)) (dp_payload d)) ∧
  match outs with
  | None => n = nt_coinbase_tx_outputs_count t ∧ is_rsk_payload (dp_payload d) = true
  | Some bs => n = (nt_coinbase_tx_outputs_count t + 1)%N ∧
      bs = nt_coinbase_tx_outputs t ++ dp_output d ∧ b064k_fits bs = true
  end.
Proof.
  unfold next_template_outputs. intros H.
  apply rbind_Ok in H as ([cursor lst] & _ & H). case_if; [done|].
  destruct (_ && _ && _) eqn:Hal.
  - case_if; [done|]. bool_to_prop. injection H as <- <-. simpl.
    split; [lia|]. split; [|done]. intros _. by apply rsk_commitment_sound.
  - apply rbind_Ok in H as (c & Hc & H). apply ok_or_Ok, checked_add_Some in Hc as [-> _].
    destruct (max <? _)%N eqn:Hm; [done|]. destruct (_ && _) eqn:Hrsk in H; [done|].
    case_if; [done|]. bool_to_prop. injection H as <- <-. simpl. split; [lia|].
    split; [|done]. intros Hp. rewrite Hp in Hrsk. simpl in Hrsk.
    apply orb_false_iff in Hrsk as [Hraw _]. bool_to_prop.
    by apply rsk_commitment_sound.
Qed.

(** ** Idempotence *)
Lemma decode_outputs_add k j bs cur d off lst :
  decode_outputs (k + j) bs cur d off lst =
    (let? (cur', lst') := decode_outputs k bs cur d off lst in
     decode_outputs j bs cur' d off lst').
Proof.
  revert cur lst. induction k as [|k IH]; intros cur lst; simpl; [done|].
  destruct (txout_consensus_decode cur) as [[o cur']|]; simpl; [|done]. apply IH.
Qed.

Lemma decode_outputs_app `{!BitcoinLaws B} k bs cur d off lst cur' lst' more :
  decode_outputs k bs cur d off lst = Ok (cur', lst') →
  decode_outputs k (bs ++ more) (cur ++ more) d off lst = Ok (cur' ++ more, lst').
Proof.
  revert cur lst. induction k as [|k IH]; intros cur lst; simpl; [by intros [= -> ->]|].
  destruct (txout_consensus_decode cur) as [[o c]|] eqn:Hd; simpl; [|done].
  rewrite (decode_txout_app _ _ _ more Hd). simpl. rewrite !length_app.
  replace (length bs + length more - (length cur + length more))
    with (length bs - length cur) by lia. apply IH.
Qed.

Lemma next_template_outputs_idempotent `{!BitcoinLaws B} t d max n outs o :
  is_rsk_payload (dp_payload d) = true → dp_output d = serialize_txout o →
  next_template_outputs t d max = Ok (n, Some outs) →
  next_template_outputs (with_outputs outs n t) d max = Ok (n, None).
Proof.
  intros Hrsk Ho H. unfold next_template_outputs in H.
  set (bs := nt_coinbase_tx_outputs t) in *.
  set (off := position is_tag _) in *. set (lock_ := le_bytes 4 _) in *.
  apply rbind_Ok in H as ([cursor lst] & Hdec & H). case_if; [done|]. bool_to_prop.
  destruct cursor; [|done]. clear Heqb.
  destruct (_ && _ && _) eqn:Hal; [case_if; done|]. clear Hal.
  apply rbind_Ok in H as (c & Hc & H). apply ok_or_Ok, checked_add_Some in Hc as [-> _].
  destruct (max <? _)%N eqn:Hm; [done|]. rewrite Hrsk in H. simpl in H.
  case_if; [done|]. case_if; [done|]. injection H as <- <-. bool_to_prop.
  unfold next_template_outputs. cbn [with_outputs nt_coinbase_tx_outputs
    nt_coinbase_tx_outputs_count nt_coinbase_tx_locktime]. fold off lock_ bs.
  rewrite N2Nat.inj_add, decode_outputs_add.
  rewrite (decode_outputs_app _ _ _ _ _ _ _ _ (dp_output d) Hdec). simpl.
  assert (txout_consensus_decode (dp_output d) = Some (o, [])) as ->.
  { rewrite Ho, <- (app_nil_r (serialize_txout o)). apply decode_serialize_txout. }
  simpl. rewrite <- Ho, (bool_decide_true (dp_output d = dp_output d)) by done.
  rewrite Hrsk, length_app, Nat.add_sub.
  match goal with H : raw_rsk_commitment_matches _ _ = true |- _ => rewrite H end.
  rewrite bool_decide_true by done. simpl. by apply N.ltb_ge in Hm as ->.
Qed.

(** ** What a parsed pair is *)
Lemma parse_output data target d :
  parse data target = Ok d → ∃ o, dp_output d = serialize_txout o.
Proof.
  unfold parse. intros ([p h] & _ & H)%rbind_Ok.
  apply rbind_Ok in H as ([tl tt] & _ & H). apply rbind_Ok in H as (push & _ & H).
  case_if; [done|]. injection H as <-. by eexists.
Qed.
End outputs.

Section template_props.
Context `{B : !BitcoinLib}.

(** Reading the context after an update of an unpoisoned mutex. *)
Lemma template_generation_updated f m tid :
  poisoned (co_context (mm_core m)) = false →
  template_generation_ (update_context f m) tid =
    cs_current_templates (f (guarded (co_context (mm_core m)))) !! tid.
Proof. intros Hp. by rewrite update_context_locked. Qed.

(** Parsing a pair accepts exactly: an even hexadecimal payload of 1 to 80
    bytes whose RSK marker, if it is an RSK payload, occurs nowhere else in it; a
    target of 32 hexadecimal bytes after an optional [0x]; and a serialized
    OP_RETURN output of at most 100 bytes. *)
Theorem parse_accepts `{!BitcoinLaws B} data target d :
  parse data target = Ok d ↔
  ∃ target_be push,
    let payload := dp_payload d in
    vec_from_hex (to_ascii_lowercase (trim data)) = Some payload ∧
    1 ≤ length payload ≤ MAX_PAYLOAD_BYTES ∧
    (is_rsk_payload payload = true → single_marker payload) ∧
    vec_from_hex (normalize_target target) = Some target_be ∧ length target_be = 32 ∧
    push_bytes_try_from payload = Some push ∧
    (usize_of (length (dp_output d)) <= RESERVED_COINBASE_OUTPUT_BYTES)%N ∧
    d = MkDesiredPair payload (to_ascii_lowercase (trim data)) (reverse target_be)
          (normalize_target target) (serialize_txout (mk_txout 0 (new_op_return push))).
Proof.
  unfold parse. split.
  - intros ([p h] & Hp & H)%rbind_Ok. apply rbind_Ok in H as ([tl tt] & Ht & H).
    apply rbind_Ok in H as (push & Hpush%ok_or_Ok & H). case_if; [done|].
    injection H as <-. bool_to_prop. unfold parse_payload in Hp.
    case_if; [done|]. case_if; [done|]. apply rbind_Ok in Hp as (p' & Hx%ok_or_Ok & Hp).
    case_if; [done|]. case_if; [done|]. destruct (_ && existsb _ _) eqn:Hm; [done|].
    injection Hp as -> <-. unfold parse_target in Ht.
    apply rbind_Ok in Ht as (be & Hbe%ok_or_Ok & Ht).
    apply rbind_Ok in Ht as (be' & Harr%ok_or_Ok & Ht). injection Ht as <- <-.
    unfold to_array in Harr. case_if; [|done]. injection Harr as <-. bool_to_prop.
    exists be, push. cbn [dp_payload dp_output]. repeat (split; [done || lia|]).
    split; [|done]. intros Hrsk. rewrite Hrsk in Hm. by apply single_marker_test.
  - intros (be & push & Hx & Hlen & Hone & Hbe & H32 & Hpush & Hout & Hd).
    cbn zeta in *. pose proof (f_equal dp_output Hd) as Ho. cbn [dp_output] in Ho.
    assert (parse_payload data = Ok (dp_payload d, to_ascii_lowercase (trim data))) as ->.
    { unfold parse_payload. pose proof (from_hex_length _ _ Hx) as Hs.
      rewrite Hs, Nat.mul_comm, Nat.Div0.mod_mul, Hx. cbn [rbind ok_or].
      destruct (Nat.eqb_spec (length (dp_payload d) * 2) 0); [lia|].
      destruct (Nat.eqb_spec (length (dp_payload d)) 0); [lia|].
      destruct (Nat.ltb_spec MAX_PAYLOAD_BYTES (length (dp_payload d))); [lia|].
      destruct (is_rsk_payload (dp_payload d)) eqn:Hrsk; [|done].
      by rewrite (proj2 (single_marker_test _ Hrsk)) by auto. }
    simpl. unfold parse_target. rewrite Hbe. simpl. unfold to_array. rewrite H32. simpl.
    rewrite Hpush. simpl. rewrite <- Ho. apply N.ltb_ge in Hout as ->. f_equal.
    rewrite Ho. by symmetry.
Qed.

(** Applying the pair to a template is all or nothing: on success the
    template's identifier denotes a fresh draft with the pair, its outputs are
    unchanged or extended by exactly the desired output and its count by one,
    within the limit, and RskJ would select the payload; on every failure, and
    when nothing is configured, the template is unchanged and no draft is current
    for its identifier. *)
Theorem apply_to_template_all_or_nothing env m t reserved max :
  match apply_to_template_with_output_limit env m t reserved max with
  | (Ok true, t', m') =>
      ∃ d g path chain,
        cs_desired (guarded (co_context (mm_core m))) = Some d ∧
        length (dp_output d) ≤ reserved ∧
        template_generation_ m' (nt_template_id t) = Some g ∧
        cs_templates (guarded (co_context (mm_core m'))) !! g =
          Some (MkTemplateDraft (nt_template_id t) d path None chain) ∧
        (t' = t ∨ t' = with_outputs (nt_coinbase_tx_outputs t ++ dp_output d)
                         (nt_coinbase_tx_outputs_count t + 1) t) ∧
        (nt_coinbase_tx_outputs_count t' <= max)%N ∧
        (is_rsk_payload (dp_payload d) = true →
           rskj_selects (nt_coinbase_tx_outputs t'
             ++ le_bytes 4 (nt_coinbase_tx_locktime t')) (dp_payload d))
  | (_, t', m') => t' = t ∧ template_generation_ m' (nt_template_id t) = None
  end.
Proof.
  unfold apply_to_template_with_output_limit.
  destruct (lock (co_context (mm_core m))) as [s0|] eqn:Hl.
  2: { split; [done|]. unfold template_generation_. by rewrite Hl. }
  apply lock_Some_not_poisoned in Hl. set (m1 := update_context _ m).
  assert (template_generation_ m1 (nt_template_id t) = None) as Hnone.
  { unfold m1. rewrite template_generation_updated by done. simpl. apply lookup_delete_eq. }
  assert (cs_desired (guarded (co_context (mm_core m1))) =
    cs_desired (guarded (co_context (mm_core m)))) as Hd1.
  { unfold m1. by rewrite update_context_locked. }
  pose proof (context_ensure_observer env m1) as Hc2.
  destruct (ensure_observer env m1) as [ready m2]. cbn [snd] in Hc2.
  assert (poisoned (co_context (mm_core m2)) = false) as Hp.
  { rewrite Hc2. unfold m1. by rewrite poisoned_update. }
  assert (∀ c, co_context c = co_context (mm_core m2) →
    template_generation_ (with_core c m2) (nt_template_id t) = None) as Hfail.
  { intros c Hc. unfold template_generation_ in *. simpl. by rewrite Hc, Hc2. }
  specialize (Hfail (mm_core m2) eq_refl) as Hfail2.
  assert (with_core (mm_core m2) m2 = m2) as Hid by by destruct m2. rewrite Hid in Hfail2.
  rewrite <- Hd1, <- Hc2.
  destruct ready; cbn [negb]; [|split; [reflexivity|exact Hfail2]].
  destruct (cs_desired (guarded (co_context (mm_core m2)))) as [d|] eqn:Hd; cbn beta iota; [|split; [reflexivity|exact Hfail2]].
  destruct (reserved <? _) eqn:Hres; cbn beta iota; [split; [reflexivity|exact Hfail2]|]. bool_to_prop.
  destruct (rbind _ _) as [[[n outs] path]|e] eqn:Hr; cbn beta iota; [|split; [reflexivity|exact Hfail2]].
  apply rbind_Ok in Hr as ([n' outs'] & Hn & Hr). apply rbind_Ok in Hr as (path' & _ & Hr).
  injection Hr as -> -> ->. apply next_template_outputs_Ok in Hn as (Hmax & Hsel & Hout).
  destruct (next_id _) as [[g|] next]; cbn beta iota; [|split; [done|by apply Hfail]].
  set (dr := MkTemplateDraft (nt_template_id t) d path None _).
  pose proof (insert_template_current g dr (guarded (co_context (mm_core m2)))) as Hi.
  cbn [with_core mm_core with_next_template_generation co_context].
  destruct (insert_template _ g dr) as [s' inserted]. cbn [fst snd] in Hi.
  rewrite update_context_locked by done. destruct inserted; cbn [negb]; [|split; [reflexivity|exact Hi]].
  destruct Hi as [Ht Hcur].
  destruct outs as [bs|]; simpl in *.
  - destruct Hout as (-> & -> & _). exists d, g, path, (td_chain dr).
    repeat (split; [done|]). split; [by right|]. done.
  - destruct Hout as (-> & _). exists d, g, path, (td_chain dr).
    repeat (split; [done|]). split; [by left|]. done.
Qed.

(** Applying an RSK pair is idempotent: the rewritten template still
    decodes, and applying the pair again finds its output last and changes
    neither the outputs nor their count. *)
Theorem apply_idempotent `{!BitcoinLaws B} data target d t max n outs :
  parse data target = Ok d → is_rsk_payload (dp_payload d) = true →
  next_template_outputs t d max = Ok (n, Some outs) →
  next_template_outputs (with_outputs outs n t) d max = Ok (n, None).
Proof.
  intros [o Ho]%parse_output Hrsk. by apply next_template_outputs_idempotent with o.
Qed.
End template_props.

(** A raw commitment is recognised exactly when RskJ would select the desired
    payload: it is an RSK payload, it starts at the last marker of the bytes, and at
    most 128 bytes follow it. *)
Theorem raw_commitment_iff_selected l d :
  (usize_of (length l) <= usize_max)%N →
  raw_rsk_commitment_matches l d = true ↔
    is_rsk_payload (dp_payload d) = true ∧ rskj_selects l (dp_payload d).
Proof.
  intros Hl. split; [apply rsk_commitment_sound|].
  intros [??]. by apply rsk_commitment_complete.
Qed.

(** The height of the Merkle tree is the binary logarithm of the number of
    transactions, rounded up, for 1 to [i32::MAX] transactions, and undefined
    otherwise; the loop ends because the width reaches one. *)
Theorem tree_height_is_log2_up n :
  tree_height n =
    if (1 <=? n)%N && (n <=? i32_max)%N then Some (N.to_nat (N.log2_up n)) else None.
Proof.
  destruct ((1 <=? n)%N && (n <=? i32_max)%N) eqn:E.
  - apply tree_height_Some. bool_to_prop. done.
  - destruct (tree_height n) as [h|] eqn:Hh; [|done].
    apply tree_height_Some in Hh as [[H1 H2] _].
    apply N.leb_le in H1. apply N.leb_le in H2. by rewrite H1, H2 in E.
Qed.

(** The constant-time comparison of secrets is equality of the byte strings,
    whatever their lengths. *)
Theorem constant_time_eq_is_equality expected supplied :
  constant_time_eq expected supplied = bool_decide (expected = supplied).
Proof.
  destruct (constant_time_eq expected supplied) eqn:E; symmetry.
  - apply bool_decide_eq_true. by apply constant_time_eq_true.
  - apply bool_decide_eq_false. intros H%constant_time_eq_true. congruence.
Qed.

(** ** Witnesses *)
Definition example_hash : bytes := replicate 32 Byte.x2a.
Definition example_data : str := encode_hex (RSK_TAG ++ example_hash).
Definition example_target : str := lit "0x" ++ encode_hex (replicate 32 Byte.xff).
Definition example_desired : DesiredPair :=
  match parse example_data example_target with
  | Ok d => d
  | Err _ => MkDesiredPair [] [] [] [] []
  end.
Definition example_template : NewTemplate :=
  MkNewTemplate 7 false 0 2 [] 0 0 1 (encode_output (make_output 5 [Byte.x51])) 0 [].

Lemma parse_accepts_witness :
  ∃ target_be push,
    let payload := dp_payload example_desired in
    vec_from_hex (to_ascii_lowercase (trim example_data)) = Some payload ∧
    1 ≤ length payload ≤ MAX_PAYLOAD_BYTES ∧
    (is_rsk_payload payload = true → single_marker payload) ∧
    vec_from_hex (normalize_target example_target) = Some target_be ∧ length target_be = 32 ∧
    push_bytes_try_from payload = Some push ∧
    (usize_of (length (dp_output example_desired)) <= RESERVED_COINBASE_OUTPUT_BYTES)%N ∧
    example_desired = MkDesiredPair payload (to_ascii_lowercase (trim example_data))
      (reverse target_be) (normalize_target example_target)
      (serialize_txout (mk_txout 0 (new_op_return push))).
Proof. apply (parse_accepts example_data example_target). vm_compute. reflexivity. Defined.

Lemma apply_idempotent_witness :
  match next_template_outputs example_template example_desired 251 with
  | Ok (n, Some outs) =>
      next_template_outputs (with_outputs outs n example_template) example_desired 251
        = Ok (n, None)
  | _ => False
  end.
Proof.
  destruct (next_template_outputs example_template example_desired 251)
    as [[n [outs|]]|e] eqn:H; [|vm_compute in H; discriminate..].
  apply (apply_idempotent example_data example_target); [vm_compute; reflexivity..|].
  exact H.
Defined.

Lemma raw_commitment_iff_selected_witness :
  is_rsk_payload (dp_payload example_desired) = true ∧
  rskj_selects (dp_output example_desired) (dp_payload example_desired).
Proof.
  apply (raw_commitment_iff_selected (dp_output example_desired) example_desired).
  - vm_compute. discriminate.
  - vm_compute. reflexivity.
Defined.
