(* ===== verification/MergeProvenance.v ===== *)
(** * Where a found job comes from

    The observations that the observer holds, the desired pairs that the context uses and the
    jobs that wait to be polled, traced back to the calls they came from. *)

From S2P Require Import Prelude Str Bitcoin BitcoinModel RskCommitment MergeState MergeInvariant MergeMining MergeService MergeServiceProps MergeTemplateProps.

#[local] Arguments next_id : simpl never.
#[local] Arguments push_bounded : simpl never.
#[local] Arguments insert_template : simpl never.
#[local] Arguments insert_job : simpl never.
#[local] Arguments create_job_binding : simpl never.
#[local] Arguments remove_template_generation : simpl never.

(** ** The desired pairs of a context *)

(** The pair that is set, and those that templates were bound with. *)
Definition desires (s : ContextState) (d : DesiredPair) : Prop :=
  cs_desired s = Some d ∨ ∃ g t, cs_templates s !! g = Some t ∧ td_desired t = d.

Lemma desires_fields s s' d :
  cs_desired s' = cs_desired s → cs_templates s' = cs_templates s → desires s' d → desires s d.
Proof. unfold desires. by intros -> ->. Qed.
Lemma desires_fewer s s' d :
  cs_desired s' = cs_desired s → cs_templates s' ⊆ cs_templates s → desires s' d → desires s d.
Proof.
  unfold desires. intros -> Hsub [?|(g & t & Ht & <-)]; [by left|]. right. exists g, t.
  split; [|done]. by eapply lookup_weaken.
Qed.

Lemma desires_remove_generation s g d :
  desires (remove_template_generation s g) d → desires s d.
Proof.
  destruct (remove_generation_fields s g) as (Hd & _ & Ht & _).
  apply desires_fewer; [done|]. rewrite Ht. apply delete_subseteq.
Qed.
Lemma desires_insert_template s g t d :
  desires (insert_template s g t).1 d → desires s d ∨ td_desired t = d.
Proof.
  rewrite insert_template_unfold.
  apply (evict_templates_ind g (λ s', desires s' d → desires s d ∨ td_desired t = d)).
  - intros s' e H _ Hd. apply H. by apply desires_remove_generation in Hd.
  - intros s' H Hd. apply H. by apply desires_remove_generation in Hd.
  - intros [Hd|(g' & t' & Ht & <-)]; [by left; left|]. cbn in Ht.
    apply lookup_insert_Some in Ht as [[_ <-]|[_ Ht]]; [by right|]. left. right. eauto.
Qed.
Lemma desires_record_count s g n d :
  desires (record_block_tx_count s g n) d → desires s d.
Proof.
  unfold record_block_tx_count. destruct (cs_templates s !! g) as [t|] eqn:Hg; [|done].
  destruct (td_block_tx_count t); [done|]. intros [?|(g' & t' & Ht & <-)]; [by left|]. right.
  cbn in Ht. apply lookup_insert_Some in Ht as [[<- <-]|[_ Ht]]; eauto.
Qed.
Lemma desires_record_chain s tid p n d :
  desires (record_chain_state s tid p n) d → desires s d.
Proof.
  unfold record_chain_state. cbn. destruct (cs_current_templates s !! tid) as [g|]; [|done].
  intros [?|(g' & t' & Ht & <-)]; [by left|]. right. cbn in Ht.
  apply lookup_alter_Some in Ht as [(<- & t & Ht & ->)|[_ Ht]]; eauto.
Qed.
Lemma desires_insert_job s job d : desires (insert_job s job) d → desires s d.
Proof.
  rewrite insert_job_unfold. apply (evict_jobs_ind (λ s', desires s' d → desires s d)); [|done].
  intros s' i e H _ _ Hd. apply H. revert Hd.
  destruct (remove_expired_job_frame (set_job_order (delete i (cs_job_order s')) s') e)
    as (Hd & Ht & _). by apply desires_fields.
Qed.
Lemma desires_bind n s jid g p q r s' n' d :
  create_job_binding n s jid g p q = (r, s', n') → desires s' d → desires s d.
Proof.
  intros Hc. destruct (create_job_binding_cases n s jid g p q) as [(n0 & Hn & _)|(t & _ & _ & _ & Hn)];
    rewrite Hc in Hn; injection Hn as -> -> ->; [done|].
  intros Hd%desires_insert_job. done.
Qed.
Lemma desires_claim s jid mark r s' d :
  claim_job_binding s jid mark = Some (r, s') → desires s' d → desires s d.
Proof.
  unfold claim_job_binding. destruct (position _ _); [|done].
  destruct (_ !! _) as [[? [b|]]|]; [|by intros [= _ <-]|done].
  by case_if; intros [= _ <-].
Qed.

Section provenance.
Context `{B : !BitcoinLib}.

(** ** What a call does to them *)
Definition wants (m : MergeMining) : DesiredPair → Prop :=
  desires (guarded (co_context (mm_core m))).

Lemma wants_world m m' d : world_of m' = world_of m → wants m' d → wants m d.
Proof. unfold wants, world_of. by intros [= -> _ _]. Qed.
Lemma wants_update f m d :
  wants (update_context f m) d → wants m d ∨ desires (f (guarded (co_context (mm_core m)))) d.
Proof.
  destruct (update_context_world f m) as [H|H].
  - intros Hw. left. by eapply wants_world.
  - unfold wants. intros Hw. right. unfold world_of in H. injection H as E _ _. by rewrite E in Hw.
Qed.
Lemma wants_keep f m d :
  (∀ s, desires (f s) d → desires s d) → wants (update_context f m) d → wants m d.
Proof. intros Hf [?|?%Hf]%wants_update; done. Qed.
Lemma wants_wake env m d : wants (wake_worker env m) d → wants m d.
Proof. apply wants_world, world_of_wake_worker. Qed.

Lemma wants_set_desired env m dh th d :
  wants (set_desired_pair env m dh th).2 d → wants m d ∨ parse dh th = Ok d.
Proof.
  unfold set_desired_pair. destruct (parse dh th) as [desired|e]; [|by left].
  pose proof (world_of_ensure_observer env m) as H.
  destruct (ensure_observer env m) as [ready m']. cbn [snd] in H.
  destruct ready; cbn [negb]; [|intros ?; left; by eapply wants_world].
  destruct (lock _); cbn [snd]; [|intros ?; left; by eapply wants_world].
  intros [Hw|[[= <-]|Ht]]%wants_update; [|by right|]; left; eapply wants_world; try done.
  by right.
Qed.
Lemma wants_apply env m t r max d :
  wants (apply_to_template_with_output_limit env m t r max).2 d → wants m d.
Proof.
  unfold apply_to_template_with_output_limit. destruct (lock _); [|done].
  set (m1 := update_context _ m).
  assert (wants m1 d → wants m d) as H1 by by apply wants_keep.
  pose proof (world_of_ensure_observer env m1) as H2.
  destruct (ensure_observer env m1) as [ready m2]. cbn [snd] in H2.
  assert (wants m2 d → wants m d) as H3 by (intros Hw; apply H1; by eapply wants_world).
  destruct ready; cbn [negb]; [|done].
  destruct (cs_desired _) as [desired|] eqn:Hd; [|done]. case_if; [done|].
  destruct (rbind _ _) as [[[cnt outs] path]|e]; [|done].
  destruct (next_id _) as [[g|] next]; [|done].
  set (m3 := with_core _ m2). cbn zeta.
  destruct (insert_template _ g _) as [s' inserted] eqn:Ei.
  assert (wants (update_context (λ _, s') m3) d → wants m d) as H4.
  { intros [Hw|Hw]%wants_update; [by apply H3|]. apply H3.
    replace s' with (insert_template (guarded (co_context (mm_core m3))) g
      (MkTemplateDraft (nt_template_id t) desired path None
         (if nt_future_template t then None
          else cs_active_chain (guarded (co_context (mm_core m3)))))).1 in Hw
      by (by rewrite Ei).
    apply desires_insert_template in Hw as [Hw|Hw]; [done|]. cbn in Hw. subst. by left. }
  by destruct inserted, outs.
Qed.
Lemma wants_bind env m j g p s d : wants (bind_job_generation env m j g p s).2 d → wants m d.
Proof.
  unfold bind_job_generation. destruct (lock (co_context (mm_core m))) as [s0|] eqn:Hl; [|done].
  apply lock_guarded in Hl as <-.
  destruct (create_job_binding _ _ _ _ _ _) as [[[b|] s'] next] eqn:Ec; cbn [snd].
  - intros Hw%wants_wake. assert (wants (update_context (λ _, announce_job s' j (Some b)) m) d)
      as [?|Hd]%wants_update by exact Hw; [done|]. by eapply desires_bind.
  - intros Hw. assert (wants (update_context (λ _, s') m) d) as [?|Hd]%wants_update by exact Hw;
      [done|]. by eapply desires_bind.
Qed.
Lemma wants_claim m j mark d : wants (claim_job_binding_ m j mark).2 d → wants m d.
Proof.
  unfold claim_job_binding_. destruct (lock (co_context (mm_core m))) as [s0|] eqn:Hl; [|done].
  apply lock_guarded in Hl as <-.
  destruct (claim_job_binding _ _ _) as [[b s']|] eqn:Ec; [|done]. cbn [snd].
  intros [?|Hd]%wants_update; [done|]. by eapply desires_claim.
Qed.

(** Only [set_desired_pair] brings in a pair, the one that it parses. *)
Lemma wants_call m c d :
  wants (run_call m c) d →
  wants m d ∨ ∃ env dh th, c = CSetDesiredPair env dh th ∧ parse dh th = Ok d.
Proof.
  destruct c; cbn [run_call].
  - intros [?|?]%wants_set_desired; [by left|]. right. eauto.
  - intros Hw%wants_wake%wants_keep; [by left|done].
  - unfold apply_to_template_with_pool_output_count.
    destruct (try_from _ _); [|by left]. destruct (checked_sub _ _); [|by left].
    intros ?%wants_apply. by left.
  - intros Hw%wants_keep; [by left|]. intros s. apply desires_remove_generation.
  - unfold record_transaction_count. destruct (block_tx_count_of _); [|by left].
    intros Hw%wants_wake%wants_keep; [by left|]. intros s. apply desires_record_count.
  - intros Hw%wants_wake%wants_keep; [by left|]. intros s. apply desires_record_chain.
  - intros ?%wants_bind. by left.
  - intros Hw%wants_keep; [by left|done].
  - intros ?%wants_claim. by left.
  - intros Hw%wants_keep; [by left|]. by intros s; unfold set_active_job_binding; destruct binding_id.
  - intros Hw%wants_keep; [by left|done].
  - intros Hw. left. eapply wants_world; [|done]. apply world_of_try_observe.
  - intros Hw. left. eapply wants_world; [|done]. apply world_of_take_found.
  - intros Hw. left. eapply wants_world; [|done]. apply world_of_observer_step.
  - intros Hw. left. eapply wants_world; [|done]. apply world_of_observer_exit.
Qed.

(** ** What the observer holds and finds *)

(** The shares in the queue of the observer and those that wait for their context. *)
Definition held_by (ch : Channel) : list ShareObservation :=
  omap (λ w, match w with Share o => Some o | Wake => None end) (ch_queue ch)
  ++ default [] (ch_worker ch).
Definition observations (m : MergeMining) : list ShareObservation :=
  match ob_work_tx (mm_observer m) with Some ch => held_by ch | None => [] end.
Definition pending (core : Core) : list FoundJob := fs_pending (guarded (co_found core)).

(** [job] is the proof that [observation] is in [context]: a coinbase that RskJ accepts for the
    payload, under a header whose hash meets the target, with a Merkle path of the height of
    the block. *)
Definition proof_of (observation : ShareObservation) (context : CandidateContext)
    (job : FoundJob) : Prop :=
  ∃ raw,
    let coinbase := clear_witnesses raw in
    let desired := cc_desired context in
    deserialize_transaction (coinbase_bytes observation context) = Some raw ∧
    job = found_job (fj_id job) observation context coinbase ∧
    has_canonical_last_rsk_commitment coinbase desired = true ∧
    rskj_selects (serialize_transaction coinbase) (dp_payload desired) ∧
    (target_from (block_hash (candidate_header observation context coinbase))
       <= target_from (dp_target_le desired))%N ∧
    tree_height (cc_block_tx_count context) = Some (length (cc_merkle_path context)).

Lemma resolve_ready core o x :
  resolve_context core o = Ready x →
  tree_height (cc_block_tx_count x) = Some (length (cc_merkle_path x)).
Proof.
  unfold resolve_context. intros H. repeat (case_match; try done).
  simplify_eq/=. bool_to_prop. done.
Qed.
Lemma resolve_desires core o x :
  resolve_context core o = Ready x → desires (guarded (co_context core)) (cc_desired x).
Proof.
  unfold resolve_context. destruct (lock _) as [s|] eqn:Hl; [|done]. apply lock_guarded in Hl as <-.
  intros H. repeat (case_match; try done). simplify_eq/=. right. eauto.
Qed.

Lemma pending_queue core job j :
  j ∈ pending (queue_found_job core job) → j ∈ pending core ∨ j = job.
Proof.
  unfold queue_found_job, pending. destruct (lock _) as [f|] eqn:Hf; [|by left].
  apply lock_guarded in Hf as <-. case_bool_decide; [by left|].
  case_if; cbn; intros Hj%elem_of_push_bounded; tauto.
Qed.
Lemma pending_process core o x j :
  resolve_context core o = Ready x →
  j ∈ pending (process_candidate core o x) → j ∈ pending core ∨ proof_of o x j.
Proof.
  intros Hx%resolve_ready. unfold process_candidate.
  destruct (deserialize_transaction _) as [raw|] eqn:Hraw; [|by left].
  case_if; [by left|]. bool_to_prop. case_if; [by left|]. bool_to_prop.
  destruct (next_id _) as [[id|] next]; [|by left].
  intros [Hj| ->]%pending_queue; [by left|]. right. exists raw.
  split; [done|]. split; [done|]. split; [done|]. split; [|done]. by apply rsk_commitment_sound.
Qed.

(** A proof of an observation in [os], in the context that [core] resolves it to. *)
Definition found_in (core : Core) (os : list ShareObservation) (j : FoundJob) : Prop :=
  ∃ o x, o ∈ os ∧ resolve_context core o = Ready x ∧ proof_of o x j.

Lemma handle_found core0 core o early j :
  same_context core0 core →
  (j ∈ pending (handle_observation core o early).1 → j ∈ pending core ∨ found_in core0 [o] j) ∧
  same_context core0 (handle_observation core o early).1 ∧
  ∀ o', o' ∈ (handle_observation core o early).2 → o' = o ∨ o' ∈ early.
Proof.
  intros Hs. pose proof (same_context_handle core o early) as Hh.
  split; [|split; [by eapply same_context_trans|]]; unfold handle_observation;
    destruct (resolve_context core o) as [x| |] eqn:Hx; cbn [fst snd]; auto.
  - intros [?|?]%(pending_process _ _ _ _ Hx); [by left|]. right. exists o, x.
    rewrite <-(resolve_same_context _ _ _ Hs). split; [left|done].
  - intros Hj. left. by case_if.
  - intros o' [?| ->]%elem_of_push_bounded; auto.
Qed.
Lemma found_weaken core os os' j : (∀ o, o ∈ os → o ∈ os') → found_in core os j → found_in core os' j.
Proof. intros Hsub (o & x & Ho & ?). exists o, x. eauto. Qed.

Lemma retry_found n core0 core early j :
  same_context core0 core →
  (j ∈ pending (retry_attempts n core early).1 → j ∈ pending core ∨ found_in core0 early j) ∧
  ∀ o, o ∈ (retry_attempts n core early).2 → o ∈ early.
Proof.
  revert core early. induction n as [|n IH]; intros core early Hs; [split; auto|]. cbn [retry_attempts].
  destruct early as [|o early]; [split; auto|].
  destruct (handle_found core0 core o early j Hs) as (H1 & H2 & H3).
  destruct (handle_observation core o early) as [c e]. cbn [fst snd] in *.
  assert (∀ o', o' ∈ e → o' ∈ o :: early) as Hsub
    by (intros o' [-> |?]%H3; [left|by right]).
  destruct (IH c e H2) as [H4 H5]. split; [|auto].
  intros [Hj|Hj]%H4; [|right; by eapply found_weaken].
  destruct (H1 Hj) as [?|?]; [by left|]. right. eapply found_weaken; [|done].
  intros o' ->%list_elem_of_singleton. left.
Qed.

Lemma worker_found core early msg j :
  let os := match msg with Some (Share o) => o :: early | _ => early end in
  (j ∈ pending (worker_turn core early msg).1 → j ∈ pending core ∨ found_in core os j) ∧
  ∀ o, o ∈ (worker_turn core early msg).2 → o ∈ os.
Proof.
  unfold worker_turn, retry_early. destruct msg as [[o|]|]; try apply retry_found, same_context_refl.
  destruct (handle_found core core o early j (same_context_refl _)) as (H1 & H2 & H3).
  destruct (handle_observation core o early) as [c e]. cbn [fst snd] in *.
  assert (∀ o', o' ∈ e → o' ∈ o :: early) as Hsub
    by (intros o' [-> |?]%H3; [left|by right]).
  destruct (retry_found (length e) core c e j H2) as [H4 H5]. split; [|auto].
  intros [Hj|Hj]%H4; [|right; by eapply found_weaken].
  destruct (H1 Hj) as [?|?]; [by left|]. right. eapply found_weaken; [|done].
  intros o' ->%list_elem_of_singleton. left.
Qed.

(** A turn of the observer. *)
Lemma step_found m j :
  (j ∈ pending (mm_core (observer_step m)) →
   j ∈ pending (mm_core m) ∨ found_in (mm_core m) (observations m) j) ∧
  ∀ o, o ∈ observations (observer_step m) → o ∈ observations m.
Proof.
  unfold observer_step, observations. destruct (ob_work_tx _) as [ch|] eqn:Hch; [|rewrite Hch; auto].
  destruct (ch_worker ch) as [early|] eqn:He; [|rewrite Hch; auto].
  destruct (worker_found (mm_core m) early (head (ch_queue ch)) j) as [H1 H2].
  destruct (worker_turn _ _ _) as [c early']. cbn in *. unfold held_by. rewrite He. cbn.
  split.
  - intros [?|?]%H1; [by left|]. right. eapply found_weaken; [|done]. intros o Ho.
    apply elem_of_app. destruct (ch_queue ch) as [|[o'|] q]; cbn in *; [by right| |by right].
    apply elem_of_cons in Ho as [-> |?]; [left; left|by right].
  - intros o. rewrite !elem_of_app. destruct (ch_queue ch) as [|[o'|] q]; cbn in *.
    + intros [?%elem_of_nil|?%H2]; [done|by right].
    + intros [?|[->|?]%H2%elem_of_cons]; [by left; right|left; left|by right].
    + intros [?|?%H2]; [by left|by right].
Qed.

(** Everything else adds nothing to them but the shares that are observed. *)
Record no_news (m m' : MergeMining) : Prop := {
  nn_pending j : j ∈ pending (mm_core m') → j ∈ pending (mm_core m);
  nn_held o : o ∈ observations m' → o ∈ observations m
}.
Lemma no_news_refl m : no_news m m.
Proof. by split. Qed.
Lemma no_news_trans m1 m2 m3 : no_news m1 m2 → no_news m2 m3 → no_news m1 m3.
Proof. intros [] []. split; auto. Qed.
Lemma no_news_same m m' :
  co_found (mm_core m') = co_found (mm_core m) → mm_observer m' = mm_observer m → no_news m m'.
Proof. intros Hf Ho. split; unfold pending, observations; by rewrite ?Hf, ?Ho. Qed.

Lemma no_news_ensure env m : no_news m (ensure_observer env m).2.
Proof.
  unfold ensure_observer. destruct (co_observer_ready _); [apply no_news_refl|].
  destruct (env_try_lock env); [|apply no_news_refl]. cbn.
  case_if; [apply no_news_refl|].
  destruct (env_spawn env); (split; [done|]); intros o Ho; by apply elem_of_nil in Ho.
Qed.
Lemma no_news_update f m : no_news m (update_context f m).
Proof. apply no_news_same; unfold update_context; by destruct (lock _). Qed.
Lemma held_send w ch ch' o :
  try_send w ch = Ok ch' → o ∈ held_by ch' → o ∈ held_by ch ∨ w = Share o.
Proof.
  unfold try_send, held_by. destruct (ch_worker ch) as [early|]; [|done]. case_if; [done|].
  intros [= <-]. cbn. rewrite omap_app, !elem_of_app.
  intros [[?|Ho]|?]; [by left; left| |by left; right].
  destruct w as [o'|]; cbn in Ho; [|by apply elem_of_nil in Ho].
  apply list_elem_of_singleton in Ho as ->. by right.
Qed.
Lemma no_news_wake env m : no_news m (wake_worker env m).
Proof.
  pose proof (no_news_ensure env m) as H. unfold wake_worker.
  destruct (ensure_observer env m) as [ready m']. cbn [snd] in H.
  destruct ready; [|done]. cbn. unfold observer_sender.
  destruct (negb _); [done|]. destruct (negb _); [done|].
  destruct (ob_work_tx _) as [ch|] eqn:Hch; [|done].
  destruct (try_send Wake ch) as [ch'|] eqn:Hs; [|done].
  eapply no_news_trans; [exact H|]. split; [done|]. unfold observations at 2. rewrite Hch.
  intros o Ho. by destruct (held_send _ _ _ _ Hs Ho).
Qed.
Lemma no_news_apply env m t r max :
  no_news m (apply_to_template_with_output_limit env m t r max).2.
Proof.
  unfold apply_to_template_with_output_limit. destruct (lock _); [|apply no_news_refl].
  set (m1 := update_context _ m). pose proof (no_news_update _ m : no_news m m1) as H1.
  pose proof (no_news_ensure env m1) as H2.
  destruct (ensure_observer env m1) as [ready m2]. cbn [snd] in H2.
  assert (no_news m m2) as H by by eapply no_news_trans.
  destruct ready; [|done]. cbn [negb]. destruct (cs_desired _); [|done]. case_if; [done|].
  destruct (rbind _ _) as [[[cnt outs] path]|e]; [|done].
  destruct (next_id _) as [[g|] next]; [|by eapply no_news_trans; [exact H|by apply no_news_same]].
  set (m3 := with_core _ m2). cbn zeta. destruct (insert_template _ g _) as [s' inserted].
  assert (no_news m (update_context (λ _, s') m3)) as H3.
  { eapply no_news_trans; [exact H|]. eapply no_news_trans; [|apply no_news_update].
    by apply no_news_same. }
  by destruct inserted, outs.
Qed.
Lemma no_news_take env m : no_news m (take_found_job env m).2.
Proof.
  pose proof (no_news_ensure env m) as H. unfold take_found_job.
  destruct (ensure_observer env m) as [ready m']. cbn [snd] in H. destruct ready; [|done]. cbn [negb].
  destruct (lock (co_found (mm_core m'))) as [f|] eqn:Hf; [|done]. apply lock_guarded in Hf as <-.
  eapply no_news_trans; [exact H|]. split; [|done]. unfold pending. cbn. intros j Hj.
  destruct (fs_pending _); [done|by right].
Qed.

Definition observed_by (c : Call) (o : ShareObservation) : Prop :=
  ∃ env b v t n e, c = CObserve env b v t n e ∧
    o = MkShareObservation b (env_unix_timestamp env) v t n e.

Lemma observe_news env m b v t n e o :
  o ∈ observations (try_observe_share env m b v t n e) →
  o ∈ observations m ∨ o = MkShareObservation b (env_unix_timestamp env) v t n e.
Proof.
  unfold try_observe_share, observer_sender. destruct (negb _); [by left|].
  destruct (negb _); [by left|]. destruct (ob_work_tx _) as [ch|] eqn:Hch; [|by left].
  destruct (try_send _ ch) as [ch'|] eqn:Hs; [|by left].
  unfold observations. cbn. rewrite Hch. intros Ho.
  destruct (held_send _ _ _ _ Hs Ho) as [?|[= ->]]; [by left|by right].
Qed.

Lemma call_news m c :
  c ≠ CObserverStep →
  (∀ j, j ∈ pending (mm_core (run_call m c)) → j ∈ pending (mm_core m)) ∧
  (∀ o, o ∈ observations (run_call m c) → o ∈ observations m ∨ observed_by c o).
Proof.
  intros Hc.
  assert (no_news m (run_call m c) ∨ ∃ env b v t n e, c = CObserve env b v t n e) as [H|H].
  2: { destruct H as [H1 H2]. split; [done|]. intros o Ho. left. auto. }
  2: { destruct H as (env & b & v & t & n & e & ->). split.
       - cbn. unfold pending, try_observe_share. by repeat case_match.
       - intros o [?|?]%observe_news; [by left|]. right. unfold observed_by. eauto 10. }
  destruct c; cbn [run_call]; try (left; apply no_news_update); try (by right; eauto 10); try done.
  - left. unfold set_desired_pair. destruct (parse _ _); [|apply no_news_refl].
    pose proof (no_news_ensure env m) as H. destruct (ensure_observer env m) as [ready m'].
    cbn [snd] in H. destruct ready; [|done]. cbn [negb]. destruct (lock _); [|done].
    eapply no_news_trans; [exact H|apply no_news_update].
  - left. eapply no_news_trans; [apply no_news_update|apply no_news_wake].
  - left. unfold apply_to_template_with_pool_output_count. destruct (try_from _ _); [|apply no_news_refl].
    destruct (checked_sub _ _); [|apply no_news_refl]. apply no_news_apply.
  - left. unfold record_transaction_count. destruct (block_tx_count_of _); [|apply no_news_refl].
    eapply no_news_trans; [apply no_news_update|apply no_news_wake].
  - left. eapply no_news_trans; [apply no_news_update|apply no_news_wake].
  - left. unfold bind_job_generation. destruct (lock _); [|apply no_news_refl].
    destruct (create_job_binding _ _ _ _ _ _) as [[[b|] s'] next]; cbn [snd].
    + eapply no_news_trans; [|apply no_news_wake]. eapply no_news_trans; [apply no_news_update|].
      by apply no_news_same.
    + eapply no_news_trans; [apply no_news_update|]. by apply no_news_same.
  - left. unfold claim_job_binding_pending, claim_job_binding_. destruct (lock _); [|apply no_news_refl].
    destruct (claim_job_binding _ _ _) as [[b s']|]; cbn [snd]; [apply no_news_update|by apply no_news_same].
  - left. apply no_news_take.
  - left. unfold observer_exit. destruct (ob_work_tx _) as [ch|]; [|apply no_news_refl].
    split; [done|]. intros o Ho. by apply elem_of_nil in Ho.
Qed.

(** ** The history of the service *)
Section history.
Context (env : ObserverEnv).

Definition after (calls : list Call) : MergeMining := fold_left run_call calls (new env).
Lemma after_snoc calls c : after (calls ++ [c]) = run_call (after calls) c.
Proof. apply fold_left_app. Qed.

(** What was observed and desired before, and the turn of the observer that found a job. *)
Definition was_observed (calls : list Call) (o : ShareObservation) : Prop :=
  ∃ c, c ∈ calls ∧ observed_by c o.
Definition was_desired (calls : list Call) (d : DesiredPair) : Prop :=
  ∃ env dh th, CSetDesiredPair env dh th ∈ calls ∧ parse dh th = Ok d.
Definition was_found (calls : list Call) (job : FoundJob) : Prop :=
  ∃ calls1 calls2 o x,
    calls = calls1 ++ CObserverStep :: calls2 ∧
    was_observed calls1 o ∧ resolve_context (mm_core (after calls1)) o = Ready x ∧
    was_desired calls1 (cc_desired x) ∧ proof_of o x job.

Lemma new_nothing :
  observations (new env) = [] ∧ pending (mm_core (new env)) = [] ∧ ∀ d, ¬ wants (new env) d.
Proof.
  unfold new, ensure_observer. cbn. destruct (env_try_lock env), (env_spawn env); cbn;
    (split; [done|]; split; [done|]); intros d [[=]|(g & t & Ht & _)]; cbn in Ht;
    by rewrite lookup_empty in Ht.
Qed.

Lemma wants_history calls d : wants (after calls) d → was_desired calls d.
Proof.
  induction calls as [|c calls IH] using rev_ind.
  { intros H. by apply new_nothing in H. }
  rewrite after_snoc. intros [(env' & dh & th & Hc & Hp)%IH|(env' & dh & th & -> & Hp)]%wants_call;
    exists env', dh, th; rewrite elem_of_app; (split; [|done]); [by left|right; left].
Qed.

Lemma history calls :
  (∀ o, o ∈ observations (after calls) → was_observed calls o) ∧
  (∀ job, job ∈ pending (mm_core (after calls)) → was_found calls job).
Proof.
  induction calls as [|c calls [IHo IHf]] using rev_ind.
  { destruct new_nothing as (Ho & Hp & _). unfold after. cbn [fold_left]. rewrite Ho, Hp.
    split; intros ? H; by apply elem_of_nil in H. }
  assert (∀ o, was_observed calls o → was_observed (calls ++ [c]) o) as Hmo.
  { intros o (c' & Hc & Ho). exists c'. rewrite elem_of_app. auto. }
  assert (∀ job, was_found calls job → was_found (calls ++ [c]) job) as Hmf.
  { intros job (calls1 & calls2 & o & x & -> & H). exists calls1, (calls2 ++ [c]), o, x.
    by rewrite <-app_assoc. }
  rewrite after_snoc. assert (c = CObserverStep ∨ c ≠ CObserverStep) as [->|Hc]
    by (destruct c; auto).
  - split.
    + intros o Ho. apply Hmo, IHo.
      destruct (step_found (after calls) (MkFoundJob 0 0 0 0 0 0 [] [] [] [] 0 [] [])) as [_ H].
      by apply H.
    + intros job Hj. apply step_found in Hj as [Hj|(o & x & Ho & Hx & Hp)]; [by apply Hmf, IHf|].
      exists calls, [], o, x. split; [done|]. split; [by apply IHo|]. split; [done|].
      split; [|done]. by apply wants_history, (resolve_desires _ o).
  - destruct (call_news (after calls) c Hc) as [Hp Ho]. split.
    + intros o [?|Hob]%Ho; [by apply Hmo, IHo|]. exists c. rewrite elem_of_app.
      split; [right; left|done].
    + intros job ?%Hp. by apply Hmf, IHf.
Qed.
End history.

(** C23: Every job that polling returns is a proof of a share that was observed, for the pair
    that was set: whatever calls, turns and deaths of the observer came before, there was a
    turn of the observer with a share that some [try_observe_share] had handed over, in the
    context that [resolve_context] gave to this share at that moment, whose desired pair is
    the parse of the texts of some [set_desired_pair]; the share's coinbase is the one in the
    job, RskJ accepts it for the payload of this pair, the hash of the header in the job meets
    the target of this pair, and the Merkle path has the height of the block. *)
Theorem polled_job_is_proof env env' calls :
  match (take_found_job env' (after env calls)).1 with
  | Ok (Some job) => was_found env calls job
  | _ => True
  end.
Proof.
  destruct (history env calls) as [_ Hf]. pose proof (no_news_ensure env' (after env calls)) as [Hp _].
  unfold take_found_job. destruct (ensure_observer env' _) as [ready m']. cbn [snd] in Hp.
  destruct ready; cbn; [|done].
  destruct (lock (co_found (mm_core m'))) as [f|] eqn:Hl; cbn; [|done].
  apply lock_guarded in Hl as <-. unfold pending in Hp.
  destruct (fs_pending _) as [|job l]; cbn; [done|]. apply Hf, Hp. left.
Qed.
End provenance.

(** ** Witness *)

(** A share whose coinbase is the template's outputs around the extranonce. *)
Definition proof_env : ObserverEnv := MkObserverEnv true true 0 true 1000.
Definition proof_calls : list Call :=
  [CSetDesiredPair proof_env example_data example_target;
   CApplyToTemplate proof_env example_template 100 1;
   CRecordCount proof_env 1 0;
   CRecordChain proof_env 7 (replicate 32 Byte.x05) 386089497;
   CBindJob proof_env 11 1 (replicate 4 Byte.x00)
     (Byte.x02 :: nt_coinbase_tx_outputs example_template ++ dp_output example_desired
      ++ replicate 4 Byte.x00);
   CObserve proof_env 1 536870912 1700000000 42 [Byte.x01; Byte.x02; Byte.x03; Byte.x04]]
  ++ replicate 4 CObserverStep.

Lemma polled_job_is_proof_witness :
  ∃ job, (take_found_job proof_env (after proof_env proof_calls)).1 = Ok (Some job) ∧
    fj_header_nonce job = 42%N ∧ was_found proof_env proof_calls job.
Proof.
  pose proof (polled_job_is_proof proof_env proof_env proof_calls) as H.
  assert (match (take_found_job proof_env (after proof_env proof_calls)).1 with
          | Ok (Some job) => fj_header_nonce job = 42%N | _ => False end) as E
    by (vm_compute; reflexivity).
  destruct (take_found_job proof_env (after proof_env proof_calls)).1 as [[job|]|e];
    [|destruct E..].
  exists job. split; [reflexivity|]. split; [exact E|exact H].
Defined.
