(* ===== verification/F32.v ===== *)
(** * Floating-point numbers

    [f32] and [f64] are the IEEE binary32 and binary64 formats of the Standard
    Library's specification of floating-point arithmetic, rounding to nearest;
    the operations are those the client uses, with Rust's treatment of NaN. *)

From Stdlib Require Export Floats.SpecFloat.
From S2P Require Import Prelude.

Definition f32 : Type := spec_float.
Definition f64 : Type := spec_float.

(** Casts from integers round to nearest. *)
Definition f32_of_Z (z : Z) : f32 := binary_normalize 24 128 z 0 false.
Definition f32_of_N (n : N) : f32 := f32_of_Z (Z.of_N n).
Definition f64_of_N (n : N) : f64 := binary_normalize 53 1024 (Z.of_N n) 0 false.

Definition f32_add : f32 → f32 → f32 := SFadd 24 128.
Definition f32_sub : f32 → f32 → f32 := SFsub 24 128.
Definition f32_mul : f32 → f32 → f32 := SFmul 24 128.
Definition f32_div : f32 → f32 → f32 := SFdiv 24 128.
Definition f32_gtb (a b : f32) : bool := SFltb b a.

Definition is_nan (a : f32) : bool := match a with S754_nan => true | _ => false end.

(** [f32::max] and [f32::min]: a NaN operand is ignored. *)
Definition f32_max (a b : f32) : f32 :=
  if is_nan a then b else if is_nan b then a else if SFltb a b then b else a.
Definition f32_min (a b : f32) : f32 :=
  if is_nan a then b else if is_nan b then a else if SFltb b a then b else a.

(** The magnitude of a finite number, rounded towards zero. *)
Definition truncate_mantissa (m : positive) (e : Z) : N :=
  if (0 <=? e)%Z then N.shiftl (Npos m) (Z.to_N e) else N.shiftr (Npos m) (Z.to_N (- e)).

(** [as] to an unsigned integer with largest value [limit]: towards zero,
    saturating, NaN to zero. *)
Definition f32_as_unsigned (limit : N) (a : f32) : N :=
  match a with
  | S754_nan | S754_zero _ | S754_infinity true | S754_finite true _ _ => 0
  | S754_infinity false => limit
  | S754_finite false m e => N.min limit (truncate_mantissa m e)
  end.

Definition u128_max : N := 340282366920938463463374607431768211455.

(** [2f32.powi(k)] for an exponent in the normal range, and the literals of the
    source that are quotients of integers. *)
Definition f32_pow2 (k : Z) : f32 := binary_normalize 24 128 1 k false.
Definition f32_ratio (a b : Z) : f32 := f32_div (f32_of_Z a) (f32_of_Z b).

(** Comparisons and signs. *)
Definition f32_opp : f32 → f32 := SFopp.
Definition f32_abs : f32 → f32 := SFabs.
Definition f32_eqb : f32 → f32 → bool := SFeqb.
Definition f32_ltb : f32 → f32 → bool := SFltb.
Definition f32_leb : f32 → f32 → bool := SFleb.
Definition is_sign_negative (a : f32) : bool :=
  match a with
  | S754_zero s | S754_infinity s | S754_finite s _ _ => s
  | S754_nan => false
  end.
Definition is_finite (a : f32) : bool :=
  match a with S754_zero _ | S754_finite _ _ _ => true | _ => false end.
Definition f32_max_value : f32 := S754_finite false 16777215 104.
Definition f32_epsilon : f32 := f32_pow2 (-23).

(** [round]: to the nearest integer, half away from zero. *)
Definition round_mantissa (m : positive) (e : Z) : Z :=
  if (0 <=? e)%Z then Z.shiftl (Zpos m) e
  else Z.shiftr (Zpos m + Z.shiftl 1 (- e - 1)) (- e).
Definition f32_round_as_i32 (a : f32) : Z :=
  match a with
  | S754_nan | S754_zero _ => 0
  | S754_infinity s => if s then -2147483648 else 2147483647
  | S754_finite s m e =>
      Z.max (-2147483648) (Z.min 2147483647 (cond_Zopp s (round_mantissa m e)))
  end.

(** [2f32.powi(k)]: the power by multiplication, inverted for a negative exponent. *)
Definition f32_powi2 (k : Z) : f32 :=
  let r := f32_pow2 (Z.abs k) in
  if (k <? 0)%Z then f32_div (f32_of_N 1) r else r.

(** binary64 *)
Definition f64_of_f32 (a : f32) : f64 :=
  match a with
  | S754_finite s m e => binary_normalize 53 1024 (cond_Zopp s (Zpos m)) e s
  | _ => a
  end.
Definition f32_of_f64 (a : f64) : f32 :=
  match a with
  | S754_finite s m e => binary_normalize 24 128 (cond_Zopp s (Zpos m)) e s
  | _ => a
  end.
Definition f64_sub : f64 → f64 → f64 := SFsub 53 1024.
Definition f64_mul : f64 → f64 → f64 := SFmul 53 1024.
Definition f64_add : f64 → f64 → f64 := SFadd 53 1024.
Definition f64_div : f64 → f64 → f64 := SFdiv 53 1024.
Definition f64_abs : f64 → f64 := SFabs.
Definition f64_leb : f64 → f64 → bool := SFleb.
Definition f64_max : f64 → f64 → f64 := f32_max.
Definition f64_pow2 (k : Z) : f64 := binary_normalize 53 1024 1 k false.
Definition f64_epsilon : f64 := f64_pow2 (-52).
Definition f64_round (a : f64) : f64 :=
  match a with
  | S754_finite s m e => binary_normalize 53 1024 (cond_Zopp s (round_mantissa m e)) 0 s
  | _ => a
  end.
Definition f64_as_u64 (a : f64) : N := f32_as_unsigned u64_max a.

(** ** Signs of results *)

(** A number that is not negative: a positive sign, and no NaN. *)
Definition nonneg (a : f32) : bool := negb (is_sign_negative a) && negb (is_nan a).

Lemma shr_1_nonneg mrs : (0 <= shr_m mrs)%Z → (0 <= shr_m (shr_1 mrs))%Z.
Proof. destruct mrs as [m r s]. destruct m as [|[]|]; simpl; lia. Qed.
Lemma shr_nonneg mrs e n : (0 <= shr_m mrs)%Z → (0 <= shr_m (shr mrs e n).1)%Z.
Proof.
  intros H. destruct n as [|p|p]; simpl; [done| |done]. revert mrs H.
  induction p as [p IH|p IH|]; intros mrs H; simpl; auto using shr_1_nonneg.
Qed.
Lemma shr_fexp_nonneg prec emax m e l :
  (0 <= m)%Z → (0 <= shr_m (shr_fexp prec emax m e l).1)%Z.
Proof. intros H. apply shr_nonneg. destruct l as [|[]]; done. Qed.
Lemma round_nearest_even_nonneg m l : (0 <= m)%Z → (0 <= round_nearest_even m l)%Z.
Proof. intros H. unfold round_nearest_even. repeat case_match; lia. Qed.

Lemma binary_round_aux_nonneg prec emax m e l :
  (0 <= m)%Z → nonneg (binary_round_aux prec emax false m e l) = true.
Proof.
  intros H. unfold binary_round_aux.
  pose proof (shr_fexp_nonneg prec emax m e l H) as H1.
  destruct (shr_fexp prec emax m e l) as [mrs e']. cbn [fst] in H1.
  pose proof (shr_fexp_nonneg prec emax (round_nearest_even (shr_m mrs) (loc_of_shr_record mrs)) e'
    loc_Exact (round_nearest_even_nonneg _ _ H1)) as H2.
  destruct (shr_fexp prec emax _ e' loc_Exact) as [mrs' e'']. cbn [fst] in H2.
  destruct (shr_m mrs'); [done| |lia]. by destruct (Z.leb _ _).
Qed.

Lemma SFdiv_core_nonneg prec emax ma ea mb eb :
  (0 <= (SFdiv_core_binary prec emax (Zpos ma) ea (Zpos mb) eb).1.1)%Z.
Proof.
  unfold SFdiv_core_binary. cbv zeta.
  match goal with |- context [Z.div_eucl ?m _] => assert (0 <= m)%Z as Hm; [|
    pose proof (Z.div_pos m (Zpos mb) Hm eq_refl) as H; unfold Z.div in H;
    by destruct (Z.div_eucl m (Zpos mb))] end.
  destruct (_ - _ - _)%Z; [done| |done]. by apply Z.shiftl_nonneg.
Qed.

Lemma f32_div_nonneg a b :
  nonneg a = true → nonneg b = true → is_finite a || is_finite b = true →
  f32_eqb b (S754_zero false) = false → nonneg (f32_div a b) = true.
Proof.
  destruct a as [[] | [] | | [] ma ea], b as [[] | [] | | [] mb eb]; try done; intros _ _ _ _.
  unfold f32_div, SFdiv. cbn [xorb].
  pose proof (SFdiv_core_nonneg 24 128 ma ea mb eb) as H.
  destruct (SFdiv_core_binary 24 128 (Zpos ma) ea (Zpos mb) eb) as [[q e] l].
  by apply binary_round_aux_nonneg.
Qed.

Lemma f32_of_N_nonneg n : nonneg (f32_of_N n) = true.
Proof.
  unfold f32_of_N, f32_of_Z, binary_normalize. destruct n as [|p]; [done|]. cbn [Z.of_N].
  unfold binary_round. destruct (shl_align p 0 _) as [m e].
  by apply binary_round_aux_nonneg.
Qed.

(** ** Powers of two *)

Lemma f32_pow2_infinite k : (128 <= k)%Z → f32_pow2 k = S754_infinity false.
Proof.
  intros Hk. unfold f32_pow2, binary_normalize, binary_round.
  assert (fexp 24 128 (Zpos (digits2_pos 1) + k) = k - 23)%Z as ->
    by (unfold fexp, emin; simpl digits2_pos; lia).
  unfold shl_align. replace (k - 23 - k)%Z with (-23)%Z by lia.
  assert (∀ m, Zdigits2 m = 24 → fexp 24 128 (Zdigits2 m + (k - 23)) - (k - 23) = 0)%Z as He
    by (intros m ->; unfold fexp, emin; lia).
  unfold binary_round_aux, shr_fexp. rewrite He by reflexivity.
  cbn [shr]. rewrite He by reflexivity. cbn [shr].
  change (shr_m _) with 8388608%Z. cbn iota. by rewrite (proj2 (Z.leb_gt _ _)) by lia.
Qed.

(** The powers that are finite and not zero have exponents from -127 to 127. *)
Lemma f32_powi2_clamp k : f32_powi2 k = f32_powi2 (Z.max (-128) (Z.min 128 k)).
Proof.
  unfold f32_powi2. destruct (decide (-128 <= k <= 128)%Z).
  { by rewrite Z.min_r, Z.max_r by lia. }
  assert (f32_pow2 (Z.abs k) = S754_infinity false) as -> by (apply f32_pow2_infinite; lia).
  destruct (decide (k < 0)%Z).
  - rewrite Z.min_r, Z.max_l by lia. by rewrite (proj2 (Z.ltb_lt k 0)) by lia.
  - rewrite Z.min_l, Z.max_r by lia. by rewrite (proj2 (Z.ltb_ge k 0)) by lia.
Qed.

(** A decidable fact about the powers of two holds when it holds of the clamped ones. *)
Lemma f32_powi2_all (P : f32 → bool) k :
  forallb (λ k, P (f32_powi2 k)) (seqZ (-128) 257) = true → P (f32_powi2 k) = true.
Proof.
  rewrite f32_powi2_clamp, forallb_forall. intros H. apply H.
  apply list_elem_of_In, elem_of_seqZ. lia.
Qed.

#[export] Instance spec_float_eq_dec : EqDecision spec_float.
Proof. solve_decision. Defined.

Lemma f32_powi2_via_f64 k : f32_of_f64 (f64_of_f32 (f32_powi2 k)) = f32_powi2 k.
Proof.
  pose proof (f32_powi2_all (λ x, bool_decide (f32_of_f64 (f64_of_f32 x) = x)) k) as H.
  apply bool_decide_eq_true in H; [done|]. vm_compute. reflexivity.
Qed.

(** ** Results that are neither infinite nor zero

    A positive number in the normal range: 24 significant bits. *)
Definition normal (a : f32) (lo hi : Z) : Prop :=
  ∃ m e, a = S754_finite false m e ∧ (2 ^ 23 <= Zpos m < 2 ^ 24)%Z ∧ (lo <= e <= hi)%Z.

Lemma normal_weaken a lo hi lo' hi' :
  (lo' <= lo)%Z → (hi <= hi')%Z → normal a lo hi → normal a lo' hi'.
Proof. intros ?? (m & e & -> & ? & ?). exists m, e. split; [done|]. lia. Qed.

Lemma digits2_size p : digits2_pos p = Pos.size p.
Proof. induction p as [p IH|p IH|]; simpl; by rewrite ?IH. Qed.
Lemma Zdigits2_log2 m : (0 < m)%Z → Zdigits2 m = (Z.log2 m + 1)%Z.
Proof.
  intros Hm. destruct m as [|p|p]; try lia. cbn [Zdigits2]. rewrite digits2_size.
  destruct p; simpl; lia.
Qed.

Lemma shr_1_div mrs : (0 <= shr_m mrs)%Z → shr_m (shr_1 mrs) = (shr_m mrs / 2)%Z.
Proof.
  destruct mrs as [[|[p|p|]|] r s]; cbn [shr_m shr_1]; intros H; try done.
  - apply Z.div_unique with 1%Z; lia.
  - apply Z.div_unique with 0%Z; lia.
Qed.
Lemma shr_iter_div (p : positive) (mrs : shr_record) :
  (0 <= shr_m mrs)%Z → shr_m (SpecFloat.iter_pos shr_1 p mrs) = (shr_m mrs / 2 ^ Zpos p)%Z.
Proof.
  revert mrs. induction p as [p IH|p IH|]; intros mrs H; simpl SpecFloat.iter_pos.
  3: { by apply shr_1_div. }
  all: pose proof (Z.pow_pos_nonneg 2 (Zpos p)) as Hp.
  1: pose proof (shr_1_nonneg mrs H) as H1; rewrite IH, IH, shr_1_div by
       (done || rewrite ?IH by done; apply Z.div_pos; lia).
  2: rewrite IH, IH by (done || rewrite ?IH by done; apply Z.div_pos; lia).
  all: rewrite !Z.div_div by lia; f_equal.
  - replace (Zpos p~1) with (Zpos p + Zpos p + 1)%Z by lia. rewrite !Z.pow_add_r by lia. lia.
  - replace (Zpos p~0) with (Zpos p + Zpos p)%Z by lia. rewrite Z.pow_add_r by lia. lia.
Qed.

Lemma shr_fexp_normal m e l :
  (2 ^ 23 <= m)%Z → (-126 <= Z.log2 m + e)%Z →
  shr_m (shr_fexp 24 128 m e l).1 = (m / 2 ^ (Z.log2 m - 23))%Z ∧
  (shr_fexp 24 128 m e l).2 = (e + (Z.log2 m - 23))%Z.
Proof.
  intros Hm He. unfold shr_fexp. rewrite Zdigits2_log2 by lia.
  assert (fexp 24 128 (Z.log2 m + 1 + e) - e = Z.log2 m - 23)%Z as ->
    by (unfold fexp, emin; lia).
  assert (23 <= Z.log2 m)%Z as Hl by (by apply Z.log2_le_pow2; lia).
  assert (shr_m (shr_record_of_loc m l) = m) as Hs by by destruct l as [|[]].
  destruct (Z.log2 m - 23)%Z as [|p|] eqn:Hp; [| |lia]; cbn [shr fst snd].
  - rewrite Hs, Z.div_1_r. lia.
  - rewrite shr_iter_div, Hs by (rewrite Hs; lia). done.
Qed.

Lemma round_nearest_even_near m l : (m <= round_nearest_even m l <= m + 1)%Z.
Proof. unfold round_nearest_even. repeat case_match; lia. Qed.

Lemma leading_bits m :
  (2 ^ 23 <= m)%Z → (2 ^ 23 <= m / 2 ^ (Z.log2 m - 23) < 2 ^ 24)%Z.
Proof.
  intros Hm. assert (23 <= Z.log2 m)%Z as Hl by (by apply Z.log2_le_pow2; lia).
  pose proof (Z.log2_spec m ltac:(lia)) as [Hlo Hhi].
  pose proof (Z.pow_pos_nonneg 2 (Z.log2 m - 23) ltac:(lia) ltac:(lia)).
  split.
  - apply Z.div_le_lower_bound; [lia|]. rewrite <- Z.pow_add_r by lia.
    by replace (Z.log2 m - 23 + 23)%Z with (Z.log2 m) by lia.
  - apply Z.div_lt_upper_bound; [lia|]. rewrite <- Z.pow_add_r by lia.
    by replace (Z.log2 m - 23 + 24)%Z with (Z.succ (Z.log2 m)) by lia.
Qed.

Lemma binary_round_aux_normal m e l :
  (2 ^ 23 <= m)%Z → (-126 <= Z.log2 m + e <= 126)%Z →
  normal (binary_round_aux 24 128 false m e l) (Z.log2 m + e - 23) (Z.log2 m + e - 22).
Proof.
  intros Hm He. unfold binary_round_aux.
  pose proof (shr_fexp_normal m e l Hm ltac:(lia)) as [H1 H2].
  pose proof (leading_bits m Hm) as Hb.
  destruct (shr_fexp 24 128 m e l) as [mrs e1]. cbn [fst snd] in H1, H2. rewrite <- H1 in Hb.
  pose proof (round_nearest_even_near (shr_m mrs) (loc_of_shr_record mrs)) as Hr.
  set (m1 := round_nearest_even _ _) in *.
  assert (23 <= Z.log2 m1 <= 24)%Z as Hl.
  { split; [by apply Z.log2_le_pow2; lia|].
    apply Z.lt_succ_r, Z.log2_lt_pow2; [lia|]. change (2 ^ Z.succ 24)%Z with 33554432%Z. lia. }
  pose proof (shr_fexp_normal m1 e1 loc_Exact ltac:(lia) ltac:(lia)) as [H3 H4].
  pose proof (leading_bits m1 ltac:(lia)) as Hb1.
  destruct (shr_fexp 24 128 m1 e1 loc_Exact) as [mrs1 e2]. cbn [fst snd] in H3, H4.
  rewrite <- H3 in Hb1. destruct (shr_m mrs1) as [|p|]; [lia| |lia].
  rewrite (proj2 (Z.leb_le _ _)) by lia. exists p, e2. split; [done|]. lia.
Qed.

Lemma iter_xO_pow p q : Zpos (Pos.iter xO p q) = (Zpos p * 2 ^ Zpos q)%Z.
Proof.
  induction q as [|q IH] using Pos.peano_ind; [simpl; lia|].
  rewrite Pos.iter_succ, Pos2Z.inj_succ, Z.pow_succ_r by lia. lia.
Qed.

Lemma f32_of_N_normal n :
  (0 < n)%N → (N.log2 n <= 126)%N →
  normal (f32_of_N n) (Z.of_N (N.log2 n) - 23) (Z.of_N (N.log2 n) - 22).
Proof.
  intros Hn Hl. unfold f32_of_N, f32_of_Z, binary_normalize. destruct n as [|p]; [done|].
  cbn [Z.of_N]. unfold binary_round.
  assert (Zpos (digits2_pos p) = Z.log2 (Zpos p) + 1)%Z as Hd by by rewrite <- Zdigits2_log2.
  assert (Z.of_N (N.log2 (Npos p)) = Z.log2 (Zpos p)) as Hlog by by destruct p.
  pose proof (Z.log2_nonneg (Zpos p)). rewrite Hd, Hlog in *.
  assert (fexp 24 128 (Z.log2 (Zpos p) + 1 + 0) - 0 = Z.log2 (Zpos p) - 23)%Z as Hf
    by (unfold fexp, emin; lia).
  unfold shl_align. rewrite Hf. pose proof (Z.log2_spec (Zpos p) ltac:(lia)) as [Hlo Hhi].
  destruct (Z.log2 (Zpos p) - 23)%Z as [|q|q] eqn:Hq.
  1,2: assert (2 ^ 23 <= Zpos p)%Z by (apply Z.log2_le_pow2; lia);
    eapply normal_weaken; [| |apply binary_round_aux_normal]; lia.
  pose proof (iter_xO_pow p q) as Hp.
  assert (Z.log2 (Zpos (Pos.iter xO p q)) = 23)%Z as Hl23.
  { rewrite Hp, Z.log2_mul_pow2 by lia. lia. }
  eapply normal_weaken; [| |apply binary_round_aux_normal]; rewrite ?Hl23; [lia|lia| |lia].
  apply Z.log2_le_pow2; lia.
Qed.

Lemma f32_div_normal a b alo ahi blo bhi :
  normal a alo ahi → normal b blo bhi → (-120 <= alo - bhi)%Z → (ahi - blo <= 120)%Z →
  normal (f32_div a b) (alo - bhi - 24) (ahi - blo - 22).
Proof.
  intros (m1 & e1 & -> & Hm1 & He1) (m2 & e2 & -> & Hm2 & He2) Hlo Hhi.
  unfold f32_div, SFdiv. cbn [xorb]. unfold SFdiv_core_binary. rewrite !Zdigits2_log2 by lia.
  assert (∀ m, 2 ^ 23 <= m < 2 ^ 24 → Z.log2 m = 23)%Z as Hlog.
  { intros m Hm. apply Z.log2_unique; [lia|exact Hm]. }
  rewrite !Hlog by done.
  assert (Z.min (fexp 24 128 (23 + 1 + e1 - (23 + 1 + e2))) (e1 - e2) = e1 - e2 - 24)%Z as ->
    by (unfold fexp, emin; lia).
  replace (e1 - e2 - (e1 - e2 - 24))%Z with 24%Z by lia. cbn iota.
  rewrite Z.shiftl_mul_pow2 by lia.
  pose proof (Z.div_mod (Zpos m1 * 2 ^ 24) (Zpos m2) ltac:(lia)) as Hdm.
  pose proof (Z.mod_pos_bound (Zpos m1 * 2 ^ 24) (Zpos m2) ltac:(lia)) as Hmod.
  unfold Z.div, Z.modulo in Hdm, Hmod.
  destruct (Z.div_eucl (Zpos m1 * 2 ^ 24) (Zpos m2)) as [q r].
  change (2 ^ 24)%Z with 16777216%Z in *. change (2 ^ 23)%Z with 8388608%Z in *.
  assert (8388608 <= q < 33554432)%Z as Hq by nia.
  assert (23 <= Z.log2 q <= 24)%Z as Hl.
  { split; [apply Z.log2_le_pow2; lia|]. apply Z.lt_succ_r, Z.log2_lt_pow2; lia. }
  eapply normal_weaken; [| |apply binary_round_aux_normal]; lia.
Qed.

Lemma normal_usual a lo hi :
  normal a lo hi → nonneg a = true ∧ is_finite a = true ∧ f32_eqb a (S754_zero false) = false.
Proof. by intros (m & e & -> & _). Qed.
