(* ===== verification/Sv1.v ===== *)
(** * Interface to the SV1 crate

    The messages of [sv1_api] as the client reads them.  Parsing and the
    dispatch of requests belong to that crate: they are operations of the class
    [Sv1Lib]; the client's own handlers are modelled where they are used. *)

From S2P Require Import Prelude Str F32.

(** [HexU32Be] is the number it wraps. *)
Definition HexU32Be : Type := N.

(** [server_to_client::Notify] *)
Record Notify := MkNotify {
  nf_job_id : str;
  nf_prev_hash : bytes;
  nf_coin_base1 : bytes;
  nf_coin_base2 : bytes;
  nf_merkle_branch : list bytes;
  nf_version : HexU32Be;
  nf_bits : HexU32Be;
  nf_time : HexU32Be;
  nf_clean_jobs : bool
}.

Definition with_job_id (id : str) (n : Notify) : Notify :=
  MkNotify id (nf_prev_hash n) (nf_coin_base1 n) (nf_coin_base2 n) (nf_merkle_branch n)
    (nf_version n) (nf_bits n) (nf_time n) (nf_clean_jobs n).
Definition with_version (v : HexU32Be) (n : Notify) : Notify :=
  MkNotify (nf_job_id n) (nf_prev_hash n) (nf_coin_base1 n) (nf_coin_base2 n)
    (nf_merkle_branch n) v (nf_bits n) (nf_time n) (nf_clean_jobs n).

(** [client_to_server::Submit] *)
Record Submit := MkSubmit {
  sb_user_name : str;
  sb_job_id : str;
  sb_extra_nonce2 : bytes;
  sb_time : HexU32Be;
  sb_nonce : HexU32Be;
  sb_version_bits : option HexU32Be;
  sb_id : N
}.

Definition submit_with_job_id (id : str) (s : Submit) : Submit :=
  MkSubmit (sb_user_name s) id (sb_extra_nonce2 s) (sb_time s) (sb_nonce s)
    (sb_version_bits s) (sb_id s).

(** [serde_json::Value], with the integers a JSON number can hold. *)
Inductive Json :=
| JNull
| JBool (b : bool)
| JInt (z : Z)
| JFloat (f : f64)
| JString (s : str)
| JArray (l : list Json)
| JObject (fields : list (str * Json)).

Definition i64_max : Z := 9223372036854775807.
Definition i64_min : Z := -9223372036854775808.

Definition as_str (v : Json) : option str :=
  match v with JString s => Some s | _ => None end.
Definition as_array (v : Json) : option (list Json) :=
  match v with JArray l => Some l | _ => None end.
Definition as_i64 (v : Json) : option Z :=
  match v with
  | JInt z => if (i64_min <=? z)%Z && (z <=? i64_max)%Z then Some z else None
  | _ => None
  end.
Definition as_u64 (v : Json) : option Z :=
  match v with
  | JInt z => if (0 <=? z)%Z && (z <=? Z.of_N u64_max)%Z then Some z else None
  | _ => None
  end.

(** [json_rpc::Message] *)
Record StandardRequest := MkStandardRequest { rq_id : N; rq_method : str; rq_params : Json }.
Record Response := MkResponse { rs_id : N; rs_error : bool; rs_result : Json }.
Inductive Message :=
| StandardRequestMsg (request : StandardRequest)
| NotificationMsg (method : str) (params : Json)
| OkResponse (response : Response)
| ErrorResponse (response : Response).

(** [From<Response> for Message] *)
Definition response_message (r : Response) : Message :=
  if rs_error r then ErrorResponse r else OkResponse r.

(** [str::parse::<i64>] *)
Definition parse_i64 (s : str) : option Z :=
  match s with
  | c :: rest =>
      if (c =? 45)%N then
        match parse_digits 9223372036854775808 rest with
        | Some n => Some (- Z.of_N n)%Z
        | None => None
        end
      else
        match parse_uint 9223372036854775807 s with
        | Some n => Some (Z.of_N n)
        | None => None
        end
  | [] => None
  end.

(** [u32::from_str_radix(_, 16)] *)
Definition hex_digit_value (c : char) : option N :=
  if is_digit c then Some (c - 48)%N
  else if (97 <=? c)%N && (c <=? 102)%N then Some (c - 87)%N
  else if (65 <=? c)%N && (c <=? 70)%N then Some (c - 55)%N
  else None.
Definition u32_from_hex (s : str) : option N :=
  let digits := match s with c :: rest => if (c =? 43)%N then rest else s | [] => [] end in
  if length digits =? 0 then None
  else match mapM hex_digit_value digits with
  | Some vs => try_from u32_max (fold_left (λ acc v, acc * 16 + v)%N vs 0%N)
  | None => None
  end.

(** What the crate decides: parsing a [mining.submit] request, and whether
    version bits fit a mask ([HexU32Be::check_mask]). *)
Class Sv1Lib := {
  submit_try_from : StandardRequest → option Submit;
  check_mask : HexU32Be → HexU32Be → bool;
  (** [From<Notify> for Message] *)
  notify_message : Notify → Message;
  (** [VersionRollingParams::new] accepts a mask and a minimum bit count *)
  version_rolling_params_ok : HexU32Be → HexU32Be → bool;
  (** [PrevHash] to bytes, [U256::from_vec_] and [u256_to_block_hash] *)
  prev_hash_into_vec : bytes → bytes;
  u256_from_vec : bytes → option bytes;
  u256_to_block_hash : bytes → bytes
}.

(** [Submit::respond] *)
Definition submit_respond (s : Submit) (ok : bool) : Response :=
  MkResponse (sb_id s) false (JBool ok).

(** [client_to_server::Configure]: its version-rolling parameters. *)
Record Configure := MkConfigure {
  cf_version_rolling_mask : option N;
  cf_version_rolling_min_bit_count : option HexU32Be
}.
