(* ===== verification/RecentJobs.v ===== *)
(** * Recent jobs of a downstream miner

    Models [CircularBuffer], [RecentJobs] and [apply_mask] of
    [src/src/translator/downstream/downstream.rs]: the jobs sent to a miner under
    fresh SV1 identifiers, and the jobs those identifiers stand for. *)

From S2P Require Import Prelude Str F32 Sv1.

(** ** The circular buffer *)
Record CircularBuffer (T : Type) := MkCircularBuffer {
  cb_buffer : list (option T);
  cb_len : nat;
  cb_start : nat
}.
Arguments MkCircularBuffer {T} _ _ _.
Arguments cb_buffer {T} _.
Arguments cb_len {T} _.
Arguments cb_start {T} _.

Section circular_buffer.
Context {T : Type}.

(** [CircularBuffer::new] with [N = n] *)
Definition cb_new (n : nat) : CircularBuffer T :=
  MkCircularBuffer (replicate n None) 0 0.

(** [CircularBuffer::push_back] *)
Definition cb_push_back (n : nat) (value : T) (b : CircularBuffer T)
    : option T * CircularBuffer T :=
  let end_ := (cb_start b + cb_len b) mod n in
  if cb_len b <? n then
    (None, MkCircularBuffer (<[end_ := Some value]> (cb_buffer b)) (S (cb_len b)) (cb_start b))
  else
    let evicted := mjoin (cb_buffer b !! cb_start b) in
    (evicted, MkCircularBuffer (<[cb_start b := Some value]> (cb_buffer b)) (cb_len b)
                ((cb_start b + 1) mod n)).
End circular_buffer.

(** ** Jobs *)
Definition TRACKED_RECENT_JOBS : nat := 3.

Record IssuedJob := MkIssuedJob {
  ij_notify : Notify;
  ij_difficulty : f32;
  ij_merge_mining_binding_id : option N
}.

Record RawJob := MkRawJob { rj_notify : Notify; rj_merge_mining_binding_id : option N }.

Record RecentJobs := MkRecentJobs {
  rj_v1_to_v2 : gmap N N;
  rj_v2_to_v1 : gmap N (list N);
  rj_issued_jobs : gmap N IssuedJob;
  rj_jobs : list RawJob;
  rj_last_v2s : CircularBuffer N;
  rj_tracked_jobs : nat
}.

(** [RecentJobs::new] *)
Definition recent_jobs_new : RecentJobs :=
  MkRecentJobs ∅ ∅ ∅ [] (cb_new TRACKED_RECENT_JOBS) TRACKED_RECENT_JOBS.

(** [apply_mask]: the bits of the mask are cleared in the job's version. *)
Definition apply_mask (mask : option HexU32Be) (message : Notify) : Notify :=
  match mask with
  | Some mask => with_version (N.ldiff (nf_version message) mask) message
  | None => message
  end.

(** [RecentJobs::remove_v2] *)
Definition remove_v2 (v2_id : N) (r : RecentJobs) : RecentJobs :=
  match rj_v2_to_v1 r !! v2_id with
  | Some v1_ids =>
      MkRecentJobs
        (fold_left (λ m v1_id, delete v1_id m) v1_ids (rj_v1_to_v2 r))
        (delete v2_id (rj_v2_to_v1 r))
        (fold_left (λ m v1_id, delete v1_id m) v1_ids (rj_issued_jobs r))
        (rj_jobs r) (rj_last_v2s r) (rj_tracked_jobs r)
  | None => r
  end.

(** The random draws of [new_v1]: draw until the identifier is not in use.
    [None] when the given draws are all in use. *)
Fixpoint draw_v1 (r : RecentJobs) (draws : list N) : option (N * list N) :=
  match draws with
  | [] => None
  | v1_id :: draws =>
      if bool_decide (is_Some (rj_v1_to_v2 r !! v1_id)) then draw_v1 r draws
      else Some (v1_id, draws)
  end.

(** [RecentJobs::new_v1], once the identifier is drawn. *)
Definition new_v1 (r : RecentJobs) (v1_id v2_id : N) (notify : Notify) (difficulty : f32)
    (merge_mining_binding_id : option N) : RecentJobs :=
  let r :=
    match rj_v2_to_v1 r !! v2_id with
    | Some ids =>
        MkRecentJobs (rj_v1_to_v2 r) (<[v2_id := ids ++ [v1_id]]> (rj_v2_to_v1 r))
          (rj_issued_jobs r) (rj_jobs r) (rj_last_v2s r) (rj_tracked_jobs r)
    | None =>
        let '(first, last_v2s) := cb_push_back TRACKED_RECENT_JOBS v2_id (rj_last_v2s r) in
        let r := MkRecentJobs (rj_v1_to_v2 r) (<[v2_id := [v1_id]]> (rj_v2_to_v1 r))
          (rj_issued_jobs r) (rj_jobs r) last_v2s (rj_tracked_jobs r) in
        match first with Some first => remove_v2 first r | None => r end
    end in
  MkRecentJobs (<[v1_id := v2_id]> (rj_v1_to_v2 r)) (rj_v2_to_v1 r)
    (<[v1_id := MkIssuedJob notify difficulty merge_mining_binding_id]> (rj_issued_jobs r))
    (rj_jobs r) (rj_last_v2s r) (rj_tracked_jobs r).

(** [RecentJobs::add_job_with_binding]: the notify to send, the jobs and the
    remaining draws.  [None] when the job identifier is not a [u32] (the code
    panics) or the draws run out. *)
Definition add_job_with_binding (r : RecentJobs) (draws : list N) (notify : Notify)
    (mask : option HexU32Be) (difficulty : f32) (candidate_binding_id : option N)
    : option (Notify * RecentJobs * list N) :=
  let notify := apply_mask mask notify in
  match parse_uint u32_max (nf_job_id notify) with
  | None => None
  | Some v2_id =>
      let jobs := rj_jobs r ++ [MkRawJob notify candidate_binding_id] in
      match draw_v1 r draws with
      | None => None
      | Some (new_id, draws) =>
          let r := new_v1 (MkRecentJobs (rj_v1_to_v2 r) (rj_v2_to_v1 r) (rj_issued_jobs r)
            jobs (rj_last_v2s r) (rj_tracked_jobs r)) new_id v2_id notify difficulty
            candidate_binding_id in
          let jobs := if rj_tracked_jobs r <? length (rj_jobs r) then tail (rj_jobs r)
                      else rj_jobs r in
          Some (with_job_id (display_N new_id) notify,
            MkRecentJobs (rj_v1_to_v2 r) (rj_v2_to_v1 r) (rj_issued_jobs r) jobs
              (rj_last_v2s r) (rj_tracked_jobs r), draws)
      end
  end.

(** [RecentJobs::clone_last]: [None] stands for a panic or exhausted draws, as
    above; [Some (None, _, _)] for an empty queue. *)
Definition clone_last (r : RecentJobs) (draws : list N) (difficulty : f32)
    : option (option Notify * RecentJobs * list N) :=
  match last (rj_jobs r) with
  | None => Some (None, r, draws)
  | Some job =>
      let notify := rj_notify job in
      match parse_uint u32_max (nf_job_id notify), draw_v1 r draws with
      | Some v2_id, Some (new_id, draws) =>
          Some (Some (with_job_id (display_N new_id) notify),
            new_v1 r new_id v2_id notify difficulty (rj_merge_mining_binding_id job), draws)
      | _, _ => None
      end
  end.

(** [RecentJobs::current_jobs], [RecentJobs::get_matching_job] *)
Definition current_jobs (r : RecentJobs) : list Notify := rj_notify <$> rj_jobs r.
Definition get_matching_job (r : RecentJobs) (v1_id : N) : option IssuedJob :=
  rj_issued_jobs r !! v1_id.

(** ** The buffer is a bounded queue *)

(** [b] holds the queue [l], oldest element first. *)
Record cb_models {T} (n : nat) (b : CircularBuffer T) (l : list T) : Prop := {
  cm_size : length (cb_buffer b) = n;
  cm_len : cb_len b = length l;
  cm_bound : length l ≤ n;
  cm_start : cb_start b < n;
  cm_items k x : l !! k = Some x → cb_buffer b !! ((cb_start b + k) mod n) = Some (Some x)
}.

Lemma cb_models_new {T} n : 0 < n → cb_models n (cb_new n) ([] : list T).
Proof. intros Hn. split; simpl; try done; [apply length_replicate|lia]. Qed.

Lemma mod_add_inj n s i j :
  i < n → j < n → (s + i) mod n = (s + j) mod n → i = j.
Proof.
  intros Hi Hj H. destruct (decide (n = 0)) as [->|Hn]; [lia|].
  pose proof (Nat.div_mod_eq (s + i) n). pose proof (Nat.div_mod_eq (s + j) n).
  destruct (decide ((s + i) / n = (s + j) / n)) as [E|E]; [rewrite E in *; lia|].
  revert E H H0 H1. generalize ((s + i) / n) ((s + j) / n) ((s + i) mod n) ((s + j) mod n).
  intros q1 q2 r1 r2 ? -> ? ?. nia.
Qed.

Lemma cb_push_back_spec {T} n (x : T) b l :
  0 < n → cb_models n b l →
  let '(evicted, b') := cb_push_back n x b in
  evicted = (if length l <? n then None else head l) ∧ cb_models n b' (push_bounded n l x).
Proof.
  intros Hn [Hs Hlen Hb Hst Hit]. unfold cb_push_back, push_bounded. rewrite Hlen.
  destruct (Nat.ltb_spec (length l) n) as [Hlt|Hge].
  - split; [done|]. destruct (Nat.leb_spec n (length l)); [lia|].
    split; simpl; rewrite ?length_insert, ?length_app; simpl; try done; try lia.
    intros k y Hk. apply lookup_app_Some in Hk as [Hk|[Hk Hy]].
    + pose proof (lookup_lt_Some _ _ _ Hk). rewrite list_lookup_insert_ne; [by apply Hit|].
      intros E%mod_add_inj; lia.
    + apply list_lookup_singleton_Some in Hy as [Hk0 <-].
      replace k with (length l) by lia. rewrite list_lookup_insert_eq; [done|].
      rewrite Hs. by apply Nat.mod_upper_bound; lia.
  - assert (length l = n) as Hfull by lia. destruct (Nat.leb_spec n (length l)); [|lia].
    destruct l as [|a l]; [simpl in Hfull; lia|]. simpl in Hfull |- *.
    assert (cb_buffer b !! cb_start b = Some (Some a)) as Ha.
    { rewrite <- (Hit 0 a eq_refl). rewrite Nat.add_0_r, Nat.mod_small by done. done. }
    split; [by rewrite Ha|].
    split; simpl; rewrite ?length_insert, ?length_app; simpl; try done; try lia.
    { apply Nat.mod_upper_bound. lia. }
    intros k y Hk. rewrite Nat.Div0.add_mod_idemp_l.
    apply lookup_app_Some in Hk as [Hk|[Hk Hy]].
    + pose proof (lookup_lt_Some _ _ _ Hk).
      replace (cb_start b + 1 + k) with (cb_start b + S k) by lia.
      rewrite list_lookup_insert_ne; [by apply (Hit (S k))|].
      intros E. assert (S k = 0); [|done]. apply (mod_add_inj n (cb_start b)); [lia|lia|].
      rewrite Nat.add_0_r, (Nat.mod_small (cb_start b)) by done. done.
    + apply list_lookup_singleton_Some in Hy as [Hk0 <-].
      replace (cb_start b + 1 + k) with (cb_start b + 1 * n) by lia.
      rewrite Nat.Div0.mod_add, Nat.mod_small by done.
      rewrite list_lookup_insert_eq; [done|]. by rewrite Hs.
Qed.

(** ** Invariant of the recent jobs *)
Record recent_wf (r : RecentJobs) (v2s : list N) : Prop := {
  rw_buffer : cb_models TRACKED_RECENT_JOBS (rj_last_v2s r) v2s;
  rw_nodup : NoDup v2s;
  rw_tracked : rj_tracked_jobs r = TRACKED_RECENT_JOBS;
  rw_v2s v2 : v2 ∈ v2s ↔ is_Some (rj_v2_to_v1 r !! v2);
  rw_inverse v1 v2 : rj_v1_to_v2 r !! v1 = Some v2 ↔
    ∃ ids, rj_v2_to_v1 r !! v2 = Some ids ∧ v1 ∈ ids;
  rw_issued v1 : is_Some (rj_issued_jobs r !! v1) ↔ is_Some (rj_v1_to_v2 r !! v1);
  rw_job_id v1 v2 j : rj_v1_to_v2 r !! v1 = Some v2 → rj_issued_jobs r !! v1 = Some j →
    parse_uint u32_max (nf_job_id (ij_notify j)) = Some v2;
  rw_jobs : length (rj_jobs r) ≤ TRACKED_RECENT_JOBS;
  rw_raw j : j ∈ rj_jobs r → is_Some (parse_uint u32_max (nf_job_id (rj_notify j)))
}.

Lemma lookup_delete_all {A} (ids : list N) (m : gmap N A) k x :
  fold_left (λ m v1_id, delete v1_id m) ids m !! k = Some x ↔ m !! k = Some x ∧ k ∉ ids.
Proof.
  revert m. induction ids as [|i ids IH]; intros m; simpl.
  - split; [|naive_solver]. intros H. split; [done|apply not_elem_of_nil].
  - rewrite IH, lookup_delete_Some, not_elem_of_cons. naive_solver.
Qed.

(** The job queue and the buffer play no part in the identifier maps. *)
Definition maps_wf (r : RecentJobs) (v2s : list N) : Prop :=
  (∀ v2, v2 ∈ v2s ↔ is_Some (rj_v2_to_v1 r !! v2)) ∧
  (∀ v1 v2, rj_v1_to_v2 r !! v1 = Some v2 ↔
     ∃ ids, rj_v2_to_v1 r !! v2 = Some ids ∧ v1 ∈ ids) ∧
  (∀ v1, is_Some (rj_issued_jobs r !! v1) ↔ is_Some (rj_v1_to_v2 r !! v1)) ∧
  (∀ v1 v2 j, rj_v1_to_v2 r !! v1 = Some v2 → rj_issued_jobs r !! v1 = Some j →
     parse_uint u32_max (nf_job_id (ij_notify j)) = Some v2).

(** What removing a V2 job leaves. *)
Lemma remove_v2_lookup r v2 :
  (∀ v1 v2', rj_v1_to_v2 r !! v1 = Some v2' ↔
     ∃ ids, rj_v2_to_v1 r !! v2' = Some ids ∧ v1 ∈ ids) →
  (∀ v1 v2', rj_v1_to_v2 (remove_v2 v2 r) !! v1 = Some v2' ↔
     rj_v1_to_v2 r !! v1 = Some v2' ∧ v2' ≠ v2) ∧
  (∀ v1 j, rj_issued_jobs (remove_v2 v2 r) !! v1 = Some j ↔
     rj_issued_jobs r !! v1 = Some j ∧ rj_v1_to_v2 r !! v1 ≠ Some v2) ∧
  rj_v2_to_v1 (remove_v2 v2 r) = delete v2 (rj_v2_to_v1 r) ∧
  rj_last_v2s (remove_v2 v2 r) = rj_last_v2s r ∧ rj_jobs (remove_v2 v2 r) = rj_jobs r ∧
  rj_tracked_jobs (remove_v2 v2 r) = rj_tracked_jobs r.
Proof.
  intros Hinv. unfold remove_v2. destruct (rj_v2_to_v1 r !! v2) as [ids|] eqn:E; simpl.
  - assert (∀ v1, v1 ∈ ids ↔ rj_v1_to_v2 r !! v1 = Some v2) as Hids.
    { intros v1. rewrite Hinv. naive_solver. }
    split; [|split; [|done]]; intros v1 x; rewrite lookup_delete_all, Hids; naive_solver.
  - assert (∀ v1, rj_v1_to_v2 r !! v1 ≠ Some v2) by (intros v1; rewrite Hinv; naive_solver).
    split; [|split]; [naive_solver..|]. by rewrite delete_id.
Qed.

Lemma remove_v2_maps_wf r v2 v2s :
  maps_wf r (v2 :: v2s) → v2 ∉ v2s → maps_wf (remove_v2 v2 r) v2s.
Proof.
  intros (Hdom & Hinv & Hiss & Hid) Hni.
  destruct (remove_v2_lookup r v2 Hinv) as (H1 & H2 & H3 & _).
  split; [|split; [|split]].
  - intros v. rewrite H3, lookup_delete_is_Some, <- Hdom, elem_of_cons. naive_solver.
  - intros v1 v. rewrite H1, Hinv, H3. setoid_rewrite lookup_delete_Some. naive_solver.
  - intros v1. split.
    + intros [j [Hj Hne]%H2]. assert (is_Some (rj_v1_to_v2 r !! v1)) as [v Hv]
        by (apply Hiss; eauto). exists v. apply H1. naive_solver.
    + intros [v [Hv Hne]%H1]. assert (is_Some (rj_issued_jobs r !! v1)) as [j Hj]
        by (apply Hiss; eauto). exists j. apply H2. naive_solver.
  - intros v1 v j [Hv _]%H1 [Hj _]%H2. eauto.
Qed.

(** The V2 jobs tracked after [v2] is issued. *)
Definition tracked_after (v2s : list N) (v2 : N) : list N :=
  if bool_decide (v2 ∈ v2s) then v2s else push_bounded TRACKED_RECENT_JOBS v2s v2.

Lemma draw_v1_fresh r draws v1 rest :
  draw_v1 r draws = Some (v1, rest) → rj_v1_to_v2 r !! v1 = None ∧ v1 ∈ draws.
Proof.
  induction draws as [|d draws IH]; simpl; [done|]. case_bool_decide as Hd.
  - intros [? ?]%IH. split; [done|by right].
  - intros [= -> ->]. split; [by apply eq_None_not_Some|left].
Qed.

(** Issuing a job under a fresh identifier, on the maps. *)
Section issue.
Variables (r : RecentJobs) (v2s : list N) (v1 v2 : N) (job : IssuedJob).
Hypothesis Hwf : maps_wf r v2s.
Hypothesis Hfresh : rj_v1_to_v2 r !! v1 = None.
Hypothesis Hparse : parse_uint u32_max (nf_job_id (ij_notify job)) = Some v2.

(** The maps after issuing, when the identifiers of [v2] become [ids]. *)
Definition issue (ids : list N) (last : CircularBuffer N) : RecentJobs :=
  MkRecentJobs (<[v1 := v2]> (rj_v1_to_v2 r)) (<[v2 := ids]> (rj_v2_to_v1 r))
    (<[v1 := job]> (rj_issued_jobs r)) (rj_jobs r) last (rj_tracked_jobs r).

Lemma issue_maps_wf ids last v2s' :
  (∀ v, v ∈ v2s' ↔ v = v2 ∨ v ∈ v2s) →
  (∀ x, x ∈ ids ↔ x = v1 ∨ rj_v1_to_v2 r !! x = Some v2) →
  maps_wf (issue ids last) v2s'.
Proof using Hwf Hfresh Hparse.
  destruct Hwf as (Hdom & Hinv & Hiss & Hid). intros Hv2s Hids.
  split; [|split; [|split]]; simpl.
  - intros v. rewrite Hv2s, lookup_insert_is_Some', <- Hdom. naive_solver.
  - intros x v. destruct (decide (x = v1)) as [->|Hx].
    + rewrite lookup_insert_eq. split.
      * intros [= <-]. exists ids. rewrite lookup_insert_eq, Hids. auto.
      * intros (l & Hl & Hin). destruct (decide (v = v2)) as [->|Hv]; [done|].
        rewrite lookup_insert_ne in Hl by done.
        assert (rj_v1_to_v2 r !! v1 = Some v) by (apply Hinv; eauto). congruence.
    + rewrite lookup_insert_ne by done. destruct (decide (v = v2)) as [->|Hv].
      * rewrite lookup_insert_eq. split.
        -- intros Hxv. exists ids. rewrite Hids. auto.
        -- intros (l & [= <-] & Hin). apply Hids in Hin. naive_solver.
      * by rewrite lookup_insert_ne, Hinv.
  - intros x. rewrite !lookup_insert_is_Some'. by rewrite Hiss.
  - intros x v j. destruct (decide (x = v1)) as [->|Hx].
    + rewrite !lookup_insert_eq. intros [= <-] [= <-]. done.
    + rewrite !lookup_insert_ne by done. apply Hid.
Qed.
End issue.

Lemma remove_v2_untracked r v1 v2 first job l last :
  first ≠ v2 →
  let r1 := remove_v2 first (MkRecentJobs (rj_v1_to_v2 r) (<[v2 := l]> (rj_v2_to_v1 r))
    (rj_issued_jobs r) (rj_jobs r) last (rj_tracked_jobs r)) in
  MkRecentJobs (<[v1 := v2]> (rj_v1_to_v2 r1)) (rj_v2_to_v1 r1)
    (<[v1 := job]> (rj_issued_jobs r1)) (rj_jobs r1) (rj_last_v2s r1) (rj_tracked_jobs r1)
  = issue (remove_v2 first r) v1 v2 job l last.
Proof.
  intros Hne r1. unfold r1, issue, remove_v2. simpl. rewrite lookup_insert_ne by done.
  destruct (rj_v2_to_v1 r !! first); simpl; [|done]. by rewrite delete_insert_ne.
Qed.

(** What issuing [v1] for [v2] achieves: the invariant with the tracked V2 jobs
    [v2s'], the lookup of the new job, and the fate of the old ones. *)
Record issued_as (r r' : RecentJobs) (v2s' : list N) (v1 : N) (job : IssuedJob) : Prop := {
  ia_buffer : cb_models TRACKED_RECENT_JOBS (rj_last_v2s r') v2s';
  ia_nodup : NoDup v2s';
  ia_maps : maps_wf r' v2s';
  ia_jobs : rj_jobs r' = rj_jobs r;
  ia_tracked : rj_tracked_jobs r' = rj_tracked_jobs r;
  ia_new : rj_issued_jobs r' !! v1 = Some job;
  ia_old x j v : rj_issued_jobs r !! x = Some j → rj_v1_to_v2 r !! x = Some v →
    rj_issued_jobs r' !! x = if bool_decide (v ∈ v2s') then Some j else None
}.

Section new_v1.
Variables (r : RecentJobs) (v2s : list N) (v1 v2 : N) (job : IssuedJob).
Hypothesis Hcb : cb_models TRACKED_RECENT_JOBS (rj_last_v2s r) v2s.
Hypothesis Hnd : NoDup v2s.
Hypothesis Hwf : maps_wf r v2s.
Hypothesis Hfresh : rj_v1_to_v2 r !! v1 = None.
Hypothesis Hparse : parse_uint u32_max (nf_job_id (ij_notify job)) = Some v2.

Lemma old_identifier x v : rj_v1_to_v2 r !! x = Some v → x ≠ v1 ∧ v ∈ v2s.
Proof using Hwf Hfresh.
  intros Hv. split; [congruence|]. destruct Hwf as (Hdom & Hinv & _).
  apply Hdom. apply Hinv in Hv as (l & -> & _). eauto.
Qed.

Lemma NoDup_snoc (l : list N) x : NoDup l → x ∉ l → NoDup (l ++ [x]).
Proof using Type.
  intros Hl Hx. apply NoDup_app. repeat split; [done| |apply NoDup_singleton].
  by intros y Hy ->%list_elem_of_singleton.
Qed.

(** The V2 job is tracked already. *)
Lemma new_v1_known ids :
  rj_v2_to_v1 r !! v2 = Some ids →
  issued_as r (issue r v1 v2 job (ids ++ [v1]) (rj_last_v2s r)) v2s v1 job.
Proof using All.
  intros Hv2. pose proof Hwf as (Hdom & Hinv & _). split; try done.
  - apply (issue_maps_wf r v2s); try done.
    + intros v. split; [auto|]. intros [->|]; [apply Hdom; eauto|done].
    + intros x. rewrite elem_of_app, list_elem_of_singleton, Hinv. naive_solver.
  - apply lookup_insert_eq.
  - intros x j v Hx Hxv. destruct (old_identifier _ _ Hxv) as [? ?]. simpl.
    by rewrite lookup_insert_ne, bool_decide_true.
Qed.

(** The V2 job is new and the buffer has room. *)
Lemma new_v1_room last' :
  v2 ∉ v2s → (∀ x, rj_v1_to_v2 r !! x ≠ Some v2) →
  cb_models TRACKED_RECENT_JOBS last' (v2s ++ [v2]) →
  issued_as r (issue r v1 v2 job [v1] last') (v2s ++ [v2]) v1 job.
Proof using All.
  intros Hnv Hno Hcb'. split; try done; [by apply NoDup_snoc| | |].
  - apply (issue_maps_wf r v2s); try done; intros x;
      rewrite ?elem_of_app, ?list_elem_of_singleton; naive_solver.
  - apply lookup_insert_eq.
  - intros x j v Hx Hxv. destruct (old_identifier _ _ Hxv) as [? ?]. simpl.
    rewrite lookup_insert_ne, bool_decide_true; [done| |done]. apply elem_of_app. by left.
Qed.

(** The V2 job is new and the oldest one has to go. *)
Lemma new_v1_evicts first v2s0 last' :
  v2s = first :: v2s0 → v2 ∉ v2s → (∀ x, rj_v1_to_v2 r !! x ≠ Some v2) →
  cb_models TRACKED_RECENT_JOBS last' (v2s0 ++ [v2]) →
  issued_as r (issue (remove_v2 first r) v1 v2 job [v1] last') (v2s0 ++ [v2]) v1 job.
Proof using All.
  intros Heq Hnv Hno Hcb'. pose proof Hwf as (_ & Hinv & _).
  pose proof Hnd as Hnd'. pose proof Hwf as Hwf'. rewrite Heq in Hnv, Hnd', Hwf'.
  apply NoDup_cons in Hnd' as [Hfirst Hnd0]. apply not_elem_of_cons in Hnv as [Hne Hnv].
  pose proof (remove_v2_maps_wf r first v2s0 Hwf' Hfirst) as Hwf1.
  destruct (remove_v2_lookup r first Hinv) as (H1 & H2 & H3 & H4 & H5 & H6).
  split; try done; [by apply NoDup_snoc| | |].
  - apply (issue_maps_wf _ v2s0); try done.
    + apply eq_None_not_Some. intros [v [Hv _]%H1]. congruence.
    + intros x. rewrite elem_of_app, list_elem_of_singleton. naive_solver.
    + intros x. rewrite list_elem_of_singleton, H1. naive_solver.
  - apply lookup_insert_eq.
  - intros x j v Hx Hxv. destruct (old_identifier _ _ Hxv) as [Hx1 Hin]. simpl.
    rewrite lookup_insert_ne by done. case_bool_decide as Hv.
    + apply H2. split; [done|]. rewrite Hxv. intros [= ->].
      apply elem_of_app in Hv as [?|?%list_elem_of_singleton]; [done|congruence].
    + apply eq_None_not_Some. intros [j' [_ Hj']%H2]. apply Hj'. rewrite Hxv.
      rewrite Heq in Hin. apply elem_of_cons in Hin as [->|Hin]; [done|].
      destruct Hv. apply elem_of_app. by left.
Qed.

Lemma new_v1_spec :
  issued_as r (new_v1 r v1 v2 (ij_notify job) (ij_difficulty job)
    (ij_merge_mining_binding_id job)) (tracked_after v2s v2) v1 job.
Proof using All.
  pose proof Hwf as (Hdom & Hinv & _). unfold new_v1, tracked_after.
  assert (MkIssuedJob (ij_notify job) (ij_difficulty job) (ij_merge_mining_binding_id job)
    = job) as -> by by destruct job.
  destruct (rj_v2_to_v1 r !! v2) as [ids|] eqn:Hv2.
  { rewrite bool_decide_true by (apply Hdom; eauto). by apply new_v1_known. }
  assert (v2 ∉ v2s) as Hnv by (rewrite Hdom, Hv2; by intros [? ?]).
  rewrite bool_decide_false by done.
  assert (∀ x, rj_v1_to_v2 r !! x ≠ Some v2) as Hno by (intros x Hx%Hinv; naive_solver).
  pose proof (cb_push_back_spec TRACKED_RECENT_JOBS v2 (rj_last_v2s r) v2s
    ltac:(unfold TRACKED_RECENT_JOBS; lia) Hcb) as Hpush.
  destruct (cb_push_back _ _ _) as [first last']. destruct Hpush as [-> Hcb'].
  pose proof (cm_bound _ _ _ Hcb) as Hmax. revert Hcb'. unfold push_bounded.
  destruct (Nat.ltb_spec (length v2s) TRACKED_RECENT_JOBS) as [Hlt|Hge];
    destruct (Nat.leb_spec TRACKED_RECENT_JOBS (length v2s)); try lia; intros Hcb'.
  - by apply new_v1_room.
  - assert (∃ first v2s0, v2s = first :: v2s0) as (first & v2s0 & Heq).
    { clear -Hge. destruct v2s as [|a l]; [unfold TRACKED_RECENT_JOBS in Hge; simpl in Hge; lia|].
      eauto. }
    assert (first ≠ v2) as Hne by (intros ->; apply Hnv; rewrite Heq; left).
    pose proof (remove_v2_untracked r v1 v2 first job [v1] last' Hne) as Hrm.
    cbv zeta in Hrm. rewrite Heq in Hcb' |- *. cbn [head tail] in *. cbn beta iota.
    rewrite Hrm. by apply new_v1_evicts.
Qed.
End new_v1.

(** ** Operations *)
Inductive RecentOp :=
| AddJob (draws : list N) (notify : Notify) (mask : option HexU32Be) (difficulty : f32)
    (binding : option N)
| CloneLast (draws : list N) (difficulty : f32).

(** An operation that panics, or that has no fresh draw left, changes nothing. *)
Definition run_recent (r : RecentJobs) (op : RecentOp) : RecentJobs :=
  match op with
  | AddJob draws notify mask difficulty binding =>
      match add_job_with_binding r draws notify mask difficulty binding with
      | Some (_, r, _) => r
      | None => r
      end
  | CloneLast draws difficulty =>
      match clone_last r draws difficulty with Some (_, r, _) => r | None => r end
  end.

Lemma recent_wf_new : recent_wf recent_jobs_new [].
Proof.
  split; simpl; try done; try apply NoDup_nil_2; try lia.
  - apply cb_models_new. unfold TRACKED_RECENT_JOBS. lia.
  - intros v2. rewrite lookup_empty. split; [by intros ?%elem_of_nil|by intros ?%is_Some_None].
  - intros v1 v2. rewrite lookup_empty. setoid_rewrite lookup_empty. naive_solver.
  - intros v1. by rewrite !lookup_empty.
  - intros j ?%elem_of_nil. done.
Qed.

Lemma recent_wf_maps r v2s : recent_wf r v2s → maps_wf r v2s.
Proof. intros []. repeat split; naive_solver. Qed.

(** The invariant follows from the maps and the queue of raw jobs. *)
Lemma recent_wf_issued r r' v2s' v1 job jobs :
  issued_as r r' v2s' v1 job → rj_tracked_jobs r' = TRACKED_RECENT_JOBS →
  length jobs ≤ TRACKED_RECENT_JOBS →
  (∀ j, j ∈ jobs → is_Some (parse_uint u32_max (nf_job_id (rj_notify j)))) →
  recent_wf (MkRecentJobs (rj_v1_to_v2 r') (rj_v2_to_v1 r') (rj_issued_jobs r') jobs
    (rj_last_v2s r') (rj_tracked_jobs r')) v2s'.
Proof.
  intros [Hcb Hnd (Hdom & Hinv & Hiss & Hid) _ _ _ _] Ht Hl Hraw. by split.
Qed.

#[local] Arguments new_v1 : simpl never.

(** [add_job_with_binding], when it returns. *)
Lemma add_job_spec r v2s draws notify mask difficulty binding sent r' rest :
  recent_wf r v2s →
  add_job_with_binding r draws notify mask difficulty binding = Some (sent, r', rest) →
  ∃ v1 v2,
    parse_uint u32_max (nf_job_id notify) = Some v2 ∧ v1 ∈ draws ∧
    rj_v1_to_v2 r !! v1 = None ∧
    sent = with_job_id (display_N v1) (apply_mask mask notify) ∧
    recent_wf r' (tracked_after v2s v2) ∧
    get_matching_job r' v1 = Some (MkIssuedJob (apply_mask mask notify) difficulty binding) ∧
    (∀ x j v, get_matching_job r x = Some j → rj_v1_to_v2 r !! x = Some v →
       get_matching_job r' x = if bool_decide (v ∈ tracked_after v2s v2) then Some j else None).
Proof.
  intros Hw H. unfold add_job_with_binding in H.
  assert (nf_job_id (apply_mask mask notify) = nf_job_id notify) as Hid by by destruct mask.
  rewrite Hid in H. destruct (parse_uint _ _) as [v2|] eqn:Hv2; [|done].
  destruct (draw_v1 r draws) as [[v1 ds]|] eqn:Hd; [|done].
  apply draw_v1_fresh in Hd as [Hfresh Hin].
  set (jobs := rj_jobs r ++ _) in H.
  set (r0 := MkRecentJobs (rj_v1_to_v2 r) (rj_v2_to_v1 r) (rj_issued_jobs r) jobs
    (rj_last_v2s r) (rj_tracked_jobs r)) in H.
  set (job := MkIssuedJob (apply_mask mask notify) difficulty binding).
  pose proof (new_v1_spec r0 v2s v1 v2 job (rw_buffer _ _ Hw) (rw_nodup _ _ Hw)
    (recent_wf_maps _ _ Hw) Hfresh ltac:(simpl; congruence)) as Hi.
  cbn [ij_notify ij_difficulty ij_merge_mining_binding_id job] in Hi.
  cbv zeta in H. set (r1 := new_v1 r0 v1 v2 _ _ _) in *. clearbody r1.
  injection H as <- <- <-.
  exists v1, v2. split; [done|]. split; [done|]. split; [done|]. split; [done|].
  split; [|split; [exact (ia_new _ _ _ _ _ Hi)|exact (ia_old _ _ _ _ _ Hi)]].
  assert (length jobs ≤ S TRACKED_RECENT_JOBS) as Hjl.
  { unfold jobs. rewrite length_app. simpl. pose proof (rw_jobs _ _ Hw). lia. }
  assert (∀ j, j ∈ jobs → is_Some (parse_uint u32_max (nf_job_id (rj_notify j)))) as Hraw.
  { intros j [Hj| ->%list_elem_of_singleton]%elem_of_app; [by apply (rw_raw _ _ Hw)|].
    simpl. rewrite Hid. eauto. }
  apply (recent_wf_issued _ _ _ _ _ _ Hi).
  - by rewrite (ia_tracked _ _ _ _ _ Hi); apply (rw_tracked _ _ Hw).
      - rewrite (ia_tracked _ _ _ _ _ Hi), (ia_jobs _ _ _ _ _ Hi). simpl.
    rewrite (rw_tracked _ _ Hw). case_if; bool_to_prop; [|done].
    destruct jobs; simpl in *; lia.
  - rewrite (ia_jobs _ _ _ _ _ Hi). intros j Hj. apply Hraw. case_if; [|done]. simpl in Hj.
    destruct jobs; [done|]. by right.
Qed.

Lemma clone_last_spec r v2s draws difficulty sent r' rest :
  recent_wf r v2s → clone_last r draws difficulty = Some (Some sent, r', rest) →
  ∃ v1 v2 raw,
    last (rj_jobs r) = Some raw ∧ parse_uint u32_max (nf_job_id (rj_notify raw)) = Some v2 ∧
    v1 ∈ draws ∧ sent = with_job_id (display_N v1) (rj_notify raw) ∧
    recent_wf r' (tracked_after v2s v2) ∧
    get_matching_job r' v1 =
      Some (MkIssuedJob (rj_notify raw) difficulty (rj_merge_mining_binding_id raw)).
Proof.
  intros Hw H. unfold clone_last in H. destruct (last (rj_jobs r)) as [raw|] eqn:Hr; [|done].
  destruct (parse_uint _ _) as [v2|] eqn:Hv2; [|done].
  destruct (draw_v1 r draws) as [[v1 ds]|] eqn:Hd; [|done].
  apply draw_v1_fresh in Hd as [Hfresh Hin]. injection H as <- <- <-.
  set (job := MkIssuedJob (rj_notify raw) difficulty (rj_merge_mining_binding_id raw)).
  pose proof (new_v1_spec r v2s v1 v2 job (rw_buffer _ _ Hw) (rw_nodup _ _ Hw)
    (recent_wf_maps _ _ Hw) Hfresh Hv2) as Hi.
  exists v1, v2, raw. repeat (split; [done|]). split; [|exact (ia_new _ _ _ _ _ Hi)].
  cbn [ij_notify ij_difficulty ij_merge_mining_binding_id job] in Hi.
  set (r1 := new_v1 r v1 v2 _ _ _) in *. clearbody r1.
  pose proof (recent_wf_issued _ _ _ _ _ (rj_jobs r) Hi) as H.
  rewrite (ia_tracked _ _ _ _ _ Hi) in H.
  specialize (H (rw_tracked _ _ Hw) (rw_jobs _ _ Hw) (rw_raw _ _ Hw)).
  rewrite <- (ia_jobs _ _ _ _ _ Hi), <- (ia_tracked _ _ _ _ _ Hi) in H.
  by destruct r1.
Qed.

Lemma run_recent_wf op r v2s : recent_wf r v2s → ∃ v2s', recent_wf (run_recent r op) v2s'.
Proof.
  intros Hw. destruct op as [draws notify mask difficulty binding|draws difficulty]; simpl.
  - destruct (add_job_with_binding _ _ _ _ _ _) as [[[sent r'] rest]|] eqn:E; [|eauto].
    destruct (add_job_spec _ _ _ _ _ _ _ _ _ _ Hw E) as (v1 & v2 & _ & _ & _ & _ & ? & _).
    eauto.
  - destruct (clone_last _ _ _) as [[[[sent|] r'] rest]|] eqn:E; [| |eauto].
    + destruct (clone_last_spec _ _ _ _ _ _ _ Hw E) as (v1 & v2 & raw & _ & _ & _ & _ & ? & _).
      eauto.
    + unfold clone_last in E. repeat (case_match; try done). simplify_eq. eauto.
Qed.

Lemma run_recents_wf ops r v2s :
  recent_wf r v2s → ∃ v2s', recent_wf (fold_left run_recent ops r) v2s'.
Proof.
  revert r v2s. induction ops as [|op ops IH]; intros r v2s Hw; [by exists v2s|].
  destruct (run_recent_wf op _ _ Hw) as [v2s' Hw']. by apply (IH _ v2s').
Qed.

(** ** Theorems *)

(** Whatever jobs are added and cloned, the identifier maps stay inverse to
    each other, every issued identifier has its job, whose V2 identifier is the
    one the maps name, at most three V2 jobs are tracked and at most three raw jobs
    queued. *)
Theorem recent_jobs_invariant ops :
  ∃ v2s, recent_wf (fold_left run_recent ops recent_jobs_new) v2s ∧
    length v2s ≤ TRACKED_RECENT_JOBS.
Proof.
  destruct (run_recents_wf ops _ _ recent_wf_new) as [v2s Hw]. exists v2s.
  split; [done|]. exact (cm_bound _ _ _ (rw_buffer _ _ Hw)).
Qed.

(** C19: a job sent to a miner resolves: its SV1 identifier, read back from the
    text the miner returns, finds the job with the original V2 identifier, the
    masked version, the difficulty and the merge-mining binding; the jobs issued
    before stay resolvable, except those of the V2 job that is dropped when a
    fourth one arrives. *)
Theorem sent_job_resolves ops draws notify mask difficulty binding sent r' rest :
  Forall (λ d, (d <= u32_max)%N) draws →
  let r := fold_left run_recent ops recent_jobs_new in
  add_job_with_binding r draws notify mask difficulty binding = Some (sent, r', rest) →
  ∃ v1 v2 v2s,
    recent_wf r v2s ∧ parse_uint u32_max (nf_job_id sent) = Some v1 ∧
    parse_uint u32_max (nf_job_id notify) = Some v2 ∧
    get_matching_job r' v1 = Some (MkIssuedJob (apply_mask mask notify) difficulty binding) ∧
    (∀ x j v, get_matching_job r x = Some j → rj_v1_to_v2 r !! x = Some v →
       get_matching_job r' x =
         if bool_decide (v = v2 ∨ length v2s < TRACKED_RECENT_JOBS ∨ v2 ∈ v2s ∨
                         head v2s ≠ Some v) then Some j else None).
Proof.
  intros Hd r Hadd. destruct (run_recents_wf ops _ _ recent_wf_new) as [v2s Hw].
  destruct (add_job_spec _ _ _ _ _ _ _ _ _ _ Hw Hadd)
    as (v1 & v2 & Hv2 & Hin & Hfresh & -> & Hw' & Hnew & Hold).
  exists v1, v2, v2s. split; [done|]. split.
  { simpl. apply parse_uint_display. by apply (proj1 (Forall_forall _ _) Hd). }
  split; [done|]. split; [done|]. intros x j v Hx Hxv.
  rewrite (Hold x j v Hx Hxv).
  assert (v ∈ v2s) as Hv.
  { apply (rw_v2s _ _ Hw). apply (rw_inverse _ _ Hw) in Hxv as (ids & -> & _). eauto. }
  apply (f_equal (λ b : bool, if b then Some j else None)), bool_decide_ext.
  pose proof (cm_bound _ _ _ (rw_buffer _ _ Hw)) as Hb. pose proof (rw_nodup _ _ Hw) as Hnd.
  unfold tracked_after. case_bool_decide as Hv2s; [tauto|]. unfold push_bounded.
  destruct (Nat.leb_spec TRACKED_RECENT_JOBS (length v2s)).
  - destruct v2s as [|first v2s]; [by apply elem_of_nil in Hv|]. cbn [tail head].
    apply NoDup_cons in Hnd as [Hf _].
    rewrite elem_of_app, list_elem_of_singleton. apply elem_of_cons in Hv.
    split; [|naive_solver lia]. intros [Hin'| ->]; [|tauto]. right. right. right.
    intros [= ->]. done.
  - rewrite elem_of_app. tauto.
Qed.

(** The circular buffer of size [n] is a queue that drops its oldest element
    when it is full: each push returns the dropped element and leaves the others
    in order. *)
Theorem circular_buffer_refines_queue {T} n (values : list T) :
  0 < n →
  let push '(b, l) x := ((cb_push_back n x b).2, push_bounded n l x) in
  let '(b, l) := fold_left push values (cb_new n, []) in
  cb_models n b l ∧
  ∀ x, (cb_push_back n x b).1 = if length l <? n then None else head l.
Proof.
  intros Hn push.
  assert (∀ b l, cb_models n b l →
    let '(b', l') := fold_left push values (b, l) in cb_models n b' l') as H.
  { induction values as [|x values IH]; intros b l Hb; [done|]. simpl. apply IH.
    pose proof (cb_push_back_spec n x b l Hn Hb) as Hs.
    destruct (cb_push_back n x b). apply Hs. }
  specialize (H _ _ (cb_models_new n Hn)).
  destruct (fold_left push values (cb_new n, [])) as [b l]. split; [done|].
  intros x. pose proof (cb_push_back_spec n x b l Hn H) as Hs.
  destruct (cb_push_back n x b). apply Hs.
Qed.

(** ** Witnesses *)
Definition example_notify (id : N) : Notify :=
  MkNotify (display_N id) [] [] [] [] 536870912%N 0%N 0%N true.
Definition example_recent_ops : list RecentOp :=
  [AddJob [11%N] (example_notify 1) None S754_nan None;
   AddJob [11%N; 12%N] (example_notify 2) None S754_nan (Some 5%N)].

Lemma sent_job_resolves_witness :
  ∃ v1 v2 v2s,
    let r := fold_left run_recent example_recent_ops recent_jobs_new in
    recent_wf r v2s ∧
    parse_uint u32_max (nf_job_id (with_job_id (display_N 13) (example_notify 3))) = Some v1 ∧
    parse_uint u32_max (nf_job_id (example_notify 3)) = Some v2.
Proof.
  destruct (add_job_with_binding (fold_left run_recent example_recent_ops recent_jobs_new)
    [12%N; 13%N] (example_notify 3) None S754_nan None) as [[[sent r'] rest]|] eqn:E;
    [|vm_compute in E; discriminate].
  assert (sent = with_job_id (display_N 13) (example_notify 3)) as Hsent
    by (vm_compute in E; injection E as <- _ _; vm_compute; reflexivity).
  destruct (sent_job_resolves example_recent_ops [12%N; 13%N] (example_notify 3) None S754_nan
    None sent r' rest) as (v1 & v2 & v2s & H1 & H2 & H3 & _).
  - repeat constructor; vm_compute; discriminate.
  - exact E.
  - exists v1, v2, v2s. rewrite Hsent in H2. exact (conj H1 (conj H2 H3)).
Defined.

Lemma circular_buffer_refines_queue_witness :
  (cb_push_back 3 9%N
    (fold_left (λ '(b, l) x, ((cb_push_back 3 x b).2, push_bounded 3 l x))
       [1%N; 2%N; 3%N; 4%N] (cb_new 3, [])).1).1 = Some 2%N.
Proof.
  exact (proj2 (circular_buffer_refines_queue 3 [1%N; 2%N; 3%N; 4%N] ltac:(lia)) 9%N).
Defined.
