(* ===== verification/ShareLimits.v ===== *)
(** * Limits and validation of submitted shares

    Models [src/src/translator/utils.rs]: the rolling window of upstream shares,
    the retarget of the upstream channel, the per-connection share counts, the
    version of a share, its hash and its validation, and the mapping of upstream
    error codes; and [difficulty_to_target] of
    [src/src/translator/downstream/diff_management.rs]. *)

From S2P Require Import Prelude Str Bitcoin F32 Sv1.

(** ** The rolling window *)
Definition SHARE_RATE_LIMIT_PER_MINUTE : nat := 70.

(** Durations and instants are nanoseconds. *)
Definition secs (n : N) : N := (n * 1000000000)%N.
Definition SHARE_RATE_LIMIT_WINDOW : N := secs 60.
Definition UPSTREAM_RATE_LIMIT_RETARGET_INTERVAL : N := secs 5.

(** [Instant::duration_since] saturates at zero. *)
Definition duration_since (now earlier : N) : N := (now - earlier)%N.

(** [prune_expired_share_timestamps] *)
Fixpoint prune_expired_share_timestamps (timestamps : list N) (now : N) : list N :=
  match timestamps with
  | [] => []
  | front :: rest =>
      if (SHARE_RATE_LIMIT_WINDOW <=? duration_since now front)%N
      then prune_expired_share_timestamps rest now
      else timestamps
  end.

(** [reserve_share_slot] *)
Definition reserve_share_slot (timestamps : list N) (now : N) : bool * list N :=
  let timestamps := prune_expired_share_timestamps timestamps now in
  if SHARE_RATE_LIMIT_PER_MINUTE <=? length timestamps then (false, timestamps)
  else (true, timestamps ++ [now]).

(** The globals of the module. *)
Record ShareGlobals := MkShareGlobals {
  sg_timestamps : Mutex (list N);
  sg_is_rate_limited : bool;
  sg_last_retarget : Mutex (option N);
  sg_share_counts : Mutex (gmap N (N * N))
}.

Definition with_timestamps v b g :=
  MkShareGlobals v b (sg_last_retarget g) (sg_share_counts g).
Definition with_last_retarget v g :=
  MkShareGlobals (sg_timestamps g) (sg_is_rate_limited g) v (sg_share_counts g).
Definition with_share_counts v g :=
  MkShareGlobals (sg_timestamps g) (sg_is_rate_limited g) (sg_last_retarget g) v.

Inductive TranslatorError := TranslatorDiffConfigMutexPoisoned.

(** [allow_submit_share] *)
Definition allow_submit_share (difficulty_updates_disabled : bool) (now : N)
    (g : ShareGlobals) : result bool TranslatorError * ShareGlobals :=
  if difficulty_updates_disabled then (Ok true, g)
  else match lock (sg_timestamps g) with
  | None => (Err TranslatorDiffConfigMutexPoisoned, g)
  | Some timestamps =>
      let '(allowed, timestamps) := reserve_share_slot timestamps now in
      let limited := negb allowed || (SHARE_RATE_LIMIT_PER_MINUTE <=? length timestamps) in
      (Ok allowed, with_timestamps (store (sg_timestamps g) timestamps) limited g)
  end.

(** [maybe_request_upstream_rate_limit_retarget]: whether the retarget is due; the
    retarget itself multiplies the nominal hashrate by [retarget_multiplier]. *)
Definition maybe_request_upstream_rate_limit_retarget (now : N) (g : ShareGlobals)
    : result bool TranslatorError * ShareGlobals :=
  match lock (sg_last_retarget g) with
  | None => (Err TranslatorDiffConfigMutexPoisoned, g)
  | Some last_update =>
      let should_update :=
        match last_update with
        | None => true
        | Some last_update =>
            (UPSTREAM_RATE_LIMIT_RETARGET_INTERVAL <=? duration_since now last_update)%N
        end in
      let last_update := if should_update then Some now else last_update in
      (Ok should_update, with_last_retarget (store (sg_last_retarget g) last_update) g)
  end.
Definition retarget_multiplier (share_per_min : f32) : f32 :=
  f32_max (f32_div (f32_of_N (N.of_nat SHARE_RATE_LIMIT_PER_MINUTE)) share_per_min)
    (f32_of_N 2).

(** The locals of the loop of [check_share_rate_limit]. *)
Record CheckLoop := MkCheckLoop { cl_last_update : N; cl_rate_limit_hit_count : N }.

(** One tick of [check_share_rate_limit]: the locals and globals after it, and
    whether it requests the retarget and updates the difficulty. *)
Definition check_share_rate_limit_tick (now : N) (loop : CheckLoop) (g : ShareGlobals)
    : bool * CheckLoop * ShareGlobals :=
  let '(count, g) :=
    match lock (sg_timestamps g) with
    | Some timestamps =>
        let timestamps := prune_expired_share_timestamps timestamps now in
        (length timestamps,
         with_timestamps (store (sg_timestamps g) timestamps) (sg_is_rate_limited g) g)
    | None => (0, g)
    end in
  let is_limited := SHARE_RATE_LIMIT_PER_MINUTE <=? count in
  let g := with_timestamps (sg_timestamps g) is_limited g in
  let hits := if is_limited then (cl_rate_limit_hit_count loop + 1)%N else 0%N in
  if (5 <=? hits)%N && (2 <=? duration_since now (cl_last_update loop) / 1000000000)%N then
    let '(_, g) := maybe_request_upstream_rate_limit_retarget now g in
    (true, MkCheckLoop now 0, g)
  else (false, MkCheckLoop (cl_last_update loop) hits, g).

(** ** Share counts *)

(** [update_share_count] *)
Definition update_share_count (connection_id now : N) (g : ShareGlobals) : ShareGlobals :=
  match lock (sg_share_counts g) with
  | None => g
  | Some share_counts =>
      let entry :=
        match share_counts !! connection_id with
        | Some (count, last_update) =>
            if (duration_since now last_update <? secs 60)%N then ((count + 1)%N, last_update)
            else (1%N, now)
        | None => (1%N, now)
        end in
      with_share_counts
        (store (sg_share_counts g) (<[connection_id := entry]> share_counts)) g
  end.

(** [get_share_count], before the cast of the count to [f32]. *)
Definition share_count_of (connection_id now : N) (g : ShareGlobals) : N :=
  match lock (sg_share_counts g) with
  | None => 0
  | Some share_counts =>
      match share_counts !! connection_id with
      | Some (count, last_update) =>
          if (duration_since now last_update <? secs 60)%N then count else 0
      | None => 0
      end
  end.
Definition get_share_count (connection_id now : N) (g : ShareGlobals) : f32 :=
  f32_of_N (share_count_of connection_id now g).

(** ** Versions *)

(** [effective_version]: all versions and masks are 32-bit. *)
Definition effective_version (job_version : N) (request_version version_rolling_mask : option N)
    : N :=
  let request_version := default job_version request_version in
  let mask := default 536862720%N version_rolling_mask in
  N.lor (N.ldiff job_version mask) (N.land request_version mask).

(** ** Rejection reasons *)

(** [monitor::shares::RejectionReason] *)
Inductive RejectionReason :=
| JobIdNotFound
| InvalidShare
| InvalidJobIdFormat
| DifficultyMismatch
| UpstreamRejected
| RateLimited.

#[export] Instance rejection_reason_eq_dec : EqDecision RejectionReason.
Proof. solve_decision. Defined.

(** The error codes of [SubmitSharesError] belong to [mining_sv2]. *)
Class SubmitErrorCodes := {
  difficulty_too_low_error_code : str;
  stale_share_error_code : str;
  invalid_job_id_error_code : str
}.

Definition submit_error_to_rejection_reason `{SubmitErrorCodes} (error_code : str)
    : RejectionReason :=
  if bool_decide (error_code = difficulty_too_low_error_code) then DifficultyMismatch
  else if bool_decide (error_code = stale_share_error_code)
          || bool_decide (error_code = invalid_job_id_error_code) then JobIdNotFound
  else UpstreamRejected.

(** ** Targets *)

(** [Downstream::difficulty_to_target]; [None] is a panic. *)
Definition PDIFF : N := be_value (replicate 4 Byte.x00 ++ replicate 28 Byte.xff).
Definition TARGET_SCALE : N := 1000000000.

Definition difficulty_to_target (difficulty : f32) : option bytes :=
  let difficulty := f32_max difficulty (f32_ratio 1 1000000000) in
  let scaled_difficulty := f32_mul difficulty (f32_of_N TARGET_SCALE) in
  if f32_gtb scaled_difficulty (f32_of_N u128_max) then None
  else
    let diff := f32_as_unsigned u128_max scaled_difficulty in
    if (diff =? 0)%N then None
    else Some (be_bytes 32 (PDIFF * TARGET_SCALE / diff)).

(** ** Hash and validation of a share *)

(** The order of byte arrays is lexicographic. *)
Fixpoint bytes_leb (a b : bytes) : bool :=
  match a, b with
  | [], _ => true
  | _ :: _, [] => false
  | x :: a, y :: b =>
      let x := Byte.to_N x in
      let y := Byte.to_N y in
      (x <? y)%N || ((x =? y)%N && bytes_leb a b)
  end.

Section validation.
Context `{B : !BitcoinLib} `{SV : !Sv1Lib}.

(** [get_hash]; [None] is the panic of a version that is not an [i32]. *)
Definition get_hash (nonce version ntime : N) (extranonce : bytes) (job : Notify)
    (prev_hash : bytes) (merkle_path : list bytes) : option bytes :=
  let coinbase := nf_coin_base1 job ++ extranonce ++ nf_coin_base2 job in
  let coinbase_hash := sha256d coinbase in
  let merkle_root :=
    fold_left (λ merkle_root path, sha256d (merkle_root ++ path)) merkle_path coinbase_hash in
  if (i32_max <? version)%N then None
  else Some (block_hash
    (MkHeader (Z.of_N version) prev_hash merkle_root ntime (nf_bits job) nonce)).

(** [validate_share]; [None] is a panic. *)
Definition validate_share (request : Submit) (job : Notify) (difficulty : f32)
    (extranonce1 : bytes) (version_rolling_mask : option N) : option bool :=
  match u256_from_vec (prev_hash_into_vec (nf_prev_hash job)) with
  | None => Some false
  | Some prev_hash =>
      let extranonce := extranonce1 ++ sb_extra_nonce2 request in
      let version :=
        effective_version (nf_version job) (sb_version_bits request) version_rolling_mask in
      match get_hash (sb_nonce request) version (sb_time request) extranonce job
              (u256_to_block_hash prev_hash) (nf_merkle_branch job) with
      | None => None
      | Some hash =>
          match difficulty_to_target difficulty with
          | None => None
          | Some target => Some (bytes_leb (reverse hash) target)
          end
      end
  end.
End validation.
