(* ===== verification/ShareLimitsProps.v ===== *)
(** * Properties of the share limits

    The rolling window is an exact sliding-window limiter, the version of a share
    mixes the job's and the miner's bits by the mask, targets are exact for the
    power-of-two difficulties the client uses, and a validated share is one whose
    hash is numerically below the target. *)

From Stdlib Require Import Sorting.Sorted.
From S2P Require Import Prelude Str Bitcoin BitcoinModel F32 Sv1 ShareLimits.

#[local] Arguments SHARE_RATE_LIMIT_PER_MINUTE : simpl never.
#[local] Arguments SHARE_RATE_LIMIT_WINDOW : simpl never.

(** ** The limiter *)

(** Specification: a share is accepted when fewer than 70 were, or when the 70th
    most recent accepted one is a full window old. *)
Definition spec_allowed (accepted : list N) (now : N) : bool :=
  match accepted !! (length accepted - SHARE_RATE_LIMIT_PER_MINUTE) with
  | Some a =>
      (length accepted <? SHARE_RATE_LIMIT_PER_MINUTE)
      || (a + SHARE_RATE_LIMIT_WINDOW <=? now)%N
  | None => true
  end.
Definition spec_step (s : list N * list bool) (now : N) : list N * list bool :=
  let allowed := spec_allowed s.1 now in
  ((if allowed then s.1 ++ [now] else s.1), s.2 ++ [allowed]).
Definition limiter_step (s : list N * list bool) (now : N) : list N * list bool :=
  let '(allowed, timestamps) := reserve_share_slot s.1 now in
  (timestamps, s.2 ++ [allowed]).

Lemma prune_suffix timestamps now :
  ∃ expired, timestamps = expired ++ prune_expired_share_timestamps timestamps now ∧
    (∀ t, t ∈ expired → (t + SHARE_RATE_LIMIT_WINDOW <= now)%N) ∧
    ∀ t, head (prune_expired_share_timestamps timestamps now) = Some t →
      (now < t + SHARE_RATE_LIMIT_WINDOW)%N.
Proof.
  assert (0 < SHARE_RATE_LIMIT_WINDOW)%N as HW by done.
  induction timestamps as [|t ts (e & He & Hexp & Hhead)]; simpl.
  - exists []. split; [done|]. split; [by intros t ?%elem_of_nil|done].
  - unfold duration_since. destruct (N.leb_spec SHARE_RATE_LIMIT_WINDOW (now - t)).
    + exists (t :: e). split; [simpl; by f_equal|]. split; [|done].
      intros u [->|Hu]%elem_of_cons; [lia|auto].
    + exists []. split; [done|]. split; [by intros u ?%elem_of_nil|].
      intros u [= <-]. lia.
Qed.

(** What relates the window of the code to the accepted shares. *)
Record window_of (timestamps accepted : list N) (now : N) : Prop := {
  wo_split : ∃ old, accepted = old ++ timestamps ∧
    ∀ t, t ∈ old → (t + SHARE_RATE_LIMIT_WINDOW <= now)%N;
  wo_bound : length timestamps ≤ SHARE_RATE_LIMIT_PER_MINUTE
}.

Lemma limiter_simulates timestamps accepted last now :
  window_of timestamps accepted last → (last <= now)%N →
  let '(allowed, timestamps') := reserve_share_slot timestamps now in
  allowed = spec_allowed accepted now ∧
  window_of timestamps' (if allowed then accepted ++ [now] else accepted) now.
Proof.
  intros [(old & Hacc & Hold) Hb] Hle. unfold reserve_share_slot.
  destruct (prune_suffix timestamps now) as (e & He & Hexp & Hhead).
  set (ts := prune_expired_share_timestamps timestamps now) in *.
  assert (accepted = (old ++ e) ++ ts) as Hsplit
    by (rewrite Hacc, He at 1; by rewrite (assoc_L (++))).
  assert (∀ t, t ∈ old ++ e → (t + SHARE_RATE_LIMIT_WINDOW <= now)%N) as Hgone.
  { intros t [Ht|Ht]%elem_of_app; [apply Hold in Ht; lia|auto]. }
  assert (length ts ≤ length timestamps) as Hts by (rewrite He, length_app; lia).
  assert (0 < SHARE_RATE_LIMIT_PER_MINUTE) as Hpos by (vm_compute; lia).
  unfold spec_allowed.
  destruct (Nat.leb_spec SHARE_RATE_LIMIT_PER_MINUTE (length ts)) as [Hfull|Hroom].
  - split; [|split; [eauto|lia]].
    assert (length accepted - SHARE_RATE_LIMIT_PER_MINUTE = length (old ++ e)) as ->
      by (rewrite Hsplit, length_app; lia).
    rewrite Hsplit, lookup_app_r, Nat.sub_diag by done.
    destruct ts as [|t ts']; [simpl in Hfull; lia|]. simpl.
    specialize (Hhead t eq_refl). symmetry. apply orb_false_iff. split.
    + apply Nat.ltb_ge. rewrite length_app. lia.
    + apply N.leb_gt. lia.
  - split; [|split].
    + destruct (accepted !! _) as [a|] eqn:Ha; [|done]. symmetry.
      destruct (Nat.ltb_spec (length accepted) SHARE_RATE_LIMIT_PER_MINUTE); [done|].
      simpl. apply N.leb_le, Hgone. rewrite Hsplit, lookup_app_l in Ha.
      * by apply list_elem_of_lookup_2 in Ha.
      * rewrite Hsplit, length_app in *. lia.
    + exists (old ++ e). split; [|done]. by rewrite Hsplit, <- (assoc_L (++)) at 1.
    + rewrite length_app. simpl. lia.
Qed.

Lemma limiter_refines_from nows ts acc rs last :
  window_of ts acc last → StronglySorted N.le (last :: nows) →
  (fold_left limiter_step nows (ts, rs)).2 = (fold_left spec_step nows (acc, rs)).2.
Proof.
  revert ts acc rs last. induction nows as [|now nows IH]; intros ts acc rs last Hw Hs; [done|].
  apply StronglySorted_inv in Hs as [Hs Hle]. apply Forall_inv in Hle. simpl.
  pose proof (limiter_simulates ts acc last now Hw Hle) as H.
  unfold limiter_step at 2, spec_step at 2. cbn [fst snd].
  destruct (reserve_share_slot ts now) as [allowed ts']. destruct H as [<- Hw'].
  by apply (IH _ _ _ now).
Qed.

(** Accepted shares 70 apart are a window apart. *)
Definition spaced (accepted : list N) : Prop :=
  ∀ i a b, accepted !! i = Some a →
    accepted !! (i + SHARE_RATE_LIMIT_PER_MINUTE) = Some b →
    (a + SHARE_RATE_LIMIT_WINDOW <= b)%N.

Lemma spec_step_spaced nows acc rs :
  spaced acc → spaced (fold_left spec_step nows (acc, rs)).1.
Proof.
  revert acc rs. induction nows as [|now nows IH]; intros acc rs Hs; [done|]. simpl.
  apply IH. cbn [fst]. destruct (spec_allowed acc now) eqn:Ha; [|done].
  intros i a b Hi Hb. apply lookup_app_Some in Hb as [Hb|[Hlen Hb]].
  - rewrite lookup_app_l in Hi by (apply lookup_lt_Some in Hb; lia). by apply (Hs i).
  - apply list_lookup_singleton_Some in Hb as [Hidx <-].
    assert (0 < SHARE_RATE_LIMIT_PER_MINUTE) by (vm_compute; lia).
    rewrite lookup_app_l in Hi by lia. unfold spec_allowed in Ha.
    replace (length acc - SHARE_RATE_LIMIT_PER_MINUTE) with i in Ha by lia.
    rewrite Hi in Ha. apply orb_true_iff in Ha as [Ha|Ha]; bool_to_prop; lia.
Qed.

(** ** Versions *)
Lemma effective_version_bit job req mask i :
  N.testbit (effective_version job req mask) i =
    if N.testbit (default 536862720%N mask) i then N.testbit (default job req) i
    else N.testbit job i.
Proof.
  unfold effective_version. rewrite N.lor_spec, N.ldiff_spec, N.land_spec.
  destruct (N.testbit (default 536862720%N mask) i); simpl;
    by rewrite ?andb_true_r, ?andb_false_r, ?orb_false_r.
Qed.

(** ** Byte order *)
Lemma be_value_cons b l :
  be_value (b :: l) = (Byte.to_N b * 256 ^ N.of_nat (length l) + be_value l)%N.
Proof.
  pose proof (le_value_app (reverse l) [b]) as H. unfold le_value in H.
  rewrite !reverse_app, !reverse_involutive, reverse_singleton, length_reverse in H.
  simpl in H. rewrite H. unfold be_value at 2. simpl. lia.
Qed.

Lemma be_value_lt l : (be_value l < 256 ^ N.of_nat (length l))%N.
Proof.
  pose proof (le_value_lt (reverse l)) as H. unfold le_value in H.
  by rewrite reverse_involutive, length_reverse in H.
Qed.

Lemma bytes_leb_be_value a b :
  length a = length b → bytes_leb a b = (be_value a <=? be_value b)%N.
Proof.
  revert b. induction a as [|x a IH]; intros [|y b] Hl; simpl in Hl; try lia; [done|].
  injection Hl as Hl. simpl. rewrite !be_value_cons, Hl, IH by done.
  pose proof (be_value_lt a) as Ha. pose proof (be_value_lt b) as Hb. rewrite Hl in Ha.
  revert Ha Hb. generalize (256 ^ N.of_nat (length b))%N (be_value a) (be_value b)
    (Byte.to_N x) (Byte.to_N y). intros p u v m n Hu Hv.
  destruct (N.ltb_spec m n); simpl; [symmetry; apply N.leb_le; nia|].
  destruct (N.eqb_spec m n) as [->|]; simpl.
  - destruct (N.leb_spec u v); symmetry; [apply N.leb_le|apply N.leb_gt]; lia.
  - symmetry. apply N.leb_gt. nia.
Qed.

(** ** Targets *)
Lemma saturated_bound_is_infinite x : f32_gtb x (f32_of_N u128_max) = false.
Proof.
  assert (f32_of_N u128_max = S754_infinity false) as -> by (vm_compute; reflexivity).
  unfold f32_gtb, SFltb, SFcompare. by destruct x as [[]|[]| |[] ? ?].
Qed.

Lemma difficulty_to_target_length d t : difficulty_to_target d = Some t → length t = 32.
Proof.
  unfold difficulty_to_target. intros H. repeat (case_if; [done|]). injection H as <-.
  unfold be_bytes. by rewrite length_reverse, length_le_bytes.
Qed.

(** ** Theorems *)

(** C18: the rolling window is an exact limiter: over non-decreasing instants it
    accepts a share exactly when fewer than 70 were accepted before or the 70th
    most recent one is 60 seconds old, so no 60-second window holds more than 70
    accepted shares. *)
Theorem rate_limit_refines_sliding_window start nows :
  StronglySorted N.le (start :: nows) →
  (fold_left limiter_step nows ([], [])).2 = (fold_left spec_step nows ([], [])).2 ∧
  spaced (fold_left spec_step nows ([], [])).1.
Proof.
  intros Hs. split.
  - apply (limiter_refines_from _ _ _ _ start); [|done]. split; [|simpl; lia].
    exists []. split; [done|]. by intros t ?%elem_of_nil.
  - by apply spec_step_spaced.
Qed.

(** A share's version takes the miner's bits inside the mask and the job's
    bits outside it, stays a 32-bit number, and has the sign bit of the job's
    version unless the mask covers that bit. *)
Theorem effective_version_mixes_by_mask job req mask :
  (job <= u32_max)%N → (default job req <= u32_max)%N →
  let v := effective_version job req mask in
  let m := default 536862720%N mask in
  (∀ i, N.testbit v i = if N.testbit m i then N.testbit (default job req) i
                        else N.testbit job i) ∧
  (v <= u32_max)%N ∧ N.land v m = N.land (default job req) m ∧ N.ldiff v m = N.ldiff job m.
Proof.
  intros Hj Hr v m. assert (∀ i, N.testbit v i = if N.testbit m i then
    N.testbit (default job req) i else N.testbit job i) as Hbit.
  { intros i. apply effective_version_bit. }
  split; [exact Hbit|]. split; [|split].
  - assert (v < 2 ^ 32)%N; [|unfold u32_max; change (2 ^ 32)%N with 4294967296%N in *; lia].
    assert (∀ x i, (x <= u32_max)%N → (32 <= i)%N → N.testbit x i = false) as Hhigh.
    { intros x i Hx Hi. rewrite N.testbit_odd, N.shiftr_div_pow2, N.div_small; [done|].
      apply N.lt_le_trans with (2 ^ 32)%N; [unfold u32_max in Hx;
        change (2 ^ 32)%N with 4294967296%N; lia|]. by apply N.pow_le_mono_r. }
    destruct (N.eq_dec v 0%N) as [->|Hv]; [done|]. apply N.log2_lt_pow2; [lia|].
    destruct (N.lt_ge_cases (N.log2 v) 32) as [|Hge]; [done|]. exfalso.
    pose proof (N.bit_log2 v Hv) as Hb. rewrite Hbit in Hb.
    destruct (N.testbit m _); by rewrite Hhigh in Hb.
  - apply N.bits_inj. intros i. rewrite !N.land_spec, Hbit.
    by destruct (N.testbit m i); rewrite ?andb_true_r, ?andb_false_r.
  - apply N.bits_inj. intros i. rewrite !N.ldiff_spec, Hbit.
    by destruct (N.testbit m i); rewrite ?andb_true_r, ?andb_false_r.
Qed.

(** For every power-of-two difficulty from 1 to 2^97 the target is exactly the
    largest target divided by the difficulty, rounded down, and for 2^-1 to 2^-9
    exactly the product. *)
Theorem difficulty_to_target_power_of_two :
  (∀ k, (k <= 97)%N →
     difficulty_to_target (f32_pow2 (Z.of_N k)) = Some (be_bytes 32 (PDIFF / 2 ^ k))) ∧
  (∀ k, (1 <= k <= 9)%N →
     difficulty_to_target (f32_pow2 (- Z.of_N k)) = Some (be_bytes 32 (PDIFF * 2 ^ k))).
Proof.
  assert (forallb (λ k, bool_decide (difficulty_to_target (f32_pow2 (Z.of_nat k)) =
    Some (be_bytes 32 (PDIFF / 2 ^ N.of_nat k)))) (seq 0 98) = true) as H1
    by (vm_compute; reflexivity).
  assert (forallb (λ k, bool_decide (difficulty_to_target (f32_pow2 (- Z.of_nat k)) =
    Some (be_bytes 32 (PDIFF * 2 ^ N.of_nat k)))) (seq 1 9) = true) as H2
    by (vm_compute; reflexivity).
  split; intros k Hk; [pose proof (proj1 (forallb_forall _ _) H1 (N.to_nat k)) as H|
    pose proof (proj1 (forallb_forall _ _) H2 (N.to_nat k)) as H];
    rewrite <- list_elem_of_In, elem_of_seq in H; specialize (H ltac:(lia));
    apply bool_decide_eq_true in H; rewrite N2Nat.id in H;
    replace (Z.of_nat (N.to_nat k)) with (Z.of_N k) in H by lia; exact H.
Qed.

(** The guard against difficulties that are too large never fires, because
    [u128::MAX] is infinite as an [f32]: the only panic of the conversion is the
    division by a scaled difficulty that truncates to zero. *)
Theorem difficulty_guard_never_fires d :
  difficulty_to_target d = None ↔
    f32_as_unsigned u128_max
      (f32_mul (f32_max d (f32_ratio 1 1000000000)) (f32_of_N TARGET_SCALE)) = 0%N.
Proof.
  unfold difficulty_to_target. rewrite saturated_bound_is_infinite.
  destruct (N.eqb_spec (f32_as_unsigned u128_max
      (f32_mul (f32_max d (f32_ratio 1 1000000000)) (f32_of_N TARGET_SCALE))) 0); naive_solver.
Qed.

Section validation_props.
Context `{B : !BitcoinLib} `{SV : !Sv1Lib}.

(** A share is valid exactly when the previous hash is well formed and the
    hash of the header rebuilt from the job, the full extranonce and the effective
    version is, as a little-endian number, at most the target of the difficulty;
    with a version that is an [i32] and a target, the check never panics. *)
Theorem validate_share_iff_meets_target request job difficulty extranonce1 mask target :
  (∀ h, length (block_hash h) = 32) →
  difficulty_to_target difficulty = Some target →
  let version := effective_version (nf_version job) (sb_version_bits request) mask in
  (version <= i32_max)%N →
  validate_share request job difficulty extranonce1 mask =
    Some (match u256_from_vec (prev_hash_into_vec (nf_prev_hash job)) with
    | None => false
    | Some prev_hash =>
        let coinbase := nf_coin_base1 job ++ (extranonce1 ++ sb_extra_nonce2 request)
          ++ nf_coin_base2 job in
        let header := MkHeader (Z.of_N version) (u256_to_block_hash prev_hash)
          (fold_left (λ root path, sha256d (root ++ path)) (nf_merkle_branch job)
             (sha256d coinbase))
          (sb_time request) (nf_bits job) (sb_nonce request) in
        (le_value (block_hash header) <=? be_value target)%N
    end).
Proof.
  intros Hlen Ht version Hv. unfold validate_share.
  destruct (u256_from_vec _) as [prev|]; [|done]. unfold get_hash. fold version.
  apply N.ltb_ge in Hv as ->. rewrite Ht. f_equal.
  apply bytes_leb_be_value. rewrite length_reverse, Hlen. symmetry.
  by eapply difficulty_to_target_length.
Qed.
End validation_props.

(** ** Witnesses *)
Definition example_instants : list N :=
  (λ i, secs (N.of_nat i)) <$> seq 1 75.

Lemma rate_limit_refines_sliding_window_witness :
  (fold_left limiter_step example_instants ([], [])).2 =
    (fold_left spec_step example_instants ([], [])).2 ∧
  spaced (fold_left spec_step example_instants ([], [])).1.
Proof.
  apply (rate_limit_refines_sliding_window 0). unfold example_instants.
  apply Sorted_StronglySorted; [intros x y z; apply N.le_trans|].
  vm_compute. repeat (constructor; try discriminate).
Defined.

Lemma effective_version_mixes_by_mask_witness :
  (effective_version 536870912 (Some 8192) None <= u32_max)%N.
Proof.
  apply (effective_version_mixes_by_mask 536870912 (Some 8192%N) None);
    vm_compute; discriminate.
Defined.

#[export] Instance sv1_model : Sv1Lib := {
  submit_try_from := λ _, None;
  check_mask := λ mask bits, (N.ldiff bits mask =? 0)%N;
  notify_message := λ n, NotificationMsg (lit "mining.notify") (JArray [JString (nf_job_id n)]);
  version_rolling_params_ok := λ _ _, true;
  prev_hash_into_vec := λ l, l;
  u256_from_vec := to_array 32;
  u256_to_block_hash := λ l, l
}.

Definition example_job : Notify :=
  MkNotify [] (replicate 32 Byte.x00) [Byte.x01] [Byte.x02] [] 536870912%N 0%N 0%N true.
Definition example_submit : Submit := MkSubmit [] [] [Byte.x03] 0%N 0%N None 0%N.

Lemma validate_share_iff_meets_target_witness :
  ∃ b, validate_share example_submit example_job (f32_of_N 1) [Byte.x04] None = Some b.
Proof.
  eexists. apply (validate_share_iff_meets_target example_submit example_job (f32_of_N 1)
    [Byte.x04] None (be_bytes 32 PDIFF)).
  - intros h. apply length_le_bytes.
  - vm_compute. reflexivity.
  - vm_compute. discriminate.
Defined.
