(* ===== verification/Effects.v ===== *)
(** * Effects of the handlers

    A handler of the client works on the objects it shares with other tasks: it
    returns, fails with an error ([?]), or panics.  [Handler W E A] is such a
    computation over the shared objects [W]; its binding is that of [?]. *)

From S2P Require Import Prelude.

Inductive Outcome (E A : Type) := Done (a : A) | Failed (e : E) | Panicked.
Arguments Done {E A} _.
Arguments Failed {E A} _.
Arguments Panicked {E A}.

Definition Handler (W E A : Type) : Type := W → Outcome E A * W.

#[export] Instance M_ret {W E} : MRet (Handler W E) := λ A a w, (Done a, w).
#[export] Instance M_bind {W E} : MBind (Handler W E) := λ A B k m w,
  match m w with
  | (Done a, w) => k a w
  | (Failed e, w) => (Failed e, w)
  | (Panicked, w) => (Panicked, w)
  end.

Definition fail {W E A} (e : E) : Handler W E A := λ w, (Failed e, w).
Definition panic {W E A} : Handler W E A := λ w, (Panicked, w).
Definition gets {W E A} (f : W → A) : Handler W E A := λ w, (Done (f w), w).
Definition modify {W E} (f : W → W) : Handler W E unit := λ w, (Done tt, f w).

(** The value of a [Result] or the error it carries. *)
Definition of_result {W E A} (r : result A E) : Handler W E A :=
  match r with Ok a => mret a | Err e => fail e end.

(** A section under a [roles_logic_sv2::utils::Mutex], given how to find and replace
    that mutex: it fails with [e] when the mutex is poisoned, and a panic inside
    poisons it. *)
Definition with_lock {W E A X} (get : W → Mutex X) (set : Mutex X → W → W) (e : E)
    (m : Handler W E A) : Handler W E A := λ w,
  if poisoned (get w) then (Failed e, w)
  else match m w with
  | (Panicked, w) => (Panicked, set (poison (get w)) w)
  | r => r
  end.

Lemma bind_run {W E A X} (m : Handler W E A) (k : A → Handler W E X) w a w' :
  m w = (Done a, w') → (m ≫= k) w = k a w'.
Proof. intros H. unfold mbind, M_bind. by rewrite H. Qed.

Lemma bind_done {W E A B} (m : Handler W E A) (k : A → Handler W E B) w b w' :
  (m ≫= k) w = (Done b, w') → ∃ a w1, m w = (Done a, w1) ∧ k a w1 = (Done b, w').
Proof.
  unfold mbind, M_bind. destruct (m w) as [[a|e|] w1]; try done. eauto.
Qed.

Lemma with_lock_done {W E A X} (get : W → Mutex X) set (e : E) (m : Handler W E A) w a w' :
  with_lock get set e m w = (Done a, w') → m w = (Done a, w').
Proof. unfold with_lock. destruct (poisoned _); [done|]. by destruct (m w) as [[] ?]. Qed.

(** One step of a handler whose first computation returns, as [tac] shows. *)
Ltac step tac :=
  match goal with |- context [mbind ?k ?m ?w] =>
    let H := fresh in
    eassert (m w = (Done _, _)) as H by tac; rewrite (bind_run m k w _ _ H); clear H
  end.

Lemma with_lock_open {W E A X} (get : W → Mutex X) set (e : E) (m : Handler W E A) w :
  poisoned (get w) = false → (m w).1 ≠ Panicked → with_lock get set e m w = m w.
Proof.
  intros Hp Hm. unfold with_lock. rewrite Hp. destruct (m w) as [[] w']; done.
Qed.

(** A [tokio] channel as its sender sees it: whether the receiver is alive, and
    what was sent. *)
Record Sender (A : Type) := MkSender { tx_open : bool; tx_sent : list A }.
Arguments MkSender {A} _ _.
Arguments tx_open {A} _.
Arguments tx_sent {A} _.
Definition sender_push {A} (a : A) (s : Sender A) : Sender A :=
  MkSender (tx_open s) (tx_sent s ++ [a]).
