(* ===== verification/Stats.v ===== *)
(** * Connection statistics

    Models [src/src/api/stats.rs]: the bounded command channel in front of the
    statistics task, its lossy and reliable senders, and the task that applies the
    commands.  A run interleaves the senders with the task. *)

From S2P Require Import Prelude Str F32.

(** ** Data *)

(** The commands; [GetStats] carries the identity of its reply channel. *)
Inductive StatsCommand :=
| SetupStats (connection_id : N)
| UpdateHashrate (connection_id : N) (hashrate : f32)
| UpdateDiff (connection_id : N) (diff : f32)
| UpdateAcceptedShares (connection_id : N)
| UpdateRejectedShares (connection_id : N)
| UpdateDeviceName (connection_id : N) (name : str)
| RemoveStats (connection_id : N)
| GetStats (reply : N).

Record DownstreamConnectionStats := MkDownstreamConnectionStats {
  cs_device_name : option str;
  cs_hashrate : f32;
  cs_accepted_shares : N;
  cs_rejected_shares : N;
  cs_current_difficulty : f32
}.

(** [DownstreamConnectionStats::new] *)
Definition connection_stats_new : DownstreamConnectionStats :=
  MkDownstreamConnectionStats None (f32_of_N 0) 0 0 (f32_of_N 0).

(** [StatsManager::stats] *)
Abbreviation StatsMap := (gmap N DownstreamConnectionStats).

(** ** The statistics task *)

(** The update a command makes to the entry of its connection, if it has one. *)
Definition update_entry (command : StatsCommand) (stats : DownstreamConnectionStats)
    : DownstreamConnectionStats :=
  let '(MkDownstreamConnectionStats name hashrate accepted rejected diff) := stats in
  match command with
  | UpdateHashrate _ hashrate => MkDownstreamConnectionStats name hashrate accepted rejected diff
  | UpdateDiff _ diff => MkDownstreamConnectionStats name hashrate accepted rejected diff
  | UpdateAcceptedShares _ =>
      MkDownstreamConnectionStats name hashrate (wrapping_add u64_max accepted 1) rejected diff
  | UpdateRejectedShares _ =>
      MkDownstreamConnectionStats name hashrate accepted (wrapping_add u64_max rejected 1) diff
  | UpdateDeviceName _ name =>
      MkDownstreamConnectionStats (Some name) hashrate accepted rejected diff
  | SetupStats _ | RemoveStats _ | GetStats _ => stats
  end.

(** One turn of [StatsManager::run]: the statistics after it, and the reply it
    sends. *)
Definition run_command (command : StatsCommand) (stats : StatsMap)
    : StatsMap * option (N * StatsMap) :=
  match command with
  | SetupStats id => (<[id := connection_stats_new]> stats, None)
  | UpdateHashrate id _ | UpdateDiff id _ | UpdateAcceptedShares id
  | UpdateRejectedShares id | UpdateDeviceName id _ =>
      (match stats !! id with
       | Some entry => <[id := update_entry command entry]> stats
       | None => stats
       end, None)
  | RemoveStats id => (delete id stats, None)
  | GetStats reply => (stats, Some (reply, stats))
  end.

(** [StatsManager::run] over the commands it receives. *)
Fixpoint run_commands (commands : list StatsCommand) (stats : StatsMap)
    : StatsMap * list (N * StatsMap) :=
  match commands with
  | [] => (stats, [])
  | command :: commands =>
      let '(stats, reply) := run_command command stats in
      let '(stats, replies) := run_commands commands stats in
      (stats, option_list reply ++ replies)
  end.

(** ** The channel *)

(** [mpsc::channel(100)] and the task behind it. *)
Definition STATS_CHANNEL_SIZE : nat := 100.

Record StatsSystem := MkStatsSystem {
  ss_queue : list StatsCommand;
  ss_open : bool;
  ss_stats : StatsMap;
  ss_replies : list (N * StatsMap)
}.

(** [StatsSender::new] *)
Definition stats_sender_new : StatsSystem := MkStatsSystem [] true ∅ [].

Definition enqueue (command : StatsCommand) (s : StatsSystem) : StatsSystem :=
  MkStatsSystem (ss_queue s ++ [command]) (ss_open s) (ss_stats s) (ss_replies s).

(** [StatsSender::send]: a command that does not fit is dropped. *)
Definition stats_send (command : StatsCommand) (s : StatsSystem) : StatsSystem :=
  if ss_open s && (length (ss_queue s) <? STATS_CHANNEL_SIZE) then enqueue command s else s.

(** [StatsSender::send_reliable]: [None] while the sender waits for room. *)
Definition stats_send_reliable (command : StatsCommand) (s : StatsSystem)
    : option (result unit unit * StatsSystem) :=
  if negb (ss_open s) then Some (Err tt, s)
  else if length (ss_queue s) <? STATS_CHANNEL_SIZE then Some (Ok tt, enqueue command s)
  else None.

(** The turn of the task that takes the oldest command. *)
Definition stats_turn (s : StatsSystem) : StatsSystem :=
  match ss_queue s with
  | [] => s
  | command :: queue =>
      let '(stats, reply) := run_command command (ss_stats s) in
      MkStatsSystem queue (ss_open s) stats (ss_replies s ++ option_list reply)
  end.

(** [send_reliable] seen by its caller, which waits for room while the channel is full:
    the task takes the oldest command first. *)
Definition stats_send_waiting (command : StatsCommand) (s : StatsSystem) : StatsSystem :=
  match stats_send_reliable command s with
  | Some (_, s) => s
  | None => enqueue command (stats_turn s)
  end.

(** What happens to the channel: an update sent without waiting, a set-up, removal
    or query sent reliably, or a turn of the task. *)
Inductive StatsEvent :=
| Send (command : StatsCommand)
| SendReliable (command : StatsCommand)
| Turn.

Definition stats_event (e : StatsEvent) (s : StatsSystem) : StatsSystem :=
  match e with
  | Send command => stats_send command s
  | SendReliable command =>
      match stats_send_reliable command s with Some (_, s) => s | None => s end
  | Turn => stats_turn s
  end.

(** The public methods, as the event each of them is. *)
Definition setup_stats_reliable (id : N) : StatsEvent := SendReliable (SetupStats id).
Definition update_hashrate (id : N) (h : f32) : StatsEvent := Send (UpdateHashrate id h).
Definition update_diff (id : N) (diff : f32) : StatsEvent := Send (UpdateDiff id diff).
Definition update_accepted_shares (id : N) : StatsEvent := Send (UpdateAcceptedShares id).
Definition update_rejected_shares (id : N) : StatsEvent := Send (UpdateRejectedShares id).
Definition update_device_name (id : N) (name : str) : StatsEvent :=
  Send (UpdateDeviceName id name).
Definition remove_stats_reliable (id : N) : StatsEvent := SendReliable (RemoveStats id).
Definition collect_stats (reply : N) : StatsEvent := SendReliable (GetStats reply).

(** ** Specification: the history of one connection *)

(** The connection a command is about. *)
Definition command_connection (command : StatsCommand) : option N :=
  match command with
  | SetupStats id | UpdateHashrate id _ | UpdateDiff id _ | UpdateAcceptedShares id
  | UpdateRejectedShares id | UpdateDeviceName id _ | RemoveStats id => Some id
  | GetStats _ => None
  end.
Definition concerns (id : N) (command : StatsCommand) : bool :=
  bool_decide (command_connection command = Some id).

(** The commands of [id] since it was last set up; none when it was never set up
    or was removed since. *)
Definition session_step (session : option (list StatsCommand)) (command : StatsCommand)
    : option (list StatsCommand) :=
  match command with
  | SetupStats _ => Some []
  | RemoveStats _ => None
  | _ => (λ l, l ++ [command]) <$> session
  end.
Definition session (id : N) (commands : list StatsCommand) : option (list StatsCommand) :=
  fold_left session_step (retain (concerns id) commands) None.

Definition is_accepted (command : StatsCommand) : bool :=
  match command with UpdateAcceptedShares _ => true | _ => false end.
Definition is_rejected (command : StatsCommand) : bool :=
  match command with UpdateRejectedShares _ => true | _ => false end.
Definition count_mod (P : StatsCommand → bool) (l : list StatsCommand) : N :=
  (N.of_nat (length (retain P l)) mod (u64_max + 1))%N.
Definition last_of {A} (f : StatsCommand → option A) (l : list StatsCommand) : option A :=
  last (omap f l).

(** The entry the session of a connection amounts to. *)
Definition entry_of_session (l : list StatsCommand) : DownstreamConnectionStats :=
  MkDownstreamConnectionStats
    (last_of (λ c, match c with UpdateDeviceName _ name => Some name | _ => None end) l)
    (default (f32_of_N 0)
       (last_of (λ c, match c with UpdateHashrate _ h => Some h | _ => None end) l))
    (count_mod is_accepted l) (count_mod is_rejected l)
    (default (f32_of_N 0)
       (last_of (λ c, match c with UpdateDiff _ diff => Some diff | _ => None end) l)).

(** ** The task computes the history *)

Lemma last_of_snoc {A} (f : StatsCommand → option A) l c :
  last_of f (l ++ [c]) = match f c with Some a => Some a | None => last_of f l end.
Proof.
  unfold last_of. rewrite omap_app. simpl. destruct (f c); simpl.
  - by rewrite last_snoc.
  - by rewrite app_nil_r.
Qed.

Lemma count_mod_snoc P l c :
  count_mod P (l ++ [c]) =
    if P c then wrapping_add u64_max (count_mod P l) 1 else count_mod P l.
Proof.
  unfold count_mod, wrapping_add, retain. rewrite filter_app, length_app.
  rewrite filter_cons. destruct (P c); rewrite ?decide_True, ?decide_False by done; simpl.
  - rewrite Nat2N.inj_add, N.Div0.add_mod_idemp_l. done.
  - by rewrite Nat.add_0_r.
Qed.

Lemma update_entry_session l c :
  (∀ id, c ≠ SetupStats id) → (∀ id, c ≠ RemoveStats id) →
  update_entry c (entry_of_session l) = entry_of_session (l ++ [c]).
Proof.
  intros H1 H2. unfold entry_of_session. rewrite !last_of_snoc, !count_mod_snoc.
  destruct c; simpl; try done; naive_solver.
Qed.

Lemma run_commands_snoc commands c stats :
  (run_commands (commands ++ [c]) stats).1 =
    (run_command c (run_commands commands stats).1).1.
Proof.
  revert stats. induction commands as [|d commands IH]; intros stats; simpl.
  - by destruct (run_command c stats).
  - destruct (run_command d stats) as [stats' r]. specialize (IH stats').
    destruct (run_commands (commands ++ [c]) stats'), (run_commands commands stats'). done.
Qed.

Lemma session_snoc id commands c :
  session id (commands ++ [c]) =
    if concerns id c then session_step (session id commands) c else session id commands.
Proof.
  unfold session, retain. rewrite filter_app, fold_left_app, filter_cons.
  by destruct (concerns id c); rewrite ?decide_True, ?decide_False by done.
Qed.

Lemma update_lookup (f : DownstreamConnectionStats → DownstreamConnectionStats)
    (stats : StatsMap) i id :
  match stats !! i with Some entry => <[i := f entry]> stats | None => stats end !! id =
    if bool_decide (Some i = Some id) then f <$> stats !! id else stats !! id.
Proof.
  case_bool_decide as H.
  - injection H as ->. destruct (stats !! id) eqn:E; [by rewrite lookup_insert_eq|by rewrite E].
  - destruct (stats !! i); [|done]. rewrite lookup_insert_ne; congruence.
Qed.

Lemma run_command_lookup c stats id :
  (run_command c stats).1 !! id =
    if concerns id c then
      match c with
      | SetupStats _ => Some connection_stats_new
      | RemoveStats _ => None
      | _ => update_entry c <$> stats !! id
      end
    else stats !! id.
Proof.
  unfold concerns. destruct c as [i|i h|i d|i|i|i n|i|r]; cbn -[update_entry bool_decide];
    try apply update_lookup; [..|by case_bool_decide];
    case_bool_decide as H; try (injection H as ->).
  - apply lookup_insert_eq.
  - apply lookup_insert_ne. congruence.
  - apply lookup_delete_eq.
  - apply lookup_delete_ne. congruence.
Qed.

(** The statistics of a connection are those of its session: after any commands
    the task knows a connection exactly when it was set up and not removed since,
    and then its counters are the numbers of accepted and rejected shares reported
    since (modulo the width of the counters), and its name, hashrate and difficulty
    are the ones reported last. *)
Theorem stats_are_session id commands :
  (run_commands commands ∅).1 !! id = entry_of_session <$> session id commands.
Proof.
  induction commands as [|c commands IH] using rev_ind; [done|].
  rewrite run_commands_snoc, run_command_lookup, session_snoc, IH.
  destruct (concerns id c); [|done].
  destruct c; simpl; try done; destruct (session id commands) as [l|]; simpl; try done;
    by rewrite <- update_entry_session.
Qed.

(** ** Delivery *)

(** The commands a run handed to the channel, and those handed over reliably and
    accepted. *)
Definition event_commands (e : StatsEvent) : list StatsCommand :=
  match e with Send c | SendReliable c => [c] | Turn => [] end.

(** The commands the task took, oldest first. *)
Fixpoint taken (events : list StatsEvent) (s : StatsSystem) : list StatsCommand :=
  match events with
  | [] => []
  | e :: events =>
      (match e with Turn => take 1 (ss_queue s) | _ => [] end)
      ++ taken events (stats_event e s)
  end.

(** The commands the channel accepted. *)
Fixpoint accepted (events : list StatsEvent) (s : StatsSystem) : list StatsCommand :=
  match events with
  | [] => []
  | e :: events =>
      (if ss_open s && (length (ss_queue s) <? STATS_CHANNEL_SIZE)
       then event_commands e else [])
      ++ accepted events (stats_event e s)
  end.

Lemma stats_event_queue e s :
  (match e with Turn => take 1 (ss_queue s) | _ => [] end) ++ ss_queue (stats_event e s) =
    ss_queue s ++ (if ss_open s && (length (ss_queue s) <? STATS_CHANNEL_SIZE)
                   then event_commands e else []).
Proof.
  destruct e as [c|c|]; simpl.
  - unfold stats_send. destruct (ss_open s && _); simpl; by rewrite ?app_nil_r.
  - unfold stats_send_reliable. destruct (ss_open s); simpl; [|by rewrite app_nil_r].
    destruct (_ <? _); simpl; by rewrite ?app_nil_r.
  - unfold stats_turn. destruct (ss_queue s) as [|c q] eqn:E; simpl.
    + rewrite E. by destruct (_ && _).
    + destruct (run_command c (ss_stats s)); simpl. by destruct (_ && _); rewrite ?app_nil_r.
Qed.

Lemma stats_event_bounded e s :
  length (ss_queue s) ≤ STATS_CHANNEL_SIZE →
  length (ss_queue (stats_event e s)) ≤ STATS_CHANNEL_SIZE.
Proof.
  intros H. destruct e as [c|c|]; simpl.
  - unfold stats_send. destruct (ss_open s && _) eqn:E; [|done]. bool_to_prop.
    simpl. rewrite length_app. simpl. lia.
  - unfold stats_send_reliable. destruct (ss_open s); simpl; [|done].
    destruct (_ <? _) eqn:E; simpl; [|done]. bool_to_prop. rewrite length_app. simpl. lia.
  - unfold stats_turn. destruct (ss_queue s) as [|c q] eqn:E; [by rewrite E|].
    destruct (run_command c (ss_stats s)); simpl in *. lia.
Qed.

Lemma stats_event_stats e s :
  ss_stats (stats_event e s) =
    (run_commands (match e with Turn => take 1 (ss_queue s) | _ => [] end) (ss_stats s)).1.
Proof.
  destruct e as [c|c|]; simpl.
  - unfold stats_send. by destruct (ss_open s && _).
  - unfold stats_send_reliable. destruct (ss_open s); simpl; [by destruct (_ <? _)|done].
  - unfold stats_turn. destruct (ss_queue s) as [|c q]; [done|]. simpl.
    by destruct (run_command c (ss_stats s)).
Qed.

Lemma run_commands_app l1 l2 stats :
  (run_commands (l1 ++ l2) stats).1 = (run_commands l2 (run_commands l1 stats).1).1.
Proof.
  revert stats. induction l1 as [|c l1 IH]; intros stats; simpl; [done|].
  destruct (run_command c stats) as [stats' r]. specialize (IH stats').
  destruct (run_commands (l1 ++ l2) stats'), (run_commands l1 stats'). done.
Qed.

(** The channel delivers in order what it accepts: in every interleaving the
    queue stays within 100 commands, the commands taken followed by those still
    queued are exactly the accepted ones, and the statistics are those of the
    commands taken. *)
Theorem stats_delivered_in_order events s :
  length (ss_queue s) ≤ STATS_CHANNEL_SIZE →
  let s' := fold_left (λ s e, stats_event e s) events s in
  length (ss_queue s') ≤ STATS_CHANNEL_SIZE ∧
  taken events s ++ ss_queue s' = ss_queue s ++ accepted events s ∧
  ss_stats s' = (run_commands (taken events s) (ss_stats s)).1.
Proof.
  revert s. induction events as [|e events IH]; intros s Hs; cbn [fold_left].
  - cbn. by rewrite app_nil_r.
  - destruct (IH (stats_event e s)) as (H1 & H2 & H3); [by apply stats_event_bounded|].
    cbn [taken accepted]. split; [exact H1|]. split.
    + by rewrite <- app_assoc, H2, !app_assoc, stats_event_queue.
    + by rewrite H3, run_commands_app, stats_event_stats.
Qed.

Definition example_events : list StatsEvent :=
  [setup_stats_reliable 7; update_accepted_shares 7; Turn; update_rejected_shares 7; Turn].

Lemma stats_delivered_in_order_witness :
  ss_queue (fold_left (λ s e, stats_event e s) example_events stats_sender_new)
    = [UpdateRejectedShares 7] ∧
  taken example_events stats_sender_new = [SetupStats 7; UpdateAcceptedShares 7].
Proof.
  pose proof (stats_delivered_in_order example_events stats_sender_new) as H.
  assert (taken example_events stats_sender_new = [SetupStats 7; UpdateAcceptedShares 7]) as Ht
    by reflexivity.
  split; [|exact Ht]. cbv zeta in H. rewrite Ht in H.
  assert (length (ss_queue stats_sender_new) ≤ STATS_CHANNEL_SIZE) as Hl
    by (apply Nat.leb_le; reflexivity).
  exact (app_inv_head _ _ _ (proj1 (proj2 (H Hl)))).
Defined.
