(* ===== verification/ProxyState.v ===== *)
(** * The global state of the proxy

    Models [src/src/proxy_state.rs]: the state every task reports its failures to,
    its updates, and the errors the supervisor reads from it.  [None] stands for
    the exit of the process when the global mutex is poisoned. *)

From Stdlib Require Import Sorting.Sorted.
From S2P Require Import Prelude Str.

(** ** Data *)
Inductive PoolState := PoolUp | PoolDown.
Inductive TpState := TpUp | TpDown.
Inductive TranslatorState := TranslatorUp | TranslatorDown.
Inductive JdState := JdUp | JdDown.
Inductive ShareAccounterState := ShareAccounterUp | ShareAccounterDown.
Inductive DownstreamType := JdClientMiningDownstream | TranslatorDownstream.
Inductive UpstreamType := JDCMiningUpstream | TranslatorUpstream.
Inductive DownstreamState := DownstreamUp | DownstreamDown (l : list DownstreamType).
Inductive UpstreamState := UpstreamUp | UpstreamDown (l : list UpstreamType).

Inductive ProxyStates :=
| Pool (state : PoolState)
| Tp (state : TpState)
| Jd (state : JdState)
| ShareAccounter (state : ShareAccounterState)
| InternalInconsistency (code : N)
| ProxyDownstream (state : DownstreamState)
| ProxyUpstream (state : UpstreamState)
| Translator (state : TranslatorState).

Record ProxyState := MkProxyState {
  ps_pool : PoolState;
  ps_tp : TpState;
  ps_jd : JdState;
  ps_share_accounter : ShareAccounterState;
  ps_translator : TranslatorState;
  ps_inconsistency : option N;
  ps_downstream : DownstreamState;
  ps_upstream : UpstreamState
}.

(** [ProxyState::new] *)
Definition proxy_state_new : ProxyState :=
  MkProxyState PoolUp TpUp JdUp ShareAccounterUp TranslatorUp None DownstreamUp UpstreamUp.

#[export] Instance pool_state_eq_dec : EqDecision PoolState.
Proof. solve_decision. Defined.
#[export] Instance tp_state_eq_dec : EqDecision TpState.
Proof. solve_decision. Defined.
#[export] Instance translator_state_eq_dec : EqDecision TranslatorState.
Proof. solve_decision. Defined.
#[export] Instance jd_state_eq_dec : EqDecision JdState.
Proof. solve_decision. Defined.
#[export] Instance share_accounter_state_eq_dec : EqDecision ShareAccounterState.
Proof. solve_decision. Defined.

(** ** Updates *)

(** [PROXY_STATE.safe_lock(f)], with the process exit on a poisoned mutex. *)
Definition with_state (f : ProxyState → ProxyState) (m : Mutex ProxyState)
    : option (Mutex ProxyState) :=
  match lock m with Some state => Some (store m (f state)) | None => None end.

Definition update_pool_state (pool_state : PoolState) :=
  with_state (λ s, MkProxyState pool_state (ps_tp s) (ps_jd s) (ps_share_accounter s)
    (ps_translator s) (ps_inconsistency s) (ps_downstream s) (ps_upstream s)).
Definition update_tp_state (tp_state : TpState) :=
  with_state (λ s, MkProxyState (ps_pool s) tp_state (ps_jd s) (ps_share_accounter s)
    (ps_translator s) (ps_inconsistency s) (ps_downstream s) (ps_upstream s)).
Definition update_jd_state (jd_state : JdState) :=
  with_state (λ s, MkProxyState (ps_pool s) (ps_tp s) jd_state (ps_share_accounter s)
    (ps_translator s) (ps_inconsistency s) (ps_downstream s) (ps_upstream s)).
Definition update_translator_state (translator_state : TranslatorState) :=
  with_state (λ s, MkProxyState (ps_pool s) (ps_tp s) (ps_jd s) (ps_share_accounter s)
    translator_state (ps_inconsistency s) (ps_downstream s) (ps_upstream s)).
Definition update_share_accounter_state (share_accounter_state : ShareAccounterState) :=
  with_state (λ s, MkProxyState (ps_pool s) (ps_tp s) (ps_jd s) share_accounter_state
    (ps_translator s) (ps_inconsistency s) (ps_downstream s) (ps_upstream s)).
Definition update_inconsistency (code : option N) :=
  with_state (λ s, MkProxyState (ps_pool s) (ps_tp s) (ps_jd s) (ps_share_accounter s)
    (ps_translator s) code (ps_downstream s) (ps_upstream s)).
Definition update_downstream_state (downstream_type : DownstreamType) :=
  with_state (λ s, MkProxyState (ps_pool s) (ps_tp s) (ps_jd s) (ps_share_accounter s)
    (ps_translator s) (ps_inconsistency s) (DownstreamDown [downstream_type]) (ps_upstream s)).
Definition update_upstream_state (upstream_type : UpstreamType) :=
  with_state (λ s, MkProxyState (ps_pool s) (ps_tp s) (ps_jd s) (ps_share_accounter s)
    (ps_translator s) (ps_inconsistency s) (ps_downstream s) (UpstreamDown [upstream_type])).
Definition update_proxy_state_up :=
  with_state (λ _, MkProxyState PoolUp TpUp JdUp ShareAccounterUp TranslatorUp None
    DownstreamUp UpstreamUp).

(** The calls that change the state. *)
Inductive ProxyUpdate :=
| UpdatePool (state : PoolState)
| UpdateTp (state : TpState)
| UpdateJd (state : JdState)
| UpdateTranslator (state : TranslatorState)
| UpdateShareAccounter (state : ShareAccounterState)
| UpdateInconsistency (code : option N)
| UpdateDownstream (type : DownstreamType)
| UpdateUpstream (type : UpstreamType)
| UpdateProxyUp.

Definition proxy_update (u : ProxyUpdate) : Mutex ProxyState → option (Mutex ProxyState) :=
  match u with
  | UpdatePool state => update_pool_state state
  | UpdateTp state => update_tp_state state
  | UpdateJd state => update_jd_state state
  | UpdateTranslator state => update_translator_state state
  | UpdateShareAccounter state => update_share_accounter_state state
  | UpdateInconsistency code => update_inconsistency code
  | UpdateDownstream type => update_downstream_state type
  | UpdateUpstream type => update_upstream_state type
  | UpdateProxyUp => update_proxy_state_up
  end.
Fixpoint proxy_updates (us : list ProxyUpdate) (m : Mutex ProxyState)
    : option (Mutex ProxyState) :=
  match us with
  | [] => Some m
  | u :: us => m ← proxy_update u m; proxy_updates us m
  end.

(** ** Errors *)

(** [ProxyState::get_errors] *)
Definition errors_of (state : ProxyState) : list ProxyStates :=
  (if bool_decide (ps_pool state = PoolDown) then [Pool (ps_pool state)] else [])
  ++ (if bool_decide (ps_tp state = TpDown) then [Tp (ps_tp state)] else [])
  ++ (if bool_decide (ps_jd state = JdDown) then [Jd (ps_jd state)] else [])
  ++ (if bool_decide (ps_share_accounter state = ShareAccounterDown)
      then [ShareAccounter (ps_share_accounter state)] else [])
  ++ (if bool_decide (ps_translator state = TranslatorDown)
      then [Translator (ps_translator state)] else [])
  ++ match ps_inconsistency state with
     | Some inconsistency => [InternalInconsistency inconsistency]
     | None => []
     end
  ++ match ps_downstream state with
     | DownstreamDown _ => [ProxyDownstream (ps_downstream state)]
     | DownstreamUp => []
     end
  ++ match ps_upstream state with
     | UpstreamDown _ => [ProxyUpstream (ps_upstream state)]
     | UpstreamUp => []
     end.
Definition get_errors (m : Mutex ProxyState) : option (list ProxyStates) :=
  errors_of <$> lock m.

(** The derived [Debug] of the errors. *)
Definition comma_separated (l : list str) : str :=
  match l with
  | [] => []
  | s :: l => s ++ concat ((λ s, lit ", " ++ s) <$> l)
  end.
Definition debug_up_down (up : bool) : str := if up then lit "Up" else lit "Down".
Definition debug_downstream_type (t : DownstreamType) : str :=
  match t with
  | JdClientMiningDownstream => lit "JdClientMiningDownstream"
  | TranslatorDownstream => lit "TranslatorDownstream"
  end.
Definition debug_upstream_type (t : UpstreamType) : str :=
  match t with
  | JDCMiningUpstream => lit "JDCMiningUpstream"
  | TranslatorUpstream => lit "TranslatorUpstream"
  end.
Definition debug_down {A} (debug : A → str) (l : list A) : str :=
  lit "Down([" ++ comma_separated (debug <$> l) ++ lit "])".
Definition debug_error (e : ProxyStates) : str :=
  let wrap name inner := lit name ++ lit "(" ++ inner ++ lit ")" in
  match e with
  | Pool s => wrap "Pool"%string (debug_up_down (bool_decide (s = PoolUp)))
  | Tp s => wrap "Tp"%string (debug_up_down (bool_decide (s = TpUp)))
  | Jd s => wrap "Jd"%string (debug_up_down (bool_decide (s = JdUp)))
  | ShareAccounter s =>
      wrap "ShareAccounter"%string (debug_up_down (bool_decide (s = ShareAccounterUp)))
  | InternalInconsistency code => wrap "InternalInconsistency"%string (display_N code)
  | ProxyDownstream DownstreamUp => wrap "Downstream"%string (lit "Up")
  | ProxyDownstream (DownstreamDown l) =>
      wrap "Downstream"%string (debug_down debug_downstream_type l)
  | ProxyUpstream UpstreamUp => wrap "Upstream"%string (lit "Up")
  | ProxyUpstream (UpstreamDown l) =>
      wrap "Upstream"%string (debug_down debug_upstream_type l)
  | Translator s => wrap "Translator"%string (debug_up_down (bool_decide (s = TranslatorUp)))
  end.

(** [ProxyState::is_proxy_down].  The descriptions iterate over the result of
    [get_errors], not over the errors, so there is one description: the debug
    output of the whole vector. *)
Definition is_proxy_down (m : Mutex ProxyState) : option (bool * option str) :=
  errors ← get_errors m;
  if length errors =? 0 then Some (false, None)
  else
    let error_descriptions :=
      [lit "[" ++ comma_separated (debug_error <$> errors) ++ lit "]"] in
    Some (true, Some (comma_separated error_descriptions)).

(** ** Properties *)

(** What an error says of the state. *)
Definition reported (s : ProxyState) (e : ProxyStates) : Prop :=
  match e with
  | Pool x => x = PoolDown ∧ ps_pool s = x
  | Tp x => x = TpDown ∧ ps_tp s = x
  | Jd x => x = JdDown ∧ ps_jd s = x
  | ShareAccounter x => x = ShareAccounterDown ∧ ps_share_accounter s = x
  | Translator x => x = TranslatorDown ∧ ps_translator s = x
  | InternalInconsistency code => ps_inconsistency s = Some code
  | ProxyDownstream x => x ≠ DownstreamUp ∧ ps_downstream s = x
  | ProxyUpstream x => x ≠ UpstreamUp ∧ ps_upstream s = x
  end.

Lemma elem_of_if {A} (b : bool) (x y : A) : y ∈ (if b then [x] else []) ↔ b = true ∧ y = x.
Proof. destruct b; rewrite ?list_elem_of_singleton, ?elem_of_nil; naive_solver. Qed.

Lemma elem_of_errors s e : e ∈ errors_of s ↔ reported s e.
Proof.
  unfold errors_of. rewrite !elem_of_app, !elem_of_if, !bool_decide_eq_true.
  assert (e ∈ match ps_inconsistency s with Some i => [InternalInconsistency i] | None => [] end
    ↔ ∃ i, ps_inconsistency s = Some i ∧ e = InternalInconsistency i) as ->.
  { destruct (ps_inconsistency s); rewrite ?list_elem_of_singleton, ?elem_of_nil; naive_solver. }
  assert (e ∈ match ps_downstream s with
      DownstreamDown _ => [ProxyDownstream (ps_downstream s)] | DownstreamUp => [] end
    ↔ ps_downstream s ≠ DownstreamUp ∧ e = ProxyDownstream (ps_downstream s)) as ->.
  { destruct (ps_downstream s); rewrite ?list_elem_of_singleton, ?elem_of_nil; naive_solver. }
  assert (e ∈ match ps_upstream s with
      UpstreamDown _ => [ProxyUpstream (ps_upstream s)] | UpstreamUp => [] end
    ↔ ps_upstream s ≠ UpstreamUp ∧ e = ProxyUpstream (ps_upstream s)) as ->.
  { destruct (ps_upstream s); rewrite ?list_elem_of_singleton, ?elem_of_nil; naive_solver. }
  destruct e; simpl; (split; [naive_solver|intros; destruct_and?]);
    repeat (first [by eauto|split; congruence|left; by eauto|left; split; congruence|right]).
Qed.

Lemma errors_of_nil s : errors_of s = [] ↔ s = proxy_state_new.
Proof.
  split; [|by intros ->].
  destruct s as [[] [] [] [] [] [i|] [|l] [|l']]; intros H; first [reflexivity|discriminate H].
Qed.

(** Errors are listed in the order of the components. *)
Definition error_rank (e : ProxyStates) : nat :=
  match e with
  | Pool _ => 0 | Tp _ => 1 | Jd _ => 2 | ShareAccounter _ => 3 | Translator _ => 4
  | InternalInconsistency _ => 5 | ProxyDownstream _ => 6 | ProxyUpstream _ => 7
  end.

(** The supervisor sees every failure and nothing else: the proxy is reported
    up exactly when no component is down, and otherwise the errors are the failed
    components, each once, in a fixed order. *)
Theorem proxy_errors_exact m errors :
  get_errors m = Some errors →
  (is_proxy_down m = Some (false, None) ↔ guarded m = proxy_state_new) ∧
  (∀ e, e ∈ errors ↔ reported (guarded m) e) ∧
  StronglySorted lt (error_rank <$> errors).
Proof.
  unfold get_errors. intros [s [Hs ->]]%fmap_Some. pose proof (lock_guarded _ _ Hs) as ->.
  split; [|split; [apply elem_of_errors|]].
  - rewrite <- errors_of_nil. unfold is_proxy_down, get_errors. rewrite Hs. simpl.
    by destruct (errors_of s).
  - destruct s as [[] [] [] [] [] [i|] [|l] [|l']]; cbn; repeat constructor.
Qed.

Ltac unfold_updates :=
  cbv [proxy_update update_pool_state update_tp_state update_jd_state update_translator_state
    update_share_accounter_state update_inconsistency update_downstream_state
    update_upstream_state update_proxy_state_up with_state] in *.

(** Updates other than [update_proxy_state_up] keep a reported failure. *)
Definition is_update_up (u : ProxyUpdate) : bool :=
  match u with UpdateProxyUp => true | _ => false end.
Definition downstream_failed (s : ProxyState) : Prop := ps_downstream s ≠ DownstreamUp.
Definition upstream_failed (s : ProxyState) : Prop := ps_upstream s ≠ UpstreamUp.

Lemma proxy_updates_keep us m m' :
  proxy_updates us m = Some m' → forallb (negb ∘ is_update_up) us = true →
  (downstream_failed (guarded m) → downstream_failed (guarded m')) ∧
  (upstream_failed (guarded m) → upstream_failed (guarded m')).
Proof.
  revert m. induction us as [|u us IH]; intros m; cbn [proxy_updates forallb].
  { intros [= ->] _. done. }
  destruct (proxy_update u m) as [m1|] eqn:Hu; [|done]. cbn. intros H [Hn Hf]%andb_true_iff.
  destruct (IH m1 H Hf) as [Hd Hup].
  assert ((downstream_failed (guarded m) → downstream_failed (guarded m1)) ∧
          (upstream_failed (guarded m) → upstream_failed (guarded m1))) as [H1 H2].
  { unfold downstream_failed, upstream_failed.
    destruct u; try discriminate Hn; unfold_updates;
      destruct (lock m) as [s|] eqn:Hl; try discriminate Hu;
      injection Hu as <-; rewrite (lock_guarded _ _ Hl); cbn; auto. }
  auto.
Qed.

(** An update that returns leaves the mutex usable. *)
Lemma proxy_update_lock u m m1 : proxy_update u m = Some m1 → is_Some (lock m1).
Proof.
  destruct u; unfold_updates; destruct (lock m) eqn:E; try done;
    intros [= <-]; rewrite (lock_store _ _ _ E); eauto.
Qed.
Lemma proxy_updates_lock us m m' :
  is_Some (lock m) → proxy_updates us m = Some m' → is_Some (lock m').
Proof.
  revert m. induction us as [|u us IH]; intros m Hm; cbn; [by intros [= <-]|].
  destruct (proxy_update u m) as [m1|] eqn:E; [|done]. apply IH.
  by eapply proxy_update_lock.
Qed.

(** A connection failure is not forgotten: once a downstream or an upstream
    failure is reported, the proxy stays down under any further updates until
    [update_proxy_state_up], even those that report components as up. *)
Theorem connection_failure_sticks u us m m1 m' :
  (∃ t, u = UpdateDownstream t) ∨ (∃ t, u = UpdateUpstream t) →
  proxy_update u m = Some m1 → proxy_updates us m1 = Some m' →
  forallb (negb ∘ is_update_up) us = true →
  ∃ description, is_proxy_down m' = Some (true, Some description).
Proof.
  intros Hu H1 Hus Hno. destruct (proxy_updates_keep us m1 m' Hus Hno) as [Hd Hup].
  assert (downstream_failed (guarded m') ∨ upstream_failed (guarded m')) as Hf.
  { destruct Hu as [[t ->]|[t ->]]; unfold_updates;
      destruct (lock m) as [s|]; try done; injection H1 as <-; [left; apply Hd|right; apply Hup];
      done. }
  destruct (proxy_updates_lock us m1 m' (proxy_update_lock _ _ _ H1) Hus) as [s Hs].
  unfold is_proxy_down, get_errors. rewrite Hs. cbn -[errors_of].
  destruct (errors_of s) as [|e l] eqn:He; [|cbn; eauto].
  apply errors_of_nil in He. rewrite (lock_guarded _ _ Hs), He in Hf.
  destruct Hf as [Hf|Hf]; by destruct Hf.
Qed.

(** ** Witnesses *)
Lemma proxy_errors_exact_witness :
  ∃ errors, get_errors (new_mutex proxy_state_new) = Some errors ∧
    StronglySorted lt (error_rank <$> errors).
Proof.
  exists []. split; [reflexivity|].
  exact (proj2 (proj2 (proxy_errors_exact (new_mutex proxy_state_new) [] eq_refl))).
Defined.

Lemma connection_failure_sticks_witness :
  ∃ m1 m', proxy_update (UpdateDownstream TranslatorDownstream) (new_mutex proxy_state_new)
      = Some m1 ∧
    proxy_updates [UpdatePool PoolUp; UpdateTranslator TranslatorUp] m1 = Some m' ∧
    ∃ description, is_proxy_down m' = Some (true, Some description).
Proof.
  eexists _, _. split; [reflexivity|]. split; [reflexivity|].
  eapply (connection_failure_sticks (UpdateDownstream TranslatorDownstream)
    [UpdatePool PoolUp; UpdateTranslator TranslatorUp] (new_mutex proxy_state_new));
    [left; eexists; reflexivity|reflexivity..].
Defined.
