(* ===== verification/Downstream.v ===== *)
(** * The SV1 server side of the translator

    Models [Downstream] of [src/src/translator/downstream/downstream.rs]: the
    state of a connected miner, the handling of its messages, the path of a
    [mining.submit] from validation to the bridge, and the handlers of
    [IsServer].  A handler is a computation in a state monad with errors and
    panics over the objects it shares with the rest of the client. *)

From S2P Require Import Prelude Str Bitcoin F32 Sv1 RskCommitment MergeState MergeMining RecentJobs ShareLimits Stats Effects.

(** ** Data *)

(** [monitor::shares::ShareInfo] *)
Record ShareInfo := MkShareInfo {
  si_worker_name : str;
  si_difficulty : option f32;
  si_job_id : Z;
  si_nonce : Z;
  si_rejection_reason : option RejectionReason;
  si_timestamp : N
}.

(** [Pid<f32>] of the [pid] crate as the client configures it: the set point, the output
    limit and the gain and limit of each term.  The client asks only copies of a
    configured controller for an output, so that the stored one never accumulates. *)
Record Pid := MkPid {
  pid_setpoint : f32;
  pid_output_limit : f32;
  pid_p : f32 * f32;
  pid_i : f32 * f32;
  pid_d : f32 * f32
}.

(** The controller for a difficulty: only its proportional term acts. *)
Definition difficulty_pid (share_per_min difficulty : f32) : Pid :=
  MkPid share_per_min (f32_mul difficulty (f32_of_N 10))
    (f32_mul (f32_opp difficulty) (f32_ratio 1 100), f32_max_value)
    (f32_of_N 0, f32_max_value) (f32_of_N 0, f32_max_value).

Record DownstreamDifficultyConfig := MkDownstreamDifficultyConfig {
  dd_estimated_downstream_hash_rate : f32;
  dd_submits : list N;
  dd_pid_controller : Pid;
  dd_current_difficulties : list f32;
  dd_initial_difficulty : f32;
  dd_hard_minimum_difficulty : option f32
}.

(** [SubmitShareWithChannelId]; the reply channel carries no data of its own. *)
Record SubmitShareWithChannelId := MkSubmitShareWithChannelId {
  sc_channel_id : N;
  sc_share : Submit;
  sc_extranonce : bytes;
  sc_extranonce2_len : nat;
  sc_version_rolling_mask : option HexU32Be
}.

Record Downstream := MkDownstream {
  dn_connection_id : N;
  dn_authorized_names : list str;
  dn_extranonce1 : bytes;
  dn_version_rolling_mask : option HexU32Be;
  dn_version_rolling_min_bit : option HexU32Be;
  dn_tx_sv1_bridge : Sender SubmitShareWithChannelId;
  dn_tx_outgoing : Sender Message;
  dn_extranonce2_len : nat;
  dn_difficulty_mgmt : DownstreamDifficultyConfig;
  dn_recent_jobs : RecentJobs;
  dn_first_job : Notify;
  dn_first_job_merge_mining_binding_id : option N;
  dn_user_agent : str;
  dn_updates_upstream_token : bool;
  dn_submit_counts_for_diff : bool;
  dn_channel_hashrate_registered : bool;
  dn_closed : bool
}.

(** [MonitorAPI::record_share] and [MonitorAPI::worker_connected] events. *)
Inductive MonitorEvent :=
| RecordShare (connection_id : N) (worker_name token : str) (difficulty : option f32)
| WorkerConnected (connection_id : N) (worker_name token : str).

(** The objects a handler works on: the downstream behind its mutex, the shared
    token, the statistics channel with its task, the events issued, the tokens sent upstream, the state
    reported to [ProxyState], the globals of [ShareLimits], the merge-mining
    service, and the random draws left. *)
Record DownWorld := MkDownWorld {
  dw_self : Mutex Downstream;
  dw_token : Mutex str;
  dw_stats : StatsSystem;
  dw_monitor : list MonitorEvent;
  dw_token_updates : list str;
  dw_downstream_down : bool;
  dw_globals : ShareGlobals;
  dw_merge : MergeMining;
  dw_draws : list N
}.

(** ** Field assignments *)
Definition set_dw_self v w := MkDownWorld v (dw_token w) (dw_stats w) (dw_monitor w)
  (dw_token_updates w) (dw_downstream_down w) (dw_globals w) (dw_merge w) (dw_draws w).
Definition set_dw_token v w := MkDownWorld (dw_self w) v (dw_stats w) (dw_monitor w)
  (dw_token_updates w) (dw_downstream_down w) (dw_globals w) (dw_merge w) (dw_draws w).
Definition set_dw_stats v w := MkDownWorld (dw_self w) (dw_token w) v (dw_monitor w)
  (dw_token_updates w) (dw_downstream_down w) (dw_globals w) (dw_merge w) (dw_draws w).
Definition set_dw_monitor v w := MkDownWorld (dw_self w) (dw_token w) (dw_stats w) v
  (dw_token_updates w) (dw_downstream_down w) (dw_globals w) (dw_merge w) (dw_draws w).
Definition set_dw_token_updates v w := MkDownWorld (dw_self w) (dw_token w) (dw_stats w)
  (dw_monitor w) v (dw_downstream_down w) (dw_globals w) (dw_merge w) (dw_draws w).
Definition set_dw_downstream_down v w := MkDownWorld (dw_self w) (dw_token w) (dw_stats w)
  (dw_monitor w) (dw_token_updates w) v (dw_globals w) (dw_merge w) (dw_draws w).
Definition set_dw_globals v w := MkDownWorld (dw_self w) (dw_token w) (dw_stats w)
  (dw_monitor w) (dw_token_updates w) (dw_downstream_down w) v (dw_merge w) (dw_draws w).
Definition set_dw_merge v w := MkDownWorld (dw_self w) (dw_token w) (dw_stats w)
  (dw_monitor w) (dw_token_updates w) (dw_downstream_down w) (dw_globals w) v (dw_draws w).
Definition set_dw_draws v w := MkDownWorld (dw_self w) (dw_token w) (dw_stats w)
  (dw_monitor w) (dw_token_updates w) (dw_downstream_down w) (dw_globals w) (dw_merge w) v.

Definition set_tx_outgoing v d := MkDownstream (dn_connection_id d) (dn_authorized_names d)
  (dn_extranonce1 d) (dn_version_rolling_mask d) (dn_version_rolling_min_bit d)
  (dn_tx_sv1_bridge d) v (dn_extranonce2_len d) (dn_difficulty_mgmt d) (dn_recent_jobs d)
  (dn_first_job d) (dn_first_job_merge_mining_binding_id d) (dn_user_agent d)
  (dn_updates_upstream_token d) (dn_submit_counts_for_diff d)
  (dn_channel_hashrate_registered d) (dn_closed d).
Definition set_tx_sv1_bridge v d := MkDownstream (dn_connection_id d) (dn_authorized_names d)
  (dn_extranonce1 d) (dn_version_rolling_mask d) (dn_version_rolling_min_bit d)
  v (dn_tx_outgoing d) (dn_extranonce2_len d) (dn_difficulty_mgmt d) (dn_recent_jobs d)
  (dn_first_job d) (dn_first_job_merge_mining_binding_id d) (dn_user_agent d)
  (dn_updates_upstream_token d) (dn_submit_counts_for_diff d)
  (dn_channel_hashrate_registered d) (dn_closed d).
Definition set_recent_jobs v d := MkDownstream (dn_connection_id d) (dn_authorized_names d)
  (dn_extranonce1 d) (dn_version_rolling_mask d) (dn_version_rolling_min_bit d)
  (dn_tx_sv1_bridge d) (dn_tx_outgoing d) (dn_extranonce2_len d) (dn_difficulty_mgmt d) v
  (dn_first_job d) (dn_first_job_merge_mining_binding_id d) (dn_user_agent d)
  (dn_updates_upstream_token d) (dn_submit_counts_for_diff d)
  (dn_channel_hashrate_registered d) (dn_closed d).
Definition set_first_job v b d := MkDownstream (dn_connection_id d) (dn_authorized_names d)
  (dn_extranonce1 d) (dn_version_rolling_mask d) (dn_version_rolling_min_bit d)
  (dn_tx_sv1_bridge d) (dn_tx_outgoing d) (dn_extranonce2_len d) (dn_difficulty_mgmt d)
  (dn_recent_jobs d) v b (dn_user_agent d)
  (dn_updates_upstream_token d) (dn_submit_counts_for_diff d)
  (dn_channel_hashrate_registered d) (dn_closed d).
Definition set_version_rolling mask min_bit d := MkDownstream (dn_connection_id d)
  (dn_authorized_names d) (dn_extranonce1 d) mask min_bit
  (dn_tx_sv1_bridge d) (dn_tx_outgoing d) (dn_extranonce2_len d) (dn_difficulty_mgmt d)
  (dn_recent_jobs d) (dn_first_job d) (dn_first_job_merge_mining_binding_id d)
  (dn_user_agent d) (dn_updates_upstream_token d) (dn_submit_counts_for_diff d)
  (dn_channel_hashrate_registered d) (dn_closed d).
Definition set_authorized_names v d := MkDownstream (dn_connection_id d) v
  (dn_extranonce1 d) (dn_version_rolling_mask d) (dn_version_rolling_min_bit d)
  (dn_tx_sv1_bridge d) (dn_tx_outgoing d) (dn_extranonce2_len d) (dn_difficulty_mgmt d)
  (dn_recent_jobs d) (dn_first_job d) (dn_first_job_merge_mining_binding_id d)
  (dn_user_agent d) (dn_updates_upstream_token d) (dn_submit_counts_for_diff d)
  (dn_channel_hashrate_registered d) (dn_closed d).
Definition set_difficulty_mgmt v d := MkDownstream (dn_connection_id d) (dn_authorized_names d)
  (dn_extranonce1 d) (dn_version_rolling_mask d) (dn_version_rolling_min_bit d)
  (dn_tx_sv1_bridge d) (dn_tx_outgoing d) (dn_extranonce2_len d) v
  (dn_recent_jobs d) (dn_first_job d) (dn_first_job_merge_mining_binding_id d) (dn_user_agent d)
  (dn_updates_upstream_token d) (dn_submit_counts_for_diff d)
  (dn_channel_hashrate_registered d) (dn_closed d).
Definition set_user_agent v d := MkDownstream (dn_connection_id d) (dn_authorized_names d)
  (dn_extranonce1 d) (dn_version_rolling_mask d) (dn_version_rolling_min_bit d)
  (dn_tx_sv1_bridge d) (dn_tx_outgoing d) (dn_extranonce2_len d) (dn_difficulty_mgmt d)
  (dn_recent_jobs d) (dn_first_job d) (dn_first_job_merge_mining_binding_id d) v
  (dn_updates_upstream_token d) (dn_submit_counts_for_diff d)
  (dn_channel_hashrate_registered d) (dn_closed d).

(** The flags in cells: [submit_counts_for_diff], [channel_hashrate_registered]
    and [closed]. *)
Definition set_flags submit registered closed d := MkDownstream (dn_connection_id d)
  (dn_authorized_names d) (dn_extranonce1 d) (dn_version_rolling_mask d)
  (dn_version_rolling_min_bit d) (dn_tx_sv1_bridge d) (dn_tx_outgoing d)
  (dn_extranonce2_len d) (dn_difficulty_mgmt d) (dn_recent_jobs d) (dn_first_job d)
  (dn_first_job_merge_mining_binding_id d) (dn_user_agent d)
  (dn_updates_upstream_token d) submit registered closed.
Definition set_submit_counts_for_diff b d :=
  set_flags b (dn_channel_hashrate_registered d) (dn_closed d) d.
Definition set_channel_hashrate_registered b d :=
  set_flags (dn_submit_counts_for_diff d) b (dn_closed d) d.
Definition set_closed b d :=
  set_flags (dn_submit_counts_for_diff d) (dn_channel_hashrate_registered d) b d.

(** ** Computations *)

(** The errors of a handler, and its computations. *)
Inductive DownstreamError := PoisonLock | AsyncChannelError | V1Protocol.
Abbreviation M := (Handler DownWorld DownstreamError).

(** [self_.safe_lock(|s| ...)?] *)
Definition safe_lock {A} (m : M A) : M A := with_lock dw_self set_dw_self PoisonLock m.

(** The downstream, read or written under its lock. *)
Definition self {A} (f : Downstream → A) : M A := gets (λ w, f (guarded (dw_self w))).
Definition update_self (f : Downstream → Downstream) : M unit :=
  modify (λ w, set_dw_self (store (dw_self w) (f (guarded (dw_self w)))) w).

(** [ProxyState::update_downstream_state(TranslatorDownstream)] *)
Definition mark_downstream_down : M unit := modify (set_dw_downstream_down true).

(** [StatsSender::send], which drops a command when the channel is full, and
    [StatsSender::send_reliable], which waits for room. *)
Definition send_stats (command : StatsCommand) : M unit :=
  modify (λ w, set_dw_stats (stats_send command (dw_stats w)) w).
Definition send_stats_reliable (command : StatsCommand) : M unit :=
  modify (λ w, set_dw_stats (stats_send_waiting command (dw_stats w)) w).
Definition send_monitor (event : MonitorEvent) : M unit :=
  modify (λ w, set_dw_monitor (dw_monitor w ++ [event]) w).

(** Reading the shared token; an unreadable token reads as empty. *)
Definition read_token : M str :=
  token ← gets dw_token;
  match lock token with
  | Some t => mret t
  | None => _ ← mark_downstream_down; mret []
  end.

(** ** Shares *)

(** What the outside world decides during one message. *)
Record DownEnv := MkDownEnv {
  de_now : N;
  de_observer : ObserverEnv
}.

(** [ShareInfo::new] *)
Definition share_info_new (env : DownEnv) (worker_name : str) (difficulty : option f32)
    (job_id nonce : Z) (rejection_reason : option RejectionReason) : ShareInfo :=
  MkShareInfo worker_name difficulty job_id nonce rejection_reason
    (env_unix_timestamp (de_observer env)).

(** [SharesMonitor::insert_share] *)
Definition insert_share (share : ShareInfo) : M unit :=
  token ← read_token;
  connection_id ← self dn_connection_id;
  if length token =? 0 then mret tt
  else send_monitor (RecordShare connection_id (si_worker_name share) token
                       (si_difficulty share)).

(** [Downstream::send_message_downstream] *)
Definition send_message_downstream (response : Message) : M unit := λ w,
  if poisoned (dw_self w) then mark_downstream_down w
  else
    let d := guarded (dw_self w) in
    if tx_open (dn_tx_outgoing d)
    then update_self (λ d, set_tx_outgoing (sender_push response (dn_tx_outgoing d)) d) w
    else mark_downstream_down w.

Section handlers.
Context `{B : !BitcoinLib} `{SV : !Sv1Lib}.

Definition MINING_SUBMIT : str := lit "mining.submit".

(** The request of a [mining.submit] message. *)
Definition submit_request_of (message_sv1 : Message) : option StandardRequest :=
  match message_sv1 with
  | StandardRequestMsg request =>
      if bool_decide (rq_method request = MINING_SUBMIT) then Some request else None
  | _ => None
  end.

(** [Downstream::invalid_submit_rejection] *)
Definition invalid_submit_rejection (message_sv1 : Message) : option Message :=
  match submit_request_of message_sv1 with
  | Some request => Some (response_message (MkResponse (rq_id request) false (JBool false)))
  | None => None
  end.

(** [is_authorized] *)
Definition is_authorized (d : Downstream) (name : str) : bool :=
  bool_decide (name ∈ dn_authorized_names d).

(** The local validation of [handle_incoming_sv1]. *)
Definition has_valid_version_bits (d : Downstream) (submit : Submit) : bool :=
  match sb_version_bits submit with
  | Some version_bits =>
      match dn_version_rolling_mask d with
      | Some mask => check_mask mask version_bits
      | None => false
      end
  | None => match dn_version_rolling_mask d with Some _ => false | None => true end
  end.
Definition is_valid_submission (d : Downstream) (submit : Submit) : bool :=
  is_authorized d (sb_user_name submit)
  && (dn_extranonce2_len d =? length (sb_extra_nonce2 submit))
  && has_valid_version_bits d submit.

(** The reasons [Downstream::invalid_submit_reason] lists. *)
Inductive InvalidReason :=
| UnauthorizedWorker (name : str)
| InvalidExtranonce2Length (expected received : nat)
| InvalidVersionBits (version_bits mask : HexU32Be)
| MissingVersionBits (mask : HexU32Be)
| UnexpectedVersionBits (version_bits : HexU32Be).

Definition invalid_submit_reasons (d : Downstream) (submit : Submit) : list InvalidReason :=
  (if negb (is_authorized d (sb_user_name submit))
   then [UnauthorizedWorker (sb_user_name submit)] else [])
  ++ (if negb (dn_extranonce2_len d =? length (sb_extra_nonce2 submit))
      then [InvalidExtranonce2Length (dn_extranonce2_len d)
              (length (sb_extra_nonce2 submit))] else [])
  ++ match dn_version_rolling_mask d, sb_version_bits submit with
     | Some mask, Some version_bits =>
         if negb (check_mask mask version_bits)
         then [InvalidVersionBits version_bits mask] else []
     | Some mask, None => [MissingVersionBits mask]
     | None, Some version_bits => [UnexpectedVersionBits version_bits]
     | None, None => []
     end.

(** [trim_start_matches("0x")]: the prefix goes as often as it occurs. *)
Fixpoint trim_start_0x (fuel : nat) (s : str) : str :=
  match fuel with
  | 0 => s
  | S fuel =>
      match strip_prefix (lit "0x") s with
      | Some rest => trim_start_0x fuel rest
      | None => s
      end
  end.

(** [Downstream::invalid_submit_share] *)
Definition raw_job_id (params : list Json) : Z :=
  match params !! 1 with
  | Some value =>
      match match as_str value with Some job_id => parse_i64 job_id | None => None end with
      | Some job_id => job_id
      | None => default 0%Z (as_i64 value)
      end
  | None => 0
  end.
Definition raw_nonce (params : list Json) : Z :=
  match params !! 4 with
  | Some value =>
      match as_u64 value with
      | Some nonce => Z.min nonce i64_max
      | None =>
          match as_str value with
          | Some nonce => default 0%Z (Z.of_N <$> u32_from_hex (trim_start_0x (length nonce) nonce))
          | None => 0
          end
      end
  | None => 0
  end.
Definition invalid_submit_share (env : DownEnv) (message_sv1 : Message) : option ShareInfo :=
  match submit_request_of message_sv1 with
  | None => None
  | Some request =>
      match submit_try_from request with
      | Some submit =>
          let worker_name := trim (sb_user_name submit) in
          if length worker_name =? 0 then None
          else Some (share_info_new env worker_name None
                 (default 0%Z (parse_i64 (sb_job_id submit)))
                 (Z.of_N (sb_nonce submit)) (Some InvalidShare))
      | None =>
          match as_array (rq_params request) with
          | None => None
          | Some params =>
              match match head params with Some v => as_str v | None => None end with
              | None => None
              | Some worker_name =>
                  let worker_name := trim worker_name in
                  if length worker_name =? 0 then None
                  else Some (share_info_new env worker_name None (raw_job_id params)
                         (raw_nonce params) (Some InvalidShare))
              end
          end
      end
  end.

(** [Downstream::current_difficulty] *)
Definition current_difficulty (d : Downstream) : f32 :=
  default (dd_initial_difficulty (dn_difficulty_mgmt d))
    (last (dd_current_difficulties (dn_difficulty_mgmt d))).

(** [Downstream::reject_invalid_submit] *)
Definition reject_invalid_submit (env : DownEnv) (message_sv1 : Message) : M unit :=
  match invalid_submit_rejection message_sv1 with
  | None => mret tt
  | Some response =>
      let invalid_share := invalid_submit_share env message_sv1 in
      _ ← safe_lock (connection_id ← self dn_connection_id;
                     send_stats (UpdateRejectedShares connection_id));
      _ ← match invalid_share with Some share => insert_share share | None => mret tt end;
      send_message_downstream response
  end.

(** [Downstream::record_downstream_valid_share] *)
Definition record_downstream_valid_share (env : DownEnv) (worker_name : str)
    (difficulty : f32) (job_id nonce : Z) : M unit :=
  _ ← insert_share (share_info_new env worker_name (Some difficulty) job_id nonce None);
  connection_id ← self dn_connection_id;
  send_stats (UpdateAcceptedShares connection_id).

(** The rejection every branch of [handle_submit_request] makes. *)
Definition reject_share (env : DownEnv) (request : Submit) (job_id : Z)
    (reason : RejectionReason) : M unit :=
  _ ← safe_lock (
    _ ← insert_share (share_info_new env (sb_user_name request) None job_id
          (Z.of_N (sb_nonce request)) (Some reason));
    connection_id ← self dn_connection_id;
    send_stats (UpdateRejectedShares connection_id));
  send_message_downstream (response_message (submit_respond request false)).

(** [Downstream::forward_submit_share]: whether the bridge took the share. *)
Definition forward_submit_share (request : Submit) : DownWorld → bool * DownWorld := λ w,
  if poisoned (dw_self w) then (false, w)
  else
    let d := guarded (dw_self w) in
    let to_send := MkSubmitShareWithChannelId (dn_connection_id d) request
      (dn_extranonce1 d) (dn_extranonce2_len d) (dn_version_rolling_mask d) in
    if tx_open (dn_tx_sv1_bridge d)
    then (true, (update_self
            (λ d, set_tx_sv1_bridge (sender_push to_send (dn_tx_sv1_bridge d)) d) w).2)
    else (false, w).

(** The merge-mining observation of a share. *)
Definition observe_share (env : DownEnv) (request : Submit) (job : IssuedJob)
    (extranonce1 : bytes) (version_rolling_mask : option HexU32Be) : M unit :=
  match ij_merge_mining_binding_id job with
  | None => mret tt
  | Some binding_id =>
      let version := effective_version (nf_version (ij_notify job)) (sb_version_bits request)
        version_rolling_mask in
      modify (λ w, set_dw_merge (try_observe_share (de_observer env) (dw_merge w) binding_id
        version (sb_time request) (sb_nonce request)
        (extranonce1 ++ sb_extra_nonce2 request)) w)
  end.

(** The end of [handle_submit_request]: forward a valid share and account for it. *)
Definition forward_valid_share (env : DownEnv) (request upstream_request : Submit)
    (job : IssuedJob) (job_id : Z) : M unit := λ w,
  let '(forwarded, w) := forward_submit_share upstream_request w in
  let m : M unit :=
    if forwarded : bool then
      _ ← safe_lock (record_downstream_valid_share env (sb_user_name request)
            (ij_difficulty job) job_id (Z.of_N (sb_nonce request)));
      _ ← safe_lock (update_self (set_submit_counts_for_diff true));
      send_message_downstream (response_message (submit_respond request true))
    else reject_share env request job_id UpstreamRejected in
  m w.

(** [Downstream::handle_submit_request] *)
Definition handle_submit_request (env : DownEnv) (request : Submit) : M unit :=
  match parse_uint u32_max (sb_job_id request) with
  | None => reject_share env request 0 InvalidJobIdFormat
  | Some job_id_as_number =>
      let job_id := Z.of_N job_id_as_number in
      connection_id ← safe_lock (self dn_connection_id);
      _ ← modify (λ w, set_dw_globals
            (update_share_count connection_id (de_now env) (dw_globals w)) w);
      jem ← safe_lock (self (λ d, (get_matching_job (dn_recent_jobs d) job_id_as_number,
              dn_extranonce1 d, dn_version_rolling_mask d)));
      let '(job, extranonce1, version_rolling_mask) :=
        (jem : option IssuedJob * bytes * option HexU32Be) in
      match job with
      | None => reject_share env request job_id JobIdNotFound
      | Some job =>
          let upstream_request := submit_with_job_id (nf_job_id (ij_notify job)) request in
          _ ← observe_share env request job extranonce1 version_rolling_mask;
          match validate_share upstream_request (ij_notify job) (ij_difficulty job)
                  extranonce1 version_rolling_mask with
          | None => panic
          | Some false => reject_share env request job_id InvalidShare
          | Some true => forward_valid_share env request upstream_request job job_id
          end
      end
  end.

(** [Downstream::handle_incoming_sv1].  Everything but [mining.submit] is
    dispatched by the crate's [handle_message], which calls back the handlers
    below: it is a parameter. *)
Inductive V1Error := InvalidSubmission | OtherV1Error.

Definition handle_incoming_sv1
    (handle_message : Message → M (result (option Response) V1Error))
    (env : DownEnv) (message_sv1 : Message) : M unit :=
  _ ← safe_lock (self dn_connection_id);
  match submit_request_of message_sv1 with
  | Some request =>
      match submit_try_from request with
      | None => reject_invalid_submit env message_sv1
      | Some submit =>
          is_valid ← safe_lock (self (λ d, is_valid_submission d submit));
          if negb (is_valid : bool) then reject_invalid_submit env message_sv1
          else handle_submit_request env submit
      end
  | None =>
      response ← safe_lock (handle_message message_sv1);
      match (response : result (option Response) V1Error) with
      | Ok (Some r) => send_message_downstream (response_message r)
      | Ok None => mret tt
      | Err InvalidSubmission => reject_invalid_submit env message_sv1
      | Err OtherV1Error => fail V1Protocol
      end
  end.

(** ** The handlers of [IsServer] *)

(** [shared::utils::sv1_rolling] *)
Definition sv1_rolling (configure : Configure) : HexU32Be * HexU32Be :=
  (default 0%N ((λ mask, N.land mask 536862720) <$> cf_version_rolling_mask configure),
   default 0%N (cf_version_rolling_min_bit_count configure)).

(** Adding a job under the lock; the random draws are those of the world. *)
Definition add_recent_job (notify : Notify) (mask : option HexU32Be) (difficulty : f32)
    (binding : option N) : M Notify := λ w,
  match add_job_with_binding (dn_recent_jobs (guarded (dw_self w))) (dw_draws w) notify mask
          difficulty binding with
  | None => (Panicked, w)
  | Some (notify, jobs, draws) =>
      (Done notify, (update_self (set_recent_jobs jobs) (set_dw_draws draws w)).2)
  end.

(** [handle_configure]: the mask and minimum bit count of the answer. *)
Definition handle_configure (request : Configure) : M (HexU32Be * HexU32Be) :=
  let '(mask, min_bit) := sv1_rolling request in
  _ ← update_self (set_version_rolling (Some mask) (Some min_bit));
  d ← self (λ d, d);
  first_job ← add_recent_job (dn_first_job d) (dn_version_rolling_mask d)
    (current_difficulty d) (dn_first_job_merge_mining_binding_id d);
  _ ← update_self (set_first_job first_job (dn_first_job_merge_mining_binding_id d));
  if version_rolling_params_ok mask min_bit then mret (mask, min_bit) else panic.

(** [new_subscription_id], [handle_subscribe] *)
Definition new_subscription_id : str := lit "ae6812eb4cd7735a302a8a9dd95cf71f".
Definition handle_subscribe (agent_signature : str) : M (list (str * str)) :=
  connection_id ← self dn_connection_id;
  _ ← send_stats (UpdateDeviceName connection_id agent_signature);
  _ ← update_self (set_user_agent agent_signature);
  mret [(lit "mining.set_difficulty", new_subscription_id);
        (lit "mining.notify", lit "ae6812eb4cd7735a302a8a9dd95cf71f")].

(** [handle_authorize] *)
Definition update_token (new_token : str) : M unit :=
  token ← gets dw_token;
  _ ← match lock token with
      | Some _ => modify (λ w, set_dw_token (store (dw_token w) new_token) w)
      | None => mark_downstream_down
      end;
  modify (λ w, set_dw_token_updates (dw_token_updates w ++ [new_token]) w).
Definition handle_authorize (name password : str) : M bool :=
  d ← self (λ d, d);
  match dn_authorized_names d with
  | [] =>
      if dn_updates_upstream_token d && (length password =? 0) then mret false
      else
        _ ← (if dn_updates_upstream_token d then update_token password else mret tt);
        token ← read_token;
        _ ← send_monitor (WorkerConnected (dn_connection_id d) name token);
        mret true
  | _ :: _ => mret false
  end.

(** [authorize] *)
Definition authorize_name (name : str) : M unit :=
  update_self (λ d, set_authorized_names (dn_authorized_names d ++ [name]) d).

(** The accessors of [IsServer]: the values are those of the channel. *)
Definition set_extranonce1 (d : Downstream) (_ : option bytes) : bytes := dn_extranonce1 d.
Definition set_extranonce2_size (d : Downstream) (_ : option nat) : nat :=
  dn_extranonce2_len d.
Definition set_version_rolling_mask (mask : option HexU32Be) (d : Downstream) : Downstream :=
  set_version_rolling mask (dn_version_rolling_min_bit d) d.
Definition set_version_rolling_min_bit (mask : option HexU32Be) (d : Downstream)
    : Downstream := set_version_rolling (dn_version_rolling_mask d) mask d.

(** ** Flags *)
Definition take_submit_diff_count_flag : M bool :=
  flag ← self dn_submit_counts_for_diff;
  _ ← update_self (set_submit_counts_for_diff false); mret flag.
Definition reset_submit_diff_count_flag : M unit :=
  update_self (set_submit_counts_for_diff false).
Definition mark_channel_hashrate_registered : M unit :=
  update_self (set_channel_hashrate_registered true).
Definition take_channel_hashrate_registered : M bool :=
  flag ← self dn_channel_hashrate_registered;
  _ ← update_self (set_channel_hashrate_registered false); mret flag.
Definition mark_closed : M unit := update_self (set_closed true).
Definition is_closed (d : Downstream) : bool := dn_closed d.

(** ** Notifications ([src/src/translator/downstream/notify.rs]) *)

(** [current_or_initial_job] *)
Definition current_or_initial_job : M Notify := λ w,
  let d := guarded (dw_self w) in
  let difficulty := current_difficulty d in
  match clone_last (dn_recent_jobs d) (dw_draws w) difficulty with
  | None => (Panicked, w)
  | Some (Some job, jobs, draws) =>
      (Done job, (update_self (set_recent_jobs jobs) (set_dw_draws draws w)).2)
  | Some (None, _, _) =>
      add_recent_job (dn_first_job d) (dn_version_rolling_mask d) difficulty
        (dn_first_job_merge_mining_binding_id d) w
  end.

(** One job of the broadcast channel in the loop of [start_notify]: recorded under
    the lock and sent under its new identifier; the loop ends when the mutex is
    poisoned. *)
Definition forward_notify (notify : Notify) (merge_mining_binding_id : option N)
    : M bool := λ w,
  let locked : M Notify :=
    _ ← update_self (set_first_job notify merge_mining_binding_id);
    d ← self (λ d, d);
    add_recent_job notify (dn_version_rolling_mask d) (current_difficulty d)
      merge_mining_binding_id in
  match safe_lock locked w with
  | (Done sent, w) => (_ ← send_message_downstream (notify_message sent); mret true) w
  | (Failed _, w) => (_ ← mark_downstream_down; mret false) w
  | (Panicked, w) => (Panicked, w)
  end.
End handlers.

(** ** Submits of the difficulty window *)

(** [DownstreamDifficultyConfig::share_count]: the rate in shares per minute, and
    the submits left in the window. *)
Definition elapsed_millis (elapsed : N) : N := (elapsed / 1000000)%N.
Fixpoint share_count (submits : list N) (now : N) : option f32 * list N :=
  match submits with
  | [] => (Some (f32_of_N 0), [])
  | oldest :: rest =>
      let elapsed := duration_since now oldest in
      if (elapsed <? secs 20)%N then (None, submits)
      else if (elapsed <? secs 60)%N then
        (Some (f32_div (f32_of_N (N.of_nat (length submits)))
                 (f32_div (f32_of_N (elapsed_millis elapsed))
                    (f32_mul (f32_of_N 60) (f32_of_N 1000)))), submits)
      else share_count rest now
  end.

Definition set_submits v c := MkDownstreamDifficultyConfig
  (dd_estimated_downstream_hash_rate c) v (dd_pid_controller c) (dd_current_difficulties c)
  (dd_initial_difficulty c) (dd_hard_minimum_difficulty c).
Definition set_current_difficulties v c := MkDownstreamDifficultyConfig
  (dd_estimated_downstream_hash_rate c) (dd_submits c) (dd_pid_controller c) v
  (dd_initial_difficulty c) (dd_hard_minimum_difficulty c).

Definition set_estimated_downstream_hash_rate v c := MkDownstreamDifficultyConfig v
  (dd_submits c) (dd_pid_controller c) (dd_current_difficulties c) (dd_initial_difficulty c)
  (dd_hard_minimum_difficulty c).
Definition set_initial_difficulty v pid c := MkDownstreamDifficultyConfig
  (dd_estimated_downstream_hash_rate c) (dd_submits c) pid (dd_current_difficulties c) v
  (dd_hard_minimum_difficulty c).

Definition on_new_valid_share (now : N) (c : DownstreamDifficultyConfig)
    : DownstreamDifficultyConfig := set_submits (dd_submits c ++ [now]) c.
Definition difficulty_reset (c : DownstreamDifficultyConfig) : DownstreamDifficultyConfig :=
  set_submits [] c.
Definition add_difficulty (new_diff : f32) (c : DownstreamDifficultyConfig)
    : DownstreamDifficultyConfig :=
  set_current_difficulties (push_bounded 3 (dd_current_difficulties c) new_diff) c.
