(* ===== verification/DownstreamProps.v ===== *)
(** * Properties of the SV1 server side

    Every [mining.submit] is answered and accounted for exactly once, what is
    forwarded to the bridge is an authorized valid share of a known job, the
    rejection reasons are complete, the upstream token is taken from the first
    authorization only, and what a repeated [mining.configure] does. *)

From S2P Require Import Prelude Str Bitcoin BitcoinModel F32 Sv1 RskCommitment MergeState MergeMining RecentJobs ShareLimits ShareLimitsProps Stats Effects Downstream.

(** ** Frames of the elementary computations *)

(** What the answer to a submit is about. *)
Record same_service (w w' : DownWorld) : Prop := {
  ss_self : dw_self w' = dw_self w;
  ss_stats : dw_stats w' = dw_stats w
}.

Lemma insert_share_frame share w :
  ∃ w', insert_share share w = (Done tt, w') ∧ same_service w w'.
Proof.
  unfold insert_share, read_token, self, gets, modify, send_monitor, mbind, M_bind, mret, M_ret.
  cbn. destruct (lock (dw_token w)) as [t|]; cbn.
  - destruct (length t =? 0); eexists; (split; [reflexivity|by split]).
  - unfold mark_downstream_down, modify. cbn. eexists. split; [reflexivity|by split].
Qed.

(** The downstream after a message to the miner. *)
Definition after_send (msg : Message) (w : DownWorld) : DownWorld :=
  set_dw_self (store (dw_self w)
    (set_tx_outgoing (sender_push msg (dn_tx_outgoing (guarded (dw_self w))))
       (guarded (dw_self w)))) w.

Definition serving (w : DownWorld) : Prop :=
  poisoned (dw_self w) = false ∧ tx_open (dn_tx_outgoing (guarded (dw_self w))) = true.

Lemma send_message_serving msg w :
  serving w → send_message_downstream msg w = (Done tt, after_send msg w).
Proof. intros [Hp Ho]. unfold send_message_downstream. by rewrite Hp, Ho. Qed.

Lemma serving_same w w' : same_service w w' → serving w → serving w'.
Proof. intros [Hs _]. unfold serving. by rewrite Hs. Qed.

Lemma safe_lock_serving {A} (m : M A) w :
  serving w → (m w).1 ≠ Panicked → safe_lock m w = m w.
Proof. intros [Hp _]. by apply with_lock_open. Qed.

(** Accounting for a share never panics. *)
Lemma accounting_no_panic share command w :
  ((_ ← insert_share share; connection_id ← self dn_connection_id;
    send_stats (command connection_id)) w).1 ≠ Panicked.
Proof.
  unfold mbind, M_bind. destruct (insert_share_frame share w) as (w1 & -> & _). done.
Qed.

(** ** Verdicts *)
Section verdicts.
Context `{B : !BitcoinLib} `{SV : !Sv1Lib}.

Inductive Verdict :=
| Accept (id : N) (forwarded : SubmitShareWithChannelId)
| Reject (id : N)
| Crash.

(** The decision on a [mining.submit], as a function of the downstream alone. *)
Definition share_verdict (d : Downstream) (submit : Submit) : Verdict :=
  match parse_uint u32_max (sb_job_id submit) with
  | None => Reject (sb_id submit)
  | Some job_id =>
      match get_matching_job (dn_recent_jobs d) job_id with
      | None => Reject (sb_id submit)
      | Some job =>
          let upstream := submit_with_job_id (nf_job_id (ij_notify job)) submit in
          match validate_share upstream (ij_notify job) (ij_difficulty job)
                  (dn_extranonce1 d) (dn_version_rolling_mask d) with
          | None => Crash
          | Some false => Reject (sb_id submit)
          | Some true =>
              if tx_open (dn_tx_sv1_bridge d)
              then Accept (sb_id submit) (MkSubmitShareWithChannelId (dn_connection_id d)
                     upstream (dn_extranonce1 d) (dn_extranonce2_len d)
                     (dn_version_rolling_mask d))
              else Reject (sb_id submit)
          end
      end
  end.
Definition submit_verdict (d : Downstream) (request : StandardRequest) : Verdict :=
  match submit_try_from request with
  | None => Reject (rq_id request)
  | Some submit =>
      if is_valid_submission d submit then share_verdict d submit else Reject (rq_id request)
  end.

(** The outcome of a handler that answers [id] with [ok] and accounts for it. *)
Definition answers (id : N) (ok : bool) (forwarded : list SubmitShareWithChannelId)
    (w : DownWorld) (r : Outcome DownstreamError unit * DownWorld) : Prop :=
  let d := guarded (dw_self w) in
  ∃ w', r = (Done tt, w') ∧
    tx_sent (dn_tx_outgoing (guarded (dw_self w'))) =
      tx_sent (dn_tx_outgoing d) ++ [response_message (MkResponse id false (JBool ok))] ∧
    tx_sent (dn_tx_sv1_bridge (guarded (dw_self w'))) =
      tx_sent (dn_tx_sv1_bridge d) ++ forwarded ∧
    dw_stats w' = stats_send (if ok then UpdateAcceptedShares (dn_connection_id d)
       else UpdateRejectedShares (dn_connection_id d)) (dw_stats w) ∧
    poisoned (dw_self w') = false ∧
    dn_submit_counts_for_diff (guarded (dw_self w')) = ok || dn_submit_counts_for_diff d ∧
    dn_difficulty_mgmt (guarded (dw_self w')) = dn_difficulty_mgmt d.

Definition realises (v : Verdict) (w : DownWorld) (r : Outcome DownstreamError unit * DownWorld) : Prop :=
  match v with
  | Accept id forwarded => answers id true [forwarded] w r
  | Reject id => answers id false [] w r
  | Crash => ∃ w', r = (Panicked, w') ∧ same_service w w'
  end.

Lemma answers_same id ok fw w w1 r :
  same_service w w1 → answers id ok fw w1 r → answers id ok fw w r.
Proof. intros [Hs Hst] (w' & -> & H). exists w'. rewrite Hs, Hst in H. done. Qed.

(** A rejection after share accounting, whatever its reason. *)
Lemma reject_share_answers env request job_id reason w :
  serving w → answers (sb_id request) false [] w (reject_share env request job_id reason w).
Proof.
  intros Hw. unfold reject_share. unfold mbind at 1, M_bind at 1.
  rewrite safe_lock_serving by (done || apply (accounting_no_panic _ UpdateRejectedShares)).
  unfold mbind, M_bind.
  destruct (insert_share_frame (share_info_new env (sb_user_name request) None job_id
    (Z.of_N (sb_nonce request)) (Some reason)) w) as (w1 & -> & Hsame).
  cbn. set (w2 := set_dw_stats _ w1).
  assert (serving w2) as Hw2 by exact (serving_same _ _ Hsame Hw).
  rewrite send_message_serving by done. exists (after_send
    (response_message (submit_respond request false)) w2).
  split; [done|]. destruct Hsame as [Hs Hst]. cbn. rewrite Hs, Hst.
  destruct Hw as [Hp _]. by rewrite app_nil_r.
Qed.

Lemma reject_invalid_answers env request w :
  serving w → rq_method request = MINING_SUBMIT →
  answers (rq_id request) false [] w
    (reject_invalid_submit env (StandardRequestMsg request) w).
Proof.
  intros Hw Hm. unfold reject_invalid_submit, invalid_submit_rejection, submit_request_of.
  rewrite bool_decide_true by done. cbn beta iota.
  set (share := invalid_submit_share env _).
  unfold mbind at 1, M_bind at 1. rewrite safe_lock_serving by done.
  unfold mbind, M_bind, self, gets, send_stats, modify at 1. cbn beta iota.
  set (w1 := set_dw_stats _ w).
  assert (∃ w2, match share with Some share => insert_share share | None => mret () end w1
    = (Done tt, w2) ∧ same_service w1 w2) as (w2 & -> & Hsame).
  { destruct share as [sh|]; [apply insert_share_frame|by exists w1]. }
  assert (serving w2) as Hw2 by exact (serving_same _ _ Hsame Hw).
  rewrite send_message_serving by done. exists (after_send
    (response_message (MkResponse (rq_id request) false (JBool false))) w2).
  split; [done|]. destruct Hsame as [Hs Hst]. cbn. rewrite Hs, Hst. cbn.
  destruct Hw as [Hp _]. by rewrite app_nil_r.
Qed.

(** Forwarding a valid share. *)
Lemma forward_valid_share_answers env request upstream job job_id w :
  serving w →
  let d := guarded (dw_self w) in
  let r := forward_valid_share env request upstream job job_id w in
  if tx_open (dn_tx_sv1_bridge d)
  then answers (sb_id request) true [MkSubmitShareWithChannelId (dn_connection_id d) upstream
         (dn_extranonce1 d) (dn_extranonce2_len d) (dn_version_rolling_mask d)] w r
  else answers (sb_id request) false [] w r.
Proof.
  intros Hw d r. unfold r, forward_valid_share, forward_submit_share.
  destruct Hw as [Hp Ho]. rewrite Hp. fold d. destruct (tx_open (dn_tx_sv1_bridge d)) eqn:Hb.
  2: { by apply reject_share_answers. }
  set (share := MkSubmitShareWithChannelId _ _ _ _ _).
  set (w1 := snd _). assert (serving w1) as Hw1 by done.
  unfold mbind at 1, M_bind at 1. rewrite safe_lock_serving
    by (done || apply (accounting_no_panic _ UpdateAcceptedShares)).
  unfold record_downstream_valid_share, mbind at 1, M_bind at 1.
  destruct (insert_share_frame (share_info_new env (sb_user_name request)
    (Some (ij_difficulty job)) job_id (Z.of_N (sb_nonce request)) None) w1)
    as (w2 & -> & Hsame). cbn beta iota.
  unfold mbind at 1, M_bind at 1, self, gets, send_stats, modify at 1. cbn beta iota.
  set (w3 := set_dw_stats _ w2).
  assert (serving w3) as Hw3 by exact (serving_same _ _ Hsame Hw1).
  unfold mbind, M_bind. rewrite safe_lock_serving by done.
  unfold update_self, modify. cbn beta iota. set (w4 := set_dw_self _ w3).
  assert (serving w4) as Hw4 by exact Hw3.
  rewrite send_message_serving by done. eexists. split; [reflexivity|].
  destruct Hsame as [Hs Hst]. cbn. by rewrite Hs, Hst.
Qed.

Lemma handle_submit_realises env submit w :
  serving w →
  realises (share_verdict (guarded (dw_self w)) submit) w (handle_submit_request env submit w).
Proof.
  intros Hw. unfold handle_submit_request, share_verdict.
  destruct (parse_uint _ _) as [job_id|]; [|by apply reject_share_answers].
  unfold mbind at 1, M_bind at 1. rewrite safe_lock_serving by done.
  unfold self, gets. cbn beta iota.
  unfold mbind at 1, M_bind at 1, modify at 1. cbn beta iota.
  set (w1 := set_dw_globals _ w).
  assert (same_service w w1) as Hs1 by by split.
  assert (serving w1) as Hw1 by exact Hw.
  unfold mbind at 1, M_bind at 1. rewrite safe_lock_serving by done. cbn beta iota.
  change (guarded (dw_self w1)) with (guarded (dw_self w)).
  destruct (get_matching_job _ job_id) as [job|];
    [|exact (answers_same _ _ _ _ _ _ Hs1 (reject_share_answers _ _ _ _ _ Hw1))].
  set (upstream := submit_with_job_id _ submit).
  assert (∃ w2, observe_share env submit job (dn_extranonce1 (guarded (dw_self w)))
    (dn_version_rolling_mask (guarded (dw_self w))) w1 = (Done tt, w2) ∧ same_service w w2)
    as (w2 & Hobs & Hs2).
  { unfold observe_share. destruct (ij_merge_mining_binding_id job).
    - unfold modify. eexists. split; [reflexivity|by split].
    - by exists w1. }
  unfold mbind, M_bind. rewrite Hobs.
  assert (serving w2) as Hw2 by exact (serving_same _ _ Hs2 Hw).
  destruct (validate_share _ _ _ _ _) as [[|]|]; [| |by exists w2].
  - pose proof (forward_valid_share_answers env submit upstream job (Z.of_N job_id) w2 Hw2) as H.
    cbv zeta in H. rewrite (ss_self _ _ Hs2) in H.
    destruct (tx_open _); by apply (answers_same _ _ _ _ _ _ Hs2).
  - by apply (answers_same _ _ _ _ _ _ Hs2), reject_share_answers.
Qed.

Lemma handle_incoming_realises hm env request w :
  rq_method request = MINING_SUBMIT → serving w →
  realises (submit_verdict (guarded (dw_self w)) request) w
    (handle_incoming_sv1 hm env (StandardRequestMsg request) w).
Proof.
  intros Hm Hw. unfold handle_incoming_sv1, submit_request_of, submit_verdict.
  rewrite bool_decide_true by done.
  unfold mbind at 1, M_bind at 1. rewrite safe_lock_serving by done.
  unfold self, gets. cbn beta iota.
  destruct (submit_try_from request) as [submit|]; [|by apply reject_invalid_answers].
  unfold mbind, M_bind. rewrite safe_lock_serving by done. cbn beta iota.
  destruct (is_valid_submission _ submit); cbn [negb];
    [by apply handle_submit_realises|by apply reject_invalid_answers].
Qed.
End verdicts.

Section theorems.
Context `{B : !BitcoinLib} `{SV : !Sv1Lib}.

Lemma validate_share_panics request job difficulty extranonce1 mask :
  validate_share request job difficulty extranonce1 mask = None →
  (i32_max < effective_version (nf_version job) (sb_version_bits request) mask)%N ∨
  difficulty_to_target difficulty = None.
Proof.
  unfold validate_share, get_hash. intros H. repeat (case_match; try done); bool_to_prop; auto.
Qed.

(** The verdict answers under the identifier of the request. *)
Lemma verdict_id d request v :
  (∀ submit, submit_try_from request = Some submit → sb_id submit = rq_id request) →
  v = submit_verdict d request →
  match v with Accept id _ | Reject id => id = rq_id request | Crash => True end.
Proof.
  intros Hid ->. unfold submit_verdict, share_verdict.
  destruct (submit_try_from request) as [submit|]; [|done].
  rewrite <-(Hid submit eq_refl).
  destruct (is_valid_submission d submit), (parse_uint u32_max (sb_job_id submit)) as [job_id|];
    try done.
  destruct (get_matching_job (dn_recent_jobs d) job_id) as [job|]; [|done].
  destruct (validate_share _ _ _ _ _) as [[]|]; [by destruct (tx_open _)|done..].
Qed.

Lemma share_verdict_crash d submit :
  share_verdict d submit = Crash →
  ∃ job_id job, get_matching_job (dn_recent_jobs d) job_id = Some job ∧
    ((i32_max < effective_version (nf_version (ij_notify job)) (sb_version_bits submit)
        (dn_version_rolling_mask d))%N ∨ difficulty_to_target (ij_difficulty job) = None).
Proof.
  unfold share_verdict. destruct (parse_uint _ _) as [job_id|]; [|done].
  destruct (get_matching_job _ job_id) as [job|] eqn:Hjob; [|done]. intros H.
  exists job_id, job. split; [done|].
  destruct (validate_share _ _ _ _ _) as [[|]|] eqn:Hv; [by case_match|done|].
  apply validate_share_panics in Hv. done.
Qed.

(** C1: a miner that is being served gets exactly one answer to a
    [mining.submit], under the identifier of its request, accepted or rejected; one
    statistics command, accepted or rejected to match the answer, is issued for the
    share, and exactly the accepted ones reach the bridge.  The handler never fails.
    The exception is a job whose version has the sign bit or whose difficulty has no
    target: there the handler panics, and nothing is answered, counted or forwarded.
    [sv1_api] is relied on for a submit to keep the identifier of its request. *)
Theorem submit_answered_once hm env request w :
  rq_method request = MINING_SUBMIT → serving w →
  (∀ submit, submit_try_from request = Some submit → sb_id submit = rq_id request) →
  let d := guarded (dw_self w) in
  match handle_incoming_sv1 hm env (StandardRequestMsg request) w with
  | (Done _, w') => ∃ ok,
      tx_sent (dn_tx_outgoing (guarded (dw_self w'))) =
        tx_sent (dn_tx_outgoing d) ++
          [response_message (MkResponse (rq_id request) false (JBool ok))] ∧
      dw_stats w' = stats_send (if ok then UpdateAcceptedShares (dn_connection_id d)
                                else UpdateRejectedShares (dn_connection_id d)) (dw_stats w) ∧
      length (tx_sent (dn_tx_sv1_bridge (guarded (dw_self w')))) =
        length (tx_sent (dn_tx_sv1_bridge d)) + (if ok then 1 else 0)
  | (Failed _, _) => False
  | (Panicked, w') => dw_self w' = dw_self w ∧ dw_stats w' = dw_stats w ∧
      ∃ submit job_id job,
      submit_try_from request = Some submit ∧
      get_matching_job (dn_recent_jobs d) job_id = Some job ∧
      ((i32_max < effective_version (nf_version (ij_notify job)) (sb_version_bits submit)
          (dn_version_rolling_mask d))%N ∨ difficulty_to_target (ij_difficulty job) = None)
  end.
Proof.
  intros Hm Hw Hid d. pose proof (handle_incoming_realises hm env request w Hm Hw) as H.
  fold d in H. destruct (submit_verdict d request) as [id fw|id|] eqn:Hv; simpl in H.
  - destruct H as (w' & -> & Hs & Hb & Hst & _). exists true.
    rewrite <-(verdict_id d request (Accept id fw) Hid (eq_sym Hv)), Hb, length_app. done.
  - destruct H as (w' & -> & Hs & Hb & Hst & _). exists false.
    rewrite <-(verdict_id d request (Reject id) Hid (eq_sym Hv)), Hb, length_app.
    split; [done|]. split; [done|]. reflexivity.
  - destruct H as (w' & -> & Hs & Hst). split; [done|]. split; [done|]. unfold submit_verdict in Hv.
    destruct (submit_try_from request) as [submit|]; [|done].
    destruct (is_valid_submission d submit); [|done].
    destruct (share_verdict_crash _ _ Hv) as (job_id & job & Hj & Hp).
    by exists submit, job_id, job.
Qed.


(** The reasons for a rejection are complete: the local validation passes
    exactly when no reason is found. *)
Theorem invalid_submit_reasons_complete d submit :
  is_valid_submission d submit = true ↔ invalid_submit_reasons d submit = [].
Proof.
  unfold is_valid_submission, invalid_submit_reasons, has_valid_version_bits.
  destruct (is_authorized d _); simpl; [|done].
  destruct (dn_extranonce2_len d =? _); simpl; [|done].
  destruct (dn_version_rolling_mask d), (sb_version_bits submit); try done.
  by destruct (check_mask _ _).
Qed.

(** The first authorization of a downstream decides: it succeeds unless the
    downstream has to supply the upstream token and has none, and exactly then a
    token-supplying downstream replaces the shared token and announces it
    upstream; later authorizations are refused and change nothing. *)
Theorem authorize_sets_token_once name password w :
  poisoned (dw_token w) = false →
  let d := guarded (dw_self w) in
  let first := bool_decide (dn_authorized_names d = []) in
  let supplies := dn_updates_upstream_token d in
  let ok := first && negb (supplies && (length password =? 0)) in
  let w' := (handle_authorize name password w).2 in
  (handle_authorize name password w).1 = Done ok ∧
  dw_token_updates w' = dw_token_updates w ++ (if ok && supplies then [password] else []) ∧
  guarded (dw_token w') = (if ok && supplies then password else guarded (dw_token w)) ∧
  (ok = false → w' = w).
Proof.
  intros Hp d first supplies ok w'. unfold w', ok, first, supplies, handle_authorize.
  unfold self, gets, mbind, M_bind. cbn beta iota. fold d.
  destruct (dn_authorized_names d) as [|n l]; simpl; [|by rewrite app_nil_r].
  assert (∀ x : DownWorld, poisoned (dw_token x) = false →
    read_token x = (Done (guarded (dw_token x)), x)) as Hread.
  { intros x Hx. unfold read_token, gets, mbind, M_bind, lock, mret, M_ret. by rewrite Hx. }
  destruct (dn_updates_upstream_token d); simpl.
  - destruct (length password =? 0); simpl; [by rewrite app_nil_r|].
    assert (update_token password w = (Done tt, set_dw_token_updates
      (dw_token_updates w ++ [password]) (set_dw_token (store (dw_token w) password) w))) as ->.
    { unfold update_token, gets, mbind, M_bind, lock, modify. by rewrite Hp. }
    rewrite Hread by done. done.
  - unfold mret, M_ret. rewrite Hread by done. simpl. by rewrite app_nil_r.
Qed.

(** Configuring issues the first job under a fresh identifier, and keeps that
    identifier in [first_job]. *)
Lemma handle_configure_spec request w r w' v2s :
  recent_wf (dn_recent_jobs (guarded (dw_self w))) v2s →
  handle_configure request w = (Done r, w') →
  ∃ v1 v2 v2s',
    v1 ∈ dw_draws w ∧
    parse_uint u32_max (nf_job_id (dn_first_job (guarded (dw_self w)))) = Some v2 ∧
    recent_wf (dn_recent_jobs (guarded (dw_self w'))) v2s' ∧
    nf_job_id (dn_first_job (guarded (dw_self w'))) = display_N v1 ∧
    (∃ job, get_matching_job (dn_recent_jobs (guarded (dw_self w'))) v1 = Some job ∧
       nf_job_id (ij_notify job) = nf_job_id (dn_first_job (guarded (dw_self w)))).
Proof.
  intros Hw H. unfold handle_configure in H. destruct (sv1_rolling request) as [mask minb].
  unfold mbind, M_bind, update_self, modify, self, gets, add_recent_job in H.
  cbn -[add_job_with_binding] in H.
  destruct (add_job_with_binding _ _ _ _ _ _) as [[[sent jobs] draws]|] eqn:Ha; [|done].
  destruct (add_job_spec _ _ _ _ _ _ _ _ _ _ Hw Ha)
    as (v1 & v2 & Hv2 & Hin & _ & -> & Hw' & Hjob & _).
  cbn in H. destruct (version_rolling_params_ok mask minb); [|done].
  injection H as <- <-. exists v1, v2, (tracked_after v2s v2). cbn.
  repeat (split; [done|]). eexists. split; [exact Hjob|]. done.
Qed.

(** A second [mining.configure] forgets the upstream job: when it comes before
    the next job, the job it issues carries the random SV1 identifier of the first
    one, not the identifier the upstream gave, so its shares are forwarded under an
    identifier the upstream never issued. *)
Theorem second_configure_loses_upstream_id c1 c2 w w1 w2 r1 r2 v2s :
  recent_wf (dn_recent_jobs (guarded (dw_self w))) v2s →
  handle_configure c1 w = (Done r1, w1) → handle_configure c2 w1 = (Done r2, w2) →
  ∃ v1 v1' job,
    v1 ∈ dw_draws w ∧ nf_job_id (dn_first_job (guarded (dw_self w2))) = display_N v1' ∧
    get_matching_job (dn_recent_jobs (guarded (dw_self w2))) v1' = Some job ∧
    nf_job_id (ij_notify job) = display_N v1.
Proof.
  intros Hw H1 H2.
  destruct (handle_configure_spec _ _ _ _ _ Hw H1) as (v1 & _ & v2s' & Hin & _ & Hw1 & Hid1 & _).
  destruct (handle_configure_spec _ _ _ _ _ Hw1 H2)
    as (v1' & _ & _ & _ & _ & _ & Hid2 & job & Hj & Hjid).
  exists v1, v1', job. by rewrite Hjid, Hid1.
Qed.

End theorems.

(** ** Witnesses *)
Definition example_difficulty : DownstreamDifficultyConfig :=
  MkDownstreamDifficultyConfig (f32_of_N 1) [] (difficulty_pid (f32_of_N 10) (f32_of_N 1)) [] (f32_ratio 1 1000000000) None.
Definition example_downstream : Downstream :=
  MkDownstream 9 [lit "w"] [Byte.x04] None None (MkSender true []) (MkSender true []) 1
    example_difficulty recent_jobs_new (with_job_id (lit "77") example_job) None [] true
    false false false.
Definition example_world : DownWorld :=
  MkDownWorld (new_mutex example_downstream) (new_mutex []) stats_sender_new [] [] false
    (MkShareGlobals (new_mutex []) false (new_mutex None) (new_mutex ∅))
    (MkMergeMining new_core (MkObserverState None None)) [101%N; 102%N; 103%N].

Lemma second_configure_loses_upstream_id_witness :
  ∃ v1 v1' job, v1 ∈ dw_draws example_world ∧ nf_job_id (ij_notify job) = display_N v1 ∧
    nf_job_id (with_job_id (display_N v1') (ij_notify job)) = display_N v1'.
Proof.
  destruct (handle_configure (MkConfigure None None) example_world) as [o1 w1] eqn:E1.
  destruct (handle_configure (MkConfigure None None) w1) as [o2 w2] eqn:E2.
  assert (∃ r1 r2, o1 = Done r1 ∧ o2 = Done r2) as (r1 & r2 & -> & ->).
  { vm_compute in E1. injection E1 as <- <-. vm_compute in E2. injection E2 as <- <-. eauto. }
  destruct (second_configure_loses_upstream_id _ _ example_world w1 w2 r1 r2 []
    recent_wf_new E1 E2) as (v1 & v1' & job & H1 & _ & _ & H2).
  exists v1, v1', job. split; [exact H1|]. split; [exact H2|reflexivity].
Defined.

Definition example_request : StandardRequest := MkStandardRequest 5 MINING_SUBMIT JNull.
Definition no_message (m : Message) : M (result (option Response) V1Error) := mret (Ok None).
Definition example_down_env : DownEnv := MkDownEnv 0 (MkObserverEnv true true 0 true 0).

Lemma authorize_sets_token_once_witness :
  (handle_authorize (lit "w") (lit "token") example_world).1 = Done false.
Proof.
  exact (proj1 (authorize_sets_token_once (lit "w") (lit "token") example_world eq_refl)).
Defined.

(** A parser that reads every request as one share. *)
Definition one_share : Submit := MkSubmit (lit "w") (lit "101") [Byte.x03] 0%N 0%N None 5%N.
Definition one_share_model : Sv1Lib := {|
  submit_try_from := λ _, Some one_share;
  check_mask := check_mask;
  notify_message := notify_message;
  version_rolling_params_ok := version_rolling_params_ok;
  prev_hash_into_vec := prev_hash_into_vec;
  u256_from_vec := u256_from_vec;
  u256_to_block_hash := u256_to_block_hash
|}.
(** The example downstream after its first job went out. *)
Definition mining_world : DownWorld := (current_or_initial_job example_world).2.
Definition mining_result : Outcome DownstreamError unit * DownWorld :=
  handle_incoming_sv1 (SV := one_share_model) no_message example_down_env
    (StandardRequestMsg example_request) mining_world.


(** The share of the example is accepted under the identifier of its request. *)
Lemma submit_answered_once_witness :
  mining_result.1 = Done tt ∧
  ∃ ok, tx_sent (dn_tx_outgoing (guarded (dw_self mining_result.2))) =
    tx_sent (dn_tx_outgoing (guarded (dw_self mining_world))) ++
      [response_message (MkResponse 5 false (JBool ok))].
Proof.
  pose proof (submit_answered_once (SV := one_share_model) no_message example_down_env
    example_request mining_world eq_refl) as H.
  specialize (H ltac:(split; vm_compute; reflexivity)).
  specialize (H ltac:(intros submit Hs; vm_compute in Hs; injection Hs as <-; reflexivity)).
  fold mining_result in H. assert (mining_result.1 = Done tt) as E by (vm_compute; reflexivity).
  split; [exact E|]. destruct mining_result as [[[]|e|] w']; [|destruct H|discriminate E].
  destruct H as (ok & Hs & _). exists ok. exact Hs.
Defined.
