(* ===== verification/DiffManagement.v ===== *)
(** * Difficulty management

    [translator/downstream/diff_management.rs]: the difficulty a miner is given, its
    retarget from the rate of its shares, and its part in the hash rate of the channel to
    the pool; [UpstreamDifficultyConfig] of [translator/upstream/diff_management.rs], the
    aggregate the miners share; and the registration of a miner's hash rate by
    [start_notify] ([notify.rs]) against its removal when the miner disconnects
    ([receive_from_downstream.rs]).

    [log2] is only approximate in Rust: the class [Log2] states what quantization needs of
    it.  The output of the controller is that of the [pid] crate, the class [PidLib]. *)

From S2P Require Import Prelude Str Bitcoin F32 Sv1 RskCommitment MergeState MergeMining RecentJobs ShareLimits Stats Effects Downstream.

(** ** Quantization *)

(** [f32::log2], and the integer nearest to it: right for a number close above a power of
    two, and monotonic. *)
Class Log2 := {
  f32_log2 : f32 → f32;
  log2_near : ∀ k x, (-126 <= k <= 127)%Z → f32_leb (f32_pow2 k) x = true →
    f32_leb x (f32_mul (f32_ratio 5 4) (f32_pow2 k)) = true →
    f32_round_as_i32 (f32_log2 x) = k;
  log2_mono : ∀ x y, f32_ltb (f32_of_N 0) x = true → f32_leb x y = true →
    (f32_round_as_i32 (f32_log2 x) <= f32_round_as_i32 (f32_log2 y))%Z
}.

Definition NON_LOCAL_DOWNSTREAM_MIN_DIFFICULTY : f32 := f32_of_N 131072.

Section quantization.
Context `{L : !Log2}.

Definition nearest_power_of_2 (x : f32) : f32 :=
  if f32_leb x (f32_of_N 0) then f32_ratio 9765625 10000000000
  else f32_powi2 (f32_round_as_i32 (f32_log2 x)).

Definition hard_minimum_difficulty_for_proxy_mode (local_mode : bool)
    (downstream_min_difficulty : f32) : option f32 :=
  if local_mode then None else Some downstream_min_difficulty.

Definition clamp_downstream_difficulty_to_floor (difficulty : f32)
    (hard_minimum_difficulty : option f32) : f32 :=
  match hard_minimum_difficulty with
  | Some minimum => f32_max difficulty minimum
  | None => difficulty
  end.

Definition quantize_downstream_difficulty (difficulty : f32)
    (hard_minimum_difficulty : option f32) : f32 :=
  nearest_power_of_2 (clamp_downstream_difficulty_to_floor difficulty hard_minimum_difficulty).

(** The difficulty every miner starts with ([start_accept_connection]). *)
Definition base_initial_difficulty (initial_hash_rate share_per_min : f32)
    (hard_minimum_difficulty : option f32) : f32 :=
  quantize_downstream_difficulty
    (f32_div initial_hash_rate
       (f32_mul (f32_div share_per_min (f32_of_N 60)) (f32_pow2 32)))
    hard_minimum_difficulty.
End quantization.

(** ** Messages *)
Definition downstream_difficulty_param (diff : f64) : Json :=
  let rounded := f64_round diff in
  if is_finite diff && f64_leb (f64_of_N 0) diff && f64_leb rounded (f64_of_N u64_max)
     && f64_leb (f64_abs (f64_sub diff rounded))
          (f64_mul (f64_mul f64_epsilon (f64_max (f64_abs rounded) (f64_of_N 1))) (f64_of_N 8))
  then JInt (Z.of_N (f64_as_u64 rounded))
  else JFloat diff.

(** [diff_to_sv1_message]: the message, and the target; [None] is a panic of
    [difficulty_to_target]. *)
Definition set_difficulty_message (diff : f64) : Message :=
  NotificationMsg (lit "mining.set_difficulty") (JArray [downstream_difficulty_param diff]).
Definition diff_to_sv1_message (diff : f64) : option (Message * bytes) :=
  match difficulty_to_target (f32_of_f64 diff) with
  | Some target => Some (set_difficulty_message diff, target)
  | None => None
  end.

(** ** Estimation *)
Definition estimate_hash_rate_from_difficulty (difficulty share_per_min : f32) : f32 :=
  let share_per_second := f32_div share_per_min (f32_of_N 60) in
  f32_mul (f32_mul share_per_second difficulty) (f32_powi2 32).

Definition hashrate_estimation_changed (old_estimation new_estimation : f32) : bool :=
  let tolerance := f32_mul (f32_mul f32_epsilon
    (f32_max (f32_max (f32_abs old_estimation) (f32_abs new_estimation)) (f32_of_N 1)))
    (f32_of_N 16) in
  f32_gtb (f32_abs (f32_sub old_estimation new_estimation)) tolerance.

(** ** The channel's configuration *)

(** The sender of the [watch] channel as its value and whether the receiver is there. *)
Record UpstreamDifficultyConfig := MkUpstreamDifficultyConfig {
  ud_channel_diff_update_interval : N;
  ud_channel_nominal_hashrate : f32;
  ud_update_revision : N;
  ud_update_receiver : bool
}.
Definition upstream_difficulty_config_new (channel_diff_update_interval : N)
    (channel_nominal_hashrate : f32) : UpstreamDifficultyConfig :=
  MkUpstreamDifficultyConfig channel_diff_update_interval channel_nominal_hashrate 0 true.
Definition set_channel_nominal_hashrate (v : f32) (u : UpstreamDifficultyConfig) :=
  MkUpstreamDifficultyConfig (ud_channel_diff_update_interval u) v (ud_update_revision u)
    (ud_update_receiver u).

(** [request_immediate_update]: a [watch] keeps its value when nobody receives. *)
Definition request_immediate_update (u : UpstreamDifficultyConfig) : UpstreamDifficultyConfig :=
  if ud_update_receiver u
  then MkUpstreamDifficultyConfig (ud_channel_diff_update_interval u)
    (ud_channel_nominal_hashrate u) (wrapping_add u64_max (ud_update_revision u) 1) true
  else u.

(** The locked updates of the aggregate: a miner's estimation changes, a miner leaves, a
    miner is registered, and the rate limit is hit. *)
Definition reconcile_channel_hashrate (hash_rate_delta : f32) (c : UpstreamDifficultyConfig) :=
  let sum := f32_add (ud_channel_nominal_hashrate c) hash_rate_delta in
  request_immediate_update (set_channel_nominal_hashrate
    (if f32_gtb sum (f32_of_N 0) then sum else f32_of_N 0) c).
Definition subtract_channel_hashrate (hash_rate : f32) (u : UpstreamDifficultyConfig) :=
  request_immediate_update (set_channel_nominal_hashrate
    (f32_sub (ud_channel_nominal_hashrate u)
       (f32_min hash_rate (ud_channel_nominal_hashrate u))) u).
Definition add_channel_hashrate (hash_rate : f32) (c : UpstreamDifficultyConfig) :=
  request_immediate_update (set_channel_nominal_hashrate
    (f32_add (ud_channel_nominal_hashrate c) hash_rate) c).
Definition multiply_channel_hashrate (multiplier downstream_hashrate : f32)
    (upstream : UpstreamDifficultyConfig) :=
  request_immediate_update (set_channel_nominal_hashrate
    (f32_max (f32_mul (ud_channel_nominal_hashrate upstream) multiplier) downstream_hashrate)
    upstream).

(** ** The handlers *)

(** What the configuration and the clock decide. *)
Record DiffEnv := MkDiffEnv {
  fe_updates_disabled : bool;
  fe_share_per_min : f32;
  fe_downstream_hashrate : f32;
  fe_now : N;
  fe_timestamp_millis : N
}.

(** The objects: those of the miner, the fields [last_call_to_update_hr] and
    [upstream_difficulty_config] of [Downstream], and the [SetDownstreamTarget] messages to
    the bridge, which share the channel of the miner's shares. *)
Record DiffWorld := MkDiffWorld {
  fw_down : DownWorld;
  fw_last_call_to_update_hr : N;
  fw_upstream : Mutex UpstreamDifficultyConfig;
  fw_targets : list (N * bytes)
}.
Definition set_fw_down v w :=
  MkDiffWorld v (fw_last_call_to_update_hr w) (fw_upstream w) (fw_targets w).
Definition set_fw_last_call v w := MkDiffWorld (fw_down w) v (fw_upstream w) (fw_targets w).
Definition set_fw_upstream v w :=
  MkDiffWorld (fw_down w) (fw_last_call_to_update_hr w) v (fw_targets w).
Definition set_fw_targets v w :=
  MkDiffWorld (fw_down w) (fw_last_call_to_update_hr w) (fw_upstream w) v.

Inductive DiffError :=
  DiffPoisonLock | TranslatorDiffConfigMutexPoisoned | DiffUnrecoverable | DiffAsyncChannelError.
Abbreviation FM := (Handler DiffWorld DiffError).

(** A computation of the miner's side, and a lock on it that fails with [e]. *)
Definition on_down {A} (e : DiffError) (m : M A) : FM A := λ w,
  match m (fw_down w) with
  | (Done a, d) => (Done a, set_fw_down d w)
  | (Failed _, d) => (Failed e, set_fw_down d w)
  | (Panicked, d) => (Panicked, set_fw_down d w)
  end.
Definition lock_down {A} (e : DiffError) (m : M A) : FM A := on_down e (safe_lock m).
Definition lock_channel_config (e : DiffError)
    (f : UpstreamDifficultyConfig → UpstreamDifficultyConfig) : FM unit := λ w,
  if poisoned (fw_upstream w) then (Failed e, w)
  else (Done tt, set_fw_upstream (store (fw_upstream w) (f (guarded (fw_upstream w)))) w).

Definition update_difficulty (f : DownstreamDifficultyConfig → DownstreamDifficultyConfig) :
    M unit := update_self (λ d, set_difficulty_mgmt (f (dn_difficulty_mgmt d)) d).

(** [Downstream::send_message_upstream]: it reports a failure and returns. *)
Definition send_target_upstream (channel_id : N) (target : bytes) : FM unit := λ w,
  let d := fw_down w in
  if poisoned (dw_self d) then (Done tt, set_fw_down (mark_downstream_down d).2 w)
  else if tx_open (dn_tx_sv1_bridge (guarded (dw_self d)))
  then (Done tt, set_fw_targets (fw_targets w ++ [(channel_id, target)]) w)
  else (Done tt, set_fw_down (mark_downstream_down d).2 w).

Class PidLib := {
  (** [next_control_output] of a controller that was only configured *)
  pid_output : Pid → f32 → f32
}.

Section retarget.
Context `{B : !BitcoinLib} `{SV : !Sv1Lib} `{L : !Log2} `{P : !PidLib}.

Definition reconcile_hash_rate_estimation (new_estimation : f32) : FM unit :=
  r ← lock_down DiffPoisonLock (
        d ← self (λ d, d);
        let old_estimation := dd_estimated_downstream_hash_rate (dn_difficulty_mgmt d) in
        let changed := hashrate_estimation_changed old_estimation new_estimation in
        _ ← (if changed then update_difficulty (set_estimated_downstream_hash_rate new_estimation)
             else mret tt);
        mret (old_estimation, dn_connection_id d, changed));
  let '(old_estimation, connection_id, changed) := (r : f32 * N * bool) in
  if negb changed then mret tt
  else
    _ ← on_down DiffPoisonLock (send_stats (UpdateHashrate connection_id new_estimation));
    lock_channel_config DiffPoisonLock
      (reconcile_channel_hashrate (f32_sub new_estimation old_estimation)).

Definition update_self_with_new_hash_rate (new_estimation current_diff : f32) : FM unit :=
  connection_id ← lock_down DiffPoisonLock (
    _ ← update_difficulty difficulty_reset;
    _ ← update_difficulty (add_difficulty current_diff);
    self dn_connection_id);
  _ ← on_down DiffPoisonLock (send_stats (UpdateDiff connection_id current_diff));
  reconcile_hash_rate_estimation new_estimation.

(** The difficulty the controller asks for. *)
Definition retargeted_difficulty (c : DownstreamDifficultyConfig) (latest_difficulty
    realized_share_per_min : f32) : f32 :=
  quantize_downstream_difficulty
    (f32_max (f32_add latest_difficulty (pid_output (dd_pid_controller c) realized_share_per_min))
       (f32_mul (dd_initial_difficulty c) (f32_ratio 1 10)))
    (dd_hard_minimum_difficulty c).

Definition update_difficulty_and_hashrate (env : DiffEnv) : FM (option f32) :=
  _ ← (λ w, if poisoned (dw_self (fw_down w)) then (Failed DiffPoisonLock, w)
            else (Done tt, set_fw_last_call (fe_timestamp_millis env) w));
  realized ← lock_down DiffPoisonLock (
    c ← self dn_difficulty_mgmt;
    let '(rate, submits) := share_count (dd_submits c) (fe_now env) in
    _ ← update_difficulty (set_submits submits);
    mret rate);
  match (realized : option f32) with
  | None => mret None
  | Some realized_share_per_min =>
      if is_sign_negative realized_share_per_min then fail DiffUnrecoverable
      else if is_nan realized_share_per_min then fail DiffUnrecoverable
      else
        cl ← lock_down DiffPoisonLock (self (λ d, (dn_difficulty_mgmt d, current_difficulty d)));
        let '(c, latest_difficulty) := (cl : DownstreamDifficultyConfig * f32) in
        let new_difficulty := retargeted_difficulty c latest_difficulty realized_share_per_min in
        let new_estimation :=
          estimate_hash_rate_from_difficulty new_difficulty (fe_share_per_min env) in
        if f32_eqb new_difficulty latest_difficulty then
          _ ← reconcile_hash_rate_estimation new_estimation;
          mret None
        else
          _ ← (if negb (f32_eqb new_difficulty (dd_initial_difficulty c))
               then lock_down DiffPoisonLock (update_difficulty (set_initial_difficulty
                      new_difficulty (difficulty_pid (fe_share_per_min env) new_difficulty)))
               else mret tt);
          _ ← update_self_with_new_hash_rate new_estimation new_difficulty;
          mret (Some new_difficulty)
  end.

Definition resend_last_job (new_diff : f32) : M (option Notify) := λ w,
  match clone_last (dn_recent_jobs (guarded (dw_self w))) (dw_draws w) new_diff with
  | None => (Panicked, w)
  | Some (notify, jobs, draws) =>
      (Done notify, (update_self (set_recent_jobs jobs) (set_dw_draws draws w)).2)
  end.

Definition update_diff_setting (env : DiffEnv) (channel_id : N) (new_diff : f64) : FM unit :=
  if fe_updates_disabled env then mret tt
  else
    match diff_to_sv1_message new_diff with
    | None => panic
    | Some (message, target) =>
        _ ← on_down DiffPoisonLock (send_message_downstream message);
        recent_notify ← lock_down TranslatorDiffConfigMutexPoisoned
          (resend_last_job (f32_of_f64 new_diff));
        _ ← match (recent_notify : option Notify) with
            | Some notify =>
                on_down DiffPoisonLock (send_message_downstream (notify_message notify))
            | None => mret tt
            end;
        send_target_upstream channel_id target
    end.

Definition try_update_difficulty_settings (env : DiffEnv) : FM unit :=
  if fe_updates_disabled env then mret tt
  else
    channel_id ← lock_down TranslatorDiffConfigMutexPoisoned (self dn_connection_id);
    new_diff ← update_difficulty_and_hashrate env;
    match (new_diff : option f32) with
    | Some new_diff => update_diff_setting env channel_id (f64_of_f32 new_diff)
    | None => mret tt
    end.

(** [save_share] *)
Definition save_share (env : DiffEnv) : FM unit :=
  if fe_updates_disabled env then mret tt
  else lock_down DiffPoisonLock (update_difficulty (on_new_valid_share (fe_now env))).

(** ** The start and the end of a miner's session *)

(** [init_difficulty_management] up to the tasks it starts; the message it repeats while
    the difficulty is not yet updated. *)
Definition init_difficulty_management (env : DiffEnv) : FM Message :=
  r ← lock_down DiffPoisonLock (self (λ d, (current_difficulty d, dn_connection_id d,
        dd_estimated_downstream_hash_rate (dn_difficulty_mgmt d))));
  let '(diff, connection_id, estimated_hashrate) := (r : f32 * N * f32) in
  match diff_to_sv1_message (f64_of_f32 diff) with
  | None => panic
  | Some (message, _) =>
      _ ← on_down DiffPoisonLock (send_message_downstream message);
      _ ← on_down DiffPoisonLock (send_stats (UpdateDiff connection_id diff));
      _ ← on_down DiffPoisonLock (send_stats (UpdateHashrate connection_id estimated_hashrate));
      mret message
  end.

(** The loop that resends the message during the delay: the sleeps between the sends, in
    seconds; each shortens the rest of the delay, which bounds their number. *)
Definition repeat_interval : N := 30.
Fixpoint resend_delays (fuel : nat) (elapsed total_delay : N) : list N :=
  match fuel with
  | 0 => []
  | S fuel =>
      if (elapsed <? total_delay)%N then
        let sleep_duration := N.min repeat_interval (total_delay - elapsed) in
        sleep_duration :: resend_delays fuel (elapsed + sleep_duration) total_delay
      else []
  end.

Definition remove_downstream_hashrate_from_channel : FM unit :=
  r ← lock_down DiffPoisonLock (
        estimated ← self (λ d, dd_estimated_downstream_hash_rate (dn_difficulty_mgmt d));
        should_subtract ← take_channel_hashrate_registered;
        mret (estimated, should_subtract));
  let '(estimated, should_subtract) := (r : f32 * bool) in
  if negb should_subtract then mret tt
  else lock_channel_config DiffPoisonLock (subtract_channel_hashrate estimated).

Definition request_upstream_rate_limit_retarget (env : DiffEnv) (multiplier : f32) :
    FM (f32 * f32) :=
  _ ← lock_down TranslatorDiffConfigMutexPoisoned (self dn_connection_id);
  previous ← gets (λ w, ud_channel_nominal_hashrate (guarded (fw_upstream w)));
  _ ← lock_channel_config TranslatorDiffConfigMutexPoisoned
        (multiply_channel_hashrate multiplier (fe_downstream_hashrate env));
  current ← gets (λ w, ud_channel_nominal_hashrate (guarded (fw_upstream w)));
  mret (previous, current).
End retarget.

(** ** Incoming messages ([receive_from_downstream.rs]) *)
Section incoming.
Context `{B : !BitcoinLib} `{SV : !Sv1Lib}.

(** [process_incoming_message]: an accepted submit counts for the difficulty. *)
Definition process_incoming_message
    (handle_message : Message → M (result (option Response) V1Error))
    (down_env : DownEnv) (env : DiffEnv) (incoming : Message) : FM unit :=
  let is_submit := bool_decide (submit_request_of incoming ≠ None) in
  _ ← (if is_submit then lock_down DiffPoisonLock reset_submit_diff_count_flag else mret tt);
  _ ← on_down DiffPoisonLock (handle_incoming_sv1 handle_message down_env incoming);
  if is_submit then
    should_count_submit ← lock_down DiffPoisonLock take_submit_diff_count_flag;
    if should_count_submit : bool then save_share env else mret tt
  else mret tt.
End incoming.

(** ** Registration and removal of a miner's hash rate

    [start_notify] registers the miner, the end of [start_receive_downstream] removes it,
    and the update task retargets it meanwhile.  The tasks run concurrently: each stage
    below is one locked section or one command of a task, in the order of the source. *)
Inductive NotifyStage :=
  | NtCheckOpen
  | NtReadHashrate
  | NtAddHashrate (registered_hashrate : f32)
  | NtMarkRegistered (registered_hashrate : f32)
  | NtSetupStats (registered_hashrate : f32)
  | NtCheckClosed (registered_hashrate : f32)
  | NtRemoveStats (registered_hashrate : f32)
  | NtTakeRegistered (registered_hashrate : f32)
  | NtSubtract (registered_hashrate : f32)
  | NtServing
  | NtEnded.

Inductive CloseStage :=
  | ClRunning | ClRemoveStats | ClTakeRegistered | ClSubtract (estimated : f32) | ClEnded.

(** A reconciliation between its two locks. *)
Inductive UpdateStage := UpIdle | UpReconcile (old_estimation new_estimation : f32).

(** The log of a session's changes of the channel's hash rate. *)
Inductive ChannelChange :=
  | Added (hash_rate : f32)
  | Reconciled (old_estimation new_estimation : f32)
  | Subtracted (hash_rate : f32).

Record Session := MkSession {
  ss_notify : NotifyStage;
  ss_close : CloseStage;
  ss_update : UpdateStage;
  ss_registered : bool;       (** [channel_hashrate_registered] *)
  ss_closed : bool;
  ss_estimate : f32;
  ss_channel : UpstreamDifficultyConfig;
  ss_stats : list StatsCommand;
  ss_log : list ChannelChange
}.

Section session.
Context (id : N).

(** The next stage of [start_notify]. *)
Definition notify_turn (s : Session) : Session :=
  let 'MkSession notify close update registered closed estimate channel stats log := s in
  let at_ notify := MkSession notify close update registered closed estimate channel stats log in
  match notify with
  | NtCheckOpen => at_ (if closed then NtEnded else NtReadHashrate)
  | NtReadHashrate => at_ (NtAddHashrate estimate)
  | NtAddHashrate h =>
      MkSession (NtMarkRegistered h) close update registered closed estimate
        (add_channel_hashrate h channel) stats (log ++ [Added h])
  | NtMarkRegistered h =>
      MkSession (NtSetupStats h) close update true closed estimate channel stats log
  | NtSetupStats h =>
      MkSession (NtCheckClosed h) close update registered closed estimate channel
        (stats ++ [SetupStats id]) log
  | NtCheckClosed h => at_ (if closed then NtRemoveStats h else NtServing)
  | NtRemoveStats h =>
      MkSession (NtTakeRegistered h) close update registered closed estimate channel
        (stats ++ [RemoveStats id]) log
  | NtTakeRegistered h =>
      MkSession (if registered then NtSubtract h else NtEnded) close update false closed
        estimate channel stats log
  | NtSubtract h =>
      MkSession NtEnded close update registered closed estimate
        (subtract_channel_hashrate h channel) stats (log ++ [Subtracted h])
  | NtServing | NtEnded => s
  end.

(** The next stage of the miner's end. *)
Definition close_turn (s : Session) : Session :=
  let 'MkSession notify close update registered closed estimate channel stats log := s in
  match close with
  | ClRunning =>
      MkSession notify ClRemoveStats update registered true estimate channel stats log
  | ClRemoveStats =>
      MkSession notify ClTakeRegistered update registered closed estimate channel
        (stats ++ [RemoveStats id]) log
  | ClTakeRegistered =>
      MkSession notify (if registered then ClSubtract estimate else ClEnded) update false closed
        estimate channel stats log
  | ClSubtract h =>
      MkSession notify ClEnded update registered closed estimate
        (subtract_channel_hashrate h channel) stats (log ++ [Subtracted h])
  | ClEnded => s
  end.

(** A reconciliation of the update task, which runs once the miner is served: the new
    estimate under the miner's lock, the difference under the channel's. *)
Definition update_turn (new_estimation : f32) (s : Session) : Session :=
  let 'MkSession notify close update registered closed estimate channel stats log := s in
  match update with
  | UpIdle =>
      MkSession notify close (UpReconcile estimate new_estimation) registered closed
        new_estimation channel stats log
  | UpReconcile old_estimation new_estimation =>
      MkSession notify close UpIdle registered closed estimate
        (reconcile_channel_hashrate (f32_sub new_estimation old_estimation) channel) stats
        (log ++ [Reconciled old_estimation new_estimation])
  end.

(** What happens in a session, in any order; the update task runs only once the miner is
    served. *)
Inductive SessionEvent := NotifyTurn | CloseTurn | UpdateTurn (new_estimation : f32).
Definition update_running (s : Session) : bool :=
  match ss_notify s with NtServing => true | _ => false end.
Definition session_event (e : SessionEvent) (s : Session) : Session :=
  match e with
  | NotifyTurn => notify_turn s
  | CloseTurn => close_turn s
  | UpdateTurn new_estimation => if update_running s then update_turn new_estimation s else s
  end.

Definition session_start (estimate : f32) (channel : UpstreamDifficultyConfig) : Session :=
  MkSession NtCheckOpen ClRunning UpIdle false false estimate channel [] [].
End session.
