(* ===== verification/DiffManagementProps.v ===== *)
(** * What difficulty management promises

    The difficulty a miner is told is the one its jobs and the bridge use; retargets never
    fail on the rate of shares; a floor that is a power of two is respected; a share counts
    for the difficulty exactly when it was accepted; and whatever the interleaving, a miner
    that leaves takes with it what it brought to the channel, except what a retarget adds that
    begins after the removal. *)

From S2P Require Import Prelude Str Bitcoin BitcoinModel F32 Sv1 RskCommitment MergeState MergeMining RecentJobs ShareLimits ShareLimitsProps Stats Effects Downstream DownstreamProps DiffManagement.

(** ** The rate of shares *)

Lemma share_minutes_normal ms :
  (20000 <= ms < 60000)%N →
  normal (f32_div (f32_of_N ms) (f32_mul (f32_of_N 60) (f32_of_N 1000))) (-30) (-10).
Proof.
  intros Hms. assert (14 <= N.log2 ms <= 15)%N as Hl.
  { split; [by apply N.log2_le_pow2; lia|]. apply N.lt_succ_r, N.log2_lt_pow2; lia. }
  assert (f32_mul (f32_of_N 60) (f32_of_N 1000) = S754_finite false 15360000 (-8)) as ->
    by (vm_compute; reflexivity).
  eapply normal_weaken; [| |eapply f32_div_normal; [apply f32_of_N_normal; lia|
    by exists 15360000%positive, (-8)%Z; repeat split|lia|lia]]; lia.
Qed.

Lemma share_count_nonneg submits now rate rest :
  share_count submits now = (Some rate, rest) → nonneg rate = true.
Proof.
  induction submits as [|oldest submits IH]; [by intros [= <- <-]|]. cbn [share_count].
  destruct (_ <? secs 20)%N eqn:H1; [done|]. destruct (_ <? secs 60)%N eqn:H2; [|done].
  pose proof (share_minutes_normal (elapsed_millis (duration_since now oldest))) as H.
  generalize dependent (f32_mul (f32_of_N 60) (f32_of_N 1000)). clear IH.
  intros scale H [= <- <-]. apply N.ltb_ge in H1. apply N.ltb_lt in H2.
  destruct (normal_usual _ _ _ (H ltac:(unfold elapsed_millis, secs in *; split;
    [apply N.div_le_lower_bound; lia|apply N.Div0.div_lt_upper_bound; lia]))) as (Hn & Hf & Hz).
  apply f32_div_nonneg; [apply f32_of_N_nonneg|done| |done]. rewrite Hf. apply orb_true_r.
Qed.

(** ** Retargets *)

#[local] Arguments hashrate_estimation_changed : simpl never.
#[local] Arguments share_count : simpl never.
#[local] Arguments f32_sub : simpl never.
#[local] Arguments f32_eqb : simpl never.
#[local] Arguments retargeted_difficulty : simpl never.
#[local] Arguments estimate_hash_rate_from_difficulty : simpl never.
#[local] Arguments reconcile_channel_hashrate : simpl never.

(** What a retarget reads of the world but does not change until it tells the miner. *)
Definition link (w : DiffWorld) :=
  let d := guarded (dw_self (fw_down w)) in
  (dn_connection_id d, dn_tx_outgoing d, dn_tx_sv1_bridge d, dn_recent_jobs d,
   dw_draws (fw_down w), (poisoned (dw_self (fw_down w)), poisoned (fw_upstream w)),
   fw_targets w).
Definition mgmt (w : DiffWorld) : DownstreamDifficultyConfig :=
  dn_difficulty_mgmt (guarded (dw_self (fw_down w))).

(** The miner's connection is served, and the bridge is there. *)
Definition linked (w : DiffWorld) : Prop :=
  serving (fw_down w) ∧ tx_open (dn_tx_sv1_bridge (guarded (dw_self (fw_down w)))) = true ∧
  poisoned (fw_upstream w) = false.

Lemma linked_link w w' : link w' = link w → linked w → linked w'.
Proof.
  intros [= H1 H2 H3 H4 H5 H6 H7 H8] [[Hp Ho] [Hb Hu]]. unfold linked, serving.
  by rewrite H2, H3, H6, H7.
Qed.
Lemma linked_open w : linked w → poisoned (dw_self (fw_down w)) = false.
Proof. by intros [[H _] _]. Qed.

Lemma lock_down_done {A} e (m : M A) w a d :
  linked w → m (fw_down w) = (Done a, d) → lock_down e m w = (Done a, set_fw_down d w).
Proof.
  intros Hw Hm. unfold lock_down, on_down, safe_lock.
  by rewrite with_lock_open, Hm by (by apply linked_open || by rewrite Hm).
Qed.
Ltac run :=
  unfold mbind, M_bind, mret, M_ret, self, gets, update_difficulty, update_self, modify; cbn.

Ltac step_locked :=
  step ltac:(eapply lock_down_done; [eassumption|reflexivity]).

Section retarget.
Context `{B : !BitcoinLib} `{SV : !Sv1Lib} `{L : !Log2} `{P : !PidLib}.

Lemma quantize_powi2 x h : ∃ k, quantize_downstream_difficulty x h = f32_powi2 k.
Proof.
  unfold quantize_downstream_difficulty, nearest_power_of_2. case_match; [|by eexists].
  exists (-10)%Z. vm_compute. reflexivity.
Qed.

Lemma reconcile_spec new w :
  linked w → ∃ w', reconcile_hash_rate_estimation new w = (Done tt, w') ∧ link w' = link w ∧
    current_difficulty (guarded (dw_self (fw_down w'))) =
    current_difficulty (guarded (dw_self (fw_down w))).
Proof.
  intros Hw. unfold reconcile_hash_rate_estimation.
  set (old := dd_estimated_downstream_hash_rate (mgmt w)).
  destruct (hashrate_estimation_changed old new) eqn:Hc.
  - step ltac:(eapply lock_down_done; [done|
      run; fold (mgmt w); fold old; rewrite Hc; reflexivity]).
    cbn beta iota delta [negb].
    step ltac:(reflexivity). unfold lock_channel_config. cbn.
    rewrite (proj2 (proj2 Hw)). eexists. split; [reflexivity|done].
  - step ltac:(eapply lock_down_done; [done|
      run; fold (mgmt w); fold old; rewrite Hc; reflexivity]).
    eexists. split; [reflexivity|done].
Qed.

(** The controller's side of a retarget: a power of two that is now the current
    difficulty, or nothing; it does not fail. *)
Lemma update_difficulty_spec env w :
  linked w → ∃ r w', update_difficulty_and_hashrate env w = (Done r, w') ∧ link w' = link w ∧
    let d' := guarded (dw_self (fw_down w')) in
    match r with
    | None => current_difficulty d' = current_difficulty (guarded (dw_self (fw_down w)))
    | Some new_diff => current_difficulty d' = new_diff ∧ ∃ k, new_diff = f32_powi2 k
    end.
Proof.
  intros Hw. unfold update_difficulty_and_hashrate.
  step ltac:(by rewrite (linked_open w Hw)).
  set (w1 := set_fw_last_call _ w). assert (linked w1) as Hw1 by exact Hw.
  destruct (share_count (dd_submits (mgmt w)) (fe_now env)) as [rate rest] eqn:Hrate.
  step ltac:(eapply lock_down_done; [exact Hw1|
    run; fold (mgmt w); rewrite Hrate; reflexivity]).
  set (w2 := set_fw_down _ w1). assert (linked w2) as Hw2 by exact Hw.
  destruct rate as [rate|]; [|by exists None, w2].
  pose proof (share_count_nonneg _ _ _ _ Hrate) as Hn.
  unfold nonneg in Hn. apply andb_true_iff in Hn as [Hs Hnan].
  apply negb_true_iff in Hs as ->. apply negb_true_iff in Hnan as ->.
  step ltac:(eapply lock_down_done; [exact Hw2|reflexivity]). 
  set (w3 := set_fw_down _ w2). assert (linked w3) as Hw3 by exact Hw.
  cbn beta iota zeta.
  destruct (f32_eqb _ _).
  - match goal with |- context [reconcile_hash_rate_estimation ?e] =>
      destruct (reconcile_spec e w3 Hw3) as (w4 & H4 & Hl4 & Hd4) end.
    step ltac:(exact H4). exists None, w4. by rewrite Hl4, Hd4.
  - set (diff := retargeted_difficulty _ _ _). set (c := dn_difficulty_mgmt _).
    assert (∃ w4, (if negb (f32_eqb diff (dd_initial_difficulty c))
      then lock_down DiffPoisonLock (update_difficulty (set_initial_difficulty
             diff (difficulty_pid (fe_share_per_min env) diff)))
      else mret tt) w3 = (Done tt, w4) ∧ link w4 = link w) as (w4 & H4 & Hl4).
    { destruct (negb _).
      - eexists. split; [eapply lock_down_done; [exact Hw3|reflexivity]|done].
      - by exists w3. }
    step ltac:(exact H4). assert (linked w4) as Hw4 by exact (linked_link _ _ Hl4 Hw).
    unfold update_self_with_new_hash_rate.
    set (estimate := estimate_hash_rate_from_difficulty _ _).
    assert (∃ w6, update_self_with_new_hash_rate estimate diff w4 = (Done tt, w6) ∧
      link w6 = link w ∧ current_difficulty (guarded (dw_self (fw_down w6))) = diff)
      as (w6 & H6 & Hl6 & Hd6).
    { unfold update_self_with_new_hash_rate.
      step ltac:(eapply lock_down_done; [exact Hw4|run; reflexivity]).
      step ltac:(reflexivity). set (w5 := set_fw_down _ _).
      assert (link w5 = link w) as Hl5 by exact Hl4.
      destruct (reconcile_spec estimate w5 (linked_link _ _ Hl5 Hw)) as (w6 & H6 & Hl6 & Hd6).
      exists w6. split; [done|]. split; [by rewrite Hl6|]. rewrite Hd6.
      unfold current_difficulty. cbn -[push_bounded]. by rewrite last_push_bounded. }
    step ltac:(exact H6). exists (Some diff), w6. split; [done|]. split; [done|]. split; [done|].
    apply quantize_powi2.
Qed.

Lemma powi2_has_target k : is_Some (difficulty_to_target (f32_powi2 k)).
Proof.
  pose proof (f32_powi2_all (λ x, bool_decide (is_Some (difficulty_to_target x))) k) as H.
  apply bool_decide_eq_true in H; [done|]. vm_compute. reflexivity.
Qed.

(** The job the miner is resent: the last one, under a fresh identifier and at the new
    difficulty. *)
Definition resent (d d' : Downstream) (told : list Message) : Prop :=
  match last (rj_jobs (dn_recent_jobs d)) with
  | None => told = []
  | Some raw => ∃ v1,
      told = [notify_message (with_job_id (display_N v1) (rj_notify raw))] ∧
      get_matching_job (dn_recent_jobs d') v1 =
        Some (MkIssuedJob (rj_notify raw) (current_difficulty d') (rj_merge_mining_binding_id raw))
  end.

Lemma clone_last_shape r v2s draws difficulty :
  recent_wf r v2s →
  match clone_last r draws difficulty with
  | None => draw_v1 r draws = None
  | Some (None, r', _) => last (rj_jobs r) = None
  | Some (Some sent, r', _) => ∃ raw v1, last (rj_jobs r) = Some raw ∧
      sent = with_job_id (display_N v1) (rj_notify raw) ∧
      get_matching_job r' v1 =
        Some (MkIssuedJob (rj_notify raw) difficulty (rj_merge_mining_binding_id raw))
  end.
Proof.
  intros Hw. destruct (clone_last r draws difficulty) as [[[[sent|] r'] rest]|] eqn:H.
  - destruct (clone_last_spec _ _ _ _ _ _ _ Hw H) as (v1 & v2 & raw & ? & _ & _ & ? & _ & ?).
    by exists raw, v1.
  - unfold clone_last in H. by repeat case_match.
  - unfold clone_last in H. destruct (last (rj_jobs r)) as [raw|] eqn:Hr; [|done].
    destruct (rw_raw _ _ Hw raw) as [v2 Hv2].
    { apply last_Some in Hr as [l ->]. apply elem_of_app. right. by left. }
    rewrite Hv2 in H. by destruct (draw_v1 r draws) as [[]|].
Qed.

Lemma resend_spec (sent : option Notify) w :
  linked w → ∃ w',
    match sent with
    | Some notify => on_down DiffPoisonLock (send_message_downstream (notify_message notify))
    | None => mret tt
    end w = (Done tt, w') ∧ linked w' ∧
    let d := guarded (dw_self (fw_down w)) in
    let d' := guarded (dw_self (fw_down w')) in
    tx_sent (dn_tx_outgoing d') = tx_sent (dn_tx_outgoing d) ++ (notify_message <$> option_list sent) ∧
    current_difficulty d' = current_difficulty d ∧ dn_recent_jobs d' = dn_recent_jobs d ∧
    fw_targets w' = fw_targets w.
Proof.
  intros Hw. destruct sent as [notify|].
  - unfold on_down. rewrite send_message_serving by exact (proj1 Hw). by eexists.
  - exists w. cbn. by rewrite app_nil_r.
Qed.

(** C12: A retarget tells everyone the same: after one the miner was sent exactly the
    message with its current difficulty, followed by its last job again, under an
    identifier whose shares are judged at that difficulty, and the bridge was sent the
    target of that difficulty; otherwise nothing was sent.  It never fails, whatever the
    rate of shares and the controller's output, nor panics, unless no fresh identifier can
    be drawn. *)
Theorem retarget_consistent env w v2s :
  linked w → recent_wf (dn_recent_jobs (guarded (dw_self (fw_down w)))) v2s →
  let d := guarded (dw_self (fw_down w)) in
  match try_update_difficulty_settings env w with
  | (Done _, w') =>
      let d' := guarded (dw_self (fw_down w')) in
      (current_difficulty d' = current_difficulty d ∧ dn_tx_outgoing d' = dn_tx_outgoing d ∧
        fw_targets w' = fw_targets w) ∨
      ∃ target told, difficulty_to_target (current_difficulty d') = Some target ∧
        fw_targets w' = fw_targets w ++ [(dn_connection_id d, target)] ∧
        tx_sent (dn_tx_outgoing d') = tx_sent (dn_tx_outgoing d) ++
          set_difficulty_message (f64_of_f32 (current_difficulty d')) :: told ∧
        resent d d' told
  | (Failed _, _) => False
  | (Panicked, _) => draw_v1 (dn_recent_jobs d) (dw_draws (fw_down w)) = None
  end.
Proof.
  intros Hw Hrecent d. unfold try_update_difficulty_settings.
  destruct (fe_updates_disabled env) eqn:Hdis; [by left|].
  step_locked.
  set (w0 := set_fw_down _ _). assert (linked w0) as Hw0 by exact Hw.
  destruct (update_difficulty_spec env w0 Hw0) as (r & w1 & H1 & Hl1 & Hd1).
  step ltac:(exact H1). pose proof (linked_link _ _ Hl1 Hw0) as Hw1. cbv zeta in Hd1.
  injection Hl1 as Hid Hout Hbridge Hjobs Hdraws _ _ Htargets.
  fold d in Hjobs, Hout, Hid, Hd1, Hrecent.
  destruct r as [new_diff|]; [|left; by rewrite Hd1, Hout, Htargets].
  destruct Hd1 as [Hcur [k ->]]. unfold update_diff_setting. rewrite Hdis.
  unfold diff_to_sv1_message. rewrite f32_powi2_via_f64.
  destruct (powi2_has_target k) as [target Ht]. rewrite Ht.
  set (d1 := guarded (dw_self (fw_down w1))) in *.
  step ltac:(unfold on_down; rewrite send_message_serving by exact (proj1 Hw1); reflexivity).
  set (w2 := set_fw_down (after_send _ _) w1). assert (linked w2) as Hw2 by exact Hw1.
  pose proof (clone_last_shape _ _ (dw_draws (fw_down w)) (f32_powi2 k) Hrecent) as Hclone.
  rewrite <- Hjobs, <- Hdraws in Hclone.
  destruct (clone_last (dn_recent_jobs d1) (dw_draws (fw_down w1)) (f32_powi2 k))
    as [[[sent jobs] draws]|] eqn:Hc.
  2: { unfold mbind, M_bind, lock_down, on_down, safe_lock, with_lock, resend_last_job.
    rewrite (linked_open w2 Hw2).
    change (dn_recent_jobs (guarded (dw_self (fw_down w2)))) with (dn_recent_jobs d1).
    change (dw_draws (fw_down w2)) with (dw_draws (fw_down w1)). rewrite Hc.
    by rewrite <- Hjobs, <- Hdraws. }
  step ltac:(eapply lock_down_done; [exact Hw2|unfold resend_last_job;
    change (dn_recent_jobs (guarded (dw_self (fw_down w2)))) with (dn_recent_jobs d1);
    change (dw_draws (fw_down w2)) with (dw_draws (fw_down w1)); rewrite Hc; reflexivity]).
  set (w3 := set_fw_down _ w2). assert (linked w3) as Hw3 by exact Hw2.
  destruct (resend_spec sent w3 Hw3) as (w4 & H4 & Hw4 & Hd4 & Hcur4 & Hjobs4 & Ht4).
  step ltac:(exact H4). unfold send_target_upstream.
  rewrite (linked_open w4 Hw4), (proj1 (proj2 Hw4)).
  right. exists target, (notify_message <$> option_list sent). cbn -[current_difficulty].
  assert (current_difficulty (guarded (dw_self (fw_down w4))) = f32_powi2 k) as ->
    by (rewrite Hcur4; exact Hcur).
  rewrite Ht4, Hd4. split; [done|]. split; [by rewrite <- Htargets|].
  split; [rewrite <- Hout; cbn; by rewrite <- app_assoc|].
  unfold resent. destruct sent as [sent|]; [|by rewrite <- Hjobs, Hclone].
  destruct Hclone as (raw & v1 & Hlast & -> & Hget). rewrite <- Hjobs, Hlast. exists v1.
  split; [done|]. rewrite Hjobs4, Hcur4. rewrite <- Hcur in Hget. exact Hget.
Qed.
End retarget.

(** ** Floors *)

(** An instance of [Log2]: the logarithm rounded to an integer, from the exponent and the
    leading digits. *)
Definition model_log2 (x : f32) : f32 :=
  match x with
  | S754_finite false m e =>
      if (e <? -149)%Z then f32_of_Z (-150)
      else if (104 <? e)%Z then S754_infinity false
      else f32_of_Z (e + 23 + (if ((e =? -149) && (Zpos m <? 8388608))%Z then -1
                               else if (Zpos m <? 11863283)%Z then 0 else 1))
  | S754_infinity false => x
  | _ => S754_nan
  end.

Lemma model_log2_round m e :
  (-149 <= e <= 104)%Z → f32_round_as_i32 (model_log2 (S754_finite false m e)) =
    (e + 23 + (if ((e =? -149) && (Zpos m <? 8388608))%Z then -1 else if (Zpos m <? 11863283)%Z then 0 else 1))%Z.
Proof.
  intros He. unfold model_log2. rewrite (proj2 (Z.ltb_ge _ _)), (proj2 (Z.ltb_ge _ _)) by lia.
  assert (∀ z, (-200 <= z <= 200)%Z → f32_round_as_i32 (f32_of_Z z) = z) as Hz.
  { intros z Hz. assert (forallb (λ z, (f32_round_as_i32 (f32_of_Z z) =? z)%Z) (seqZ (-200) 401)
      = true) as H by (vm_compute; reflexivity).
    rewrite forallb_forall in H. apply Z.eqb_eq, H, list_elem_of_In, elem_of_seqZ. lia. }
  apply Hz. destruct (e =? -149)%Z, (Zpos m <? 8388608)%Z, (Zpos m <? 11863283)%Z; simpl; lia.
Qed.

Lemma f32_leb_positive m e m' e' :
  f32_leb (S754_finite false m e) (S754_finite false m' e') = true →
  (e < e' ∨ e = e' ∧ Zpos m <= Zpos m')%Z.
Proof.
  unfold f32_leb, SFleb, SFcompare. destruct (Z.compare_spec e e') as [->|H|H]; [|by left|done].
  intros H. right. split; [done|]. change (Pcompare m m' Eq) with (Pos.compare m m') in H.
  destruct (Pos.compare_spec m m'); [subst; lia|lia|done].
Qed.

Lemma model_log2_value m e :
  f32_round_as_i32 (model_log2 (S754_finite false m e)) =
    (if (e <? -149)%Z then -150 else if (104 <? e)%Z then 2147483647 else e + 23 +
      (if ((e =? -149) && (Zpos m <? 8388608))%Z then -1 else if (Zpos m <? 11863283)%Z then 0 else 1))%Z.
Proof.
  destruct (Z.ltb_spec e (-149)) as [H|H]; [by unfold model_log2; rewrite (proj2 (Z.ltb_lt _ _))|].
  destruct (Z.ltb_spec 104 e) as [H'|H']; [|by apply model_log2_round].
  unfold model_log2. by rewrite (proj2 (Z.ltb_ge _ _)), (proj2 (Z.ltb_lt _ _)).
Qed.

#[export] Program Instance Log2_model : Log2 := {| f32_log2 := model_log2 |}.
Next Obligation.
  intros k x Hk Hlo Hhi.
  assert (f32_pow2 k = S754_finite false 8388608 (k - 23) ∧
    f32_mul (f32_ratio 5 4) (f32_pow2 k) = S754_finite false 10485760 (k - 23)) as [H1 H2].
  { assert (forallb (λ k, bool_decide (f32_pow2 k = S754_finite false 8388608 (k - 23) ∧
      f32_mul (f32_ratio 5 4) (f32_pow2 k) = S754_finite false 10485760 (k - 23)))
      (seqZ (-126) 254) = true) as H by (vm_compute; reflexivity).
    rewrite forallb_forall in H. eapply bool_decide_eq_true, H, list_elem_of_In, elem_of_seqZ. lia. }
  rewrite H2 in Hhi. rewrite H1 in Hlo. clear H1 H2.
  destruct x as [[]|[]| |[] m e]; try done.
  apply f32_leb_positive in Hlo, Hhi.
  assert (e = k - 23 ∧ 8388608 <= Zpos m <= 10485760)%Z as [-> Hm] by lia.
  rewrite model_log2_round by lia.
  rewrite (proj2 (Z.ltb_ge (Zpos m) 8388608)), (proj2 (Z.ltb_lt (Zpos m) 11863283)) by lia.
  rewrite andb_false_r. lia.
Qed.
Next Obligation.
  intros x y Hx Hxy. destruct x as [[]|[]| |[] m e]; try done;
    destruct y as [[]|[]| |[] m' e']; try done.
  - cbn [model_log2]. assert (∀ a, (f32_round_as_i32 a <= 2147483647)%Z) as Ha; [|apply Ha].
    intros [| [] | |]; simpl; lia.
  - apply f32_leb_positive in Hxy. rewrite !model_log2_value.
    destruct (Z.ltb_spec e (-149)), (Z.ltb_spec 104 e), (Z.ltb_spec e' (-149)),
      (Z.eqb_spec e (-149)), (Z.eqb_spec e' (-149)),
      (Z.ltb_spec 104 e'), (Z.ltb_spec (Zpos m) 8388608), (Z.ltb_spec (Zpos m) 11863283),
      (Z.ltb_spec (Zpos m') 8388608), (Z.ltb_spec (Zpos m') 11863283); simpl; lia.
Qed.

Section floors.
Context `{L : !Log2}.

Lemma f32_pow2_normal k :
  (-126 <= k <= 127)%Z →
  f32_pow2 k = S754_finite false 8388608 (k - 23) ∧ f32_powi2 k = f32_pow2 k.
Proof.
  intros Hk. assert (forallb (λ k, bool_decide (f32_pow2 k = S754_finite false 8388608 (k - 23)
    ∧ f32_powi2 k = f32_pow2 k)) (seqZ (-126) 254) = true) as H by (vm_compute; reflexivity).
  rewrite forallb_forall in H. eapply bool_decide_eq_true, H, list_elem_of_In, elem_of_seqZ. lia.
Qed.

(** A power of two lies between itself and five quarters of itself. *)
Lemma log2_pow2 k : (-126 <= k <= 127)%Z → f32_round_as_i32 (f32_log2 (f32_pow2 k)) = k.
Proof.
  intros Hk. apply log2_near; [done| |];
    (assert (forallb (λ k, f32_leb (f32_pow2 k) (f32_pow2 k) &&
       f32_leb (f32_pow2 k) (f32_mul (f32_ratio 5 4) (f32_pow2 k))) (seqZ (-126) 254) = true) as H
     by (vm_compute; reflexivity));
    rewrite forallb_forall in H; specialize (H k);
    rewrite <- list_elem_of_In, elem_of_seqZ, andb_true_iff in H; apply H; lia.
Qed.

Lemma f32_powi2_mono j k :
  (-126 <= k <= 127)%Z → (k <= j)%Z → f32_leb (f32_powi2 k) (f32_powi2 j) = true.
Proof.
  intros Hk Hj. destruct (decide (j <= 127)%Z).
  - destruct (f32_pow2_normal k Hk) as [H1 ->], (f32_pow2_normal j ltac:(lia)) as [H2 ->].
    rewrite H1, H2. unfold f32_leb, SFleb, SFcompare.
    destruct (Z.compare_spec (k - 23) (j - 23)); [done|done|lia].
  - rewrite (proj2 (f32_pow2_normal k Hk)), (proj1 (f32_pow2_normal k Hk)).
    unfold f32_powi2. rewrite (proj2 (Z.ltb_ge j 0)) by lia. by rewrite f32_pow2_infinite by lia.
Qed.

Lemma f32_leb_not_ltb x m e :
  is_nan x = false → SFltb x (S754_finite false m e) = false →
  f32_leb (S754_finite false m e) x = true.
Proof.
  intros Hn. unfold SFltb, f32_leb, SFleb, SFcompare.
  destruct x as [[]|[]| |[] m' e']; try done.
  rewrite (Z.compare_antisym e' e). destruct (e' ?= e)%Z; simpl; try done.
  change (Pos.compare_cont Eq m' m) with (m' ?= m)%positive.
  change (Pos.compare_cont Eq m m') with (m ?= m')%positive.
  rewrite (Pos.compare_antisym m' m). by destruct (m' ?= m)%positive.
Qed.
Lemma clamp_above x k :
  (-126 <= k <= 127)%Z →
  f32_leb (f32_pow2 k) (clamp_downstream_difficulty_to_floor x (Some (f32_pow2 k))) = true.
Proof.
  intros Hk. rewrite (proj1 (f32_pow2_normal k Hk)).
  unfold clamp_downstream_difficulty_to_floor, f32_max. cbn [is_nan].
  assert (∀ m e, f32_leb (S754_finite false m e) (S754_finite false m e) = true) as Hrefl.
  { intros m e. unfold f32_leb, SFleb, SFcompare. rewrite Z.compare_refl.
    change (Pos.compare_cont Eq m m) with (m ?= m)%positive. by rewrite Pos.compare_refl. }
  destruct (is_nan x) eqn:Hx; [done|]. destruct (SFltb x _) eqn:Hl; [done|].
  by apply f32_leb_not_ltb.
Qed.

(** A hard minimum difficulty that is a power of two holds: no quantized difficulty is
    below it, whatever is quantized, not-a-number and infinities included. *)
Theorem hard_floor_respected x k :
  (-126 <= k <= 127)%Z →
  f32_leb (f32_pow2 k) (quantize_downstream_difficulty x (Some (f32_pow2 k))) = true.
Proof.
  intros Hk. unfold quantize_downstream_difficulty, nearest_power_of_2.
  pose proof (clamp_above x k Hk) as Hc. set (c := clamp_downstream_difficulty_to_floor _ _) in *.
  assert (f32_ltb (f32_of_N 0) (f32_pow2 k) = true ∧ f32_leb c (f32_of_N 0) = false) as [Hpos H0].
  { rewrite (proj1 (f32_pow2_normal k Hk)) in Hc |- *. split; [done|].
    by destruct c as [[]|[]| |[] ? ?]. }
  rewrite H0. rewrite <- (proj2 (f32_pow2_normal k Hk)) at 1. apply f32_powi2_mono; [done|].
  rewrite <- (log2_pow2 k Hk) at 1. by apply log2_mono.
Qed.

(** Another floor may be undercut, by up to a fifth at least: the clamped difficulty is
    quantized after the clamping. *)
Theorem hard_floor_undercut :
  let floor := f32_of_N 163840 in
  let difficulty := quantize_downstream_difficulty (f32_of_N 0) (Some floor) in
  difficulty = f32_of_N 131072 ∧ f32_ltb difficulty floor = true.
Proof.
  intros floor difficulty. assert (difficulty = f32_of_N 131072) as ->; [|done].
  unfold difficulty, quantize_downstream_difficulty, nearest_power_of_2.
  change (clamp_downstream_difficulty_to_floor _ _) with floor.
  change (f32_leb floor (f32_of_N 0)) with false. cbn iota.
  rewrite (log2_near 17); [done|lia|done|done].
Qed.
End floors.

Lemma hard_floor_respected_witness :
  f32_leb (f32_pow2 17) (quantize_downstream_difficulty (f32_of_N 3) (Some (f32_pow2 17))) = true.
Proof. apply (hard_floor_respected (f32_of_N 3) 17). lia. Defined.

(** ** A retarget *)
Definition constant_pid : PidLib := {| pid_output := λ _ _, f32_of_N 4 |}.
Definition retarget_env : DiffEnv :=
  MkDiffEnv false (f32_of_N 10) (f32_of_N 100) (secs 100) 1000.
Definition one_job : RecentOp := AddJob [11%N] (example_notify 7) None (f32_of_N 1) None.
Definition retarget_world : DiffWorld :=
  MkDiffWorld
    (set_dw_self (new_mutex (set_recent_jobs (fold_left run_recent [one_job] recent_jobs_new)
       example_downstream)) example_world)
    0 (new_mutex (upstream_difficulty_config_new 60 (f32_of_N 100))) [].

Lemma retarget_consistent_witness :
  ∃ target told w',
    try_update_difficulty_settings (P := constant_pid) retarget_env retarget_world
      = (Done tt, w') ∧
    fw_targets w' = [(9%N, target)] ∧
    tx_sent (dn_tx_outgoing (guarded (dw_self (fw_down w')))) =
      set_difficulty_message (f64_of_f32 (f32_of_N 4)) :: told ∧
    resent (guarded (dw_self (fw_down retarget_world))) (guarded (dw_self (fw_down w'))) told.
Proof.
  destruct (run_recents_wf [one_job] _ _ recent_wf_new) as [v2s Hv2s].
  assert (linked retarget_world) as Hl by (repeat split).
  pose proof (retarget_consistent (P := constant_pid) retarget_env retarget_world v2s Hl Hv2s) as H.
  destruct (try_update_difficulty_settings (P := constant_pid) retarget_env retarget_world)
    as [[[]|e|] w'] eqn:E; [|destruct H|vm_compute in E; discriminate].
  assert (current_difficulty (guarded (dw_self (fw_down w'))) = f32_of_N 4) as Hd
    by (vm_compute in E; injection E as <-; vm_compute; reflexivity).
  destruct H as [(H & _)|(target & told & _ & H2 & H3 & H4)].
  - rewrite Hd in H. vm_compute in H. discriminate.
  - exists target, told, w'. rewrite Hd in H3. exact (conj eq_refl (conj H2 (conj H3 H4))).
Defined.

(** ** Shares counted for the difficulty *)
Section counted.
Context `{B : !BitcoinLib} `{SV : !Sv1Lib}.

Lemma lock_down_serving {A} e (m : M A) w a d :
  poisoned (dw_self (fw_down w)) = false → m (fw_down w) = (Done a, d) →
  lock_down e m w = (Done a, set_fw_down d w).
Proof.
  intros Hw Hm. unfold lock_down, on_down, safe_lock.
  by rewrite with_lock_open, Hm by (done || by rewrite Hm).
Qed.

(** The controller sees exactly the accepted shares: a submit that is answered true
    enters the window its rate is taken from, at the time of the answer; one that is
    answered false leaves the window alone, whatever came before. *)
Theorem accepted_shares_counted hm down_env env request w :
  rq_method request = MINING_SUBMIT → serving (fw_down w) → fe_updates_disabled env = false →
  let d := guarded (dw_self (fw_down w)) in
  match process_incoming_message hm down_env env (StandardRequestMsg request) w with
  | (Done _, w') => ∃ id ok,
      tx_sent (dn_tx_outgoing (guarded (dw_self (fw_down w')))) =
        tx_sent (dn_tx_outgoing d) ++ [response_message (MkResponse id false (JBool ok))] ∧
      dd_submits (mgmt w') = dd_submits (mgmt w) ++ (if ok then [fe_now env] else [])
  | (Failed _, _) => False
  | (Panicked, _) => submit_verdict d request = Crash
  end.
Proof.
  intros Hm Hw Hdis d. unfold process_incoming_message.
  assert (submit_request_of (StandardRequestMsg request) = Some request) as ->
    by (unfold submit_request_of; by rewrite bool_decide_true).
  rewrite bool_decide_true by done.
  step ltac:(eapply lock_down_serving; [exact (proj1 Hw)|reflexivity]).
  set (w0 := set_fw_down _ w). assert (serving (fw_down w0)) as Hw0 by exact Hw.
  pose proof (handle_incoming_realises hm down_env request (fw_down w0) Hm Hw0) as H.
  change (submit_verdict (guarded (dw_self (fw_down w0))) request)
    with (submit_verdict d request) in H.
  assert (∀ id ok forwarded,
    answers id ok forwarded (fw_down w0)
      (handle_incoming_sv1 hm down_env (StandardRequestMsg request) (fw_down w0)) →
    ∃ w1 w', on_down DiffPoisonLock (handle_incoming_sv1 hm down_env
        (StandardRequestMsg request)) w0 = (Done tt, w1) ∧
      (should_count_submit ← lock_down DiffPoisonLock take_submit_diff_count_flag;
       if should_count_submit : bool then save_share env else mret tt) w1 = (Done tt, w') ∧
      tx_sent (dn_tx_outgoing (guarded (dw_self (fw_down w')))) =
        tx_sent (dn_tx_outgoing d) ++ [response_message (MkResponse id false (JBool ok))] ∧
      dd_submits (mgmt w') = dd_submits (mgmt w) ++ (if ok then [fe_now env] else []))
    as Hanswer.
  { intros id ok forwarded (d1 & E & Hs & _ & _ & Hp & Hf & Hmg).
    exists (set_fw_down d1 w0). unfold on_down. rewrite E.
    rewrite orb_false_r in Hf.
    step ltac:(eapply lock_down_serving; [exact Hp|unfold take_submit_diff_count_flag; run;
      rewrite Hf; reflexivity]).
    set (w2 := set_fw_down _ (set_fw_down d1 w0)). destruct ok.
    - unfold save_share. rewrite Hdis. eexists. split; [done|]. split.
      { eapply lock_down_serving; [exact Hp|run; reflexivity]. }
      split; [exact Hs|]. unfold mgmt. cbn. by rewrite Hmg.
    - exists w2. split; [done|]. split; [done|]. split; [exact Hs|].
      unfold mgmt. cbn. by rewrite Hmg, app_nil_r. }
  destruct (submit_verdict d request) as [id fw|id|]; simpl in H.
  1,2: destruct (Hanswer _ _ _ H) as (w1 & w' & E1 & E2 & H1 & H2); step ltac:(exact E1);
    rewrite E2; eexists _, _; split; [exact H1|exact H2].
  destruct H as [d1 H]. assert (handle_incoming_sv1 hm down_env (StandardRequestMsg request)
    (fw_down w0) = (Panicked, d1)) as E by exact (proj1 H).
  unfold mbind at 1, M_bind at 1, on_down at 1. by rewrite E.
Qed.
End counted.

Lemma accepted_shares_counted_witness :
  let w := set_fw_down example_world retarget_world in
  ∃ id ok w',
    process_incoming_message no_message example_down_env retarget_env
      (StandardRequestMsg example_request) w = (Done tt, w') ∧
    tx_sent (dn_tx_outgoing (guarded (dw_self (fw_down w')))) =
      [response_message (MkResponse id false (JBool ok))] ∧
    dd_submits (mgmt w') = if ok then [fe_now retarget_env] else [].
Proof.
  intros w. pose proof (accepted_shares_counted no_message example_down_env retarget_env
    example_request w eq_refl (conj eq_refl eq_refl) eq_refl) as H.
  destruct (process_incoming_message no_message example_down_env retarget_env
    (StandardRequestMsg example_request) w) as [[[]|e|] w'] eqn:E.
  - destruct H as (id & ok & H1 & H2). exists id, ok, w'. exact (conj eq_refl (conj H1 H2)).
  - destruct H.
  - vm_compute in E. discriminate.
Defined.

(** ** The resent message *)

(** The first difficulty is resent for exactly the configured delay: the sleeps between
    the sends add up to it, none is longer than 30 seconds or empty, and there are as many
    as the delay has (begun) half minutes. *)
Theorem resend_delays_exact total_delay fuel :
  (total_delay <= 30 * N.of_nat fuel)%N →
  let sleeps := resend_delays fuel 0 total_delay in
  foldr N.add 0%N sleeps = total_delay ∧ Forall (λ s, 0 < s <= 30)%N sleeps ∧
  N.of_nat (length sleeps) = ((total_delay + 29) / 30)%N.
Proof.
  assert (∀ fuel elapsed, (elapsed <= total_delay)%N →
    (total_delay - elapsed <= 30 * N.of_nat fuel)%N →
    let sleeps := resend_delays fuel elapsed total_delay in
    foldr N.add 0%N sleeps = (total_delay - elapsed)%N ∧ Forall (λ s, 0 < s <= 30)%N sleeps ∧
    N.of_nat (length sleeps) = ((total_delay - elapsed + 29) / 30)%N) as H.
  { clear fuel. induction fuel as [|fuel IH]; intros elapsed He Hf; cbn [resend_delays].
    { replace (total_delay - elapsed)%N with 0%N by lia. done. }
    destruct (N.ltb_spec elapsed total_delay); cbn -[N.div].
    2: { by replace (total_delay - elapsed)%N with 0%N by lia. }
    unfold repeat_interval. set (sleep := N.min 30 (total_delay - elapsed)).
    destruct (IH (elapsed + sleep)%N) as (H1 & H2 & H3); [lia..|].
    rewrite H1. split; [lia|]. split; [constructor; [lia|done]|].
    rewrite Nat2N.inj_succ, H3. destruct (N.le_gt_cases 30 (total_delay - elapsed)).
    - replace (total_delay - elapsed + 29)%N with
        (1 * 30 + (total_delay - (elapsed + sleep) + 29))%N by lia.
      rewrite N.div_add_l by done. lia.
    - replace (total_delay - (elapsed + sleep) + 29)%N with 29%N by lia.
      change (29 / 30)%N with 0%N. apply N.div_unique with (total_delay - elapsed - 1)%N; lia. }
  intros Hf. destruct (H fuel 0%N ltac:(lia) ltac:(lia)) as (H1 & H2 & H3).
  rewrite N.sub_0_r in *. done.
Qed.
Lemma resend_delays_exact_witness :
  foldr N.add 0%N (resend_delays 4 0 100) = 100%N ∧ length (resend_delays 4 0 100) = 4.
Proof.
  destruct (resend_delays_exact 100 4 ltac:(lia)) as (H & _). split; [exact H|reflexivity].
Defined.

(** ** Sessions *)

(** What the changes of the log give to the channel and take from it. *)
Definition credits (log : list ChannelChange) : list f32 :=
  log ≫= λ c, match c with Added h => [h] | Reconciled _ new => [new] | Subtracted _ => [] end.
Definition debits (log : list ChannelChange) : list f32 :=
  log ≫= λ c, match c with Added _ => [] | Reconciled old _ => [old] | Subtracted h => [h] end.

Definition occurrences (x : f32) (l : list f32) : nat :=
  sum_list_with (λ y, if decide (y = x) then 1 else 0) l.
Definition balanced (log : list ChannelChange) : Prop :=
  ∀ x, occurrences x (credits log) = occurrences x (debits log).

(** A session with the reconciliations that began after the miner's hash rate was removed:
    those that finished, and whether the one in progress is such a one. *)
Record Tracked := MkTracked {
  tr_session : Session;
  tr_late : list ChannelChange;
  tr_pending_late : bool
}.
Definition tracked_event (id : N) (t : Tracked) (e : SessionEvent) : Tracked :=
  let s := tr_session t in
  let s' := session_event id e s in
  match e with
  | UpdateTurn _ =>
      if update_running s then
        match ss_update s with
        | UpIdle => MkTracked s' (tr_late t) (negb (ss_registered s))
        | UpReconcile old new =>
            MkTracked s' (tr_late t ++ if tr_pending_late t then [Reconciled old new] else []) false
        end
      else t
  | _ => MkTracked s' (tr_late t) (tr_pending_late t)
  end.
Definition tracked_start (estimate : f32) (channel : UpstreamDifficultyConfig) : Tracked :=
  MkTracked (session_start estimate channel) [] false.

(** The session is the one the events lead to. *)
Lemma tracked_session id events t :
  tr_session (fold_left (tracked_event id) events t) =
  fold_left (λ s e, session_event id e s) events (tr_session t).
Proof.
  revert t. induction events as [|e events IH]; intros t; [done|]. cbn [fold_left].
  rewrite IH. f_equal. destruct e; [done..|]. cbn.
  destruct (update_running _) eqn:E; [|done]. by destruct (ss_update _).
Qed.

(** What the channel holds for the miner. *)
Definition held (s : Session) : list f32 :=
  match ss_notify s with
  | NtCheckOpen | NtReadHashrate | NtAddHashrate _ => []
  | NtMarkRegistered h => [h]
  | _ => (if ss_registered s then [ss_estimate s] else [])
         ++ (match ss_notify s with NtSubtract h => [h] | _ => [] end)
         ++ (match ss_close s with ClSubtract h => [h] | _ => [] end)
  end.
Definition pending_new (s : Session) : list f32 :=
  match ss_update s with UpIdle => [] | UpReconcile _ new => [new] end.
Definition pending_old (s : Session) : list f32 :=
  match ss_update s with UpIdle => [] | UpReconcile old _ => [old] end.

Definition stage_hashrate (n : NotifyStage) : option f32 :=
  match n with
  | NtAddHashrate h | NtMarkRegistered h | NtSetupStats h | NtCheckClosed h
  | NtRemoveStats h | NtTakeRegistered h | NtSubtract h => Some h
  | _ => None
  end.
Definition not_registered_yet (n : NotifyStage) : bool :=
  match n with
  | NtCheckOpen | NtReadHashrate | NtAddHashrate _ | NtMarkRegistered _ => true
  | _ => false
  end.
Definition marked (n : NotifyStage) : bool :=
  match n with
  | NtSetupStats _ | NtCheckClosed _ | NtRemoveStats _ | NtServing => true
  | _ => false
  end.
Definition given_up (n : NotifyStage) : bool :=
  match n with NtSubtract _ | NtEnded => true | _ => false end.
Definition before_removal (c : CloseStage) : bool :=
  match c with ClRunning | ClRemoveStats | ClTakeRegistered => true | _ => false end.
Definition subtracting (c : CloseStage) : bool :=
  match c with ClSubtract _ => true | _ => false end.
Definition running (c : CloseStage) : bool := match c with ClRunning => true | _ => false end.
Definition set_up_last (stats : list StatsCommand) : bool :=
  match last stats with Some (SetupStats _) => true | _ => false end.
Definition may_be_set_up (n : NotifyStage) (c : CloseStage) : bool :=
  match c with ClRunning | ClRemoveStats => true | _ =>
    match n with NtCheckClosed _ | NtRemoveStats _ => true | _ => false end end.

Record session_wf (s : Session) : Prop := {
  sw_balance : ∀ x, occurrences x (credits (ss_log s)) + occurrences x (pending_new s) =
    occurrences x (debits (ss_log s)) + occurrences x (pending_old s) + occurrences x (held s);
  sw_hashrate : ∀ h, stage_hashrate (ss_notify s) = Some h → h = ss_estimate s;
  sw_idle : ss_update s = UpIdle ∨ ss_notify s = NtServing;
  sw_closed : ss_closed s = negb (running (ss_close s));
  sw_early : not_registered_yet (ss_notify s) = true →
    ss_registered s = false ∧ subtracting (ss_close s) = false;
  sw_marked : marked (ss_notify s) = true → before_removal (ss_close s) = true →
    ss_registered s = true;
  sw_serving : ss_notify s = NtServing → before_removal (ss_close s) = false →
    ss_registered s = false;
  sw_ended : given_up (ss_notify s) = true → ss_registered s = false;
  sw_stats : set_up_last (ss_stats s) = true →
    may_be_set_up (ss_notify s) (ss_close s) = true
}.

Lemma credits_snoc log c : credits (log ++ [c]) = credits log ++ credits [c].
Proof. apply bind_app. Qed.
Lemma debits_snoc log c : debits (log ++ [c]) = debits log ++ debits [c].
Proof. apply bind_app. Qed.
Lemma occurrences_app x l k : occurrences x (l ++ k) = occurrences x l + occurrences x k.
Proof. apply sum_list_with_app. Qed.
Lemma occurrences_nil x : occurrences x [] = 0.
Proof. done. Qed.
Lemma set_up_last_snoc l c :
  set_up_last (l ++ [c]) = match c with SetupStats _ => true | _ => false end.
Proof. unfold set_up_last. by rewrite last_snoc. Qed.

(** A step of a session, stage by stage: the balance by counting, the rest by
    computation. *)
Ltac session_balance Hb :=
  let x := fresh "x" in intros x; specialize (Hb x);
  rewrite ?credits_snoc, ?debits_snoc in *;
  repeat match goal with
  | |- context [credits [?c]] => let l := eval cbn in (credits [c]) in change (credits [c]) with l
  | |- context [debits [?c]] => let l := eval cbn in (debits [c]) in change (debits [c]) with l
  end;
  rewrite ?occurrences_app, ?occurrences_nil in *; lia.
Ltac session_step_solve Hb :=
  split; unfold held, pending_new, pending_old in *;
  cbn -[occurrences credits debits set_up_last app] in *;
  [ try session_balance Hb
  | try (intros ? [= <-]; done) | auto | done | try done | try done | try done | try done
  | rewrite ?set_up_last_snoc; done ].

Lemma notify_turn_wf id s : session_wf s → session_wf (notify_turn id s).
Proof.
  intros [Hb Hh Hi Hc He Hm Hs Hn Hst]. destruct s as [n cl u r c e ch st log].
  cbn -[occurrences credits debits set_up_last app] in *. subst c.
  destruct n; try (by split); (destruct Hi as [->|Hi]; [|discriminate]);
    try (pose proof (Hh _ eq_refl); subst); cbn -[occurrences credits debits set_up_last app] in *.
  all: try (destruct (He eq_refl) as [-> Hsub]).
  all: try (rewrite (Hn eq_refl) in *).
  all: try (rewrite (Hm eq_refl) in *; [|done]).
  all: destruct cl; try discriminate; try destruct r; try (by specialize (Hm eq_refl eq_refl)).
  all: try (session_step_solve Hb).
Qed.

Lemma close_turn_wf id s : session_wf s → session_wf (close_turn id s).
Proof.
  intros [Hb Hh Hi Hc He Hm Hs Hn Hst]. destruct s as [n cl u r c e ch st log].
  cbn -[occurrences credits debits set_up_last app] in *. subst c.
  destruct cl; try (by split); cbn -[occurrences credits debits set_up_last app] in *.
  all: destruct n; destruct Hi as [->|Hi]; try discriminate;
    try (pose proof (Hh _ eq_refl); subst);
    try (destruct (He eq_refl) as [-> Hsub]); try discriminate; try destruct r;
    try (by specialize (Hm eq_refl eq_refl)); try (by specialize (Hs eq_refl eq_refl));
    try (by specialize (Hn eq_refl)).
  all: session_step_solve Hb.
Qed.

Lemma update_turn_wf e' s :
  session_wf s → ss_notify s = NtServing → (ss_update s = UpIdle → ss_registered s = true) →
  session_wf (update_turn e' s).
Proof.
  intros [Hb Hh Hi Hc He Hm Hs Hn Hst] Hserve Hr. destruct s as [n cl u r c e ch st log].
  cbn -[occurrences credits debits set_up_last app] in *. subst c n.
  destruct u as [|old new]; cbn -[occurrences credits debits set_up_last app] in *.
  - rewrite (Hr eq_refl) in *. destruct cl; try (by specialize (Hs eq_refl eq_refl)).
    all: session_step_solve Hb.
  - session_step_solve Hb.
Qed.

Lemma session_start_wf e c : session_wf (session_start e c).
Proof. by split; auto. Qed.

(** *** Late reconciliations apart *)

(** The session with another stage of its update task and another log. *)
Definition relogged (u : UpdateStage) (log : list ChannelChange) (s : Session) : Session :=
  MkSession (ss_notify s) (ss_close s) u (ss_registered s) (ss_closed s) (ss_estimate s)
    (ss_channel s) (ss_stats s) log.

Lemma notify_turn_relogged id s : ∃ δ, ss_log (notify_turn id s) = ss_log s ++ δ ∧
  ss_update (notify_turn id s) = ss_update s ∧
  ∀ u l, notify_turn id (relogged u l s) = relogged u (l ++ δ) (notify_turn id s).
Proof.
  destruct s as [n ? ? ? ? ? ? ? log].
  destruct n; (eexists; split; [first [reflexivity | symmetry; apply app_nil_r]|]);
    (split; [done|]); intros u l; unfold relogged; cbn; by rewrite ?app_nil_r.
Qed.
Lemma close_turn_relogged id s : ∃ δ, ss_log (close_turn id s) = ss_log s ++ δ ∧
  ss_update (close_turn id s) = ss_update s ∧
  ∀ u l, close_turn id (relogged u l s) = relogged u (l ++ δ) (close_turn id s).
Proof.
  destruct s as [? c ? ? ? ? ? ? log].
  destruct c; (eexists; split; [first [reflexivity | symmetry; apply app_nil_r]|]);
    (split; [done|]); intros u l; unfold relogged; cbn; by rewrite ?app_nil_r.
Qed.

(** The log is made of the changes in time, which keep the books of the session, and of the
    late reconciliations. *)
Definition on_time (t : Tracked) (log : list ChannelChange) : Session :=
  relogged (if tr_pending_late t then UpIdle else ss_update (tr_session t)) log (tr_session t).
Definition tracked_ok (t : Tracked) : Prop :=
  ∃ log, ss_log (tr_session t) ≡ₚ log ++ tr_late t ∧ session_wf (on_time t log).

(** Without the flag the estimate does not matter. *)
Lemma estimate_irrelevant s s' :
  session_wf s → ss_notify s = NtServing → ss_registered s = false →
  s' = MkSession (ss_notify s) (ss_close s) (ss_update s) (ss_registered s) (ss_closed s)
         (ss_estimate s') (ss_channel s') (ss_stats s) (ss_log s) →
  session_wf s'.
Proof.
  intros [Hb Hh Hi Hc He Hm Hs Hn Hst] Hn' Hr ->. destruct s; cbn in *; subst.
  split; cbn in *; try done.
Qed.

Lemma appended_log log δ late (l : list ChannelChange) :
  l ≡ₚ log ++ late → l ++ δ ≡ₚ (log ++ δ) ++ late.
Proof. intros ->. rewrite <-!app_assoc. apply Permutation_app_head, Permutation_app_comm. Qed.

Lemma tracked_event_ok id t e : tracked_ok t → tracked_ok (tracked_event id t e).
Proof.
  destruct t as [s late pending]. intros (log & Hlog & Hwf). cbn [tr_session tr_late] in Hlog.
  unfold tracked_ok, on_time in *. destruct e as [| |e]; cbn [tracked_event tr_session tr_late tr_pending_late] in *.
  - destruct (notify_turn_relogged id s) as (δ & Hδ & Hu & Heq). exists (log ++ δ).
    cbn [session_event]. rewrite Hδ, Hu, <-Heq. split; [by apply appended_log|].
    by apply notify_turn_wf.
  - destruct (close_turn_relogged id s) as (δ & Hδ & Hu & Heq). exists (log ++ δ).
    cbn [session_event]. rewrite Hδ, Hu, <-Heq. split; [by apply appended_log|].
    by apply close_turn_wf.
  - cbn [session_event]. unfold update_running.
    destruct (ss_notify s) eqn:Hn; try (by exists log).
    destruct s as [n cl u r c est ch st l]. cbn in Hn. subst n.
    cbn [ss_update ss_registered ss_log] in *. destruct u as [|old new].
    + exists log. split; [exact Hlog|]. cbn. destruct r; cbn.
      * assert (session_wf (relogged UpIdle log (MkSession NtServing cl UpIdle true c est ch st l)))
          as H by (by destruct pending).
        by apply (update_turn_wf e) in H.
      * eapply estimate_irrelevant; [exact Hwf|done|done|]. by destruct pending.
    + destruct pending; cbn [tr_session tr_late tr_pending_late].
      * exists log. cbn. split; [by rewrite Hlog, app_assoc|]. by destruct Hwf; split.
      * exists (log ++ [Reconciled old new]). rewrite app_nil_r. cbn.
        split; [by apply appended_log|].
        by apply (update_turn_wf e) in Hwf.
Qed.

Lemma tracked_run_ok id estimate channel events :
  tracked_ok (fold_left (tracked_event id) events (tracked_start estimate channel)).
Proof.
  assert (tracked_ok (tracked_start estimate channel)) as H
    by (exists []; split; [done|apply session_start_wf]).
  revert H. generalize (tracked_start estimate channel).
  induction events as [|e events IH]; intros t H; [done|]. apply IH. by apply tracked_event_ok.
Qed.

#[export] Instance credits_perm : Proper ((≡ₚ) ==> (≡ₚ)) credits.
Proof. intros l l' H. unfold credits. by rewrite H. Qed.
#[export] Instance debits_perm : Proper ((≡ₚ) ==> (≡ₚ)) debits.
Proof. intros l l' H. unfold debits. by rewrite H. Qed.
#[export] Instance occurrences_perm x : Proper ((≡ₚ) ==> eq) (occurrences x).
Proof. intros l l' H. unfold occurrences. induction H; cbn; lia. Qed.
Lemma credits_app l k : credits (l ++ k) = credits l ++ credits k.
Proof. apply bind_app. Qed.
Lemma debits_app l k : debits (l ++ k) = debits l ++ debits k.
Proof. apply bind_app. Qed.

(** C13: What a miner that leaves takes with it, whatever the order of the turns of its
    registration, its end and its retargets.  When its tasks are done, its flag is cleared
    and its statistics are not left set up, and the channel's hash rate is out of balance by
    exactly the reconciliations that began after the removal of the miner's hash rate: each
    estimate was added as often as it was taken away, these reconciliations apart.  So if
    none began late, every estimate was taken away again, exactly once. *)
Theorem departed_miner_leaves_nothing id estimate channel events :
  let t := fold_left (tracked_event id) events (tracked_start estimate channel) in
  let s := tr_session t in
  ss_notify s = NtServing ∨ ss_notify s = NtEnded → ss_close s = ClEnded →
  ss_update s = UpIdle →
  (∀ x, occurrences x (credits (ss_log s)) + occurrences x (debits (tr_late t)) =
        occurrences x (debits (ss_log s)) + occurrences x (credits (tr_late t))) ∧
  (tr_late t = [] → balanced (ss_log s)) ∧
  ss_registered s = false ∧ set_up_last (ss_stats s) = false.
Proof.
  intros t s Hnotify Hclose Hupdate.
  destruct (tracked_run_ok id estimate channel events) as (log & Hlog & Hwf). fold t s in Hlog, Hwf.
  unfold on_time in Hwf. fold s in Hwf. rewrite Hupdate in Hwf.
  replace (if tr_pending_late t then UpIdle else UpIdle) with UpIdle in Hwf by by destruct (tr_pending_late t).
  destruct Hwf as [Hb _ _ _ _ _ Hs Hn Hst]. cbn -[occurrences credits debits set_up_last] in *.
  assert (ss_registered s = false) as Hr.
  { destruct Hnotify as [E|E]; [apply (Hs E); by rewrite Hclose|apply Hn; by rewrite E]. }
  assert (∀ x, occurrences x (credits (ss_log s)) + occurrences x (debits (tr_late t)) =
    occurrences x (debits (ss_log s)) + occurrences x (credits (tr_late t))) as Hx.
  { intros x. specialize (Hb x). rewrite Hlog, credits_app, debits_app, !occurrences_app.
    unfold held, pending_new, pending_old, relogged in Hb. cbn -[occurrences credits debits] in Hb.
    rewrite Hr, Hclose in Hb. destruct Hnotify as [E|E]; rewrite E in Hb; simpl in Hb; lia. }
  split; [exact Hx|]. split; [|split; [done|]].
  - intros El x. specialize (Hx x). rewrite El in Hx. simpl in Hx. lia.
  - destruct (set_up_last (ss_stats s)); [|done]. specialize (Hst eq_refl).
    rewrite Hclose in Hst. destruct Hnotify as [E|E]; by rewrite E in Hst.
Qed.

(** A run: registered, retargeted once, closed, and retargeted once more before the update
    task is killed. *)
Definition example_channel : UpstreamDifficultyConfig :=
  upstream_difficulty_config_new 60 (f32_of_N 100).
Definition example_events : list SessionEvent :=
  replicate 6 NotifyTurn ++ replicate 2 (UpdateTurn (f32_of_N 9)) ++ replicate 4 CloseTurn.
Definition late_events : list SessionEvent :=
  example_events ++ replicate 2 (UpdateTurn (f32_of_N 8)).

Lemma departed_miner_leaves_nothing_witness :
  let t := fold_left (tracked_event 7) example_events (tracked_start (f32_of_N 5) example_channel) in
  ss_log (tr_session t) =
    [Added (f32_of_N 5); Reconciled (f32_of_N 5) (f32_of_N 9); Subtracted (f32_of_N 9)] ∧
  balanced (ss_log (tr_session t)) ∧
  let t' := fold_left (tracked_event 7) late_events (tracked_start (f32_of_N 5) example_channel) in
  tr_late t' = [Reconciled (f32_of_N 9) (f32_of_N 8)] ∧ ss_registered (tr_session t') = false.
Proof.
  intros t. split; [vm_compute; reflexivity|]. split.
  - apply (departed_miner_leaves_nothing 7 (f32_of_N 5) example_channel example_events);
      [left|..]; vm_compute; reflexivity.
  - intros t'. split; [vm_compute; reflexivity|].
    apply (departed_miner_leaves_nothing 7 (f32_of_N 5) example_channel late_events);
      [left|..]; vm_compute; reflexivity.
Defined.

(** A retarget that begins after the removal, before the update task is killed, does leave
    its difference in the channel's hash rate: the reconciliation does not look at the
    flag. *)
Theorem late_retarget_leaks :
  let s := fold_left (λ s e, session_event 7 e s) late_events
    (session_start (f32_of_N 5) example_channel) in
  ss_notify s = NtServing ∧ ss_close s = ClEnded ∧ ss_update s = UpIdle ∧ ¬ balanced (ss_log s).
Proof.
  split; [reflexivity|]. split; [reflexivity|]. split; [reflexivity|].
  intros H. specialize (H (f32_of_N 8)). vm_compute in H. discriminate.
Qed.
