(* ===== verification/TaskManager.v ===== *)
(** * The tasks of the miners

    [translator/downstream/task_manager.rs].  Every miner has a task that reads it, one that
    writes to it, one that starts the others, one that sends it jobs and one that retargets
    it; the manager keeps their handles under the miner's connection identifier and aborts
    them all when the reader ends.  Handles and kill signals travel in two channels that two
    tasks of the manager read, so that both orders of a handle and a signal are possible: the
    steps below interleave the senders and both tasks freely.

    A task is named by a number.  A handle aborts its task when it is dropped ([AbortOnDrop]):
    [tm_aborted] lists the handles dropped so far. *)

From S2P Require Import Prelude.
From Stdlib Require Import Permutation.

Inductive Task :=
| AcceptConnection (handle : N)
| Bootstrap (handle : N)
| ReceiveDownstream (handle : N)
| SendDownstream (handle : N)
| NotifyTask (handle : N)
| UpdateTask (handle : N).

(** [impl From<Task> for AbortOnDrop] *)
Definition abort_on_drop (task : Task) : N :=
  match task with
  | AcceptConnection handle => handle
  | Bootstrap handle => handle
  | ReceiveDownstream handle => handle
  | SendDownstream handle => handle
  | NotifyTask handle => handle
  | UpdateTask handle => handle
  end.

(** [TaskMessage]: tasks of the whole translator have no connection. *)
Abbreviation TaskMessage := (option N * Task)%type (only parsing).

(** The manager with what its two channels hold.  [tm_abort] is the handle of the manager's
    own tasks, until somebody takes it; [tm_running] is lost when that handle is dropped. *)
Record TaskManager := MkTaskManager {
  tm_receiver : list TaskMessage;
  tm_receiver_kill_signal : list N;
  tm_tasks : Mutex (gmap (option N) (list N));
  tm_abort : bool;
  tm_running : bool;
  tm_inconsistency : bool;
  tm_aborted : list N
}.
Definition set_tm_receiver v t := MkTaskManager v (tm_receiver_kill_signal t) (tm_tasks t)
  (tm_abort t) (tm_running t) (tm_inconsistency t) (tm_aborted t).
Definition set_tm_kill v t := MkTaskManager (tm_receiver t) v (tm_tasks t)
  (tm_abort t) (tm_running t) (tm_inconsistency t) (tm_aborted t).
Definition set_tm_tasks v t := MkTaskManager (tm_receiver t) (tm_receiver_kill_signal t) v
  (tm_abort t) (tm_running t) (tm_inconsistency t) (tm_aborted t).
Definition tm_report_inconsistency t := MkTaskManager (tm_receiver t)
  (tm_receiver_kill_signal t) (tm_tasks t) (tm_abort t) (tm_running t) true (tm_aborted t).
(** Dropping handles aborts their tasks. *)
Definition tm_drop (handles : list N) t := MkTaskManager (tm_receiver t)
  (tm_receiver_kill_signal t) (tm_tasks t) (tm_abort t) (tm_running t) (tm_inconsistency t)
  (tm_aborted t ++ handles).

Definition DOWNSTREAM_TASK_MANAGER_BUFFER_SIZE : N := 128000.

Definition initialize : TaskManager :=
  MkTaskManager [] [] (MkMutex ∅ false) true true false [].
Definition get_aborter (t : TaskManager) : bool * TaskManager :=
  (tm_abort t, MkTaskManager (tm_receiver t) (tm_receiver_kill_signal t) (tm_tasks t) false
                 (tm_running t) (tm_inconsistency t) (tm_aborted t)).

(** A send to the manager: it waits while the channel is full ([None]), and fails when the
    manager is gone, which drops the handle with the message. *)
Definition send_task (message : TaskMessage) (t : TaskManager)
    : option (result unit unit * TaskManager) :=
  if negb (tm_running t) then Some (Err tt, tm_drop [abort_on_drop message.2] t)
  else if (N.of_nat (length (tm_receiver t)) <? DOWNSTREAM_TASK_MANAGER_BUFFER_SIZE)%N
  then Some (Ok tt, set_tm_receiver (tm_receiver t ++ [message]) t)
  else None.
Definition add_receive_downstream (abortable connection_id : N) :=
  send_task (Some connection_id, ReceiveDownstream abortable).
Definition add_bootstrap (abortable connection_id : N) :=
  send_task (Some connection_id, Bootstrap abortable).
Definition add_update (abortable connection_id : N) :=
  send_task (Some connection_id, UpdateTask abortable).
Definition add_notify (abortable connection_id : N) :=
  send_task (Some connection_id, NotifyTask abortable).
Definition add_send_downstream (abortable connection_id : N) :=
  send_task (Some connection_id, SendDownstream abortable).
Definition add_accept_connection (abortable : N) :=
  send_task (None, AcceptConnection abortable).

(** The kill signal of a reader that ends. *)
Definition send_kill_signal (connection_id : N) (t : TaskManager)
    : option (result unit unit * TaskManager) :=
  if negb (tm_running t) then Some (Err tt, t)
  else if (N.of_nat (length (tm_receiver_kill_signal t)) <? DOWNSTREAM_TASK_MANAGER_BUFFER_SIZE)%N
  then Some (Ok tt, set_tm_kill (tm_receiver_kill_signal t ++ [connection_id]) t)
  else None.

(** One turn of the task that keeps handles.  A poisoned map drops the handle with the
    closure that was to keep it. *)
Definition keep_turn (t : TaskManager) : TaskManager :=
  match tm_receiver t with
  | [] => t
  | (connection_id, task) :: rest =>
      let t := set_tm_receiver rest t in
      match lock (tm_tasks t) with
      | None => tm_drop [abort_on_drop task] t
      | Some tasks =>
          let tasks_list := default [] (tasks !! connection_id) in
          set_tm_tasks (store (tm_tasks t)
            (<[connection_id := tasks_list ++ [abort_on_drop task]]> tasks)) t
      end
  end.

(** One turn of the task that aborts them ([kill_tasks]). *)
Definition kill_turn (t : TaskManager) : TaskManager :=
  match tm_receiver_kill_signal t with
  | [] => t
  | connection_id :: rest =>
      let t := set_tm_kill rest t in
      match lock (tm_tasks t) with
      | None => tm_report_inconsistency t
      | Some tasks =>
          match tasks !! Some connection_id with
          | Some handles =>
              tm_drop handles
                (set_tm_tasks (store (tm_tasks t) (delete (Some connection_id) tasks)) t)
          | None => t
          end
      end
  end.

(** The handle of the manager is dropped: its tasks are aborted, and everything they hold is
    dropped with them. *)
Definition handles_of (tasks : gmap (option N) (list N)) : list N :=
  concat (map_to_list tasks).*2.
Arguments handles_of : simpl never.
Definition held (t : TaskManager) : list N := handles_of (guarded (tm_tasks t)).
Definition queued (t : TaskManager) : list N := abort_on_drop <$> (tm_receiver t).*2.
Definition drop_manager (t : TaskManager) : TaskManager :=
  MkTaskManager [] [] (MkMutex ∅ (poisoned (tm_tasks t))) (tm_abort t) false
    (tm_inconsistency t) (tm_aborted t ++ queued t ++ held t).

(** ** Runs *)
Inductive TmEvent :=
| EvAdd (message : TaskMessage)
| EvKill (connection_id : N)
| EvKeepTurn
| EvKillTurn
| EvDropManager.

(** A send that waits changes nothing. *)
Definition tm_event (e : TmEvent) (t : TaskManager) : TaskManager :=
  match e with
  | EvAdd message => from_option snd t (send_task message t)
  | EvKill connection_id => from_option snd t (send_kill_signal connection_id t)
  | EvKeepTurn => keep_turn t
  | EvKillTurn => kill_turn t
  | EvDropManager => drop_manager t
  end.
Definition tm_run (events : list TmEvent) (t : TaskManager) : TaskManager :=
  fold_left (λ t e, tm_event e t) events t.

(** The handles that were handed over in a run. *)
Fixpoint handed (events : list TmEvent) (t : TaskManager) : list N :=
  match events with
  | [] => []
  | e :: events =>
      match e with
      | EvAdd message => if send_task message t then [abort_on_drop message.2] else []
      | _ => []
      end ++ handed events (tm_event e t)
  end.

(** ** Lemmas *)

(** Permutations of appended lists, by counting. *)
Ltac perm :=
  apply (Permutation_count_occ N.eq_dec); intros ?;
  repeat first [rewrite count_occ_app | progress cbn [count_occ]
               | match goal with |- context [N.eq_dec ?a ?b] => destruct (N.eq_dec a b) end];
  lia.

Lemma handles_of_lookup (tasks : gmap (option N) (list N)) (i : option N) (handles : list N) :
  tasks !! i = Some handles → handles_of tasks ≡ₚ handles ++ handles_of (delete i tasks).
Proof.
  intros H. unfold handles_of. rewrite <- (insert_delete_id tasks i handles H) at 1.
  rewrite map_to_list_insert by apply lookup_delete_eq. done.
Qed.
Lemma handles_of_delete (tasks : gmap (option N) (list N)) (i : option N) :
  handles_of tasks ≡ₚ default [] (tasks !! i) ++ handles_of (delete i tasks).
Proof.
  destruct (tasks !! i) as [handles|] eqn:H; [by apply handles_of_lookup|].
  by rewrite delete_id.
Qed.
Lemma handles_of_insert (tasks : gmap (option N) (list N)) (i : option N) (handles : list N) :
  handles_of (<[i := handles]> tasks) ≡ₚ handles ++ handles_of (delete i tasks).
Proof.
  rewrite (handles_of_lookup _ i handles) by apply lookup_insert_eq.
  by rewrite delete_insert_eq.
Qed.
Lemma elem_of_handles (tasks : gmap (option N) (list N)) h :
  h ∈ handles_of tasks ↔ ∃ i handles, tasks !! i = Some handles ∧ h ∈ handles.
Proof.
  unfold handles_of. setoid_rewrite list_elem_of_In. rewrite in_concat. split.
  - intros (l & Hl & Hh). rewrite <- list_elem_of_In in Hl.
    apply list_elem_of_fmap in Hl as ([i l'] & -> & Hi). apply elem_of_map_to_list in Hi. eauto.
  - intros (i & l & Hi & Hh). exists l. rewrite <- (list_elem_of_In _ l). split; [|done].
    apply list_elem_of_fmap. exists (i, l). by rewrite elem_of_map_to_list.
Qed.

(** Where the handles of a manager are. *)
Definition all_handles (t : TaskManager) : list N := tm_aborted t ++ queued t ++ held t.

Lemma tm_event_handles e t :
  all_handles (tm_event e t) ≡ₚ handed [e] t ++ all_handles t.
Proof.
  unfold all_handles, queued, held. destruct e as [message|c| | |]; cbn [handed tm_event app].
  - unfold send_task. destruct (tm_running t); cbn; [|perm].
    destruct (_ <? _)%N; cbn; [|done]. rewrite !fmap_app. cbn. perm.
  - unfold send_kill_signal. destruct (tm_running t); cbn; [|done]. by destruct (_ <? _)%N.
  - unfold keep_turn. destruct (tm_receiver t) as [|[c task] rest] eqn:Hr; [by rewrite Hr|].
    unfold lock. cbn. destruct (poisoned (tm_tasks t)); cbn; [perm|].
    rewrite handles_of_insert, (handles_of_delete (guarded (tm_tasks t)) c). perm.
  - unfold kill_turn. destruct (tm_receiver_kill_signal t) as [|c rest]; [done|].
    unfold lock. cbn. destruct (poisoned (tm_tasks t)); cbn; [done|].
    destruct (_ !! Some c) as [handles|] eqn:Hc; [|done]. cbn.
    rewrite (handles_of_lookup _ _ _ Hc). perm.
  - cbn. change (handles_of ∅) with (@nil N). unfold queued, held. perm.
Qed.

Lemma handed_app events e t :
  handed (events ++ [e]) t = handed events t ++ handed [e] (tm_run events t).
Proof.
  revert t. induction events as [|e' events IH]; intros t; cbn [handed tm_run fold_left app].
  - by rewrite app_nil_r.
  - rewrite IH, app_assoc. done.
Qed.
(** What holds after [events]. *)
Record tm_ok (events : list TmEvent) (t : TaskManager) : Prop := {
  to_queued c task : (c, task) ∈ tm_receiver t → EvAdd (c, task) ∈ events;
  to_held i handles h : guarded (tm_tasks t) !! i = Some handles → h ∈ handles →
    ∃ task, EvAdd (i, task) ∈ events ∧ abort_on_drop task = h;
  to_kill c : c ∈ tm_receiver_kill_signal t → EvKill c ∈ events;
  to_poisoned : poisoned (tm_tasks t) = false;
  to_running : tm_running t = false → EvDropManager ∈ events;
  to_aborted h : h ∈ tm_aborted t →
    EvDropManager ∈ events ∨
    ∃ c task, EvAdd (Some c, task) ∈ events ∧ EvKill c ∈ events ∧ abort_on_drop task = h
}.

Lemma tm_ok_more events e t : tm_ok events t → tm_ok (events ++ [e]) t.
Proof.
  intros [Hq Hh Hk Hp Hr Ha]. split; try done.
  - set_solver.
  - intros i l h Hi Hin. destruct (Hh i l h Hi Hin) as (task & ? & ?). exists task. set_solver.
  - set_solver.
  - intros Hn%Hr. set_solver.
  - intros h Hin. destruct (Ha h Hin) as [?|(c & task & ? & ? & ?)]; [set_solver|].
    right. exists c, task. set_solver.
Qed.

Lemma tm_ok_event events e t : tm_ok events t → tm_ok (events ++ [e]) (tm_event e t).
Proof.
  intros Hok. pose proof (tm_ok_more events e t Hok) as [Hq Hh Hk Hp Hr Ha].
  destruct e as [[c task]|c| | |]; cbn [tm_event].
  - unfold send_task. destruct (tm_running t) eqn:Hrun in |- *; cbn.
    + destruct (_ <? _)%N; cbn; [|by split]. split; try done; cbn; try assumption. set_solver.
    + split; try done; cbn; try assumption. intros h [Hin|Hin]%elem_of_app; [auto|]. left. by apply Hr.
  - unfold send_kill_signal. destruct (tm_running t) in |- *; cbn; [|by split].
    destruct (_ <? _)%N; cbn; [|by split]. split; try done; cbn; try assumption. set_solver.
  - unfold keep_turn. destruct (tm_receiver t) as [|[c task] rest] eqn:Hrec.
    { split; rewrite ?Hrec; done. }
    unfold lock. cbn. rewrite Hp. split; try done; cbn; try assumption; [set_solver|].
    intros i l h. destruct (decide (i = c)) as [->|Hne].
    + rewrite lookup_insert_eq. intros [= <-] [Hin|Hin]%elem_of_app.
      * destruct (guarded (tm_tasks t) !! c) as [l|] eqn:Hc; [|set_solver]. by apply (Hh c l).
      * apply list_elem_of_singleton in Hin as ->. exists task. split; [|done]. apply Hq. set_solver.
    + rewrite lookup_insert_ne by done. apply Hh.
  - unfold kill_turn. destruct (tm_receiver_kill_signal t) as [|c rest] eqn:Hsig.
    { split; rewrite ?Hsig; done. }
    unfold lock. cbn. rewrite Hp.
    destruct (_ !! Some c) as [handles|] eqn:Hc.
    2: { split; try done; cbn; try assumption. set_solver. }
    split; try done; cbn; try assumption.
    + intros i l h Hi. apply (Hh i l). by apply lookup_delete_Some in Hi as [_ ?].
    + set_solver.
    + intros h [Hin|Hin]%elem_of_app; [auto|]. right.
      destruct (Hh _ _ h Hc Hin) as (task & ? & ?). exists c, task. split_and!; [done| |done].
      apply Hk. set_solver.
  - split; try done; cbn; [set_solver..|]. intros h _. left. set_solver.
Qed.

Lemma tm_run_ok events : tm_ok events (tm_run events initialize).
Proof.
  induction events as [|e events IH] using rev_ind.
  - split; try done; cbn; set_solver.
  - unfold tm_run. rewrite fold_left_app. by apply tm_ok_event.
Qed.

(** ** The theorems *)

(** C21: No handle is lost and none is dropped twice: whatever is added, kept, killed and shut
    down, and in whatever order, the handles handed over are exactly those still queued, those
    kept and those aborted, each as often as it was handed over; when the manager is dropped
    they are all aborted. *)
Theorem handles_conserved events :
  let t := tm_run events initialize in
  handed events initialize ≡ₚ tm_aborted t ++ queued t ++ held t ∧
  tm_aborted (drop_manager t) ≡ₚ handed events initialize.
Proof.
  assert (H : handed events initialize ≡ₚ all_handles (tm_run events initialize)).
  { induction events as [|e events IH] using rev_ind; [done|].
    rewrite handed_app. unfold tm_run at 2. rewrite fold_left_app. cbn [fold_left].
    rewrite tm_event_handles, IH. unfold tm_run. perm. }
  cbn zeta. split; [done|]. by rewrite H.
Qed.

(** A miner's tasks are aborted by nobody else's departure: an aborted task was registered
    for a connection whose reader sent the kill signal, or the whole manager was dropped; the
    tasks of the translator itself are never aborted by a miner. *)
Theorem only_departed_aborted events h :
  h ∈ tm_aborted (tm_run events initialize) →
  EvDropManager ∈ events ∨
  ∃ c task, EvAdd (Some c, task) ∈ events ∧ EvKill c ∈ events ∧ abort_on_drop task = h.
Proof. apply (to_aborted _ _ (tm_run_ok events)). Qed.

(** A kill signal aborts every task that is kept for its connection, and touches no other. *)
Theorem kill_aborts_kept t c rest :
  tm_receiver_kill_signal t = c :: rest → poisoned (tm_tasks t) = false →
  let t' := kill_turn t in
  let kept := default [] (guarded (tm_tasks t) !! Some c) in
  tm_aborted t' = tm_aborted t ++ kept ∧
  guarded (tm_tasks t') = delete (Some c) (guarded (tm_tasks t)) ∧
  tm_receiver t' = tm_receiver t.
Proof.
  intros Hs Hp. unfold kill_turn. rewrite Hs. unfold lock. cbn. rewrite Hp.
  destruct (_ !! Some c) eqn:Hc; cbn; [done|]. by rewrite app_nil_r, delete_id.
Qed.

(** A task whose handle comes after the kill signal of its connection was taken is never
    aborted: once it is queued or kept and no signal for its connection is left, it runs until
    the manager is dropped. *)
Definition waits_for (c h : N) (t : TaskManager) : Prop :=
  poisoned (tm_tasks t) = false ∧ c ∉ tm_receiver_kill_signal t ∧
  ((∃ task, (Some c, task) ∈ tm_receiver t ∧ abort_on_drop task = h) ∨
   (∃ handles, guarded (tm_tasks t) !! Some c = Some handles ∧ h ∈ handles)).
Lemma waits_for_event c h e t :
  e ≠ EvKill c → e ≠ EvDropManager → waits_for c h t → waits_for c h (tm_event e t).
Proof.
  intros Hk Hd (Hp & Hs & Hw). destruct e as [[i task]|c'| | |]; cbn [tm_event].
  - unfold send_task. destruct (tm_running t); cbn; [|by split_and!].
    destruct (_ <? _)%N; cbn; [|by split_and!]. split_and!; [done..|].
    destruct Hw as [(tk & ? & ?)|?]; [|by right]. left. exists tk. cbn. set_solver.
  - unfold send_kill_signal. destruct (tm_running t); cbn; [|by split_and!].
    destruct (_ <? _)%N; cbn; [|by split_and!]. split_and!; [done| |done]. cbn.
    intros [?|?%list_elem_of_singleton]%elem_of_app; [done|congruence].
  - unfold keep_turn. destruct (tm_receiver t) as [|[i task] rest] eqn:Hr; [by split_and!; rewrite ?Hr|].
    unfold lock. cbn. rewrite Hp. split_and!; [done..|]. cbn.
    destruct (decide (i = Some c)) as [->|Hne].
    + destruct Hw as [(tk & [[= ->]|Hin]%elem_of_cons & Htk)|(l & Hl & Hin)].
      * right. eexists. rewrite lookup_insert_eq. split; [done|]. set_solver.
      * left. by exists tk.
      * right. eexists. rewrite lookup_insert_eq. split; [done|]. rewrite Hl. cbn. set_solver.
    + rewrite lookup_insert_ne by done. destruct Hw as [(tk & Hin & Htk)|?]; [|by right].
      left. exists tk. split; [|done]. set_solver.
  - unfold kill_turn. destruct (tm_receiver_kill_signal t) as [|c' rest] eqn:Hsig.
    { split_and!; [done|by rewrite Hsig|done]. }
    unfold lock. cbn. rewrite Hp. destruct (_ !! Some c') eqn:Hc'.
    2: { split_and!; [done|set_solver|done]. }
    split_and!; [done|cbn; set_solver|]. cbn. rewrite lookup_delete_ne by set_solver. done.
  - done.
Qed.
Theorem late_task_never_aborted c h events t :
  waits_for c h t → EvKill c ∉ events → EvDropManager ∉ events →
  h ∈ queued (tm_run events t) ++ held (tm_run events t).
Proof.
  revert t. induction events as [|e events IH]; intros t Hw Hk Hd.
  - destruct Hw as (_ & _ & [(task & Hin & <-)|(l & Hl & Hin)]); cbn; apply elem_of_app.
    + left. unfold queued. rewrite <- list_fmap_compose. apply list_elem_of_fmap. by exists (Some c, task).
    + right. apply elem_of_handles. eauto.
  - cbn [tm_run fold_left]. apply IH; [apply waits_for_event; [set_solver..|done]|set_solver..].
Qed.

Lemma late_task_never_aborted_witness :
  let t := tm_run [EvAdd (Some 7%N, ReceiveDownstream 1); EvKeepTurn; EvKill 7; EvKillTurn;
                   EvAdd (Some 7%N, UpdateTask 2)] initialize in
  tm_aborted t = [1]%N ∧ 2%N ∈ queued (tm_run [EvKeepTurn; EvKillTurn] t)
                             ++ held (tm_run [EvKeepTurn; EvKillTurn] t).
Proof.
  split; [vm_compute; reflexivity|]. apply (late_task_never_aborted 7); [|set_solver..].
  split_and!; [reflexivity|vm_compute; set_solver|]. left. exists (UpdateTask 2). vm_compute. set_solver.
Defined.

Lemma only_departed_aborted_witness :
  1%N ∈ tm_aborted (tm_run [EvAdd (Some 7%N, ReceiveDownstream 1); EvKeepTurn; EvKill 7; EvKillTurn]
                   initialize) ∧
  (EvDropManager ∈ [EvAdd (Some 7%N, ReceiveDownstream 1); EvKeepTurn; EvKill 7; EvKillTurn] ∨
   ∃ c task, EvAdd (Some c, task) ∈ [EvAdd (Some 7%N, ReceiveDownstream 1); EvKeepTurn; EvKill 7; EvKillTurn]
     ∧ EvKill c ∈ [EvAdd (Some 7%N, ReceiveDownstream 1); EvKeepTurn; EvKill 7; EvKillTurn]
     ∧ abort_on_drop task = 1%N).
Proof.
  assert (H : (1 : N) ∈ tm_aborted (tm_run [EvAdd (Some 7%N, ReceiveDownstream 1); EvKeepTurn; EvKill 7;
    EvKillTurn] initialize)) by (vm_compute; left).
  split; [exact H|]. exact (only_departed_aborted _ _ H).
Defined.
