(* ===== verification/TaskList.v ===== *)
(** * The other task managers

    Ten files of the client keep the tasks of a part the same way: a channel of ten messages
    takes their handles to a task that keeps them in a list, and whoever holds the manager's
    handle ends them all by dropping it ([translator/task_manager.rs],
    [translator/proxy/task_manager.rs], [translator/upstream/task_manager.rs],
    [jd_client/task_manager.rs] and those of its four parts,
    [minin_pool_connection/task_manager.rs] and [share_accounter/task_manager.rs]).  They
    differ in the type of task only: [TaskList] is what they share, and each file has its type
    of task and its [add] functions below.  As in [TaskManager], a task is named by a number
    and [tl_aborted] lists the handles dropped so far. *)

From S2P Require Import Prelude TaskManager.
From Stdlib Require Import Permutation.

(** ** What they share *)
Section task_list.
Context {Task : Type} (handle : Task → N).

(** The manager with its channel and the tasks it keeps.  [tl_abort] is the handle of its own
    task, until somebody takes it; [tl_running] is lost when that handle is dropped. *)
Record TaskList := MkTaskList {
  tl_receiver : list Task;
  tl_tasks : list Task;
  tl_abort : bool;
  tl_running : bool;
  tl_aborted : list N
}.
Definition TASK_LIST_BUFFER_SIZE : nat := 10.

Definition initialize_list : TaskList := MkTaskList [] [] true true [].
Definition list_get_aborter (t : TaskList) : bool * TaskList :=
  (tl_abort t, MkTaskList (tl_receiver t) (tl_tasks t) false (tl_running t) (tl_aborted t)).

(** A send: it waits while the channel is full ([None]); a manager that is gone drops the
    handle with the message. *)
Definition list_send_task (task : Task) (t : TaskList) : option (result unit unit * TaskList) :=
  if negb (tl_running t)
  then Some (Err tt, MkTaskList (tl_receiver t) (tl_tasks t) (tl_abort t) (tl_running t)
                       (tl_aborted t ++ [handle task]))
  else if length (tl_receiver t) <? TASK_LIST_BUFFER_SIZE
  then Some (Ok tt, MkTaskList (tl_receiver t ++ [task]) (tl_tasks t) (tl_abort t)
                      (tl_running t) (tl_aborted t))
  else None.

(** A turn of the manager's task. *)
Definition list_keep_turn (t : TaskList) : TaskList :=
  match tl_receiver t with
  | [] => t
  | task :: rest => MkTaskList rest (tl_tasks t ++ [task]) (tl_abort t) (tl_running t) (tl_aborted t)
  end.

(** A send that waits until the manager has made room. *)
Definition list_add (task : Task) (t : TaskList) : bool * TaskList :=
  match list_send_task task t with
  | Some (Ok _, t) => (true, t)
  | Some (Err _, t) => (false, t)
  | None =>
      let t := list_keep_turn t in
      (true, MkTaskList (tl_receiver t ++ [task]) (tl_tasks t) (tl_abort t) (tl_running t)
               (tl_aborted t))
  end.

(** Handles that are dropped before they reach the manager. *)
Definition list_abort (handles : list N) (t : TaskList) : TaskList :=
  MkTaskList (tl_receiver t) (tl_tasks t) (tl_abort t) (tl_running t) (tl_aborted t ++ handles).

(** Tasks that run already are handed over one after the other; the first that cannot be drops
    the rest of them. *)
Fixpoint add_tasks (tasks : list Task) (t : TaskList) : bool * TaskList :=
  match tasks with
  | [] => (true, t)
  | task :: tasks =>
      match list_add task t with
      | (true, t) => add_tasks tasks t
      | (false, t) => (false, list_abort (handle <$> tasks) t)
      end
  end.

(** The manager's handle is dropped, and every handle its task has with it. *)
Definition list_drop (t : TaskList) : TaskList :=
  MkTaskList [] [] (tl_abort t) false
    (tl_aborted t ++ (handle <$> tl_receiver t) ++ (handle <$> tl_tasks t)).

Inductive ListEvent := ListAdd (task : Task) | ListKeep | ListDrop.
Definition list_event (e : ListEvent) (t : TaskList) : TaskList :=
  match e with
  | ListAdd task => from_option snd t (list_send_task task t)
  | ListKeep => list_keep_turn t
  | ListDrop => list_drop t
  end.
Fixpoint list_handed (events : list ListEvent) (t : TaskList) : list N :=
  match events with
  | [] => []
  | e :: events =>
      match e with
      | ListAdd task => if list_send_task task t then [handle task] else []
      | _ => []
      end ++ list_handed events (list_event e t)
  end.

(** No handle is lost and none is dropped twice; after the manager is dropped, all of them
    are aborted, those included that are handed over later. *)
Theorem list_handles_conserved events t :
  let t' := fold_left (λ t e, list_event e t) events t in
  tl_aborted t' ++ (handle <$> tl_receiver t') ++ (handle <$> tl_tasks t') ≡ₚ
    list_handed events t ++ tl_aborted t ++ (handle <$> tl_receiver t) ++ (handle <$> tl_tasks t) ∧
  (tl_running t = false → tl_receiver t = [] → tl_tasks t = [] →
   tl_receiver t' = [] ∧ tl_tasks t' = []).
Proof.
  cbn zeta. revert t. induction events as [|e events IH]; intros t; [done|]. cbn [fold_left].
  destruct (IH (list_event e t)) as [H1 H2]. split.
  - rewrite H1. cbn [list_handed]. rewrite <- app_assoc. destruct e as [task| |]; cbn [list_event].
    + unfold list_send_task. destruct (negb (tl_running t)); [cbn; perm|].
      destruct (length (tl_receiver t) <? TASK_LIST_BUFFER_SIZE); cbn; [|done].
      rewrite fmap_app. cbn. perm.
    + unfold list_keep_turn. destruct (tl_receiver t) as [|task rest] eqn:E; [by rewrite E|].
      cbn. rewrite fmap_app. cbn. perm.
    + cbn. rewrite app_nil_r. done.
  - intros Hr Hq Ht. apply H2; destruct e as [task| |]; cbn;
      unfold list_send_task, list_keep_turn; by rewrite ?Hr, ?Hq.
Qed.

(** A manager that runs takes every task it is handed. *)
Lemma list_add_running task t :
  tl_running t = true →
  ∃ t', list_add task t = (true, t') ∧ tl_running t' = true ∧ tl_aborted t' = tl_aborted t ∧
    tl_tasks t' ++ tl_receiver t' = tl_tasks t ++ tl_receiver t ++ [task].
Proof.
  intros Hr. unfold list_add, list_send_task. rewrite Hr. cbn [negb].
  destruct (_ <? _); [by eexists|]. eexists. split; [done|].
  unfold list_keep_turn. destruct (tl_receiver t) as [|task' rest] eqn:E; cbn; rewrite ?E; [done|].
  split; [done|]. split; [done|]. by rewrite <- app_assoc.
Qed.
Lemma add_tasks_running tasks t :
  tl_running t = true →
  ∃ t', add_tasks tasks t = (true, t') ∧ tl_running t' = true ∧ tl_aborted t' = tl_aborted t ∧
    tl_tasks t' ++ tl_receiver t' = tl_tasks t ++ tl_receiver t ++ tasks.
Proof.
  revert t. induction tasks as [|task tasks IH]; intros t Hr.
  - exists t. by rewrite app_nil_r.
  - destruct (list_add_running task t Hr) as (t1 & H1 & Hr1 & Ha1 & Hs1).
    destruct (IH t1 Hr1) as (t2 & H2 & Hr2 & Ha2 & Hs2).
    exists t2. cbn [add_tasks]. rewrite H1, H2. split; [done|]. split; [done|].
    split; [congruence|]. rewrite Hs2, app_assoc, Hs1, <- !app_assoc. done.
Qed.
End task_list.

Arguments MkTaskList {Task} _ _ _ _ _.
Arguments tl_receiver {Task} _.
Arguments tl_tasks {Task} _.
Arguments tl_abort {Task} _.
Arguments tl_running {Task} _.
Arguments tl_aborted {Task} _.
Arguments initialize_list {Task}.
Arguments list_get_aborter {Task} _.
Arguments list_keep_turn {Task} _.
Arguments ListAdd {Task} _.
Arguments ListKeep {Task}.
Arguments ListDrop {Task}.

(** ** The translator ([translator/task_manager.rs]) *)
Inductive TranslatorTask :=
| DownstreamListener (h : N) | UpstreamTask (h : N) | StartupTask (h : N) | BridgeTask (h : N).
Definition translator_handle (task : TranslatorTask) : N :=
  match task with
  | DownstreamListener h => h
  | UpstreamTask h => h
  | StartupTask h => h
  | BridgeTask h => h
  end.
Definition add_downstream_listener (h : N) := list_send_task translator_handle (DownstreamListener h).
Definition add_upstream (h : N) := list_send_task translator_handle (UpstreamTask h).
Definition add_startup_task (h : N) := list_send_task translator_handle (StartupTask h).
Definition add_bridge (h : N) := list_send_task translator_handle (BridgeTask h).

(** ** The bridge ([translator/proxy/task_manager.rs]) *)
Inductive BridgeSubtask := UpstreamWork (h : N) | DownstreamMessagesTask (h : N).
Definition bridge_handle (task : BridgeSubtask) : N :=
  match task with UpstreamWork h => h | DownstreamMessagesTask h => h end.
Definition add_handle_upstream_work (h : N) := list_send_task bridge_handle (UpstreamWork h).
Definition add_handle_downstream_messages (h : N) :=
  list_send_task bridge_handle (DownstreamMessagesTask h).

(** ** The upstream ([translator/upstream/task_manager.rs]) *)
Inductive UpstreamSubtask :=
| DiffManagment (h : N) | MainLoop (h : N) | HandleSubmit (h : N) | HandleTokenUpdate (h : N).
Definition upstream_handle (task : UpstreamSubtask) : N :=
  match task with
  | DiffManagment h => h
  | MainLoop h => h
  | HandleSubmit h => h
  | HandleTokenUpdate h => h
  end.
Definition add_diff_managment (h : N) := list_send_task upstream_handle (DiffManagment h).
Definition add_main_loop (h : N) := list_send_task upstream_handle (MainLoop h).
Definition add_handle_submit (h : N) := list_send_task upstream_handle (HandleSubmit h).
Definition add_handle_token_update (h : N) := list_send_task upstream_handle (HandleTokenUpdate h).

(** ** The job declaration client ([jd_client/task_manager.rs]) *)
Inductive JdTask :=
| JobDeclaratorTask (h : N) | TemplateReceiverTask (h : N) | MiningUpstreamTask (h : N)
| MiningDowntreamTask (h : N).
Definition jd_handle (task : JdTask) : N :=
  match task with
  | JobDeclaratorTask h => h
  | TemplateReceiverTask h => h
  | MiningUpstreamTask h => h
  | MiningDowntreamTask h => h
  end.
Definition add_job_declarator_task (h : N) := list_send_task jd_handle (JobDeclaratorTask h).
Definition add_template_receiver_task (h : N) := list_send_task jd_handle (TemplateReceiverTask h).
Definition add_mining_upstream_task (h : N) := list_send_task jd_handle (MiningUpstreamTask h).
Definition add_mining_downtream_task (h : N) := list_send_task jd_handle (MiningDowntreamTask h).

(** ** Its declarator ([jd_client/job_declarator/task_manager.rs]) *)
Inductive DeclaratorTask :=
| AllocateTokens (h : N) | DeclaratorMainTask (h : N) | OnSetNewPrevHash (h : N).
Definition declarator_handle (task : DeclaratorTask) : N :=
  match task with AllocateTokens h => h | DeclaratorMainTask h => h | OnSetNewPrevHash h => h end.
Definition add_allocate_tokens (h : N) := list_send_task declarator_handle (AllocateTokens h).
Definition add_declarator_main_task (h : N) :=
  list_send_task declarator_handle (DeclaratorMainTask h).
Definition add_on_set_new_prev_hash (h : N) :=
  list_send_task declarator_handle (OnSetNewPrevHash h).

(** ** Its miners' side ([jd_client/mining_downstream/task_manager.rs]) *)
Inductive MiningNodeTask := SetChannelFactory (h : N) | MiningNodeMainTask (h : N).
Definition mining_node_handle (task : MiningNodeTask) : N :=
  match task with SetChannelFactory h => h | MiningNodeMainTask h => h end.
Definition add_set_channel_factory (h : N) :=
  list_send_task mining_node_handle (SetChannelFactory h).
Definition add_mining_node_main_task (h : N) :=
  list_send_task mining_node_handle (MiningNodeMainTask h).

(** ** Its pool side ([jd_client/mining_upstream/task_manager.rs]) *)
Inductive JdUpstreamTask := JdUpstreamMainTask (h : N).
Definition jd_upstream_handle (task : JdUpstreamTask) : N :=
  match task with JdUpstreamMainTask h => h end.
Definition add_jd_upstream_main_task (h : N) :=
  list_send_task jd_upstream_handle (JdUpstreamMainTask h).

(** ** Its template receiver ([jd_client/template_receiver/task_manager.rs]) *)
Inductive TemplateTask := OnNewSolution (h : N) | TemplateMainTask (h : N).
Definition template_handle (task : TemplateTask) : N :=
  match task with OnNewSolution h => h | TemplateMainTask h => h end.
Definition add_on_new_solution (h : N) := list_send_task template_handle (OnNewSolution h).
Definition add_template_main_task (h : N) := list_send_task template_handle (TemplateMainTask h).

(** ** The pool's connection ([minin_pool_connection/task_manager.rs]) *)
Inductive PoolTask := Sv2UpRelayUp (h : N) | Sv2UpRelayDown (h : N).
Definition pool_handle (task : PoolTask) : N :=
  match task with Sv2UpRelayUp h => h | Sv2UpRelayDown h => h end.
Definition add_sv2_relay_up (h : N) := list_send_task pool_handle (Sv2UpRelayUp h).
Definition add_sv2_relay_down (h : N) := list_send_task pool_handle (Sv2UpRelayDown h).

(** ** The share accounting relay ([share_accounter/task_manager.rs]) *)
Inductive AccounterTask := RelayUpTask (h : N) | RelayDownTask (h : N).
Definition accounter_handle (task : AccounterTask) : N :=
  match task with RelayUpTask h => h | RelayDownTask h => h end.
Definition add_relay_up (h : N) := list_send_task accounter_handle (RelayUpTask h).
Definition add_relay_down (h : N) := list_send_task accounter_handle (RelayDownTask h).
