(* ===== verification/SessionTiming.v ===== *)
(** * Session timing

    [debug_timing.rs]: how long the stages of a miner's connection took, collected while the
    variable [SV1_SESSION_TIMING] asks for it and summarised for the HTTP API
    ([get_session_timing] of [api/routes.rs]).  Durations are nanoseconds; the clock and the
    environment are inputs, and the two statics of the file are the state [TimingGlobals]. *)

From S2P Require Import Prelude Str F32.
From stdpp Require Import sorting.

Inductive SessionTimingStage :=
| AcceptQueueWait | BridgeOpen | DownstreamInit | AcceptToDownstreamReady
| AcceptToSubscribe | AcceptToAuthorize | AcceptToFirstNotify.
#[export] Instance stage_eq_dec : EqDecision SessionTimingStage.
Proof. solve_decision. Defined.

(** ** Summaries *)
Record SessionStageStats := MkStageStats {
  sst_count : nat;
  sst_min_ms : f64;
  sst_avg_ms : f64;
  sst_p50_ms : f64;
  sst_p95_ms : f64;
  sst_max_ms : f64
}.

Definition ms_of_us (us : N) : f64 := f64_div (f64_of_N us) (f64_of_N 1000).

(** [percentile_ms]: the index it reads, and the value; [None] is a panic of the indexing. *)
Definition percentile_index (n : nat) (percentile : f64) : nat :=
  let last_index := n - 1 in
  let index := f32_as_unsigned usize_max
    (f64_round (f64_mul (f64_of_N (N.of_nat last_index)) percentile)) in
  N.to_nat (N.min index (N.of_nat last_index)).
Definition percentile_ms (samples_us : list N) (percentile : f64) : option f64 :=
  ms_of_us <$> samples_us !! percentile_index (length samples_us) percentile.

Definition P50 : f64 := f64_div (f64_of_N 50) (f64_of_N 100).
Definition P95 : f64 := f64_div (f64_of_N 95) (f64_of_N 100).

(** [stage_stats]; the outer [None] is a panic. *)
Definition sum_of (samples : list N) : N := foldr N.add 0%N samples.
Definition stage_stats (samples_us : list N) : option (option SessionStageStats) :=
  match samples_us with
  | [] => Some None
  | _ =>
      let ordered := merge_sort N.le samples_us in
      let count := length ordered in
      min ← ordered !! 0;
      p50 ← percentile_ms ordered P50;
      p95 ← percentile_ms ordered P95;
      max ← ordered !! (count - 1);
      Some (Some (MkStageStats count (ms_of_us min)
        (f64_div (f64_div (f64_of_N (sum_of ordered)) (f64_of_N (N.of_nat count)))
           (f64_of_N 1000))
        p50 p95 (ms_of_us max)))
  end.

(** ** The collector: the samples of each stage, in microseconds *)
Record SessionTimingCollector := MkCollector {
  co_accept_queue_wait_us : list N;
  co_bridge_open_us : list N;
  co_downstream_init_us : list N;
  co_accept_to_downstream_ready_us : list N;
  co_accept_to_subscribe_us : list N;
  co_accept_to_authorize_us : list N;
  co_accept_to_first_notify_us : list N
}.
Definition collector_default : SessionTimingCollector := MkCollector [] [] [] [] [] [] [].
Definition collector_record (stage : SessionTimingStage) (duration : N)
    (c : SessionTimingCollector) : SessionTimingCollector :=
  let 'MkCollector a b d r s u n := c in
  let micros := N.min (duration / 1000) u64_max in
  match stage with
  | AcceptQueueWait => MkCollector (a ++ [micros]) b d r s u n
  | BridgeOpen => MkCollector a (b ++ [micros]) d r s u n
  | DownstreamInit => MkCollector a b (d ++ [micros]) r s u n
  | AcceptToDownstreamReady => MkCollector a b d (r ++ [micros]) s u n
  | AcceptToSubscribe => MkCollector a b d r (s ++ [micros]) u n
  | AcceptToAuthorize => MkCollector a b d r s (u ++ [micros]) n
  | AcceptToFirstNotify => MkCollector a b d r s u (n ++ [micros])
  end.
Definition samples_of_stage (stage : SessionTimingStage) (c : SessionTimingCollector) : list N :=
  match stage with
  | AcceptQueueWait => co_accept_queue_wait_us c
  | BridgeOpen => co_bridge_open_us c
  | DownstreamInit => co_downstream_init_us c
  | AcceptToDownstreamReady => co_accept_to_downstream_ready_us c
  | AcceptToSubscribe => co_accept_to_subscribe_us c
  | AcceptToAuthorize => co_accept_to_authorize_us c
  | AcceptToFirstNotify => co_accept_to_first_notify_us c
  end.

(** A snapshot: whether timing is enabled, and the summary of each stage. *)
Record SessionTimingSnapshot := MkTimingSnapshot {
  sn_enabled : bool;
  sn_accept_queue_wait : option SessionStageStats;
  sn_bridge_open : option SessionStageStats;
  sn_downstream_init : option SessionStageStats;
  sn_accept_to_downstream_ready : option SessionStageStats;
  sn_accept_to_subscribe : option SessionStageStats;
  sn_accept_to_authorize : option SessionStageStats;
  sn_accept_to_first_notify : option SessionStageStats
}.
Definition empty_snapshot (enabled : bool) : SessionTimingSnapshot :=
  MkTimingSnapshot enabled None None None None None None None.
Definition collector_snapshot (c : SessionTimingCollector) : option SessionTimingSnapshot :=
  accept_queue_wait ← stage_stats (co_accept_queue_wait_us c);
  bridge_open ← stage_stats (co_bridge_open_us c);
  downstream_init ← stage_stats (co_downstream_init_us c);
  accept_to_downstream_ready ← stage_stats (co_accept_to_downstream_ready_us c);
  accept_to_subscribe ← stage_stats (co_accept_to_subscribe_us c);
  accept_to_authorize ← stage_stats (co_accept_to_authorize_us c);
  accept_to_first_notify ← stage_stats (co_accept_to_first_notify_us c);
  Some (MkTimingSnapshot true accept_queue_wait bridge_open downstream_init
    accept_to_downstream_ready accept_to_subscribe accept_to_authorize accept_to_first_notify).
Definition snapshot_stage (stage : SessionTimingStage) (s : SessionTimingSnapshot)
    : option SessionStageStats :=
  match stage with
  | AcceptQueueWait => sn_accept_queue_wait s
  | BridgeOpen => sn_bridge_open s
  | DownstreamInit => sn_downstream_init s
  | AcceptToDownstreamReady => sn_accept_to_downstream_ready s
  | AcceptToSubscribe => sn_accept_to_subscribe s
  | AcceptToAuthorize => sn_accept_to_authorize s
  | AcceptToFirstNotify => sn_accept_to_first_notify s
  end.

(** ** The statics *)
Definition parse_enabled_flag (value : str) : bool :=
  negb (bool_decide (to_ascii_lowercase (trim value) ∈
    [lit "0"; lit "false"; lit "off"; lit "no"])).

Record TimingGlobals := MkTimingGlobals {
  tg_enabled : option bool;
  tg_collector : option (Mutex SessionTimingCollector)
}.
(** [session_timing_enabled]: the variable is read once. *)
Definition session_timing_enabled (env : option str) (g : TimingGlobals)
    : bool * TimingGlobals :=
  let enabled := match tg_enabled g with
                 | Some enabled => enabled
                 | None => match env with Some value => parse_enabled_flag value | None => false end
                 end in
  (enabled, MkTimingGlobals (Some enabled) (tg_collector g)).
Definition collector_or_init (g : TimingGlobals) : Mutex SessionTimingCollector :=
  default (new_mutex collector_default) (tg_collector g).
Definition record_stage (env : option str) (stage : SessionTimingStage) (duration : N)
    (g : TimingGlobals) : TimingGlobals :=
  let '(enabled, g) := session_timing_enabled env g in
  if negb enabled then g
  else
    let collector := collector_or_init g in
    MkTimingGlobals (tg_enabled g) (Some
      match lock collector with
      | Some c => store collector (collector_record stage duration c)
      | None => collector
      end).
Arguments record_stage : simpl never.
Definition snapshot (env : option str) (g : TimingGlobals)
    : option (SessionTimingSnapshot * TimingGlobals) :=
  let '(enabled, g) := session_timing_enabled env g in
  if negb enabled then Some (empty_snapshot false, g)
  else
    let collector := collector_or_init g in
    let g := MkTimingGlobals (tg_enabled g) (Some collector) in
    match lock collector with
    | Some c => s ← collector_snapshot c; Some (s, g)
    | None => Some (empty_snapshot true, g)
    end.

(** ** The timing of one miner *)
Record DownstreamSessionTiming := MkSessionTiming {
  dt_accepted_at : N;
  dt_subscribe_recorded : bool;
  dt_authorize_recorded : bool;
  dt_first_notify_recorded : bool
}.
Definition session_timing_new (accepted_at : N) : DownstreamSessionTiming :=
  MkSessionTiming accepted_at false false false.
Definition record_subscribe_if_needed (env : option str) (now : N)
    (t : DownstreamSessionTiming) (g : TimingGlobals) : DownstreamSessionTiming * TimingGlobals :=
  if negb (dt_subscribe_recorded t)
  then (MkSessionTiming (dt_accepted_at t) true (dt_authorize_recorded t)
          (dt_first_notify_recorded t),
        record_stage env AcceptToSubscribe (now - dt_accepted_at t) g)
  else (t, g).
Definition record_authorize_if_needed (env : option str) (now : N)
    (t : DownstreamSessionTiming) (g : TimingGlobals) : DownstreamSessionTiming * TimingGlobals :=
  if negb (dt_authorize_recorded t)
  then (MkSessionTiming (dt_accepted_at t) (dt_subscribe_recorded t) true
          (dt_first_notify_recorded t),
        record_stage env AcceptToAuthorize (now - dt_accepted_at t) g)
  else (t, g).
Definition record_first_notify_if_needed (env : option str) (now : N)
    (t : DownstreamSessionTiming) (g : TimingGlobals) : DownstreamSessionTiming * TimingGlobals :=
  if negb (dt_first_notify_recorded t)
  then (MkSessionTiming (dt_accepted_at t) (dt_subscribe_recorded t) (dt_authorize_recorded t)
          true,
        record_stage env AcceptToFirstNotify (now - dt_accepted_at t) g)
  else (t, g).

(** ** Properties *)
Lemma ordered_bounds (l : list N) i x :
  l !! i = Some x → StronglySorted N.le l →
  ∀ j y, (i <= j)%nat → l !! j = Some y → (x <= y)%N.
Proof.
  intros Hi Hs. revert i Hi. induction Hs as [|z l Hs IH Hall]; intros i Hi j y Hij Hj; [done|].
  destruct i as [|i], j as [|j]; cbn in Hi, Hj; try lia.
  - assert (x = y) as -> by congruence. lia.
  - assert (x = z) as -> by congruence. rewrite Forall_forall in Hall. apply Hall.
    by eapply list_elem_of_lookup_2.
  - apply (IH i Hi j y); [lia|done].
Qed.

Lemma percentile_index_lt n percentile : n ≠ 0 → (percentile_index n percentile < n)%nat.
Proof. intros Hn. unfold percentile_index. lia. Qed.
Lemma percentile_ms_elem (l : list N) percentile :
  l ≠ [] → ∃ x, x ∈ l ∧ percentile_ms l percentile = Some (ms_of_us x).
Proof.
  intros Hl. unfold percentile_ms.
  destruct (lookup_lt_is_Some_2 l (percentile_index (length l) percentile)) as [x Hx].
  { apply percentile_index_lt. by destruct l. }
  exists x. rewrite Hx. split; [by eapply list_elem_of_lookup_2|done].
Qed.

(** A stage's summary is that of its samples, and computing it never fails: without samples
    there is none; otherwise it counts them all, its minimum and maximum are the least and the
    greatest sample, and its percentiles are samples, whatever the rounding of the index. *)
Theorem stage_stats_sound samples :
  match stage_stats samples with
  | None => False
  | Some None => samples = []
  | Some (Some s) =>
      sst_count s = length samples ∧
      ∃ least greatest p50 p95,
        least ∈ samples ∧ greatest ∈ samples ∧ p50 ∈ samples ∧ p95 ∈ samples ∧
        (∀ x, x ∈ samples → (least <= x <= greatest)%N) ∧
        sst_min_ms s = ms_of_us least ∧ sst_max_ms s = ms_of_us greatest ∧
        sst_p50_ms s = ms_of_us p50 ∧ sst_p95_ms s = ms_of_us p95
  end.
Proof.
  destruct samples as [|a samples]; [done|]. unfold stage_stats.
  set (ordered := merge_sort N.le (a :: samples)).
  assert (Hp : ordered ≡ₚ a :: samples) by apply merge_sort_Permutation.
  assert (Hs : StronglySorted N.le ordered) by (apply StronglySorted_merge_sort; apply _).
  assert (Hlen : length ordered = S (length samples)) by by rewrite Hp.
  assert (Hne : ordered ≠ []) by by intros H; rewrite H in Hlen.
  destruct (lookup_lt_is_Some_2 ordered 0) as [least Hleast]; [lia|].
  destruct (lookup_lt_is_Some_2 ordered (length ordered - 1)) as [greatest Hgreatest]; [lia|].
  destruct (percentile_ms_elem ordered P50 Hne) as (p50 & Hp50 & E50).
  destruct (percentile_ms_elem ordered P95 Hne) as (p95 & Hp95 & E95).
  rewrite Hleast, E50, E95. cbn [mbind option_bind]. rewrite Hgreatest. cbn.
  split; [done|]. exists least, greatest, p50, p95.
  rewrite Hp in Hp50, Hp95.
  assert (Hin : ∀ i x, ordered !! i = Some x → x ∈ a :: samples).
  { intros i x Hx. rewrite <- Hp. by eapply list_elem_of_lookup_2. }
  split_and!; [by eapply Hin|by eapply Hin|done|done| |done..].
  intros x Hx. rewrite <- Hp in Hx. apply list_elem_of_lookup in Hx as [i Hi]. split.
  - by apply (ordered_bounds ordered 0 least Hleast Hs i x); [lia|].
  - apply (ordered_bounds ordered i x Hi Hs (length ordered - 1)); [|done].
    apply lookup_lt_Some in Hi. lia.
Qed.

(** The calls of the handlers of one miner. *)
Inductive TimingCall := CallSubscribe | CallAuthorize | CallFirstNotify.
#[export] Instance call_eq_dec : EqDecision TimingCall.
Proof. solve_decision. Defined.
Definition timing_call (env : option str) (c : TimingCall * N)
    (s : DownstreamSessionTiming * TimingGlobals) : DownstreamSessionTiming * TimingGlobals :=
  match c.1 with
  | CallSubscribe => record_subscribe_if_needed env c.2 s.1 s.2
  | CallAuthorize => record_authorize_if_needed env c.2 s.1 s.2
  | CallFirstNotify => record_first_notify_if_needed env c.2 s.1 s.2
  end.
Definition stage_of_call (c : TimingCall) : SessionTimingStage :=
  match c with
  | CallSubscribe => AcceptToSubscribe
  | CallAuthorize => AcceptToAuthorize
  | CallFirstNotify => AcceptToFirstNotify
  end.
Definition recorded_flag (c : TimingCall) (t : DownstreamSessionTiming) : bool :=
  match c with
  | CallSubscribe => dt_subscribe_recorded t
  | CallAuthorize => dt_authorize_recorded t
  | CallFirstNotify => dt_first_notify_recorded t
  end.
Definition micros_since (accepted_at now : N) : N := N.min ((now - accepted_at) / 1000) u64_max.
Definition first_call (c : TimingCall) (calls : list (TimingCall * N)) : list N :=
  option_list (head (filter (λ call, call.1 = c) calls).*2).

Definition collected (stage : SessionTimingStage) (g : TimingGlobals) : list N :=
  samples_of_stage stage (guarded (collector_or_init g)).
Definition usable (g : TimingGlobals) : Prop :=
  tg_enabled g = Some true ∧ poisoned (collector_or_init g) = false.

Lemma record_stage_collects env stage d g :
  usable g → usable (record_stage env stage d g) ∧
  ∀ stage', collected stage' (record_stage env stage d g) =
    collected stage' g ++ (if decide (stage' = stage) then [N.min (d / 1000) u64_max] else []).
Proof.
  intros [He Hp]. unfold record_stage, session_timing_enabled. rewrite He. cbn [negb].
  unfold usable, collected, collector_or_init in *. cbn [tg_enabled tg_collector default from_option].
  unfold lock. rewrite Hp. cbn. rewrite Hp. split; [done|].
  intros stage'. destruct (guarded _), stage, stage'; cbn; by rewrite ?app_nil_r.
Qed.

Lemma timing_call_spec env c now t g :
  usable g →
  let '(t', g') := timing_call env (c, now) (t, g) in
  usable g' ∧ dt_accepted_at t' = dt_accepted_at t ∧
  (∀ c', recorded_flag c' t' = recorded_flag c' t || bool_decide (c' = c)) ∧
  ∀ stage, collected stage g' = collected stage g ++
    (if recorded_flag c t then []
     else if decide (stage = stage_of_call c) then [micros_since (dt_accepted_at t) now] else []).
Proof.
  intros Hu. destruct t as [a s u n].
  destruct c; cbn; unfold record_subscribe_if_needed, record_authorize_if_needed,
    record_first_notify_if_needed; cbn.
  all: match goal with |- context [negb ?b] => destruct b end; cbn;
    [split_and!; [done..|intros []; by rewrite ?orb_false_r|intros; by rewrite app_nil_r]|].
  all: match goal with |- context [record_stage ?e ?st ?d ?gl] =>
    destruct (record_stage_collects e st d gl Hu) as [H1 H2] end.
  all: split_and!; [done..|intros []; by rewrite ?orb_false_r|done].
Qed.

Lemma timing_calls_collect env calls t g c :
  usable g →
  let '(t', g') := fold_left (λ s call, timing_call env call s) calls (t, g) in
  collected (stage_of_call c) g' = collected (stage_of_call c) g ++
    (if recorded_flag c t then []
     else micros_since (dt_accepted_at t) <$> first_call c calls).
Proof.
  revert t g. induction calls as [|[c' now] calls IH]; intros t g Hu.
  { cbn. destruct (recorded_flag c t); by rewrite app_nil_r. }
  cbn [fold_left]. pose proof (timing_call_spec env c' now t g Hu) as H.
  destruct (timing_call env (c', now) (t, g)) as [t' g']. destruct H as (Hu' & Ha & Hf & Hc).
  specialize (IH t' g' Hu'). destruct (fold_left _ calls (t', g')) as [t'' g''].
  rewrite IH, Hc, Hf, Ha, <- app_assoc. f_equal. unfold first_call. rewrite filter_cons. cbn [fst].
  destruct (decide (c' = c)) as [->|Hne].
  - rewrite bool_decide_true by done. rewrite orb_true_r. cbn.
    destruct (recorded_flag c t); [done|]. by rewrite decide_True.
  - rewrite bool_decide_false by congruence. rewrite orb_false_r.
    rewrite (decide_False (P := stage_of_call c = stage_of_call c')) by (destruct c, c'; done).
    by destruct (recorded_flag c' t).
Qed.

(** Each stage of a miner is timed once: however often it subscribes, authorizes and is
    sent jobs, what the session adds to a stage is the time from its acceptance to the first
    of these calls, and nothing when there was none. *)
Theorem stages_timed_once env calls accepted_at g c :
  usable g →
  let '(_, g') := fold_left (λ s call, timing_call env call s) calls
                    (session_timing_new accepted_at, g) in
  collected (stage_of_call c) g' =
    collected (stage_of_call c) g ++ (micros_since accepted_at <$> first_call c calls).
Proof.
  intros Hu. pose proof (timing_calls_collect env calls (session_timing_new accepted_at) g c Hu) as H.
  destruct (fold_left _ _ _) as [t' g']. rewrite H. by destruct c.
Qed.
Lemma stages_timed_once_witness :
  let g := record_stage (Some (lit "1")) BridgeOpen 5000 (MkTimingGlobals None None) in
  let '(_, g') := fold_left (λ s call, timing_call None call s)
    [(CallAuthorize, 9000); (CallSubscribe, 10000); (CallAuthorize, 20000)]%N
    (session_timing_new 1000, g) in
  collected AcceptToAuthorize g' = [8]%N.
Proof.
  exact (stages_timed_once None [(CallAuthorize, 9000); (CallSubscribe, 10000); (CallAuthorize, 20000)]%N
    1000 (record_stage (Some (lit "1")) BridgeOpen 5000 (MkTimingGlobals None None)) CallAuthorize
    (conj eq_refl eq_refl)).
Defined.

(** When the variable does not ask for it nothing is collected, whatever it says later. *)
Theorem disabled_collects_nothing env env' stage d :
  parse_enabled_flag env = false →
  let g := record_stage (Some env) stage d (MkTimingGlobals None None) in
  tg_collector (record_stage env' stage d g) = None ∧
  snapshot env' g = Some (empty_snapshot false, g).
Proof. intros H. cbn. unfold record_stage, snapshot, session_timing_enabled. cbn. rewrite H. by cbn. Qed.
Lemma disabled_collects_nothing_witness :
  parse_enabled_flag (lit " Off") = false ∧
  snapshot None (record_stage (Some (lit " Off")) BridgeOpen 5 (MkTimingGlobals None None))
    = Some (empty_snapshot false, record_stage (Some (lit " Off")) BridgeOpen 5 (MkTimingGlobals None None)).
Proof.
  split; [vm_compute; reflexivity|].
  apply (disabled_collects_nothing (lit " Off") None BridgeOpen 5). vm_compute. reflexivity.
Defined.

(** The examples of the tests of the source. *)
Example percentiles_of_five :
  match stage_stats [1000; 2000; 3000; 4000; 5000]%N with
  | Some (Some s) => (sst_p50_ms s, sst_p95_ms s, sst_avg_ms s) =
      (f64_of_N 3, f64_of_N 5, f64_of_N 3)
  | _ => False
  end.
Proof. vm_compute. reflexivity. Qed.
Example enabled_flag_false_values :
  parse_enabled_flag <$> [lit "0"; lit "false"; lit "False"; lit "off"; lit "no"; lit "1"; lit "yes"]
  = [false; false; false; false; false; true; true].
Proof. vm_compute. reflexivity. Qed.
