(* ===== verification/Sv2.v ===== *)
(** * Interface to the SV2 crates

    The messages of [mining_sv2] that the bridge and the upstream exchange with the
    pool, and the channel factory of [roles_logic_sv2], whose logic belongs to that
    crate: its operations are those of the class [MiningLib]. *)

From S2P Require Import Prelude Str F32 Sv1.

(** ** Messages *)
Record SubmitSharesExtended := MkSubmitSharesExtended {
  se_channel_id : N;
  se_sequence_number : N;
  se_job_id : N;
  se_nonce : N;
  se_ntime : N;
  se_version : N;
  se_extranonce : bytes
}.

Definition with_channel_and_sequence (channel_id sequence_number : N)
    (s : SubmitSharesExtended) : SubmitSharesExtended :=
  MkSubmitSharesExtended channel_id sequence_number (se_job_id s) (se_nonce s) (se_ntime s)
    (se_version s) (se_extranonce s).

Record SetNewPrevHash := MkSetNewPrevHash {
  ph_channel_id : N;
  ph_job_id : N;
  ph_prev_hash : bytes;
  ph_min_ntime : N;
  ph_nbits : N
}.

Record NewExtendedMiningJob := MkNewExtendedMiningJob {
  ej_channel_id : N;
  ej_job_id : N;
  ej_min_ntime : option N;
  ej_version : N;
  ej_version_rolling_allowed : bool;
  ej_merkle_path : list bytes;
  ej_coinbase_tx_prefix : bytes;
  ej_coinbase_tx_suffix : bytes
}.

(** The messages that open a channel, as far as the bridge reads them. *)
Record OpenExtendedMiningChannelSuccess := MkOpenSuccess {
  os_channel_id : N;
  os_extranonce_prefix : bytes;
  os_extranonce_size : N
}.
Inductive OpenChannelMessage :=
| OpenSuccess (m : OpenExtendedMiningChannelSuccess)
| OtherMiningMessage.

(** [binary_sv2]: the byte strings that fit a [B0255] or a [Str0255]. *)
Class BinaryLib := {
  fits_0255 : nat → bool;
  fits_0255_spec n : fits_0255 n = true ↔ (n <= 255)%nat
}.

(** [roles_logic_sv2::Error], by the cases the client tells apart. *)
Inductive Sv2Error :=
| NoValidJob
| ShareDoNotMatchAnyJob
| JobIsNotFutureButPrevHashNotPresent
| OtherSv2Error (code : N).

(** [channel_factory::Share], [channel_factory::OnNewShare] *)
Inductive Share := Extended (share : SubmitSharesExtended) | Standard.
Inductive OnNewShare :=
| SendErrorDownstream (error_code : bytes)
| SendSubmitShareUpstream (share : Share)
| RelaySubmitShareUpstream
| ShareMeetDownstreamTarget
| ShareMeetBitcoinTarget.

(** ** The factory

    A [ProxyExtendedChannelFactory] is a state of type [Factory]; the methods that
    take [&mut self] return the state after the call. *)
Class MiningLib := {
  Factory : Type;
  (** [job(id).is_some()] *)
  factory_job : Factory → N → bool;
  set_target : bytes → Factory → Factory;
  last_valid_job_version : Factory → option N;
  on_submit_shares_extended :
    SubmitSharesExtended → Factory → result OnNewShare Sv2Error * Factory;
  on_new_prev_hash : SetNewPrevHash → Factory → result unit Sv2Error * Factory;
  on_new_extended_mining_job :
    NewExtendedMiningJob → Factory → result unit Sv2Error * Factory;
  get_extranonce_len : Factory → nat;
  update_target_for_channel : N → bytes → Factory → Factory;
  new_extended_channel : f32 → Factory → result (list OpenChannelMessage) Sv2Error * Factory;
  (** [NewExtendedMiningJob::is_future] *)
  is_future : NewExtendedMiningJob → bool;
  extended_job_to_non_segwit :
    NewExtendedMiningJob → nat → result NewExtendedMiningJob Sv2Error
}.

(** A [BinaryLib] to compute with. *)
#[export] Instance binary_model : BinaryLib := {
  fits_0255 := λ n, n <=? 255;
  fits_0255_spec n := Nat.leb_le n 255
}.
