(* ===== verification/Bridge.v ===== *)
(** * The bridge between SV1 and SV2

    Models [Bridge] of [src/src/translator/proxy/bridge.rs] and [create_notify] of
    [next_mining_notify.rs]: the path of a share from a downstream to the upstream,
    and of jobs and previous hashes from the upstream to the downstreams. *)

From S2P Require Import Prelude Str Bitcoin F32 Sv1 RskCommitment MergeState MergeMining RecentJobs ShareLimits Effects Stats ProxyState Downstream Sv2.

(** ** Data *)

(** [translator::MiningNotify] *)
Record MiningNotify := MkMiningNotify {
  mn_notify : Notify;
  mn_merge_mining_binding_id : option N
}.

Record BoundExtendedJob := MkBoundExtendedJob {
  bj_job : NewExtendedMiningJob;
  bj_merge_mining_binding_id : option N
}.

(** A reply channel is known by a number; [SubmitShareResult] is what it carries. *)
Definition SubmitShareResult : Type := result unit RejectionReason.
Record UpstreamSubmitShare := MkUpstreamSubmitShare {
  us_share : SubmitSharesExtended;
  us_result_tx : N
}.

Record SetDownstreamTarget := MkSetDownstreamTarget {
  dt_channel_id : N;
  dt_new_target : bytes
}.

(** [DownstreamMessages]; a share comes with its reply channel. *)
Inductive DownstreamMessages :=
| SubmitShares (share : SubmitShareWithChannelId) (result_tx : N)
| SetTarget (new_target : SetDownstreamTarget).

(** [translator::BridgeWork] *)
Inductive BridgeWork :=
| WorkNewExtendedMiningJob (job : NewExtendedMiningJob) (merge_mining_binding_id : option N)
| WorkSetNewPrevHash (set_new_prev_hash : SetNewPrevHash).

Record OpenSv1Downstream := MkOpenSv1Downstream {
  od_channel_id : N;
  od_last_notify : option MiningNotify;
  od_extranonce : bytes;
  od_extranonce2_len : N
}.

Inductive BridgeError :=
| BridgeMutexPoisoned
| RolesSv2Logic (e : Sv2Error)
| BridgeChannelError
| Unrecoverable
| InvalidVersionBitsSubmission
| ImpossibleToOpenChannel.

Section bridge.
Context `{ML : !MiningLib}.

Record Bridge := MkBridge {
  br_tx_sv2_submit_shares_ext : Sender UpstreamSubmitShare;
  br_tx_sv1_notify : Sender MiningNotify;
  br_last_notify : option MiningNotify;
  br_channel_factory : Factory;
  br_future_jobs : list BoundExtendedJob;
  br_last_p_hash : option SetNewPrevHash
}.

(** The objects the bridge shares: itself, the upstream target, the failure counter
    and share limits of the process, the merge-mining service, the proxy state, and
    the reply channels resolved so far. *)
Record BridgeWorld := MkBridgeWorld {
  bw_bridge : Mutex Bridge;
  bw_target : Mutex bytes;
  bw_submit_fail_counter : N;
  bw_globals : ShareGlobals;
  bw_merge : option MergeMining;
  bw_proxy : option (Mutex ProxyState);
  bw_resolved : list (N * SubmitShareResult)
}.

Definition set_bw_bridge v w := MkBridgeWorld v (bw_target w) (bw_submit_fail_counter w)
  (bw_globals w) (bw_merge w) (bw_proxy w) (bw_resolved w).
Definition set_bw_target v w := MkBridgeWorld (bw_bridge w) v (bw_submit_fail_counter w)
  (bw_globals w) (bw_merge w) (bw_proxy w) (bw_resolved w).
Definition set_bw_submit_fail_counter v w := MkBridgeWorld (bw_bridge w) (bw_target w) v
  (bw_globals w) (bw_merge w) (bw_proxy w) (bw_resolved w).
Definition set_bw_globals v w := MkBridgeWorld (bw_bridge w) (bw_target w)
  (bw_submit_fail_counter w) v (bw_merge w) (bw_proxy w) (bw_resolved w).
Definition set_bw_merge v w := MkBridgeWorld (bw_bridge w) (bw_target w)
  (bw_submit_fail_counter w) (bw_globals w) v (bw_proxy w) (bw_resolved w).
Definition set_bw_proxy v w := MkBridgeWorld (bw_bridge w) (bw_target w)
  (bw_submit_fail_counter w) (bw_globals w) (bw_merge w) v (bw_resolved w).
Definition set_bw_resolved v w := MkBridgeWorld (bw_bridge w) (bw_target w)
  (bw_submit_fail_counter w) (bw_globals w) (bw_merge w) (bw_proxy w) v.

Definition set_br_submit v b := MkBridge v (br_tx_sv1_notify b) (br_last_notify b)
  (br_channel_factory b) (br_future_jobs b) (br_last_p_hash b).
Definition set_br_notify v b := MkBridge (br_tx_sv2_submit_shares_ext b) v (br_last_notify b)
  (br_channel_factory b) (br_future_jobs b) (br_last_p_hash b).
Definition set_br_last_notify v b := MkBridge (br_tx_sv2_submit_shares_ext b)
  (br_tx_sv1_notify b) v (br_channel_factory b) (br_future_jobs b) (br_last_p_hash b).
Definition set_br_factory v b := MkBridge (br_tx_sv2_submit_shares_ext b)
  (br_tx_sv1_notify b) (br_last_notify b) v (br_future_jobs b) (br_last_p_hash b).
Definition set_br_future_jobs v b := MkBridge (br_tx_sv2_submit_shares_ext b)
  (br_tx_sv1_notify b) (br_last_notify b) (br_channel_factory b) v (br_last_p_hash b).
Definition set_br_last_p_hash v b := MkBridge (br_tx_sv2_submit_shares_ext b)
  (br_tx_sv1_notify b) (br_last_notify b) (br_channel_factory b) (br_future_jobs b) v.

(** What the environment decides: the merge-mining secret, the clock, and whether
    difficulty updates are disabled. *)
Record BridgeEnv := MkBridgeEnv {
  be_api_secret : option bytes;
  be_now : N;
  be_difficulty_updates_disabled : bool
}.

Abbreviation BM := (Handler BridgeWorld BridgeError).

(** [self_.safe_lock(...).map_err(|_| Error::BridgeMutexPoisoned)?], on the bridge
    and on the target. *)
Definition lock_bridge {A} (m : BM A) : BM A :=
  with_lock bw_bridge set_bw_bridge BridgeMutexPoisoned m.
Definition lock_target {A} (m : BM A) : BM A :=
  with_lock bw_target set_bw_target BridgeMutexPoisoned m.

Definition bridge {A} (f : Bridge → A) : BM A := gets (λ w, f (guarded (bw_bridge w))).
Definition update_bridge (f : Bridge → Bridge) : BM unit :=
  modify (λ w, set_bw_bridge (store (bw_bridge w) (f (guarded (bw_bridge w)))) w).
(** A method of the channel factory. *)
Definition factory_call {A} (f : Factory → A * Factory) : BM A := λ w,
  let b := guarded (bw_bridge w) in
  let '(a, factory) := f (br_channel_factory b) in
  (Done a, set_bw_bridge (store (bw_bridge w) (set_br_factory factory b)) w).

(** ** Notifications *)

(** [create_notify]; [None] is a panic. *)
Definition create_notify (new_prev_hash : SetNewPrevHash) (new_job : NewExtendedMiningJob)
    (clean_jobs : bool) (extranonce_len : nat) : option Notify :=
  match extended_job_to_non_segwit new_job extranonce_len with
  | Err _ => None
  | Ok new_job =>
      let time :=
        if is_future new_job then Some (ph_min_ntime new_prev_hash)
        else ej_min_ntime new_job in
      match time with
      | None => None
      | Some time =>
          Some (MkNotify (display_N (ej_job_id new_job)) (ph_prev_hash new_prev_hash)
            (ej_coinbase_tx_prefix new_job) (ej_coinbase_tx_suffix new_job)
            (ej_merkle_path new_job) (ej_version new_job) (ph_nbits new_prev_hash) time
            clean_jobs)
      end
  end.

(** [set_active_job_binding] and [clear_pending_job_binding] of [merge_mining]. *)
Definition activate_binding (env : BridgeEnv) (binding_id : option N) : BM unit :=
  modify (λ w, set_bw_merge
    (set_active_job_binding_global (be_api_secret env) (bw_merge w) binding_id) w).
Definition clear_pending_binding (env : BridgeEnv) (binding_id : option N) : BM unit :=
  modify (λ w, set_bw_merge
    (clear_pending_job_binding_global (be_api_secret env) (bw_merge w) binding_id) w).
Fixpoint clear_pending_bindings (env : BridgeEnv) (discarded : list BoundExtendedJob)
    : BM unit :=
  match discarded with
  | [] => mret tt
  | job :: discarded =>
      _ ← clear_pending_binding env (bj_merge_mining_binding_id job);
      clear_pending_bindings env discarded
  end.

(** [tx_sv1_notify.send]: nobody hears it when there is no listener. *)
Definition broadcast_notify (notify : MiningNotify) : BM unit :=
  update_bridge (λ b,
    if tx_open (br_tx_sv1_notify b)
    then set_br_notify (sender_push notify (br_tx_sv1_notify b)) b else b).

(** Both handlers end with a notification: bound, broadcast and remembered. *)
Definition issue_notify (env : BridgeEnv) (notify : MiningNotify) : BM unit :=
  _ ← activate_binding env (mn_merge_mining_binding_id notify);
  _ ← broadcast_notify notify;
  lock_bridge (update_bridge (set_br_last_notify (Some notify))).

(** The loop of [handle_new_prev_hash_] over the jobs in the order they are popped:
    whether one of them matches. *)
Fixpoint pop_future_jobs (env : BridgeEnv) (sv2_set_new_prev_hash : SetNewPrevHash)
    (extranonce_len : nat) (popped : list BoundExtendedJob) : BM bool :=
  match popped with
  | [] => mret false
  | job :: rest =>
      if (ej_job_id (bj_job job) =? ph_job_id sv2_set_new_prev_hash)%N then
        match create_notify sv2_set_new_prev_hash (bj_job job) true extranonce_len with
        | None => panic
        | Some notify =>
            _ ← issue_notify env (MkMiningNotify notify (bj_merge_mining_binding_id job));
            _ ← clear_pending_bindings env (reverse rest);
            mret true
        end
      else
        _ ← clear_pending_binding env (bj_merge_mining_binding_id job);
        pop_future_jobs env sv2_set_new_prev_hash extranonce_len rest
  end.

(** [handle_new_prev_hash_] *)
Definition handle_new_prev_hash (env : BridgeEnv) (sv2_set_new_prev_hash : SetNewPrevHash)
    : BM unit :=
  _ ← lock_bridge (update_bridge (set_br_last_p_hash (Some sv2_set_new_prev_hash)));
  accepted ← lock_bridge (factory_call (on_new_prev_hash sv2_set_new_prev_hash));
  match (accepted : result unit Sv2Error) with
  | Err e => fail (RolesSv2Logic e)
  | Ok _ =>
      future_jobs ← lock_bridge (
        future_jobs ← bridge br_future_jobs;
        _ ← update_bridge (set_br_future_jobs []);
        mret future_jobs);
      extranonce_len ← lock_bridge (bridge (λ b, get_extranonce_len (br_channel_factory b)));
      _ ← pop_future_jobs env sv2_set_new_prev_hash extranonce_len (reverse future_jobs);
      mret tt
  end.

(** [handle_new_extended_mining_job_] *)
Definition handle_new_extended_mining_job (env : BridgeEnv)
    (sv2_new_extended_mining_job : NewExtendedMiningJob)
    (merge_mining_binding_id : option N) : BM unit :=
  accepted ← lock_bridge (factory_call
    (on_new_extended_mining_job sv2_new_extended_mining_job));
  match (accepted : result unit Sv2Error) with
  | Err _ => fail (RolesSv2Logic JobIsNotFutureButPrevHashNotPresent)
  | Ok _ =>
      extranonce_len ← lock_bridge (bridge (λ b, get_extranonce_len (br_channel_factory b)));
      if is_future sv2_new_extended_mining_job then
        lock_bridge (update_bridge (λ b, set_br_future_jobs (br_future_jobs b
          ++ [MkBoundExtendedJob sv2_new_extended_mining_job merge_mining_binding_id]) b))
      else
        last_p_hash_option ← lock_bridge (bridge br_last_p_hash);
        match (last_p_hash_option : option SetNewPrevHash) with
        | None => fail (RolesSv2Logic JobIsNotFutureButPrevHashNotPresent)
        | Some last_p_hash =>
            match create_notify last_p_hash sv2_new_extended_mining_job true extranonce_len with
            | None => panic
            | Some notify =>
                issue_notify env (MkMiningNotify notify merge_mining_binding_id)
            end
        end
  end.

(** The loop of [handle_upstream_work] on one message: whether it goes on. *)
Definition report {A} (f : Mutex ProxyState → option (Mutex ProxyState)) (a : A) : BM A :=
  _ ← modify (λ w, set_bw_proxy (bw_proxy w ≫= f) w); mret a.
Definition handle_upstream_work (env : BridgeEnv) (work : BridgeWork) : BM bool := λ w,
  match work with
  | WorkSetNewPrevHash set_new_prev_hash =>
      match handle_new_prev_hash env set_new_prev_hash w with
      | (Failed _, w) => report (update_upstream_state TranslatorUpstream) false w
      | (Panicked, w) => (Panicked, w)
      | (Done _, w) => (Done true, w)
      end
  | WorkNewExtendedMiningJob new_job merge_mining_binding_id =>
      match handle_new_extended_mining_job env new_job merge_mining_binding_id w with
      | (Failed _, w) => report (update_translator_state TranslatorDown) false w
      | (Panicked, w) => (Panicked, w)
      | (Done _, w) => (Done true, w)
      end
  end.

(** ** Shares *)

(** [Bridge::translate_submit] *)
Definition translate_submit (b : Bridge) (channel_id : N) (sv1_submit : Submit)
    (version_rolling_mask : option HexU32Be) : Outcome BridgeError SubmitSharesExtended :=
  match last_valid_job_version (br_channel_factory b) with
  | None => Failed Unrecoverable
  | Some last_version =>
      let version :=
        match sb_version_bits sv1_submit, version_rolling_mask with
        | Some vb, Some mask => Some (N.lor (N.ldiff last_version mask) (N.land vb mask))
        | None, None => Some last_version
        | _, _ => None
        end in
      match version with
      | None => Failed InvalidVersionBitsSubmission
      | Some version =>
          match parse_uint u32_max (sb_job_id sv1_submit) with
          | None => Panicked
          | Some job_id =>
              if 32 <? length (sb_extra_nonce2 sv1_submit) then Panicked
              else Done (MkSubmitSharesExtended channel_id 0 job_id (sb_nonce sv1_submit)
                     (sb_time sv1_submit) version (sb_extra_nonce2 sv1_submit))
          end
      end
  end.

(** [Bridge::resolve_submit] *)
Definition resolve_submit (result_tx : N) (result : SubmitShareResult) : BM unit :=
  modify (λ w, set_bw_resolved (bw_resolved w ++ [(result_tx, result)]) w).

(** The lookup and translation under the lock. *)
Definition translate_share (upstream_target : bytes) (channel_id : N) (share : Submit)
    (version_rolling_mask : option HexU32Be) : BM (result SubmitSharesExtended Sv2Error) :=
  match parse_uint u32_max (sb_job_id share) with
  | None => panic
  | Some job_id =>
      known ← bridge (λ b, factory_job (br_channel_factory b) job_id);
      if negb (known : bool) then mret (Err ShareDoNotMatchAnyJob)
      else
        _ ← factory_call (λ f, (tt, set_target upstream_target f));
        translated ← bridge (λ b, translate_submit b channel_id share version_rolling_mask);
        match (translated : Outcome BridgeError SubmitSharesExtended) with
        | Done translated => mret (Ok translated)
        | Failed _ => mret (Err NoValidJob)
        | Panicked => panic
        end
  end.

(** The count of failed translations after one more. *)
Definition count_submit_failure : BM N :=
  count ← gets (λ w, wrapping_add u32_max (bw_submit_fail_counter w) 1);
  _ ← modify (set_bw_submit_fail_counter count);
  mret count.

(** [tx_sv2_submit_shares_ext.send]: whether the upstream task took the share. *)
Definition send_upstream (share : UpstreamSubmitShare) : BM bool := λ w,
  let b := guarded (bw_bridge w) in
  let tx := br_tx_sv2_submit_shares_ext b in
  if tx_open tx
  then (Done true, set_bw_bridge (store (bw_bridge w) (set_br_submit (sender_push share tx) b)) w)
  else (Done false, w).

(** [allow_submit_share] of the globals. *)
Definition reserve_slot (env : BridgeEnv) : BM (result bool TranslatorError) := λ w,
  let '(r, g) := allow_submit_share (be_difficulty_updates_disabled env) (be_now env)
    (bw_globals w) in
  (Done r, set_bw_globals g w).

Context `{EC : !SubmitErrorCodes}.

(** The reaction to the verdict of the channel factory. *)
Definition on_factory_verdict (env : BridgeEnv) (result_tx : N)
    (res : result OnNewShare Sv2Error) : BM unit :=
  match res with
  | Ok (SendErrorDownstream error_code) =>
      let error_code := default (lit "unparsable error code") (from_utf8 error_code) in
      resolve_submit result_tx (Err (submit_error_to_rejection_reason error_code))
  | Ok (SendSubmitShareUpstream Standard) => panic
  | Ok (SendSubmitShareUpstream (Extended upstream_share)) =>
      allowed ← reserve_slot env;
      match (allowed : result bool TranslatorError) with
      | Ok false => resolve_submit result_tx (Err RateLimited)
      | Err _ =>
          _ ← report (update_inconsistency (Some 1%N)) tt;
          _ ← resolve_submit result_tx (Err UpstreamRejected);
          fail BridgeMutexPoisoned
      | Ok true =>
          sent ← send_upstream (MkUpstreamSubmitShare upstream_share result_tx);
          if sent : bool then mret tt
          else _ ← resolve_submit result_tx (Err UpstreamRejected); fail BridgeChannelError
      end
  | Ok RelaySubmitShareUpstream => panic
  | Ok ShareMeetDownstreamTarget => resolve_submit result_tx (Ok tt)
  | Ok ShareMeetBitcoinTarget => panic
  | Err e =>
      _ ← resolve_submit result_tx (Err UpstreamRejected);
      fail (RolesSv2Logic e)
  end.

(** [Bridge::handle_submit_shares] *)
Definition handle_submit_shares (env : BridgeEnv) (share : SubmitShareWithChannelId)
    (result_tx : N) : BM unit :=
  _ ← lock_bridge (bridge br_tx_sv2_submit_shares_ext);
  target ← lock_target (gets (λ w, guarded (bw_target w)));
  match to_array 32 target with
  | None => panic
  | Some upstream_target =>
      translated ← lock_bridge (translate_share upstream_target (sc_channel_id share)
        (sc_share share) (sc_version_rolling_mask share));
      match (translated : result SubmitSharesExtended Sv2Error) with
      | Err NoValidJob =>
          count ← count_submit_failure;
          _ ← resolve_submit result_tx (Err JobIdNotFound);
          if (10 <=? count)%N then fail (RolesSv2Logic NoValidJob) else mret tt
      | Err ShareDoNotMatchAnyJob => resolve_submit result_tx (Err JobIdNotFound)
      | Err e =>
          _ ← resolve_submit result_tx (Err UpstreamRejected);
          fail (RolesSv2Logic e)
      | Ok translated_share =>
          res ← lock_bridge (
            _ ← modify (set_bw_submit_fail_counter 0%N);
            factory_call (on_submit_shares_extended translated_share));
          on_factory_verdict env result_tx res
      end
  end.

(** [Bridge::handle_update_downstream_target] *)
Definition handle_update_downstream_target (new_target : SetDownstreamTarget) : BM unit :=
  lock_bridge (factory_call (λ f,
    (tt, update_target_for_channel (dt_channel_id new_target) (dt_new_target new_target) f))).

(** The loop of [handle_downstream_messages] on one message: whether it goes on. *)
Definition handle_downstream_message (env : BridgeEnv) (msg : DownstreamMessages)
    : BM bool := λ w,
  match match msg with
        | SubmitShares share result_tx => handle_submit_shares env share result_tx w
        | SetTarget new_target => handle_update_downstream_target new_target w
        end with
  | (Failed _, w) => report (update_translator_state TranslatorDown) false w
  | (Panicked, w) => (Panicked, w)
  | (Done _, w) => (Done true, w)
  end.

(** [Bridge::on_new_sv1_connection] *)
Definition first_success (messages : list OpenChannelMessage)
    : option OpenExtendedMiningChannelSuccess :=
  head (omap (λ m, match m with OpenSuccess s => Some s | OtherMiningMessage => None end)
          messages).
Definition on_new_sv1_connection (hash_rate : f32) : BM OpenSv1Downstream :=
  opened ← factory_call (new_extended_channel hash_rate);
  match (opened : result (list OpenChannelMessage) Sv2Error) with
  | Err e => fail (RolesSv2Logic e)
  | Ok messages =>
      match first_success messages with
      | None => fail ImpossibleToOpenChannel
      | Some success =>
          last_notify ← bridge br_last_notify;
          mret (MkOpenSv1Downstream (os_channel_id success) last_notify
            (os_extranonce_prefix success) (os_extranonce_size success))
      end
  end.
End bridge.
