(* ===== verification/BridgeProps.v ===== *)
(** * Properties of the bridge

    Every share is settled exactly once, when the version the bridge sends is
    the one the downstream validated, a new previous hash activates the latest future job made
    for it and clears the others, and ten failed translations in a row stop it. *)

From S2P Require Import Prelude Str Bitcoin BitcoinModel F32 Sv1 RskCommitment MergeState MergeMining RecentJobs ShareLimits ShareLimitsProps Effects Stats ProxyState Downstream Sv2 Bridge.

Section bridge_props.
Context `{ML : !MiningLib} `{EC : !SubmitErrorCodes}.

(** ** Settling a share *)

(** What happened to a reply channel: resolved with an answer, handed to the
    upstream task with the share, or dropped. *)
Inductive Settlement :=
| Resolved (result : SubmitShareResult)
| HandedOver (share : SubmitSharesExtended)
| Dropped.

Definition sent_upstream (w : BridgeWorld) : list UpstreamSubmitShare :=
  tx_sent (br_tx_sv2_submit_shares_ext (guarded (bw_bridge w))).

(** [settles tx s w w']: from [w] to [w'] exactly [s] happened to [tx], and nothing to
    any other reply channel. *)
Definition settles (tx : N) (s : Settlement) (w w' : BridgeWorld) : Prop :=
  bw_resolved w' = bw_resolved w ++
    match s with Resolved r => [(tx, r)] | _ => [] end ∧
  sent_upstream w' = sent_upstream w ++
    match s with HandedOver share => [MkUpstreamSubmitShare share tx] | _ => [] end.

Lemma settles_dropped_refl tx w : settles tx Dropped w w.
Proof. unfold settles. by rewrite !app_nil_r. Qed.
Lemma settles_trans_dropped tx s w w1 w2 :
  settles tx Dropped w w1 → settles tx s w1 w2 → settles tx s w w2.
Proof. unfold settles. rewrite !app_nil_r. intros [-> ->] [H1 H2]. done. Qed.

(** The settlement that goes with an outcome: a success settles the channel, an error
    answers it, a panic drops it. *)
Definition settled_by {A} (tx : N) (w : BridgeWorld) (r : Outcome BridgeError A * BridgeWorld)
    : Prop :=
  match r with
  | (Done _, w') => ∃ s, s ≠ Dropped ∧ settles tx s w w'
  | (Failed _, w') => ∃ reason, settles tx (Resolved (Err reason)) w w'
  | (Panicked, w') => settles tx Dropped w w'
  end.

Lemma settled_by_trans {A} tx w w1 (r : Outcome BridgeError A * BridgeWorld) :
  settles tx Dropped w w1 → settled_by tx w1 r → settled_by tx w r.
Proof.
  intros H. destruct r as [[a|e|] w']; simpl.
  - intros (s & ? & ?). exists s. split; [done|]. by eapply settles_trans_dropped.
  - intros (reason & ?). exists reason. by eapply settles_trans_dropped.
  - by apply settles_trans_dropped.
Qed.

Lemma resolve_settled tx r w : settled_by tx w (resolve_submit tx r w).
Proof.
  exists (Resolved r). split; [done|]. split; [done|]. simpl. by rewrite app_nil_r.
Qed.
Lemma resolve_fail_settled tx reason e w :
  settled_by (A := unit) tx w ((_ ← resolve_submit tx (Err reason); fail e) w).
Proof. exists reason. split; [done|]. simpl. by rewrite app_nil_r. Qed.

Lemma on_factory_verdict_settled env tx res w :
  settled_by tx w (on_factory_verdict env tx res w).
Proof.
  destruct res as [[code|[share|]| | |]|e]; cbn [on_factory_verdict];
    try apply resolve_settled; try apply resolve_fail_settled;
    try apply settles_dropped_refl.
  unfold reserve_slot. unfold mbind at 1, M_bind at 1.
  destruct (allow_submit_share _ _ _) as [r g]. set (w1 := set_bw_globals g w).
  assert (settles tx Dropped w w1) as H1 by (split; by rewrite app_nil_r).
  apply (settled_by_trans _ _ _ _ H1). destruct r as [[|]|].
  - unfold send_upstream, mbind at 1, M_bind at 1.
    destruct (tx_open _); [|apply resolve_fail_settled].
    exists (HandedOver share). split; [done|]. split; [by rewrite app_nil_r|done].
  - apply resolve_settled.
  - exists UpstreamRejected. split; [done|by rewrite app_nil_r].
Qed.

(** The translation touches the factory only. *)
Lemma translate_share_frame target channel_id share mask w :
  match translate_share target channel_id share mask w with
  | (Failed _, _) => False
  | (_, w') => bw_resolved w' = bw_resolved w ∧ sent_upstream w' = sent_upstream w ∧
      poisoned (bw_bridge w') = poisoned (bw_bridge w)
  end.
Proof.
  unfold translate_share. destruct (parse_uint _ _) as [job_id|]; [|done].
  unfold bridge, gets, factory_call, mbind, M_bind.
  destruct (factory_job _ _); [|done]. cbn.
  by destruct (translate_submit _ _ _ _).
Qed.

Lemma lock_bridge_open {A} (m : Handler BridgeWorld BridgeError A) w :
  poisoned (bw_bridge w) = false →
  lock_bridge m w = match m w with
    | (Panicked, w') => (Panicked, set_bw_bridge (poison (bw_bridge w')) w')
    | r => r
    end.
Proof. intros Hp. unfold lock_bridge, with_lock. by rewrite Hp. Qed.

(** What remains of [handle_submit_shares] after the translation. *)
Lemma after_translation_settled env tx translated w :
  poisoned (bw_bridge w) = false →
  settled_by tx w
    (match translated with
     | Err NoValidJob =>
         count ← count_submit_failure;
         _ ← resolve_submit tx (Err JobIdNotFound);
         if (10 <=? count)%N then fail (RolesSv2Logic NoValidJob) else mret tt
     | Err ShareDoNotMatchAnyJob => resolve_submit tx (Err JobIdNotFound)
     | Err e => _ ← resolve_submit tx (Err UpstreamRejected); fail (RolesSv2Logic e)
     | Ok translated_share =>
         res ← lock_bridge (
           _ ← modify (set_bw_submit_fail_counter 0%N);
           factory_call (on_submit_shares_extended translated_share));
         on_factory_verdict env tx res
     end w).
Proof.
  intros Hp. destruct translated as [share|[| | |code]];
    try apply resolve_settled; try apply resolve_fail_settled.
  - unfold mbind at 1, M_bind at 1. rewrite lock_bridge_open by done.
    unfold mbind at 1, M_bind at 1, modify, factory_call. cbn -[on_factory_verdict].
    destruct (on_submit_shares_extended _ _) as [res factory].
    set (w1 := set_bw_bridge _ _).
    apply (settled_by_trans _ _ w1); [|apply on_factory_verdict_settled].
    split; by rewrite app_nil_r.
  - unfold count_submit_failure, gets, modify, mbind, M_bind. cbn -[N.leb].
    destruct (10 <=? _)%N.
    + exists JobIdNotFound. split; [done|by rewrite app_nil_r].
    + exists (Resolved (Err JobIdNotFound)). split; [done|]. split; [done|by rewrite app_nil_r].
Qed.

(** C2: every share the bridge handles is settled exactly once: on success its reply
    channel is answered or handed over to the upstream task with the share, never
    both; on an error it is answered with a rejection; only a panic drops it, and no
    other reply channel is ever touched. *)
Theorem share_settled_once env share tx w :
  poisoned (bw_bridge w) = false → poisoned (bw_target w) = false →
  settled_by tx w (handle_submit_shares env share tx w).
Proof.
  intros Hb Ht. unfold handle_submit_shares. unfold mbind at 1, M_bind at 1.
  rewrite lock_bridge_open by done. unfold bridge at 1, gets at 1. cbn beta iota.
  unfold mbind at 1, M_bind at 1. unfold lock_target.
  rewrite with_lock_open by done. unfold gets at 1. cbn beta iota.
  destruct (to_array 32 _) as [target|]; [|apply settles_dropped_refl].
  unfold mbind at 1, M_bind at 1. rewrite lock_bridge_open by done.
  pose proof (translate_share_frame target (sc_channel_id share) (sc_share share)
    (sc_version_rolling_mask share) w) as Hf.
  destruct (translate_share _ _ _ _ w) as [[translated|e|] w1]; [|done|].
  - destruct Hf as (Hr & Hs & Hp). rewrite Hb in Hp.
    apply (settled_by_trans _ _ w1); [|by apply after_translation_settled].
    split; by rewrite app_nil_r.
  - destruct Hf as (Hr & Hs & _). split; by rewrite app_nil_r.
Qed.

(** ** Versions *)

Lemma version_without_bits version : effective_version version None None = version.
Proof.
  unfold effective_version. simpl. apply N.bits_inj. intros i.
  rewrite N.lor_spec, N.ldiff_spec, N.land_spec.
  by destruct (N.testbit version i), (N.testbit _ i).
Qed.

(** The bridge submits the version the share was mined with: a translation
    succeeds exactly when version bits and mask are both present or both absent (and
    the job identifier and extranonce are well formed), and then the version it sends
    is the version of the last valid job mixed with the share's bits under the mask,
    which is how the downstream rebuilds it to validate the share. *)
Theorem translate_submit_version b channel_id submit mask version :
  last_valid_job_version (br_channel_factory b) = Some version →
  match translate_submit b channel_id submit mask with
  | Done translated =>
      se_version translated = effective_version version (sb_version_bits submit) mask ∧
      parse_uint u32_max (sb_job_id submit) = Some (se_job_id translated) ∧
      se_channel_id translated = channel_id ∧ se_nonce translated = sb_nonce submit ∧
      se_ntime translated = sb_time submit ∧
      se_extranonce translated = sb_extra_nonce2 submit ∧
      (is_Some (sb_version_bits submit) ↔ is_Some mask)
  | Failed e => e = InvalidVersionBitsSubmission ∧
      ¬ (is_Some (sb_version_bits submit) ↔ is_Some mask)
  | Panicked => parse_uint u32_max (sb_job_id submit) = None ∨
      32 < length (sb_extra_nonce2 submit)
  end.
Proof.
  intros Hv. unfold translate_submit. rewrite Hv.
  pose proof (version_without_bits version) as Hid.
  destruct (sb_version_bits submit) as [vb|], mask as [m|];
    try (split; [done|]; intros [H1 H2];
         first [by destruct (H1 (mk_is_Some _ _ eq_refl))
               |by destruct (H2 (mk_is_Some _ _ eq_refl))]).
  - destruct (parse_uint _ _) as [job_id|]; [|by left].
    destruct (Nat.ltb_spec 32 (length (sb_extra_nonce2 submit))); [by right|].
    do 6 (split; [done|]). split; intros _; eauto.
  - destruct (parse_uint _ _) as [job_id|]; [|by left].
    destruct (Nat.ltb_spec 32 (length (sb_extra_nonce2 submit))); [by right|].
    split; [exact (eq_sym Hid)|]. do 5 (split; [done|]). split; intros [? ?]; done.
Qed.

(** Outside the mask a mixed version has the bits of the job's version. *)
Lemma mixed_version_job_bits version bits mask :
  N.ldiff (N.lor (N.ldiff version mask) (N.land bits mask)) mask = N.ldiff version mask.
Proof.
  apply N.bits_inj. intros i. rewrite !N.ldiff_spec, N.lor_spec, N.ldiff_spec, N.land_spec.
  by destruct (N.testbit version i), (N.testbit mask i), (N.testbit bits i).
Qed.
Lemma masked_twice version mask : N.ldiff (N.ldiff version mask) mask = N.ldiff version mask.
Proof.
  apply N.bits_inj. intros i. rewrite !N.ldiff_spec. by destruct (N.testbit version i), (N.testbit mask i).
Qed.
(** C24: When the bridge submits the version that the downstream validated: a share with valid
    version bits always translates, for whatever job it is, as long as the factory has a last
    valid job; and the version of the translation is the one that the downstream hashed,
    although the share's own job was sent to the miner with the bits of the mask cleared,
    exactly when the version of the last valid job and that of the share's job have the same
    bits outside the mask.  So it is for shares of the last valid job, and for older ones
    while the pool does not change those bits. *)
Theorem bridge_version_is_validated_version `{SV : !Sv1Lib} b d notify submit job_id
    channel_id version :
  last_valid_job_version (br_channel_factory b) = Some version →
  has_valid_version_bits d submit = true →
  parse_uint u32_max (sb_job_id submit) = Some job_id →
  length (sb_extra_nonce2 submit) ≤ 32 →
  let mask := dn_version_rolling_mask d in
  ∃ translated,
    translate_submit b channel_id submit mask = Done translated ∧
    se_job_id translated = job_id ∧
    (se_version translated =
       effective_version (nf_version (apply_mask mask notify)) (sb_version_bits submit) mask ↔
     N.ldiff version (default 0%N mask) = N.ldiff (nf_version notify) (default 0%N mask)).
Proof.
  intros Hv Hbits Hid Hlen mask. unfold translate_submit. rewrite Hv, Hid.
  unfold has_valid_version_bits in Hbits. subst mask.
  destruct (Nat.ltb_spec 32 (length (sb_extra_nonce2 submit))); [lia|].
  destruct (sb_version_bits submit) as [vb|], (dn_version_rolling_mask d) as [m|]; try done;
    (eexists; split; [reflexivity|]; split; [done|]); cbn [se_version apply_mask default].
  - unfold effective_version. cbn [default nf_version with_version from_option id].
    rewrite masked_twice. split; [|by intros ->].
    intros Hv'%(f_equal (λ v, N.ldiff v m)). by rewrite !mixed_version_job_bits in Hv'.
  - cbn [from_option]. by rewrite version_without_bits, !N.ldiff_0_r.
Qed.

(** ** Jobs and previous hashes *)

(** The merge-mining service after the bindings of [l] are cleared. *)
Definition cleared (env : BridgeEnv) (merge : option MergeMining)
    (l : list BoundExtendedJob) : option MergeMining :=
  fold_left (λ merge job, clear_pending_job_binding_global (be_api_secret env) merge
    (bj_merge_mining_binding_id job)) l merge.

Lemma set_bw_merge_twice v1 v2 w : set_bw_merge v2 (set_bw_merge v1 w) = set_bw_merge v2 w.
Proof. done. Qed.
Lemma set_bw_merge_id w : set_bw_merge (bw_merge w) w = w.
Proof. by destruct w. Qed.

Lemma clear_pending_bindings_run env l w :
  clear_pending_bindings env l w = (Done tt, set_bw_merge (cleared env (bw_merge w) l) w).
Proof.
  revert w. induction l as [|job l IH]; intros w; [by destruct w|].
  cbn [clear_pending_bindings]. unfold mbind, M_bind, clear_pending_binding at 1, modify.
  by rewrite IH.
Qed.

(** The jobs popped before the one for this previous hash are cleared. *)
Lemma pop_future_jobs_skip env prev_hash len skipped rest w :
  (∀ job, job ∈ skipped → ej_job_id (bj_job job) ≠ ph_job_id prev_hash) →
  pop_future_jobs env prev_hash len (skipped ++ rest) w =
    pop_future_jobs env prev_hash len rest
      (set_bw_merge (cleared env (bw_merge w) skipped) w).
Proof.
  revert w. induction skipped as [|job l IH]; intros w Hl; [by destruct w|].
  cbn [app pop_future_jobs].
  destruct (N.eqb_spec (ej_job_id (bj_job job)) (ph_job_id prev_hash)) as [E|_].
  { exfalso. apply (Hl job); [left|done]. }
  unfold mbind, M_bind, clear_pending_binding at 1, modify. rewrite IH; [done|].
  intros j Hj. apply Hl. by right.
Qed.

(** The bridge once a notification is issued. *)
Definition notified (notify : MiningNotify) (b : Bridge) : Bridge :=
  set_br_last_notify (Some notify)
    (if tx_open (br_tx_sv1_notify b)
     then set_br_notify (sender_push notify (br_tx_sv1_notify b)) b else b).

Lemma issue_notify_run env notify w :
  poisoned (bw_bridge w) = false →
  issue_notify env notify w = (Done tt,
    set_bw_merge (set_active_job_binding_global (be_api_secret env) (bw_merge w)
        (mn_merge_mining_binding_id notify))
      (set_bw_bridge (store (bw_bridge w) (notified notify (guarded (bw_bridge w)))) w)).
Proof.
  intros Hp. unfold issue_notify, activate_binding, broadcast_notify, update_bridge, modify,
    mbind, M_bind, lock_bridge, with_lock. cbn. rewrite Hp. unfold notified.
  by destruct (tx_open _).
Qed.

(** The part of [handle_new_prev_hash] before the loop: the previous hash is kept,
    the factory told, and the future jobs taken. *)
Definition with_prev_hash (prev_hash : SetNewPrevHash) (factory : Factory) (b : Bridge)
    : Bridge :=
  set_br_future_jobs [] (set_br_factory factory (set_br_last_p_hash (Some prev_hash) b)).

Lemma handle_new_prev_hash_run env prev_hash w factory :
  poisoned (bw_bridge w) = false →
  on_new_prev_hash prev_hash (br_channel_factory (guarded (bw_bridge w))) = (Ok tt, factory) →
  let b := guarded (bw_bridge w) in
  handle_new_prev_hash env prev_hash w =
    (_ ← pop_future_jobs env prev_hash (get_extranonce_len factory)
           (reverse (br_future_jobs b)); mret tt)
    (set_bw_bridge (store (bw_bridge w) (with_prev_hash prev_hash factory b)) w).
Proof.
  intros Hp Hf b. unfold handle_new_prev_hash. unfold mbind at 1, M_bind at 1.
  rewrite lock_bridge_open by done. unfold update_bridge at 1, modify at 1. cbn beta iota.
  set (w1 := set_bw_bridge _ w). assert (poisoned (bw_bridge w1) = false) as Hp1 by done.
  unfold mbind at 1, M_bind at 1. rewrite lock_bridge_open by done.
  unfold factory_call at 1.
  change (br_channel_factory (guarded (bw_bridge w1))) with (br_channel_factory b).
  unfold b. rewrite Hf. cbn beta iota. set (w2 := set_bw_bridge _ w1).
  assert (poisoned (bw_bridge w2) = false) as Hp2 by done.
  unfold mbind at 1, M_bind at 1. rewrite lock_bridge_open by done.
  unfold mbind at 1, M_bind at 1, bridge at 1, gets at 1, update_bridge at 1, modify at 1,
    mbind at 1, M_bind at 1, mret at 1, M_ret at 1. cbn beta iota.
  set (w3 := set_bw_bridge _ w2). assert (poisoned (bw_bridge w3) = false) as Hp3 by done.
  unfold mbind at 1, M_bind at 1. rewrite lock_bridge_open by done. done.
Qed.

(** C22: a new previous hash activates its job: of the future jobs for it, the one
    that arrived last is notified with it and becomes the last notification; its
    merge-mining binding becomes the active one, the bindings of all other future jobs
    are cleared, and no future job is left. *)
Theorem prev_hash_activates_future_job env prev_hash w factory before job after notify :
  poisoned (bw_bridge w) = false →
  on_new_prev_hash prev_hash (br_channel_factory (guarded (bw_bridge w))) = (Ok tt, factory) →
  br_future_jobs (guarded (bw_bridge w)) = before ++ job :: after →
  ej_job_id (bj_job job) = ph_job_id prev_hash →
  (∀ other, other ∈ after → ej_job_id (bj_job other) ≠ ph_job_id prev_hash) →
  create_notify prev_hash (bj_job job) true (get_extranonce_len factory) = Some notify →
  let issued := MkMiningNotify notify (bj_merge_mining_binding_id job) in
  handle_new_prev_hash env prev_hash w = (Done tt,
    set_bw_merge
      (cleared env (set_active_job_binding_global (be_api_secret env)
                      (cleared env (bw_merge w) (reverse after))
                      (bj_merge_mining_binding_id job)) before)
      (set_bw_bridge (store (bw_bridge w)
         (notified issued (with_prev_hash prev_hash factory (guarded (bw_bridge w))))) w)).
Proof.
  intros Hp Hf Hjobs Hid Hafter Hn issued.
  rewrite (handle_new_prev_hash_run _ _ _ _ Hp Hf). rewrite Hjobs.
  rewrite reverse_app, reverse_cons, <- app_assoc. unfold mbind at 1, M_bind at 1.
  rewrite pop_future_jobs_skip by (intros j Hj; apply Hafter; by apply elem_of_reverse).
  cbn [app pop_future_jobs]. rewrite Hid, N.eqb_refl, Hn.
  unfold mbind at 1, M_bind at 1. rewrite issue_notify_run by done. cbn beta iota.
  unfold mbind at 1, M_bind at 1. rewrite clear_pending_bindings_run, reverse_involutive. done.
Qed.

(** A previous hash without a job leaves nothing behind: when no future job is
    for it, no notification is sent, and the bindings of all future jobs are
    cleared. *)
Theorem prev_hash_without_job_clears env prev_hash w factory :
  poisoned (bw_bridge w) = false →
  on_new_prev_hash prev_hash (br_channel_factory (guarded (bw_bridge w))) = (Ok tt, factory) →
  (∀ job, job ∈ br_future_jobs (guarded (bw_bridge w)) →
     ej_job_id (bj_job job) ≠ ph_job_id prev_hash) →
  handle_new_prev_hash env prev_hash w = (Done tt,
    set_bw_merge (cleared env (bw_merge w) (reverse (br_future_jobs (guarded (bw_bridge w)))))
      (set_bw_bridge (store (bw_bridge w)
         (with_prev_hash prev_hash factory (guarded (bw_bridge w)))) w)).
Proof.
  intros Hp Hf Hno. rewrite (handle_new_prev_hash_run _ _ _ _ Hp Hf).
  unfold mbind at 1, M_bind at 1.
  rewrite <- (app_nil_r (reverse _)), pop_future_jobs_skip, app_nil_r; [done|].
  intros job Hj. apply Hno. by apply elem_of_reverse.
Qed.
End bridge_props.

(** ** Witnesses *)

(** A factory that knows every job, remembers the last version, and sends every share
    upstream. *)
#[export] Instance mining_model : MiningLib := {
  Factory := N;
  factory_job := λ _ _, true;
  set_target := λ _ f, f;
  last_valid_job_version := λ f, Some f;
  on_submit_shares_extended := λ s f, (Ok (SendSubmitShareUpstream (Extended s)), f);
  on_new_prev_hash := λ _ f, (Ok tt, f);
  on_new_extended_mining_job := λ job _, (Ok tt, ej_version job);
  get_extranonce_len := λ _, 16;
  update_target_for_channel := λ _ _ f, f;
  new_extended_channel := λ _ f, (Err NoValidJob, f);
  is_future := λ job, match ej_min_ntime job with Some _ => false | None => true end;
  extended_job_to_non_segwit := λ job _, Ok job
}.
#[export] Instance error_codes_model : SubmitErrorCodes := {
  difficulty_too_low_error_code := lit "difficulty-too-low";
  stale_share_error_code := lit "stale-share";
  invalid_job_id_error_code := lit "invalid-job-id"
}.

Definition example_future_job (id : N) : BoundExtendedJob :=
  MkBoundExtendedJob (MkNewExtendedMiningJob 1 id None 536870912 true [] [] []) (Some id).
Definition example_bridge : Bridge :=
  MkBridge (MkSender true []) (MkSender true []) None 536870912%N
    [example_future_job 1; example_future_job 2; example_future_job 1] None.
Definition example_bridge_world : BridgeWorld :=
  MkBridgeWorld (new_mutex example_bridge) (new_mutex (replicate 32 Byte.xff)) 0
    (MkShareGlobals (new_mutex []) false (new_mutex None) (new_mutex ∅))
    None (Some (new_mutex proxy_state_new)) [].
Definition example_env : BridgeEnv := MkBridgeEnv (Some [Byte.x01]) 0 false.
Definition example_sv1_submit : Submit := MkSubmit [] (lit "1") [Byte.x03] 0%N 0%N None 0%N.
Definition example_share : SubmitShareWithChannelId :=
  MkSubmitShareWithChannelId 3 example_sv1_submit [] 1 None.

Lemma share_settled_once_witness :
  ∃ w s, handle_submit_shares example_env example_share 9 example_bridge_world = (Done tt, w) ∧
    settles 9 s example_bridge_world w.
Proof.
  pose proof (share_settled_once example_env example_share 9 example_bridge_world
    eq_refl eq_refl) as H.
  destruct (handle_submit_shares example_env example_share 9 example_bridge_world)
    as [[[]|e|] w] eqn:E.
  - destruct H as (s & _ & H). exists w, s. split; [reflexivity|exact H].
  - vm_compute in E. discriminate.
  - vm_compute in E. discriminate.
Defined.

Definition example_miner : Downstream :=
  MkDownstream 3 [] [] (Some 536862720%N) None (MkSender true []) (MkSender true []) 1
    (MkDownstreamDifficultyConfig (f32_of_N 1) [] (difficulty_pid (f32_of_N 10) (f32_of_N 1)) [] (f32_of_N 1) None) recent_jobs_new
    example_job None [] false false false false.
(** The example bridge has a last valid job with the version of the example job: equal for a
    share of that job, different for a share of an older job with other bits. *)
Lemma bridge_version_is_validated_version_witness :
  let submit := MkSubmit [] (lit "1") [Byte.x03] 0%N 0%N (Some 8192%N) 0%N in
  let mask := Some 536862720%N in
  let older := with_version 3%N example_job in
  (∃ translated, translate_submit example_bridge 3 submit mask = Done translated ∧
    se_version translated =
      effective_version (nf_version (apply_mask mask example_job)) (Some 8192%N) mask) ∧
  (∃ translated, translate_submit example_bridge 3 submit mask = Done translated ∧
    se_version translated ≠
      effective_version (nf_version (apply_mask mask older)) (Some 8192%N) mask).
Proof.
  intros submit mask older. split.
  - destruct (bridge_version_is_validated_version example_bridge example_miner example_job
      submit 1 3 536870912) as (t & H1 & _ & H2);
      [reflexivity|vm_compute; reflexivity|vm_compute; reflexivity|apply Nat.leb_le; reflexivity|].
    exists t. split; [exact H1|]. apply H2. reflexivity.
  - destruct (bridge_version_is_validated_version example_bridge example_miner older
      submit 1 3 536870912) as (t & H1 & _ & H2);
      [reflexivity|vm_compute; reflexivity|vm_compute; reflexivity|apply Nat.leb_le; reflexivity|].
    exists t. split; [exact H1|]. intros H. apply H2 in H. vm_compute in H. discriminate H.
Defined.

Lemma prev_hash_activates_future_job_witness :
  ∃ w notify,
    handle_new_prev_hash example_env (MkSetNewPrevHash 1 2 [] 5 6) example_bridge_world
      = (Done tt, w) ∧
    br_last_notify (guarded (bw_bridge w)) = Some (MkMiningNotify notify (Some 2%N)) ∧
    br_future_jobs (guarded (bw_bridge w)) = [].
Proof.
  eexists _, _. split; [|split].
  - apply (prev_hash_activates_future_job example_env (MkSetNewPrevHash 1 2 [] 5 6)
      example_bridge_world 536870912%N [example_future_job 1] (example_future_job 2)
      [example_future_job 1]); try reflexivity.
    intros other Ho. apply list_elem_of_singleton in Ho as ->. vm_compute. discriminate.
  - reflexivity.
  - reflexivity.
Defined.
