(* ===== verification/Upstream.v ===== *)
(** * The upstream side of the translator

    Models [Upstream] of [src/src/translator/upstream/upstream.rs]: the submits that
    wait for the pool's answer, the task that sends them, the messages of the pool
    and the order in which jobs and previous hashes reach the bridge; and the rate
    limiter of [src/src/translator/upstream/diff_management.rs]. *)

From S2P Require Import Prelude Str Bitcoin F32 Sv1 RskCommitment MergeState MergeMining RecentJobs ShareLimits Effects Stats ProxyState Downstream Sv2 Bridge.

(** ** [BTreeMap]: an association list in increasing order of its keys *)
Section btree.
Context {A : Type}.
Abbreviation BTreeMap := (list (N * A)).

(** [BTreeMap::insert]: a value under the same key is replaced. *)
Fixpoint bt_insert (k : N) (a : A) (m : BTreeMap) : BTreeMap :=
  match m with
  | [] => [(k, a)]
  | (k', a') :: rest =>
      if (k <? k')%N then (k, a) :: m
      else if (k =? k')%N then (k, a) :: rest
      else (k', a') :: bt_insert k a rest
  end.

(** [BTreeMap::remove] *)
Fixpoint bt_remove (k : N) (m : BTreeMap) : option A * BTreeMap :=
  match m with
  | [] => (None, [])
  | (k', a') :: rest =>
      if (k =? k')%N then (Some a', rest)
      else let '(r, rest) := bt_remove k rest in (r, (k', a') :: rest)
  end.

(** The keys of [BTreeMap::range(..=k)] *)
Definition bt_keys_to (k : N) (m : BTreeMap) : list N :=
  retain (λ k', (k' <=? k)%N) m.*1.
End btree.

(** ** Data *)

(** [mining_sv2::OpenExtendedMiningChannel] *)
Record OpenChannelRequest := MkOpenChannelRequest {
  oc_request_id : N;
  oc_user_identity : str;
  oc_nominal_hash_rate : f32;
  oc_max_target : bytes;
  oc_min_extranonce_size : N
}.

(** What the client sends to the pool. *)
Inductive ToPool :=
| ToPoolSubmit (share : SubmitSharesExtended)
| ToPoolUpdateChannel (channel_id : N) (nominal_hash_rate : f32)
| ToPoolOpenChannel (open_channel : OpenChannelRequest)
| ToPoolUpdateUserCode (channel_id : N) (token : str).

(** What the pool sends.  [PoolTodo] stands for the messages the main loop leaves to
    [todo!], [PoolUnimplemented] for those whose handler panics under the lock. *)
Inductive PoolMessage :=
| PoolOpenSuccess (m : OpenExtendedMiningChannelSuccess) (target : bytes)
| PoolNewExtendedMiningJob (m : NewExtendedMiningJob)
| PoolSetNewPrevHash (m : SetNewPrevHash)
| PoolSubmitSharesSuccess (last_sequence_number new_submits_accepted_count : N)
| PoolSubmitSharesError (sequence_number : N) (error_code : bytes)
| PoolSetTarget (maximum_target : bytes)
| PoolSetCustomMiningJobSuccess (job_id : N)
| PoolTodo
| PoolUnimplemented.

Record Upstream := MkUpstream {
  up_channel_id : option N;
  up_job_id : option N;
  up_last_job_id : option N;
  up_extranonce_prefix : option bytes;
  up_min_extranonce_size : N;
  up_upstream_extranonce1_size : nat;
  up_sender : Sender ToPool;
  up_sent_up : N;
  up_rejected : N;
  up_toa : list N;
  up_next_submit_sequence : N;
  up_pending_submits : list (N * N)
}.

Definition set_up_channel v prefix u := MkUpstream (Some v) (up_job_id u) (up_last_job_id u)
  (Some prefix) (up_min_extranonce_size u) (up_upstream_extranonce1_size u) (up_sender u)
  (up_sent_up u) (up_rejected u) (up_toa u) (up_next_submit_sequence u) (up_pending_submits u).
Definition set_up_job_id v u := MkUpstream (up_channel_id u) (Some v) (up_last_job_id u)
  (up_extranonce_prefix u) (up_min_extranonce_size u) (up_upstream_extranonce1_size u)
  (up_sender u) (up_sent_up u) (up_rejected u) (up_toa u) (up_next_submit_sequence u)
  (up_pending_submits u).
Definition set_up_last_job_id v u := MkUpstream (up_channel_id u) (up_job_id u) (Some v)
  (up_extranonce_prefix u) (up_min_extranonce_size u) (up_upstream_extranonce1_size u)
  (up_sender u) (up_sent_up u) (up_rejected u) (up_toa u) (up_next_submit_sequence u)
  (up_pending_submits u).
Definition set_up_extranonce1_size v u := MkUpstream (up_channel_id u) (up_job_id u)
  (up_last_job_id u) (up_extranonce_prefix u) (up_min_extranonce_size u) v
  (up_sender u) (up_sent_up u) (up_rejected u) (up_toa u) (up_next_submit_sequence u)
  (up_pending_submits u).
Definition set_up_sender v u := MkUpstream (up_channel_id u) (up_job_id u)
  (up_last_job_id u) (up_extranonce_prefix u) (up_min_extranonce_size u)
  (up_upstream_extranonce1_size u) v (up_sent_up u) (up_rejected u) (up_toa u)
  (up_next_submit_sequence u) (up_pending_submits u).
Definition set_up_counters sent rejected toa u := MkUpstream (up_channel_id u) (up_job_id u)
  (up_last_job_id u) (up_extranonce_prefix u) (up_min_extranonce_size u)
  (up_upstream_extranonce1_size u) (up_sender u) sent rejected toa
  (up_next_submit_sequence u) (up_pending_submits u).
Definition set_up_pending next pending u := MkUpstream (up_channel_id u) (up_job_id u)
  (up_last_job_id u) (up_extranonce_prefix u) (up_min_extranonce_size u)
  (up_upstream_extranonce1_size u) (up_sender u) (up_sent_up u) (up_rejected u) (up_toa u)
  next pending.

(** A call that resolves reply channels returns the answers it sends. *)
Definition Answers : Type := list (N * SubmitShareResult).

(** ** Pending submits *)

(** [Upstream::register_pending_submit] *)
Definition register_pending_submit (result_tx : N) (u : Upstream) : N * Upstream :=
  let sequence_number := up_next_submit_sequence u in
  (sequence_number,
   set_up_pending (wrapping_add u32_max (up_next_submit_sequence u) 1)
     (bt_insert sequence_number result_tx (up_pending_submits u)) u).

(** Removing a pending submit and answering it. *)
Definition answer_pending (sequence_number : N) (result : SubmitShareResult) (u : Upstream)
    : Answers * Upstream :=
  match bt_remove sequence_number (up_pending_submits u) with
  | (Some result_tx, pending) =>
      ([(result_tx, result)], set_up_pending (up_next_submit_sequence u) pending u)
  | (None, _) => ([], u)
  end.

(** The loop over the acknowledged sequence numbers. *)
Fixpoint answer_all (sequence_numbers : list N) (result : SubmitShareResult) (u : Upstream)
    : Answers * Upstream :=
  match sequence_numbers with
  | [] => ([], u)
  | sequence_number :: rest =>
      let '(answers, u) := answer_pending sequence_number result u in
      let '(answers', u) := answer_all rest result u in
      (answers ++ answers', u)
  end.

(** [Upstream::resolve_submit_success] *)
Definition acknowledged_sequences (last_sequence_number accepted_count : N)
    (pending : list (N * N)) : list N :=
  reverse (take (N.to_nat accepted_count) (reverse (bt_keys_to last_sequence_number pending))).
Definition resolve_submit_success (last_sequence_number accepted_count : N) (u : Upstream)
    : Answers * Upstream :=
  if (accepted_count =? 0)%N then ([], u)
  else if (accepted_count =? 1)%N then answer_pending last_sequence_number (Ok tt) u
  else answer_all
    (acknowledged_sequences last_sequence_number accepted_count (up_pending_submits u))
    (Ok tt) u.

(** [Upstream::resolve_submit_error] *)
Definition resolve_submit_error (sequence_number : N) (result : SubmitShareResult)
    (u : Upstream) : Answers * Upstream := answer_pending sequence_number result u.

(** ** Extranonce sizes *)

(** [proxy_extranonce1_len], in the wrapping arithmetic of [usize]. *)
Definition wrapping_sub (limit a b : N) : N := ((a + (limit + 1) - b) mod (limit + 1))%N.
Definition proxy_extranonce1_len (channel_extranonce2_size downstream_extranonce2_len : N) : N :=
  wrapping_sub usize_max channel_extranonce2_size downstream_extranonce2_len.

(** The check of [handle_open_extended_mining_channel_success]: the sizes are [u16]
    and the length is cast to [u16]. *)
Definition invalid_extranonce_size (min_extranonce_size extranonce_size : N) : bool :=
  let tproxy_e1_len :=
    (proxy_extranonce1_len extranonce_size min_extranonce_size mod (u16_max + 1))%N in
  (wrapping_add u16_max min_extranonce_size tproxy_e1_len <? extranonce_size)%N.

(** The ranges of the main loop: upstream extranonce1, downstream extranonce1 and
    extranonce2, as bounds. *)
Definition extranonce_ranges (prefix_len extranonce_size min_extranonce_size : N)
    : (N * N) * (N * N) * (N * N) :=
  let tproxy_e1_len := proxy_extranonce1_len extranonce_size min_extranonce_size in
  let end_1 := wrapping_add usize_max prefix_len tproxy_e1_len in
  ((0, prefix_len), (prefix_len, end_1),
   (end_1, wrapping_add usize_max prefix_len extranonce_size))%N.

(** ** The tasks *)

(** [ExtendedExtranonce::from_upstream_extranonce] belongs to [mining_sv2]. *)
Class ExtranonceLib := {
  ExtendedExtranonce : Type;
  from_upstream_extranonce : bytes → (N * N) * (N * N) * (N * N) → option ExtendedExtranonce
}.

Section tasks.
Context `{ML : !MiningLib} `{EL : !ExtranonceLib} `{EC : !SubmitErrorCodes}.

(** The objects the tasks share, the answers sent so far, and the future job the main
    loop keeps. *)
Record UpstreamWorld := MkUpstreamWorld {
  uw_upstream : Mutex Upstream;
  uw_target : Mutex bytes;
  uw_bridge_work : Sender BridgeWork;
  uw_sv2_extranonce : Sender (ExtendedExtranonce * N);
  uw_merge : option MergeMining;
  uw_proxy : option (Mutex ProxyState);
  uw_resolved : Answers;
  uw_future_j : option (NewExtendedMiningJob * option N)
}.

Definition set_uw_upstream v w := MkUpstreamWorld v (uw_target w) (uw_bridge_work w)
  (uw_sv2_extranonce w) (uw_merge w) (uw_proxy w) (uw_resolved w) (uw_future_j w).
Definition set_uw_target v w := MkUpstreamWorld (uw_upstream w) v (uw_bridge_work w)
  (uw_sv2_extranonce w) (uw_merge w) (uw_proxy w) (uw_resolved w) (uw_future_j w).
Definition set_uw_bridge_work v w := MkUpstreamWorld (uw_upstream w) (uw_target w) v
  (uw_sv2_extranonce w) (uw_merge w) (uw_proxy w) (uw_resolved w) (uw_future_j w).
Definition set_uw_sv2_extranonce v w := MkUpstreamWorld (uw_upstream w) (uw_target w)
  (uw_bridge_work w) v (uw_merge w) (uw_proxy w) (uw_resolved w) (uw_future_j w).
Definition set_uw_merge v w := MkUpstreamWorld (uw_upstream w) (uw_target w)
  (uw_bridge_work w) (uw_sv2_extranonce w) v (uw_proxy w) (uw_resolved w) (uw_future_j w).
Definition set_uw_proxy v w := MkUpstreamWorld (uw_upstream w) (uw_target w)
  (uw_bridge_work w) (uw_sv2_extranonce w) (uw_merge w) v (uw_resolved w) (uw_future_j w).
Definition set_uw_resolved v w := MkUpstreamWorld (uw_upstream w) (uw_target w)
  (uw_bridge_work w) (uw_sv2_extranonce w) (uw_merge w) (uw_proxy w) v (uw_future_j w).
Definition set_uw_future_j v w := MkUpstreamWorld (uw_upstream w) (uw_target w)
  (uw_bridge_work w) (uw_sv2_extranonce w) (uw_merge w) (uw_proxy w) (uw_resolved w) v.

(** A task ends with [fail tt]. *)
Abbreviation UM := (Handler UpstreamWorld unit).

Definition lock_upstream {A} (m : UM A) : UM A := with_lock uw_upstream set_uw_upstream tt m.
(** [safe_lock(...).unwrap()] *)
Definition unwrap_lock {A} (m : UM A) : UM A := λ w,
  match lock_upstream m w with (Failed _, w) => (Panicked, w) | r => r end.
Definition upstream {A} (f : Upstream → A) : UM A := gets (λ w, f (guarded (uw_upstream w))).
Definition update_upstream (f : Upstream → Upstream) : UM unit :=
  modify (λ w, set_uw_upstream (store (uw_upstream w) (f (guarded (uw_upstream w)))) w).
(** A method that resolves reply channels. *)
Definition answering (f : Upstream → Answers * Upstream) : UM unit := λ w,
  let '(answers, u) := f (guarded (uw_upstream w)) in
  (Done tt, set_uw_resolved (uw_resolved w ++ answers)
              (set_uw_upstream (store (uw_upstream w) u) w)).
Definition answer (result_tx : N) (result : SubmitShareResult) : UM unit :=
  modify (λ w, set_uw_resolved (uw_resolved w ++ [(result_tx, result)]) w).

(** [sender.send]: whether the connection took the message. *)
Definition send_to_pool (message : ToPool) : UM bool := λ w,
  let u := guarded (uw_upstream w) in
  if tx_open (up_sender u)
  then (Done true, set_uw_upstream
          (store (uw_upstream w) (set_up_sender (sender_push message (up_sender u)) u)) w)
  else (Done false, w).

(** [Upstream::handle_submit] on one share. *)
Definition handle_submit (message : UpstreamSubmitShare) : UM unit := λ w,
  let result_tx := us_result_tx message in
  let reject : UM unit := _ ← answer result_tx (Err UpstreamRejected); fail tt in
  match lock_upstream (upstream up_channel_id) w with
  | (Done (Some channel_id), w) =>
      match lock_upstream (
              r ← upstream (register_pending_submit result_tx);
              _ ← update_upstream (λ _, r.2);
              mret r.1) w with
      | (Done sequence_number, w) =>
          (sent ← send_to_pool (ToPoolSubmit
             (with_channel_and_sequence channel_id sequence_number (us_share message)));
           if sent : bool then
             unwrap_lock (update_upstream (λ u,
               set_up_counters (wrapping_add u32_max (up_sent_up u) 1) (up_rejected u)
                 (up_toa u) u))
           else
             _ ← lock_upstream (answering
                   (answer_pending sequence_number (Err UpstreamRejected)));
             fail tt) w
      | (Failed _, w) => reject w
      | (Panicked, w) => (Panicked, w)
      end
  | (Done None, w) | (Failed _, w) => reject w
  | (Panicked, w) => (Panicked, w)
  end.

(** The merge-mining bindings of jobs ([merge_mining]). *)
Definition claim_pending (api_secret : option bytes) (job_id : N) : UM (option N) := λ w,
  let '(binding_id, merge) :=
    claim_job_binding_pending_global api_secret (uw_merge w) job_id in
  (Done binding_id, set_uw_merge merge w).
Definition clear_pending (api_secret : option bytes) (binding_id : option N) : UM unit :=
  modify (λ w, set_uw_merge
    (clear_pending_job_binding_global api_secret (uw_merge w) binding_id) w).

(** [tx_bridge_work.send]; a message that cannot be sent clears the binding and ends
    the loop. *)
Definition send_bridge_work (api_secret : option bytes) (work : BridgeWork)
    (binding_id : option N) : UM unit := λ w,
  if tx_open (uw_bridge_work w)
  then (Done tt, set_uw_bridge_work (sender_push work (uw_bridge_work w)) w)
  else (_ ← clear_pending api_secret binding_id; fail tt) w.

(** Recording the identifier of a job; a poisoned mutex clears the binding. *)
Definition record_job_id (api_secret : option bytes) (job_id : N) (binding_id : option N)
    : UM unit := λ w,
  match lock_upstream (update_upstream (set_up_job_id job_id)) w with
  | (Failed _, w) => (_ ← clear_pending api_secret binding_id; fail tt) w
  | r => r
  end.

(** The main loop on a [NewExtendedMiningJob]. *)
Definition incoming_new_extended_mining_job (api_secret : option bytes) (m : NewExtendedMiningJob)
    : UM unit :=
  merge_mining_binding_id ← claim_pending api_secret (ej_job_id m);
  if is_future m then
    future_j ← gets uw_future_j;
    _ ← modify (set_uw_future_j (Some (m, merge_mining_binding_id)));
    match (future_j : option (NewExtendedMiningJob * option N)) with
    | Some (_, replaced_binding_id) => clear_pending api_secret replaced_binding_id
    | None => mret tt
    end
  else
    _ ← record_job_id api_secret (ej_job_id m) merge_mining_binding_id;
    send_bridge_work api_secret (WorkNewExtendedMiningJob m merge_mining_binding_id)
      merge_mining_binding_id.

(** The main loop on a [SetNewPrevHash]. *)
Definition incoming_set_new_prev_hash (api_secret : option bytes) (m : SetNewPrevHash) : UM unit :=
  future_j ← gets uw_future_j;
  match (future_j : option (NewExtendedMiningJob * option N)) with
  | Some (j, merge_mining_binding_id) =>
      _ ← modify (set_uw_future_j None);
      _ ← record_job_id api_secret (ph_job_id m) merge_mining_binding_id;
      _ ← send_bridge_work api_secret (WorkNewExtendedMiningJob j merge_mining_binding_id)
            merge_mining_binding_id;
      send_bridge_work api_secret (WorkSetNewPrevHash m) merge_mining_binding_id
  | None => send_bridge_work api_secret (WorkSetNewPrevHash m) None
  end.

(** [tx_sv2_extranonce.send] *)
Definition send_extranonce (extended : ExtendedExtranonce) (channel_id : N) : UM unit := λ w,
  if tx_open (uw_sv2_extranonce w)
  then (Done tt, set_uw_sv2_extranonce
          (sender_push (extended, channel_id) (uw_sv2_extranonce w)) w)
  else (Failed tt, w).

(** The main loop on an [OpenExtendedMiningChannelSuccess]. *)
Definition incoming_open_success (m : OpenExtendedMiningChannelSuccess) : UM unit :=
  let prefix_len := length (os_extranonce_prefix m) in
  _ ← lock_upstream (update_upstream (set_up_extranonce1_size prefix_len));
  min_size ← upstream up_min_extranonce_size;
  let ranges := extranonce_ranges (usize_of prefix_len) (os_extranonce_size m) min_size in
  match from_upstream_extranonce (os_extranonce_prefix m) ranges with
  | None =>
      _ ← modify (λ w, set_uw_proxy
            (uw_proxy w ≫= update_upstream_state TranslatorUpstream) w);
      fail tt
  | Some extended => send_extranonce extended (os_channel_id m)
  end.

(** Storing a target, from within a handler. *)
Definition store_target (target : bytes) : UM unit :=
  with_lock uw_target set_uw_target tt
    (modify (λ w, set_uw_target (store (uw_target w) target) w)).

(** [handle_open_extended_mining_channel_success] *)
Definition handle_open_extended_mining_channel_success
    (m : OpenExtendedMiningChannelSuccess) (target : bytes) : UM unit :=
  min_size ← upstream up_min_extranonce_size;
  if invalid_extranonce_size min_size (os_extranonce_size m) then fail tt
  else
    _ ← store_target target;
    update_upstream (set_up_channel (os_channel_id m) (os_extranonce_prefix m)).

(** [handle_submit_shares_error] *)
Definition handle_submit_shares_error (sequence_number : N) (error_code : bytes) : UM unit :=
  _ ← update_upstream (λ u, set_up_counters (up_sent_up u)
        (wrapping_add u32_max (up_rejected u) 1) (up_toa u) u);
  let error_code := default (lit "unparsable error code") (from_utf8 error_code) in
  answering (resolve_submit_error sequence_number
    (Err (submit_error_to_rejection_reason error_code))).

(** The loop of [parse_incoming] on one message: the handler of the message runs
    under the lock, then the loop passes it on. *)
Definition parse_incoming (api_secret : option bytes) (now : N) (message : PoolMessage)
    : UM unit :=
  match message with
  | PoolOpenSuccess m target =>
      _ ← lock_upstream (handle_open_extended_mining_channel_success m target);
      incoming_open_success m
  | PoolNewExtendedMiningJob m =>
      _ ← lock_upstream (mret tt);
      incoming_new_extended_mining_job api_secret m
  | PoolSetNewPrevHash m =>
      _ ← lock_upstream (update_upstream (λ u,
            set_up_counters (up_sent_up u) (up_rejected u) (up_toa u ++ [now]) u));
      incoming_set_new_prev_hash api_secret m
  | PoolSubmitSharesSuccess last_sequence_number accepted_count =>
      lock_upstream (answering (resolve_submit_success last_sequence_number accepted_count))
  | PoolSubmitSharesError sequence_number error_code =>
      lock_upstream (handle_submit_shares_error sequence_number error_code)
  | PoolSetTarget maximum_target => lock_upstream (store_target maximum_target)
  | PoolSetCustomMiningJobSuccess job_id =>
      lock_upstream (update_upstream (set_up_last_job_id job_id))
  | PoolTodo => _ ← lock_upstream (mret tt); panic
  | PoolUnimplemented => lock_upstream panic
  end.

(** [Upstream::handle_token_updates] on one token, which has to fit its message. *)
Definition handle_token_update `{BL : !BinaryLib} (new_token : str) : UM unit := λ w,
  let failed : UM unit :=
    _ ← modify (λ w, set_uw_proxy (uw_proxy w ≫= update_upstream_state TranslatorUpstream) w);
    fail tt in
  match lock_upstream (upstream (λ u, default 0%N (up_channel_id u))) w with
  | (Done channel_id, w) =>
      if fits_0255 (str_len new_token)
      then (sent ← send_to_pool (ToPoolUpdateUserCode channel_id new_token);
            if sent : bool then mret tt else failed) w
      else (Panicked, w)
  | (Failed _, w) => failed w
  | (Panicked, w) => (Panicked, w)
  end.
End tasks.

(** ** The retarget rate limiter *)
Definition MAX_UPSTREAM_RETARGETS_PER_MINUTE : N := 100.

Record UpstreamRetargetRateLimiter := MkUpstreamRetargetRateLimiter {
  rl_min_interval : N;
  rl_next_allowed_at : option N
}.

(** [UpstreamRetargetRateLimiter::new]: the interval is a whole number of
    microseconds; durations are in nanoseconds. *)
Definition retarget_rate_limiter_new (max_per_minute : N) : UpstreamRetargetRateLimiter :=
  let max_per_minute := N.max max_per_minute 1 in
  MkUpstreamRetargetRateLimiter (60000000 / max_per_minute * 1000)%N None.

(** [UpstreamRetargetRateLimiter::wait_duration] *)
Definition wait_duration (now : N) (l : UpstreamRetargetRateLimiter) : option N :=
  match rl_next_allowed_at l ≫= λ next_allowed_at, checked_sub next_allowed_at now with
  | Some wait => if (wait =? 0)%N then None else Some wait
  | None => None
  end.

(** [UpstreamRetargetRateLimiter::record_send] *)
Definition record_send (now : N) (l : UpstreamRetargetRateLimiter)
    : UpstreamRetargetRateLimiter :=
  MkUpstreamRetargetRateLimiter (rl_min_interval l) (Some (now + rl_min_interval l)%N).

(** The loop of [run_diff_management] while updates are pending: at each instant it
    wakes it either has to wait, or sends an [UpdateChannel] and records it; the
    instants at which it sends. *)
Fixpoint retarget_loop (wakes : list N) (l : UpstreamRetargetRateLimiter) : list N :=
  match wakes with
  | [] => []
  | now :: wakes =>
      match wait_duration now l with
      | Some _ => retarget_loop wakes l
      | None => now :: retarget_loop wakes (record_send now l)
      end
  end.
