(* ===== verification/UpstreamProps.v ===== *)
(** * Properties of the upstream side

    Every submit handed to the upstream is pending or answered, never both and never
    twice; an acknowledgement of several shares answers the latest of them; the
    extranonce check cannot fail; and channel updates are limited to a hundred a
    minute. *)

From Stdlib Require Import Sorting.Sorted.
From S2P Require Import Prelude Str Bitcoin BitcoinModel F32 Sv1 RskCommitment MergeState MergeMining RecentJobs ShareLimits Effects Stats ProxyState Downstream Sv2 Bridge Upstream.

(** ** The association list *)
Section btree_props.
Context {A : Type}.
Implicit Types m : list (N * A).

Lemma bt_insert_last k a m : (∀ k', k' ∈ m.*1 → (k' < k)%N) → bt_insert k a m = m ++ [(k, a)].
Proof.
  induction m as [|[k' a'] m IH]; intros Hm; [done|]. cbn [bt_insert].
  assert (k' < k)%N by (apply Hm; left).
  destruct (N.ltb_spec k k'); [lia|]. destruct (N.eqb_spec k k'); [lia|].
  cbn. f_equal. apply IH. intros x Hx. apply Hm. by right.
Qed.

Lemma bt_remove_Some k m a m' :
  bt_remove k m = (Some a, m') → ∃ before after, m = before ++ (k, a) :: after ∧
    m' = before ++ after.
Proof.
  revert m'. induction m as [|[k' a'] m IH]; intros m'; cbn [bt_remove]; [done|].
  destruct (N.eqb_spec k k') as [->|Hne].
  - intros [= -> ->]. by exists [], m'.
  - destruct (bt_remove k m) as [r rest]. intros [= -> <-].
    destruct (IH rest eq_refl) as (before & after & -> & ->).
    by exists ((k', a') :: before), after.
Qed.

Lemma bt_remove_None k m (m' : list (N * A)) : bt_remove k m = (None, m') → k ∉ m.*1.
Proof.
  revert m'. induction m as [|[k' a'] m IH]; intros m'; cbn [bt_remove];
    [intros _; apply not_elem_of_nil|].
  destruct (N.eqb_spec k k') as [->|Hne]; [done|].
  destruct (bt_remove k m) as [r rest]. intros [= -> <-].
  cbn. rewrite not_elem_of_cons. eauto.
Qed.

Lemma bt_remove_at k (a : A) (before after : list (N * A)) :
  k ∉ before.*1 → bt_remove k (before ++ (k, a) :: after) = (Some a, before ++ after).
Proof.
  induction before as [|[k' a'] before IH]; cbn; [by rewrite N.eqb_refl|].
  rewrite not_elem_of_cons. intros [Hne Hk]. destruct (N.eqb_spec k k'); [done|].
  by rewrite IH.
Qed.

Lemma sorted_middle (l1 l2 : list N) x :
  StronglySorted N.lt (l1 ++ x :: l2) → StronglySorted N.lt (l1 ++ l2).
Proof.
  induction l1 as [|y l1 IH]; cbn; intros H; inversion H as [|? ? Hs Hf]; subst; [done|].
  constructor; [by apply IH|]. apply Forall_app in Hf as [? Hf].
  apply Forall_app. split; [done|]. by inversion Hf.
Qed.

Lemma sorted_snoc (l : list N) x :
  StronglySorted N.lt l → (∀ y, y ∈ l → (y < x)%N) → StronglySorted N.lt (l ++ [x]).
Proof.
  induction 1 as [|y l Hs IH Hf]; intros Hx; cbn; [by repeat constructor|].
  constructor; [apply IH; intros z Hz; apply Hx; by right|].
  apply Forall_app. split; [done|]. constructor; [|constructor]. apply Hx. left.
Qed.
End btree_props.

(** ** Pending submits *)

(** What the tasks do to the pending submits. *)
Inductive SubmitEvent :=
| Register (result_tx : N)
| Success (last_sequence_number accepted_count : N)
| Error (sequence_number : N) (result : SubmitShareResult).

Definition submit_event (s : Upstream * Answers) (e : SubmitEvent) : Upstream * Answers :=
  let '(u, answers) := s in
  match e with
  | Register result_tx => ((register_pending_submit result_tx u).2, answers)
  | Success last_sequence_number accepted_count =>
      let '(a, u) := resolve_submit_success last_sequence_number accepted_count u in
      (u, answers ++ a)
  | Error sequence_number result =>
      let '(a, u) := resolve_submit_error sequence_number result u in (u, answers ++ a)
  end.
Definition registered (events : list SubmitEvent) : list N :=
  omap (λ e, match e with Register result_tx => Some result_tx | _ => None end) events.

(** The invariant, given the reply channels registered so far. *)
Record pending_inv (s : Upstream * Answers) (channels : list N) : Prop := {
  pi_sorted : StronglySorted N.lt (up_pending_submits s.1).*1;
  pi_bound k : k ∈ (up_pending_submits s.1).*1 → (k < up_next_submit_sequence s.1)%N;
  pi_next : up_next_submit_sequence s.1 = N.of_nat (length channels);
  pi_partition : (up_pending_submits s.1).*2 ++ s.2.*1 ≡ₚ channels
}.

Lemma answer_pending_inv sequence_number result u answers channels :
  pending_inv (u, answers) channels →
  let '(a, u') := answer_pending sequence_number result u in
  pending_inv (u', answers ++ a) channels.
Proof.
  intros [Hs Hb Hn Hp]. unfold answer_pending.
  destruct (bt_remove _ _) as [[tx|] pending] eqn:E.
  - apply bt_remove_Some in E as (before & after & Hu & ->).
    cbn in Hs, Hb, Hp. rewrite Hu in Hs, Hb, Hp. rewrite !fmap_app in Hs, Hb, Hp.
    cbn in Hs, Hb, Hp. split; cbn.
    + rewrite fmap_app. by eapply sorted_middle.
    + intros k Hk. apply Hb. rewrite fmap_app in Hk. set_solver.
    + done.
    + rewrite <- Hp, !fmap_app. cbn. rewrite (assoc_L (++) (before.*2 ++ after.*2)).
      rewrite <- Permutation_cons_append. rewrite <- !app_assoc. cbn.
      by rewrite Permutation_middle.
  - by rewrite app_nil_r.
Qed.

Lemma answer_all_inv l result u answers channels :
  pending_inv (u, answers) channels →
  let '(a, u') := answer_all l result u in pending_inv (u', answers ++ a) channels.
Proof.
  revert u answers. induction l as [|k l IH]; intros u answers Hi; cbn; [by rewrite app_nil_r|].
  pose proof (answer_pending_inv k result u answers channels Hi) as H.
  destruct (answer_pending k result u) as [a1 u1].
  pose proof (IH u1 _ H) as H2. destruct (answer_all l result u1) as [a2 u2].
  by rewrite (assoc_L (++)).
Qed.

Lemma register_inv tx u answers channels :
  (N.of_nat (length channels) < u32_max)%N → pending_inv (u, answers) channels →
  pending_inv ((register_pending_submit tx u).2, answers) (channels ++ [tx]).
Proof.
  intros Hlen [Hs Hb Hn Hp]. cbn in Hs, Hb, Hn, Hp.
  assert (wrapping_add u32_max (up_next_submit_sequence u) 1
    = N.of_nat (length (channels ++ [tx]))) as Hw.
  { unfold wrapping_add. rewrite Hn, length_app, N.mod_small by lia. cbn [length]. lia. }
  unfold register_pending_submit. cbn [snd]. rewrite Hw, (bt_insert_last _ _ _ Hb).
  split; cbn [fst snd up_pending_submits up_next_submit_sequence set_up_pending].
  - rewrite fmap_app. cbn. by apply sorted_snoc.
  - intros k. rewrite fmap_app, elem_of_app. cbn. rewrite list_elem_of_singleton.
    rewrite length_app, Hn in *. cbn [length]. intros [Hk%Hb| ->]; lia.
  - done.
  - rewrite fmap_app, <- Hp. cbn. rewrite <- !app_assoc.
    apply Permutation_app_head, Permutation_app_comm.
Qed.

Lemma resolve_success_inv last count u answers channels :
  pending_inv (u, answers) channels →
  let '(a, u') := resolve_submit_success last count u in pending_inv (u', answers ++ a) channels.
Proof.
  intros Hi. unfold resolve_submit_success. destruct (count =? 0)%N; [by rewrite app_nil_r|].
  destruct (count =? 1)%N; [by apply answer_pending_inv|by apply answer_all_inv].
Qed.

(** A connection that just started. *)
Definition idle (u : Upstream) : Prop :=
  up_next_submit_sequence u = 0%N ∧ up_pending_submits u = [].

(** C5: no reply channel is lost or answered twice: after any registrations and
    answers of the pool, in any order and with any sequence numbers, the pending reply
    channels and the answered ones are together exactly the registered ones, as long
    as the 32-bit sequence does not wrap. *)
Theorem submits_pending_or_answered u events :
  idle u → (N.of_nat (length (registered events)) <= u32_max)%N →
  let s := fold_left submit_event events (u, []) in
  (up_pending_submits s.1).*2 ++ s.2.*1 ≡ₚ registered events ∧
  StronglySorted N.lt (up_pending_submits s.1).*1.
Proof.
  intros [Hn Hp] Hlen. assert (pending_inv (fold_left submit_event events (u, []))
    (registered events)) as [? _ _ ?]; [|done].
  induction events as [|e events IH] using rev_ind.
  - split; cbn; rewrite ?Hp, ?Hn; cbn; try done; [constructor|].
    intros k Hk. by apply elem_of_nil in Hk.
  - rewrite fold_left_app. cbn [fold_left]. unfold registered in Hlen |- *.
    rewrite omap_app in Hlen |- *. fold (registered events) in Hlen |- *.
    rewrite length_app in Hlen. specialize (IH ltac:(lia)).
    destruct (fold_left submit_event events (u, [])) as [u' answers].
    destruct e as [tx|last count|k r]; cbn [omap list_omap] in Hlen |- *;
      rewrite ?app_nil_r; unfold submit_event.
    + apply register_inv; [cbn [length] in Hlen; lia|done].
    + pose proof (resolve_success_inv last count _ _ _ IH). by destruct (resolve_submit_success _ _ _).
    + pose proof (answer_pending_inv k r _ _ _ IH).
      unfold resolve_submit_error. by destruct (answer_pending _ _ _).
Qed.

(** ** Acknowledgements *)

Lemma answer_all_run before acked after u result :
  StronglySorted N.lt (before ++ acked ++ after).*1 →
  up_pending_submits u = before ++ acked ++ after →
  answer_all acked.*1 result u =
    ((λ p, (p.2, result)) <$> acked,
     set_up_pending (up_next_submit_sequence u) (before ++ after) u).
Proof.
  revert u. induction acked as [|[k tx] acked IH]; intros u Hs Hu; cbn.
  - f_equal. destruct u; cbn in *. by rewrite Hu.
  - unfold answer_pending. rewrite Hu. cbn. rewrite bt_remove_at.
    + rewrite IH; [done| |done]. rewrite !fmap_app in Hs |- *. cbn in Hs.
      by eapply sorted_middle.
    + intros Hk. rewrite fmap_app in Hs. cbn in Hs. clear -Hk Hs.
      induction before as [|[k' t'] before IH]; [by apply elem_of_nil in Hk|].
      cbn in Hs. inversion Hs as [|? ? Hs' Hf]; subst. cbn in Hk.
      apply elem_of_cons in Hk as [->|Hk]; [|by apply IH].
      apply Forall_app in Hf as [_ Hf]. inversion Hf. lia.
Qed.

Lemma acknowledged_sequences_spec last count (older newer : list (N * N)) :
  (∀ k, k ∈ older.*1 → (k <= last)%N) → (∀ k, k ∈ newer.*1 → (last < k)%N) →
  acknowledged_sequences last count (older ++ newer) =
    drop (length older - N.to_nat count) older.*1.
Proof.
  intros Ho Hn. unfold acknowledged_sequences, bt_keys_to. rewrite fmap_app, retain_app.
  rewrite retain_all by (intros k Hk%Ho; by apply N.leb_le).
  rewrite retain_none by (intros k Hk%Hn; by apply N.leb_gt).
  rewrite app_nil_r, take_reverse, reverse_involutive. by rewrite length_fmap.
Qed.

(** An acknowledgement of several shares answers the latest of them: of the
    pending submits up to the acknowledged sequence number, exactly the last ones, as
    many as the pool counted (or all of them when there are fewer), are answered as
    accepted, in order, and every other submit stays pending. *)
Theorem success_acknowledges_latest u older newer last count :
  up_pending_submits u = older ++ newer →
  StronglySorted N.lt (up_pending_submits u).*1 →
  (∀ k, k ∈ older.*1 → (k <= last)%N) → (∀ k, k ∈ newer.*1 → (last < k)%N) →
  (1 < count)%N →
  let kept := take (length older - N.to_nat count) older in
  let acked := drop (length older - N.to_nat count) older in
  resolve_submit_success last count u =
    ((λ p, (p.2, Ok tt)) <$> acked,
     set_up_pending (up_next_submit_sequence u) (kept ++ newer) u).
Proof.
  intros Hu Hs Ho Hn Hc kept acked. unfold resolve_submit_success.
  destruct (N.eqb_spec count 0); [lia|]. destruct (N.eqb_spec count 1); [lia|].
  rewrite Hu, acknowledged_sequences_spec, <- fmap_drop by done. fold acked.
  assert (up_pending_submits u = kept ++ acked ++ newer) as Hsplit.
  { unfold kept, acked. by rewrite (assoc_L (++)), take_drop. }
  apply answer_all_run; [by rewrite <- Hsplit|done].
Qed.

(** ** Extranonce sizes *)

(** The extranonce check of the channel opening never fires: whatever sizes the
    pool sends, adding the minimum to the difference gives the size back; when the
    size is at least the minimum (and the prefix is an extranonce), the three ranges are contiguous and the miner's part
    has the minimum size. *)
Theorem extranonce_guard_never_fires min_size size prefix_len :
  (min_size <= u16_max)%N → (size <= u16_max)%N →
  invalid_extranonce_size min_size size = false ∧
  ((min_size <= size)%N → (prefix_len <= 32)%N →
   let '((a0, a1), (b0, b1), (c0, c1)) := extranonce_ranges prefix_len size min_size in
   (a0 = 0 ∧ a1 = prefix_len ∧ b0 = a1 ∧ c0 = b1 ∧ b0 <= b1 ∧
    c1 - c0 = min_size ∧ c1 = prefix_len + size)%N).
Proof.
  unfold u16_max. intros Hm Hs.
  assert (usize_max = 18446744073709551615)%N as Hmax by reflexivity. split.
  - unfold invalid_extranonce_size, wrapping_add, u16_max, proxy_extranonce1_len, wrapping_sub.
    rewrite Hmax. apply N.ltb_ge. change (65535 + 1)%N with 65536%N.
    change (18446744073709551615 + 1)%N with (65536 * 281474976710656)%N.
    rewrite N.Div0.mod_mul_r, N.Div0.add_mod_idemp_r.
    rewrite (N.mul_comm 65536 ((_ / _) mod _)), N.add_assoc, N.Div0.mod_add.
    rewrite N.Div0.add_mod_idemp_r.
    replace (min_size + (size + 65536 * 281474976710656 - min_size))%N
      with (size + 281474976710656 * 65536)%N by lia.
    rewrite N.Div0.mod_add, N.mod_small; lia.
  - intros Hle Hprefix. unfold extranonce_ranges, proxy_extranonce1_len, wrapping_sub. rewrite Hmax.
    replace (size + (18446744073709551615 + 1) - min_size)%N
      with (size - min_size + 1 * (18446744073709551615 + 1))%N by lia.
    rewrite N.Div0.mod_add, (N.mod_small (size - min_size)) by lia.
    unfold wrapping_add. rewrite !N.mod_small by lia. lia.
Qed.

(** ** The retarget rate *)

(** Sends of the loop are apart by the interval. *)
Lemma retarget_loop_spaced wakes l :
  StronglySorted N.le wakes →
  let sends := retarget_loop wakes l in
  (∀ t, t ∈ sends → t ∈ wakes ∧ default 0%N (rl_next_allowed_at l) <= t)%N ∧
  (∀ i a b, sends !! i = Some a → sends !! S i = Some b → (a + rl_min_interval l <= b)%N).
Proof.
  revert l. induction wakes as [|now wakes IH]; intros l Hs; cbn.
  { split; [intros t Ht; by apply elem_of_nil in Ht|done]. }
  inversion Hs as [|? ? Hs' Hf]; subst. destruct (wait_duration now l) as [w|] eqn:Hw.
  { destruct (IH l Hs') as [H1 H2]. split; [|done].
    intros t Ht. destruct (H1 t Ht). split; [by right|done]. }
  assert (default 0 (rl_next_allowed_at l) <= now)%N as Hnow.
  { unfold wait_duration in Hw. destruct (rl_next_allowed_at l) as [next|]; cbn in Hw |- *; [|lia].
    destruct (checked_sub next now) as [d|] eqn:E.
    - apply checked_sub_Some in E as [-> ?]. destruct (N.eqb_spec (next - now) 0); [lia|done].
    - destruct (N.le_gt_cases now next) as [Hle|]; [|lia].
      assert (checked_sub next now = Some (next - now)%N) by by apply checked_sub_Some.
      congruence. }
  destruct (IH (record_send now l) Hs') as [H1 H2]. split.
  - intros t [->|Ht]%elem_of_cons; [split; [left|done]|].
    destruct (H1 t Ht) as [Hin _]. split; [by right|].
    rewrite Forall_forall in Hf. specialize (Hf t Hin). lia.
  - intros [|i] a b; cbn; [|by apply H2]. intros [= <-] Hb.
    apply list_elem_of_lookup_2 in Hb. by destruct (H1 b Hb) as [_ Hle].
Qed.

Lemma spaced_index (sends : list N) (d : N) i k a b :
  (∀ i a b, sends !! i = Some a → sends !! S i = Some b → (a + d <= b)%N) →
  sends !! i = Some a → sends !! (i + k) = Some b → (a + N.of_nat k * d <= b)%N.
Proof.
  intros Hsp. revert b. induction k as [|k IH]; intros b Ha Hb.
  - rewrite Nat.add_0_r, Ha in Hb. injection Hb as ->. lia.
  - replace (i + S k) with (S (i + k)) in Hb by lia.
    destruct (lookup_lt_is_Some_2 sends (i + k)) as [c Hc].
    { apply lookup_lt_Some in Hb. lia. }
    specialize (IH c Ha Hc). specialize (Hsp _ _ _ Hc Hb). lia.
Qed.

(** The pool sees at most a hundred channel updates a minute: whenever the loop
    wakes and however often updates are requested, the hundredth update after any
    update comes at least a minute after it. *)
Theorem retargets_bounded_per_minute wakes i a b :
  StronglySorted N.le wakes →
  let sends := retarget_loop wakes
    (retarget_rate_limiter_new MAX_UPSTREAM_RETARGETS_PER_MINUTE) in
  sends !! i = Some a → sends !! (i + 100) = Some b → (a + secs 60 <= b)%N.
Proof.
  intros Hs sends Ha Hb. destruct (retarget_loop_spaced wakes
    (retarget_rate_limiter_new MAX_UPSTREAM_RETARGETS_PER_MINUTE) Hs) as [_ Hsp].
  pose proof (spaced_index _ _ i 100 a b Hsp Ha Hb) as H.
  change (N.of_nat 100 * _)%N with (secs 60) in H. exact H.
Qed.

(** ** The user's token *)
Section token.
Context `{ML : !MiningLib} `{EL : !ExtranonceLib} `{BL : !BinaryLib}.

(** C16: The token of the first miner reaches the pool as it is, under the identifier of the
    channel, if it fits its message.  A longer one, which the first miner can send as its password,
    panics in the task: the pool never hears of the token and nothing is reported, while the
    miner was answered that it is authorized. *)
Theorem token_update_outcome new_token w :
  poisoned (uw_upstream w) = false →
  let u := guarded (uw_upstream w) in
  let '(r, w') := handle_token_update new_token w in
  match r with
  | Done _ => (str_len new_token <= 255)%nat ∧ tx_open (up_sender u) = true ∧
      tx_sent (up_sender (guarded (uw_upstream w'))) = tx_sent (up_sender u) ++
        [ToPoolUpdateUserCode (default 0%N (up_channel_id u)) new_token] ∧
      uw_proxy w' = uw_proxy w
  | Failed _ => (str_len new_token <= 255)%nat ∧ tx_open (up_sender u) = false ∧
      uw_proxy w' = (uw_proxy w ≫= update_upstream_state TranslatorUpstream)
  | Panicked => (255 < str_len new_token)%nat ∧ w' = w
  end.
Proof.
  intros Hp. cbn zeta. unfold handle_token_update, lock_upstream, with_lock. rewrite Hp. cbn.
  pose proof (fits_0255_spec (str_len new_token)) as Hf.
  destruct (fits_0255 (str_len new_token)).
  - apply proj1 in Hf. specialize (Hf eq_refl). unfold mbind, M_bind, send_to_pool.
    destruct (tx_open _) eqn:Ho in |- *; cbn; by rewrite ?Ho.
  - split; [|done]. destruct (decide (str_len new_token <= 255)%nat) as [H%Hf|]; [done|lia].
Qed.
End token.

(** ** Witnesses *)
Definition example_upstream : Upstream :=
  MkUpstream (Some 1%N) None None None 8%N 8 (MkSender true []) 0 0 [] 0 [].
Definition example_submits : list SubmitEvent :=
  [Register 10; Register 11; Register 12; Register 13; Error 1 (Err UpstreamRejected);
   Success 2 2; Success 7 1].

Lemma submits_pending_or_answered_witness :
  (fold_left submit_event example_submits (example_upstream, [])).2 =
    [(11, Err UpstreamRejected); (10, Ok tt); (12, Ok tt)]%N ∧
  [13; 11; 10; 12]%N ≡ₚ registered example_submits.
Proof.
  split; [vm_compute; reflexivity|].
  apply (submits_pending_or_answered example_upstream example_submits);
    [split; reflexivity|vm_compute; discriminate].
Defined.

Lemma success_acknowledges_latest_witness :
  (resolve_submit_success 2 2 (set_up_pending 4 [(0, 10); (1, 11); (2, 12); (3, 13)]%N
     example_upstream)).1 = [(11, Ok tt); (12, Ok tt)]%N.
Proof.
  rewrite (success_acknowledges_latest _ [(0, 10); (1, 11); (2, 12)]%N [(3, 13)]%N);
    [reflexivity|reflexivity|repeat constructor| | |reflexivity].
  - intros k Hk. cbn in Hk. rewrite !elem_of_cons, elem_of_nil in Hk. lia.
  - intros k Hk. cbn in Hk. rewrite !elem_of_cons, elem_of_nil in Hk. lia.
Defined.

Lemma extranonce_guard_never_fires_witness :
  invalid_extranonce_size 8 4 = false ∧ invalid_extranonce_size 8 16 = false.
Proof.
  split; apply (extranonce_guard_never_fires _ _ 0); vm_compute; discriminate.
Defined.

Definition example_wakes : list N := (λ i, N.of_nat i * 300000000)%N <$> seq 0 250.
Lemma retargets_bounded_per_minute_witness :
  ∃ a b, retarget_loop example_wakes
      (retarget_rate_limiter_new MAX_UPSTREAM_RETARGETS_PER_MINUTE) !! 0 = Some a ∧
    retarget_loop example_wakes
      (retarget_rate_limiter_new MAX_UPSTREAM_RETARGETS_PER_MINUTE) !! 100 = Some b ∧
    (a + secs 60 <= b)%N.
Proof.
  eexists _, _. split; [vm_compute; reflexivity|]. split; [vm_compute; reflexivity|].
  eapply (retargets_bounded_per_minute example_wakes 0).
  - apply Sorted_StronglySorted; [intros x y z; apply N.le_trans|].
    vm_compute. repeat (constructor; try discriminate).
  - vm_compute. reflexivity.
  - vm_compute. reflexivity.
Defined.

#[local] Instance token_extranonce : ExtranonceLib := {
  ExtendedExtranonce := unit;
  from_upstream_extranonce := λ _ _, None
}.
Definition token_world : UpstreamWorld :=
  MkUpstreamWorld (new_mutex example_upstream) (new_mutex []) (MkSender true [])
    (MkSender true []) None None [] None.
Lemma token_update_outcome_witness :
  (handle_token_update (replicate 256 97%N) token_world).1 = Panicked ∧
  (255 < str_len (replicate 256 97%N))%nat.
Proof.
  pose proof (token_update_outcome (replicate 256 97%N) token_world eq_refl) as H.
  split; [vm_compute; reflexivity|].
  destruct (handle_token_update (replicate 256 97%N) token_world) as [[[]|e|] w'] eqn:E.
  - vm_compute in E. discriminate.
  - vm_compute in E. discriminate.
  - exact (proj1 H).
Defined.
