(* ===== verification/UpstreamDiff.v ===== *)
(** * The hash rate the pool is told

    [run_diff_management] and [try_update_hashrate] of
    [translator/upstream/diff_management.rs]: the task that tells the pool the aggregate
    hash rate of the miners, while the miners' tasks change it.  The loop's turns and the
    changes interleave freely; sending fails when the connection's queue is closed. *)

From S2P Require Import Prelude F32 ShareLimits Effects DiffManagement Upstream.

(** The [watch] channel counts the values sent, and its receiver remembers the count it has
    seen: [changed] is ready when there are newer ones. *)
Inductive LoopStage :=
  | LoopTurn
  | LoopSending   (** between [borrow_and_update] and the reading of the aggregate *)
  | LoopReturned.

Record DiffLoop := MkDiffLoop {
  lp_stage : LoopStage;
  lp_limiter : UpstreamRetargetRateLimiter;
  lp_pending_update : bool;
  lp_seen : N
}.

(** What the loop shares: the channel, its configuration behind two mutexes, the versions of
    the [watch] channel, and the queue to the pool. *)
Record DiffShared := MkDiffShared {
  ds_channel_id : option N;
  ds_upstream_poisoned : bool;
  ds_difficulty_config : Mutex UpstreamDifficultyConfig;
  ds_version : N;
  ds_watch_open : bool;
  ds_sender : Sender (N * f32)
}.
Definition set_ds_sender v s := MkDiffShared (ds_channel_id s) (ds_upstream_poisoned s)
  (ds_difficulty_config s) (ds_version s) (ds_watch_open s) v.

(** [try_update_hashrate] *)
Definition try_update_hashrate (s : DiffShared) : result unit DiffError * DiffShared :=
  if ds_upstream_poisoned s then (Err TranslatorDiffConfigMutexPoisoned, s)
  else
    match ds_channel_id s with
    | None => (Ok tt, s)
    | Some channel_id =>
        match lock (ds_difficulty_config s) with
        | None => (Err TranslatorDiffConfigMutexPoisoned, s)
        | Some d =>
            if tx_open (ds_sender s)
            then (Ok tt, set_ds_sender
                   (sender_push (channel_id, ud_channel_nominal_hashrate d) (ds_sender s)) s)
            else (Err DiffAsyncChannelError, s)
        end
    end.

(** What the [select!] of a turn finds ready. *)
Inductive Ready := ReadyTimeout | ReadyChanged.

(** A turn of the loop at [now].  [changed] marks the newest version as seen. *)
Definition diff_turn (now : N) (ready : Ready) (l : DiffLoop) (s : DiffShared)
    : DiffLoop * DiffShared :=
  match lp_stage l with
  | LoopReturned => (l, s)
  | LoopSending =>
      match try_update_hashrate s with
      | (Err _, s) => (MkDiffLoop LoopReturned (lp_limiter l) (lp_pending_update l) (lp_seen l), s)
      | (Ok _, s) => (MkDiffLoop LoopTurn (record_send now (lp_limiter l)) false (lp_seen l), s)
      end
  | LoopTurn =>
      if lp_pending_update l then
        match wait_duration now (lp_limiter l) with
        | Some _ => (l, s)
        | None => (MkDiffLoop LoopSending (lp_limiter l) true (ds_version s), s)
        end
      else if ds_upstream_poisoned s || poisoned (ds_difficulty_config s)
      then (MkDiffLoop LoopReturned (lp_limiter l) false (lp_seen l), s)
      else
        match ready with
        | ReadyTimeout => (MkDiffLoop LoopTurn (lp_limiter l) true (lp_seen l), s)
        | ReadyChanged =>
            if negb (lp_seen l =? ds_version s)%N
            then (MkDiffLoop LoopTurn (lp_limiter l) true (ds_version s), s)
            else if ds_watch_open s then (l, s)
            else (MkDiffLoop LoopReturned (lp_limiter l) false (lp_seen l), s)
        end
  end.

(** A locked change of the aggregate by a miner's task: each of [reconcile_...],
    [subtract_...], [add_...] and [multiply_channel_hashrate] stores a new aggregate and
    requests an immediate update. *)
Definition change_aggregate (hash_rate : f32) (s : DiffShared) : DiffShared :=
  MkDiffShared (ds_channel_id s) (ds_upstream_poisoned s)
    (store (ds_difficulty_config s)
       (request_immediate_update
          (set_channel_nominal_hashrate hash_rate (guarded (ds_difficulty_config s)))))
    (ds_version s + 1) (ds_watch_open s) (ds_sender s).

Inductive diff_step : DiffLoop * DiffShared → DiffLoop * DiffShared → Prop :=
  | diff_step_turn now ready l s : diff_step (l, s) (diff_turn now ready l s)
  | diff_step_change h l s : diff_step (l, s) (l, change_aggregate h s).

Definition diff_loop_new : DiffLoop :=
  MkDiffLoop LoopTurn (retarget_rate_limiter_new MAX_UPSTREAM_RETARGETS_PER_MINUTE) false 0.

(** ** Nothing is lost *)

(** The four changes are [change_aggregate]. *)
Lemma changes_are_change_aggregate s u x y :
  guarded (ds_difficulty_config s) = u →
  ∃ h1 h2 h3 h4,
    guarded (ds_difficulty_config (change_aggregate h1 s)) = reconcile_channel_hashrate x u ∧
    guarded (ds_difficulty_config (change_aggregate h2 s)) = subtract_channel_hashrate x u ∧
    guarded (ds_difficulty_config (change_aggregate h3 s)) = add_channel_hashrate x u ∧
    guarded (ds_difficulty_config (change_aggregate h4 s)) = multiply_channel_hashrate x y u.
Proof. intros <-. by repeat eexists. Qed.

(** The channel is open and the connection takes messages. *)
Record told_ready (s : DiffShared) : Prop := {
  tr_channel : is_Some (ds_channel_id s);
  tr_upstream : ds_upstream_poisoned s = false;
  tr_config : poisoned (ds_difficulty_config s) = false;
  tr_watch : ds_watch_open s = true;
  tr_sender : tx_open (ds_sender s) = true
}.

Definition aggregate (s : DiffShared) : f32 :=
  ud_channel_nominal_hashrate (guarded (ds_difficulty_config s)).
Definition told (s : DiffShared) : option f32 := snd <$> last (tx_sent (ds_sender s)).

(** Either the pool was last told the aggregate, or nothing changed yet, or the loop still
    has to tell it. *)
Record told_inv (l : DiffLoop) (s : DiffShared) : Prop := {
  ti_ready : told_ready s;
  ti_seen : (lp_seen l <= ds_version s)%N;
  ti_running : lp_stage l ≠ LoopReturned;
  ti_told : lp_stage l = LoopTurn → lp_pending_update l = false → lp_seen l = ds_version s →
    told s = Some (aggregate s) ∨ ds_version s = 0%N ∧ tx_sent (ds_sender s) = []
}.

Lemma change_told_inv h l s : told_inv l s → told_inv l (change_aggregate h s).
Proof.
  intros [[? ? ? ? ?] Hseen Hrun Htold]. split; [by split| |done|]; cbn; [lia|].
  intros _ _ H. lia.
Qed.

Lemma told_snoc s c : told_ready s → ds_channel_id s = Some c →
  try_update_hashrate s =
    (Ok tt, set_ds_sender (sender_push (c, aggregate s) (ds_sender s)) s).
Proof.
  intros [_ Hu Hc _ Hs] Hid. unfold try_update_hashrate, lock. by rewrite Hu, Hid, Hc, Hs.
Qed.

Lemma turn_told_inv now ready l s :
  told_inv l s → told_inv (diff_turn now ready l s).1 (diff_turn now ready l s).2.
Proof.
  intros [Hr Hseen Hrun Htold]. unfold diff_turn. destruct (lp_stage l) eqn:Hst; [| |done].
  - destruct (lp_pending_update l) eqn:Hp.
    + destruct (wait_duration _ _); cbn.
      * split; [done|done|simpl; by rewrite Hst|simpl; intros _ ?; congruence].
      * by split.
    + destruct Hr as [Hch Hu Hc Hw Hs]. rewrite Hu, Hc. cbn [orb].
      destruct ready; [by split|].
      destruct (N.eqb_spec (lp_seen l) (ds_version s)); cbn [negb]; [|by split].
      rewrite Hw. split; [by split|done|simpl; by rewrite Hst|]. intros _ _ _. by apply Htold.
  - destruct (tr_channel _ Hr) as [c Hc]. rewrite (told_snoc s c Hr Hc). cbn.
    destruct Hr as [? ? ? ? ?]. split; cbn; [by split|done|done|].
    intros _ _ _. left. unfold told. cbn. by rewrite last_snoc.
Qed.

Lemma steps_told_inv a b : rtc diff_step a b → told_inv a.1 a.2 → told_inv b.1 b.2.
Proof.
  induction 1 as [|a c b Hstep _ IH]; [done|]. intros Ha. apply IH.
  destruct Hstep; [by apply turn_told_inv|by apply change_told_inv].
Qed.

(** C14: No change of the aggregate is lost: however the changes fall between the turns of
    the loop, when the loop has seen the last change and has nothing pending, the last hash
    rate the pool was told is the aggregate; and the loop never ends while the connection
    lasts. *)
Theorem aggregate_reaches_pool s l' s' :
  told_ready s → ds_version s = 0%N → tx_sent (ds_sender s) = [] →
  rtc diff_step (diff_loop_new, s) (l', s') →
  lp_stage l' ≠ LoopReturned ∧
  (lp_stage l' = LoopTurn → lp_pending_update l' = false → lp_seen l' = ds_version s' →
    ds_version s' ≠ 0%N → told s' = Some (aggregate s')).
Proof.
  intros Hr Hv Hsent H. assert (told_inv diff_loop_new s) as Hi.
  { split; [done|cbn; lia|done|]. intros _ _ _. by right. }
  destruct (steps_told_inv _ _ H Hi) as [_ _ Hrun Htold]. split; [done|]. intros H1 H2 H3 H4.
  by destruct (Htold H1 H2 H3) as [?|[? _]].
Qed.

Lemma due_no_wait now l :
  (default 0 (rl_next_allowed_at l) <= now)%N → wait_duration now l = None.
Proof.
  unfold wait_duration. destruct (rl_next_allowed_at l) as [next|]; [|done]. cbn. intros H.
  unfold checked_sub. destruct (N.leb_spec now next); cbn; [|done].
  by replace (next - now)%N with 0%N by lia.
Qed.

(** And the pool is told soon: when something is pending or unseen and the rate limiter
    allows a message, the next three turns tell the pool the aggregate and leave nothing
    pending. *)
Theorem aggregate_told_soon now1 now2 now3 l s :
  told_inv l s → lp_stage l = LoopTurn →
  lp_pending_update l = true ∨ lp_seen l ≠ ds_version s →
  (default 0 (rl_next_allowed_at (lp_limiter l)) <= now1)%N → (now1 <= now2)%N →
  let '(l1, s1) := diff_turn now1 ReadyChanged l s in
  let '(l2, s2) := diff_turn now2 ReadyChanged l1 s1 in
  let '(l', s') := diff_turn now3 ReadyChanged l2 s2 in
  told s' = Some (aggregate s') ∧ aggregate s' = aggregate s ∧
  lp_pending_update l' = false ∧ lp_seen l' = ds_version s'.
Proof.
  intros [Hr Hseen _ _] Hst Hpend Hnow Horder. unfold diff_turn at 1. rewrite Hst.
  destruct (tr_channel _ Hr) as [c Hc]. pose proof (told_snoc s c Hr Hc) as Htold.
  destruct Hr as [Hch Hu Hcfg Hw Hs].
  destruct (lp_pending_update l) eqn:Hp.
  - rewrite due_no_wait by done. unfold diff_turn at 1. cbn [lp_stage]. rewrite Htold.
    unfold diff_turn. cbn. rewrite Hu, Hcfg. cbn [orb].
    rewrite N.eqb_refl, Hw. cbn. unfold told. cbn. by rewrite last_snoc.
  - destruct Hpend as [Hpend|Hpend]; [done|]. rewrite Hu, Hcfg. cbn [orb].
    rewrite (proj2 (N.eqb_neq _ _)) by done. cbn [negb].
    unfold diff_turn at 1. cbn [lp_stage lp_pending_update lp_limiter].
    rewrite due_no_wait by lia. unfold diff_turn. cbn [lp_stage]. rewrite Htold. cbn.
    unfold told. cbn. by rewrite last_snoc.
Qed.

(** ** Witnesses *)
Definition example_shared : DiffShared :=
  MkDiffShared (Some 3%N) false (new_mutex (upstream_difficulty_config_new 60 (f32_of_N 100)))
    0 true (MkSender true []).
Definition example_turn (now : N) (ls : DiffLoop * DiffShared) :=
  diff_turn now ReadyChanged ls.1 ls.2.
Definition example_change (h : N) (ls : DiffLoop * DiffShared) :=
  (ls.1, change_aggregate (f32_of_N h) ls.2).
(** The second change falls between [borrow_and_update] and the reading. *)
Definition example_diff_run : DiffLoop * DiffShared :=
  let ls := example_turn 2 (example_turn 1 (example_change 7 (diff_loop_new, example_shared))) in
  example_turn 700000000 (example_turn 700000000 (example_turn 4
    (example_turn 3 (example_change 8 ls)))).

Lemma example_diff_steps : rtc diff_step (diff_loop_new, example_shared) example_diff_run.
Proof.
  assert (∀ now a b, rtc diff_step a b → rtc diff_step a (example_turn now b)) as Hturn.
  { intros now a [l s] H. eapply rtc_r; [exact H|apply diff_step_turn]. }
  assert (∀ h a b, rtc diff_step a b → rtc diff_step a (example_change h b)) as Hchange.
  { intros h a [l s] H. eapply rtc_r; [exact H|apply diff_step_change]. }
  unfold example_diff_run. cbv zeta. repeat (apply Hturn || apply Hchange). apply rtc_refl.
Qed.

Lemma aggregate_reaches_pool_witness :
  told example_diff_run.2 = Some (f32_of_N 8) ∧
  tx_sent (ds_sender example_diff_run.2) = [(3%N, f32_of_N 8); (3%N, f32_of_N 8)].
Proof.
  split; [|vm_compute; reflexivity].
  destruct (aggregate_reaches_pool example_shared example_diff_run.1 example_diff_run.2
    ltac:(by repeat split; eexists) eq_refl eq_refl) as [_ Ht].
  - rewrite <- surjective_pairing. exact example_diff_steps.
  - rewrite Ht by (vm_compute; (reflexivity || discriminate)). vm_compute. reflexivity.
Defined.

Lemma aggregate_told_soon_witness :
  told_inv diff_loop_new (change_aggregate (f32_of_N 7) example_shared) ∧
  let s := change_aggregate (f32_of_N 7) example_shared in
  let '(l1, s1) := diff_turn 1 ReadyChanged diff_loop_new s in
  let '(l2, s2) := diff_turn 2 ReadyChanged l1 s1 in
  let '(l', s') := diff_turn 3 ReadyChanged l2 s2 in
  told s' = Some (aggregate s') ∧ aggregate s' = aggregate s ∧
  lp_pending_update l' = false ∧ lp_seen l' = ds_version s'.
Proof.
  assert (told_inv diff_loop_new (change_aggregate (f32_of_N 7) example_shared)) as Hi.
  { split; [by repeat split; eexists|simpl; lia|done|]. intros _ _ H. discriminate. }
  split; [exact Hi|].
  apply (aggregate_told_soon 1 2 3 diff_loop_new _ Hi eq_refl); [right; discriminate|simpl; lia..].
Defined.
