(* ===== verification/DownstreamTasks.v ===== *)
(** * The tasks of a miner's connection

    How a miner is accepted and served: [start_accept_connection] ([accept_connection.rs])
    with [Bridge::ready], [Downstream::new_downstream] ([downstream.rs]), the task that
    [start_notify] spawns and [start_update] ([notify.rs]), and the writer
    ([send_to_downstream.rs]).  Each task is a state and a function that makes one turn of it,
    between two points where it waits; their handles go to [TaskManager].  The registration of
    the hash rate at the beginning of [start_notify] is in [DiffManagement]; session timing
    ([SessionTiming]) only observes and is left out here. *)

From S2P Require Import Prelude Str Bitcoin F32 Sv1 RskCommitment MergeState MergeMining RecentJobs ShareLimits Effects Stats ProxyState Downstream DiffManagement Sv2 Bridge TaskManager.

(** ** A new miner *)

(** [claim_upstream_token_update]: the first miner of the process claims it. *)
Definition claim_upstream_token_update (claimed : bool) : bool * bool := (negb claimed, true).

Definition new_difficulty_config (downstream_hashrate share_per_min initial_difficulty : f32)
    (hard_minimum_difficulty : option f32) : DownstreamDifficultyConfig :=
  MkDownstreamDifficultyConfig downstream_hashrate []
    (difficulty_pid share_per_min initial_difficulty) [initial_difficulty] initial_difficulty
    hard_minimum_difficulty.

(** The miner [new_downstream] creates; [None] is the failed assertion that there is a job. *)
Definition new_downstream (connection_id : N) (extranonce1 : bytes)
    (last_notify : option MiningNotify) (extranonce2_len : N)
    (downstream_hashrate share_per_min initial_difficulty : f32)
    (hard_minimum_difficulty : option f32) (tx_sv1_bridge : Sender SubmitShareWithChannelId)
    (updates_upstream_token : bool) : option Downstream :=
  match last_notify with
  | None => None
  | Some last_notify =>
      Some (MkDownstream connection_id [] extranonce1 None None tx_sv1_bridge
        (MkSender true []) (N.to_nat extranonce2_len)
        (new_difficulty_config downstream_hashrate share_per_min initial_difficulty
           hard_minimum_difficulty)
        recent_jobs_new (mn_notify last_notify) (mn_merge_mining_binding_id last_notify) []
        updates_upstream_token false false false)
  end.

(** Its three first tasks are registered one after the other; a manager that is gone is
    reported and the rest goes on.  [None] waits for room. *)
Definition register_start_tasks (receive send bootstrap connection_id : N) (t : TaskManager)
    : option (bool * TaskManager) :=
  '(received, t) ← add_receive_downstream receive connection_id t;
  '(sending, t) ← add_send_downstream send connection_id t;
  '(bootstrapped, t) ← add_bootstrap bootstrap connection_id t;
  let failed (r : result unit unit) := match r with Ok _ => false | Err _ => true end in
  Some (failed received || failed sending || failed bootstrapped, t).

(** The bootstrap task skips a miner that left, and one whose mutex is poisoned. *)
Definition should_skip_bootstrap : M bool := λ w,
  match safe_lock (self dn_closed) w with
  | (Done closed, w) => (Done closed, w)
  | (_, w) => (_ ← mark_downstream_down; mret true) w
  end.

(** ** The accept loop *)
Section accept.
Context `{ML : !MiningLib}.

(** One look of [Bridge::ready]. *)
Definition ready_poll (w : BridgeWorld) : result bool BridgeError :=
  match lock (bw_bridge w) with
  | None => Err BridgeMutexPoisoned
  | Some b => Ok (bool_decide (is_Some (br_last_notify b)))
  end.

Inductive AcceptStage := AcWaitsForBridge | AcAccepts | AcEnded.

(** A connection the bridge opened, until its start-up task gets a slot. *)
Record Opened := MkOpened {
  op_opened : OpenSv1Downstream;
  op_updates_upstream_token : bool
}.
Record AcceptConfig := MkAcceptConfig {
  cf_downstream_hashrate : f32;
  cf_share_per_min : f32;
  cf_initial_difficulty : f32;
  cf_hard_minimum_difficulty : option f32;
  cf_tx_sv1_submit : Sender SubmitShareWithChannelId
}.
Record AcceptWorld := MkAcceptWorld {
  ac_stage : AcceptStage;
  ac_bridge : BridgeWorld;
  ac_token_claimed : bool;
  ac_waiting : list Opened;
  ac_starting : nat;
  ac_created : list (option Downstream);
  ac_downstream_down : bool
}.
Definition set_ac_stage v a := MkAcceptWorld v (ac_bridge a) (ac_token_claimed a)
  (ac_waiting a) (ac_starting a) (ac_created a) (ac_downstream_down a).
Definition set_ac_bridge v a := MkAcceptWorld (ac_stage a) v (ac_token_claimed a)
  (ac_waiting a) (ac_starting a) (ac_created a) (ac_downstream_down a).

(** The difficulty of the channel the bridge opens. *)
Definition expected_hash_rate (c : AcceptConfig) : f32 :=
  f32_mul (f32_mul (f32_div (cf_share_per_min c) (f32_of_N 60)) (cf_initial_difficulty c))
    (f32_pow2 32).

(** One turn of the loop: it waits for the bridge, then opens a channel for each connection. *)
Definition start_accept_connection (c : AcceptConfig) (connection : bool) (a : AcceptWorld) : AcceptWorld :=
  match ac_stage a with
  | AcWaitsForBridge =>
      match ready_poll (ac_bridge a) with
      | Err _ => set_ac_stage AcEnded a
      | Ok true => set_ac_stage AcAccepts a
      | Ok false => a
      end
  | AcAccepts =>
      if negb connection then set_ac_stage AcEnded a
      else if poisoned (bw_bridge (ac_bridge a)) then set_ac_stage AcEnded a
      else
        match on_new_sv1_connection (expected_hash_rate c) (ac_bridge a) with
        | (Done opened, w) =>
            let '(updates_upstream_token, claimed) :=
              claim_upstream_token_update (ac_token_claimed a) in
            MkAcceptWorld AcAccepts w claimed
              (ac_waiting a ++ [MkOpened opened updates_upstream_token])
              (ac_starting a) (ac_created a) (ac_downstream_down a)
        | (Failed _, w) =>
            MkAcceptWorld AcEnded w (ac_token_claimed a) (ac_waiting a) (ac_starting a)
              (ac_created a) true
        | (Panicked, w) => set_ac_stage AcEnded (set_ac_bridge w a)
        end
  | AcEnded => a
  end.

(** The start-up tasks: one that gets a slot creates its miner, and gives the slot back when
    it ends. *)
Definition DOWNSTREAM_INIT_CONCURRENCY : nat := 512.
Definition create_downstream (c : AcceptConfig) (o : Opened) : option Downstream :=
  let opened := op_opened o in
  new_downstream (od_channel_id opened) (od_extranonce opened) (od_last_notify opened)
    (od_extranonce2_len opened) (cf_downstream_hashrate c) (cf_share_per_min c)
    (cf_initial_difficulty c) (cf_hard_minimum_difficulty c) (cf_tx_sv1_submit c)
    (op_updates_upstream_token o).
Definition downstream_init_turn (c : AcceptConfig) (a : AcceptWorld) : AcceptWorld :=
  match ac_waiting a with
  | [] => a
  | o :: waiting =>
      if ac_starting a <? DOWNSTREAM_INIT_CONCURRENCY then
        MkAcceptWorld (ac_stage a) (ac_bridge a) (ac_token_claimed a) waiting
          (S (ac_starting a)) (ac_created a ++ [create_downstream c o]) (ac_downstream_down a)
      else a
  end.
Definition start_done (a : AcceptWorld) : AcceptWorld :=
  MkAcceptWorld (ac_stage a) (ac_bridge a) (ac_token_claimed a) (ac_waiting a)
    (pred (ac_starting a)) (ac_created a) (ac_downstream_down a).

(** The accept loop and the start-up tasks beside the two tasks of the bridge. *)
Context `{EC : !SubmitErrorCodes}.
Inductive accept_step (c : AcceptConfig) : AcceptWorld → AcceptWorld → Prop :=
| ac_turn connection a : accept_step c a (start_accept_connection c connection a)
| ac_start a : accept_step c a (downstream_init_turn c a)
| ac_done a : accept_step c a (start_done a)
| ac_upstream_work env work a :
    accept_step c a (set_ac_bridge (handle_upstream_work env work (ac_bridge a)).2 a)
| ac_downstream_message env msg a :
    accept_step c a (set_ac_bridge (handle_downstream_message env msg (ac_bridge a)).2 a).
Definition accept_new (bridge : BridgeWorld) : AcceptWorld :=
  MkAcceptWorld AcWaitsForBridge bridge false [] 0 [] false.
End accept.

(** ** The notify task *)
Section notify.
Context `{B : !BitcoinLib} `{SV : !Sv1Lib} `{L : !Log2} `{P : !PidLib}.

(** [Result::unwrap] *)
Definition unwrap {A} (m : FM A) : FM A := λ w,
  match m w with
  | (Failed _, w) => (Panicked, w)
  | r => r
  end.

Definition SUBSCRIBE_TIMEOUT_SECS : N := 10.

Inductive NotifyTaskStage :=
| NkInit                                  (** the initialization loop *)
| NkStartUpdate (authorized_in_time : bool)
| NkServe                                 (** the loop over the broadcast channel *)
| NkEnded.

(** The job of a miner that is authorized. *)
Definition job_when_authorized : M (option Notify) :=
  names ← self dn_authorized_names;
  match (names : list str) with
  | [] => mret None
  | _ => job ← current_or_initial_job; mret (Some job)
  end.

(** The difficulty, then the job: a failure of the first keeps the second back. *)
Definition seed_miner (env : DiffEnv) (job : Notify) : FM NotifyTaskStage := λ w,
  match init_difficulty_management env w with
  | (Panicked, w) => (Panicked, w)
  | (Failed _, w) => (Done (NkStartUpdate true), w)
  | (Done _, w) =>
      (_ ← on_down DiffPoisonLock (send_message_downstream (notify_message job));
       mret (NkStartUpdate true)) w
  end.

(** One turn of the initialization loop, [elapsed_secs] after its start. *)
Definition init_turn (env : DiffEnv) (elapsed_secs : N) : FM NotifyTaskStage :=
  job ← unwrap (lock_down DiffPoisonLock job_when_authorized);
  match (job : option Notify) with
  | Some job => seed_miner env job
  | None =>
      if (SUBSCRIBE_TIMEOUT_SECS <? elapsed_secs)%N then mret (NkStartUpdate false)
      else mret NkInit
  end.

(** [start_update]: the handle of the update task is registered; [None] waits for room. *)
Definition start_update (update connection_id : N) (authorized_in_time : bool) (t : TaskManager)
    : option (NotifyTaskStage * TaskManager) :=
  '(added, t) ← add_update update connection_id t;
  Some (match (added : result unit unit) with
        | Err _ => NkEnded
        | Ok _ => if authorized_in_time then NkServe else NkEnded
        end, t).

(** One receipt of the broadcast channel. *)
Inductive Broadcast := Received (mining_notify : MiningNotify) | Lagged (skipped : N) | Closed.
Definition serve_turn (received : Broadcast) : M NotifyTaskStage :=
  match received with
  | Received mining_notify =>
      goes_on ← forward_notify (mn_notify mining_notify) (mn_merge_mining_binding_id mining_notify);
      mret (if goes_on : bool then NkServe else NkEnded)
  | Lagged _ => mret NkServe
  | Closed => mret NkEnded
  end.

(** The loop over what the channel delivers. *)
Fixpoint serve (received : list Broadcast) : M NotifyTaskStage :=
  match received with
  | [] => mret NkServe
  | r :: received =>
      stage ← serve_turn r;
      match (stage : NotifyTaskStage) with
      | NkServe => serve received
      | stage => mret stage
      end
  end.

(** ** The update task *)
Inductive UpdateTaskStage := UtDelay (secs : N) | UtRun | UtSleep (millis : N) | UtEnded.
Definition update_sleep (share_count share_per_min : f32) (adjustment_interval : N) : N :=
  if f32_leb (f32_mul share_per_min (f32_of_N 3)) share_count
     || f32_leb share_count (f32_div share_per_min (f32_of_N 3))
  then adjustment_interval else adjustment_interval.
Definition update_task_turn (env : DiffEnv) (share_count : f32) (adjustment_interval : N)
    (stage : UpdateTaskStage) : FM UpdateTaskStage := λ w,
  match stage with
  | UtDelay _ => (Done UtRun, w)
  | UtSleep _ => (Done UtRun, w)
  | UtRun =>
      match try_update_difficulty_settings env w with
      | (Done _, w) =>
          (Done (UtSleep (update_sleep share_count (fe_share_per_min env) adjustment_interval)), w)
      | (Failed _, w) => (Done UtEnded, w)
      | (Panicked, w) => (Panicked, w)
      end
  | UtEnded => (Done UtEnded, w)
  end.
End notify.

(** ** The writer *)

(** One message: serialised ([serde_json]), ended with a newline and handed to the socket;
    whether the loop goes on. *)
Definition send_to_downstream (to_string : Message → option str) (res : Message)
    (send_to_down : Sender str) : bool * Sender str :=
  match to_string res with
  | None => (false, send_to_down)
  | Some string =>
      if tx_open send_to_down
      then (true, sender_push (string ++ [10%N]) send_to_down)
      else (false, send_to_down)
  end.
Fixpoint send_all_to_downstream (to_string : Message → option str) (receiver : list Message)
    (send_to_down : Sender str) : bool * Sender str :=
  match receiver with
  | [] => (true, send_to_down)
  | res :: receiver =>
      match send_to_downstream to_string res send_to_down with
      | (true, send_to_down) => send_all_to_downstream to_string receiver send_to_down
      | r => r
      end
  end.
