(* ===== verification/DownstreamTasksProps.v ===== *)
(** * Properties of the tasks of a miner's connection

    Theorems about [DownstreamTasks]: a miner is seeded once it is authorized and then served
    every job in order; miners are accepted only when there is a job for them; and what happens
    to a miner that does not authorize or whose writer is gone. *)

From S2P Require Import Prelude Str Bitcoin BitcoinModel F32 Sv1 RskCommitment MergeState MergeMining RecentJobs ShareLimits ShareLimitsProps Effects Stats ProxyState Downstream DownstreamProps DiffManagement DiffManagementProps Sv2 Bridge BridgeProps TaskManager DownstreamTasks.

(** ** Issuing jobs with fresh identifiers *)

(** The random draws are distinct and none is in use. *)
Definition fresh_draws (r : RecentJobs) (draws : list N) : Prop :=
  NoDup draws ∧ ∀ d, d ∈ draws → rj_v1_to_v2 r !! d = None.

Lemma draw_fresh r v1 rest :
  fresh_draws r (v1 :: rest) → draw_v1 r (v1 :: rest) = Some (v1, rest).
Proof.
  intros [_ Hf]. cbn. rewrite bool_decide_false; [done|]. rewrite Hf by set_solver.
  by intros [? ?].
Qed.

Lemma delete_all_lookup (ids : list N) (m : gmap N N) x v :
  fold_left (λ m v1_id, delete v1_id m) ids m !! x = Some v → m !! x = Some v.
Proof.
  revert m. induction ids as [|i ids IH]; intros m H; [done|]. cbn in H. apply IH in H.
  by apply lookup_delete_Some in H as [_ ?].
Qed.

(** Identifiers in use after one more is issued. *)
Lemma new_v1_identifiers r v1 v2 n d b x v :
  rj_v1_to_v2 (new_v1 r v1 v2 n d b) !! x = Some v → x = v1 ∨ rj_v1_to_v2 r !! x = Some v.
Proof.
  unfold new_v1. cbn. destruct (decide (x = v1)) as [->|Hne]; [by left|].
  rewrite lookup_insert_ne by done. intros H. right.
  destruct (rj_v2_to_v1 r !! v2); [done|].
  destruct (cb_push_back _ _ _) as [[first|] l]; [|done].
  unfold remove_v2 in H. cbn in H. destruct (_ !! first); [|done]. cbn in H.
  by eapply delete_all_lookup.
Qed.
Lemma new_v1_fresh r v1 v2 n d b rest :
  fresh_draws r (v1 :: rest) → fresh_draws (new_v1 r v1 v2 n d b) rest.
Proof.
  intros [[Hv Hnd]%NoDup_cons Hf]. split; [done|]. intros x Hx.
  destruct (_ !! x) eqn:E; [|done]. apply new_v1_identifiers in E as [->|E]; [done|].
  rewrite Hf in E by set_solver. done.
Qed.

Lemma add_job_fresh r v1 rest notify mask difficulty binding :
  fresh_draws r (v1 :: rest) → is_Some (parse_uint u32_max (nf_job_id notify)) →
  ∃ r', add_job_with_binding r (v1 :: rest) notify mask difficulty binding =
          Some (with_job_id (display_N v1) (apply_mask mask notify), r', rest) ∧
        fresh_draws r' rest ∧
        get_matching_job r' v1 = Some (MkIssuedJob (apply_mask mask notify) difficulty binding).
Proof.
  intros Hf [v2 Hv2]. unfold add_job_with_binding.
  assert (nf_job_id (apply_mask mask notify) = nf_job_id notify) as -> by by destruct mask.
  rewrite Hv2, (draw_fresh r v1 rest Hf). eexists. split; [reflexivity|].
  split; [|by apply lookup_insert_eq].
  apply (new_v1_fresh (MkRecentJobs (rj_v1_to_v2 r) (rj_v2_to_v1 r) (rj_issued_jobs r)
    (rj_jobs r ++ [MkRawJob (apply_mask mask notify) binding]) (rj_last_v2s r)
    (rj_tracked_jobs r)) v1 v2 (apply_mask mask notify) difficulty binding rest Hf).
Qed.

(** *** Draws that may collide *)

(** Among the draws are [k] different ones that are not in use. *)
Definition enough_draws (r : RecentJobs) (draws : list N) (k : nat) : Prop :=
  ∃ free, NoDup free ∧ free ⊆ draws ∧ (∀ x, x ∈ free → rj_v1_to_v2 r !! x = None) ∧
    k <= length free.

(** [draw_v1] skips exactly the draws that are in use. *)
Lemma draw_v1_split r draws v1 rest :
  draw_v1 r draws = Some (v1, rest) →
  ∃ skipped, draws = skipped ++ v1 :: rest ∧ ∀ x, x ∈ skipped → is_Some (rj_v1_to_v2 r !! x).
Proof.
  induction draws as [|d draws IH]; cbn; [done|]. case_bool_decide as Hd.
  - intros (skipped & -> & Hs)%IH. exists (d :: skipped). split; [done|].
    intros x [-> |?]%elem_of_cons; auto.
  - intros [= -> ->]. exists []. split; [done|]. intros x ?%elem_of_nil. done.
Qed.
Lemma draw_v1_enough r draws k :
  enough_draws r draws (S k) → ∃ v1 rest, draw_v1 r draws = Some (v1, rest).
Proof.
  intros (free & _ & Hsub & Hf & Hk). destruct free as [|x free]; [cbn in Hk; lia|].
  assert (x ∈ draws) as Hx by (apply Hsub; left). assert (rj_v1_to_v2 r !! x = None) as Hn
    by (apply Hf; left). clear Hsub Hf Hk.
  induction draws as [|d draws IH]; [by apply elem_of_nil in Hx|]. cbn.
  case_bool_decide as Hd; [|eauto]. apply elem_of_cons in Hx as [-> |Hx]; [|auto].
  rewrite Hn in Hd. by destruct Hd.
Qed.
(** What is left is enough for the rest, whatever is in use beside the new identifier. *)
Lemma enough_draws_rest r r' draws k v1 rest :
  enough_draws r draws (S k) → draw_v1 r draws = Some (v1, rest) →
  (∀ x v, rj_v1_to_v2 r' !! x = Some v → x = v1 ∨ rj_v1_to_v2 r !! x = Some v) →
  enough_draws r' rest k.
Proof.
  intros (free & Hnd & Hsub & Hf & Hk) (skipped & -> & Hs)%draw_v1_split Hr'.
  exists (filter (λ x, x ≠ v1) free). split; [by apply NoDup_filter|].
  split; [|split].
  - intros x [Hne Hx]%list_elem_of_filter. pose proof (Hf x Hx) as Hn.
    apply Hsub, elem_of_app in Hx as [Hx|Hx].
    + apply Hs in Hx. rewrite Hn in Hx. by destruct Hx.
    + by apply elem_of_cons in Hx as [?|?].
  - intros x [Hne Hx]%list_elem_of_filter. destruct (_ !! x) eqn:E; [|done].
    apply Hr' in E as [?|E]; [done|]. by rewrite (Hf x Hx) in E.
  - assert (free ⊆+ v1 :: filter (λ x, x ≠ v1) free) as Hlen%submseteq_length; [|cbn in Hlen; lia].
    apply NoDup_submseteq; [done|]. intros x Hx. rewrite elem_of_cons, list_elem_of_filter.
    destruct (decide (x = v1)); auto.
Qed.

Lemma add_job_enough r draws k notify mask difficulty binding :
  enough_draws r draws (S k) → is_Some (parse_uint u32_max (nf_job_id notify)) →
  ∃ v1 rest r', add_job_with_binding r draws notify mask difficulty binding =
      Some (with_job_id (display_N v1) (apply_mask mask notify), r', rest) ∧
    v1 :: rest `sublist_of` draws ∧ rj_v1_to_v2 r !! v1 = None ∧ enough_draws r' rest k ∧
    get_matching_job r' v1 = Some (MkIssuedJob (apply_mask mask notify) difficulty binding).
Proof.
  intros He [v2 Hv2]. unfold add_job_with_binding.
  assert (nf_job_id (apply_mask mask notify) = nf_job_id notify) as -> by by destruct mask.
  rewrite Hv2. destruct (draw_v1_enough _ _ _ He) as (v1 & rest & Hd). rewrite Hd.
  exists v1, rest. eexists. split; [reflexivity|].
  split. { destruct (draw_v1_split _ _ _ _ Hd) as (skipped & -> & _). by apply sublist_inserts_l. }
  split; [by eapply draw_v1_fresh|]. split; [|by apply lookup_insert_eq].
  eapply enough_draws_rest; [exact He|exact Hd|]. intros x v.
  apply (new_v1_identifiers (MkRecentJobs (rj_v1_to_v2 r) (rj_v2_to_v1 r) (rj_issued_jobs r)
    (rj_jobs r ++ [MkRawJob (apply_mask mask notify) binding]) (rj_last_v2s r)
    (rj_tracked_jobs r))).
Qed.

(** ** Serving jobs *)
Section serving.
Context `{B : !BitcoinLib} `{SV : !Sv1Lib} `{L : !Log2} `{P : !PidLib}.

Abbreviation miner w := (guarded (dw_self w)).
Abbreviation outgoing w := (tx_sent (dn_tx_outgoing (miner w))).

(** A miner that is served, with enough identifiers to draw for [k] jobs; draws may repeat and
    may be in use. *)
Definition supplied (w : DownWorld) (k : nat) : Prop :=
  serving w ∧ enough_draws (dn_recent_jobs (miner w)) (dw_draws w) k.

(** The job as the miner gets it. *)
Definition sent_job (mask : option HexU32Be) (notify : Notify) (v1 : N) : Message :=
  notify_message (with_job_id (display_N v1) (apply_mask mask notify)).

Lemma forward_notify_supplied notify binding w k :
  supplied w (S k) → is_Some (parse_uint u32_max (nf_job_id notify)) →
  ∃ v1 w', forward_notify notify binding w = (Done true, w') ∧ supplied w' k ∧
    v1 :: dw_draws w' `sublist_of` dw_draws w ∧
    rj_v1_to_v2 (dn_recent_jobs (miner w)) !! v1 = None ∧
    get_matching_job (dn_recent_jobs (miner w')) v1 =
      Some (MkIssuedJob (apply_mask (dn_version_rolling_mask (miner w)) notify)
              (current_difficulty (miner w)) binding) ∧
    dn_version_rolling_mask (miner w') = dn_version_rolling_mask (miner w) ∧
    dn_difficulty_mgmt (miner w') = dn_difficulty_mgmt (miner w) ∧
    outgoing w' = outgoing w ++ [sent_job (dn_version_rolling_mask (miner w)) notify v1].
Proof.
  intros ([Hp Ho] & He) Hid.
  destruct (add_job_enough (dn_recent_jobs (miner w)) (dw_draws w) k notify
    (dn_version_rolling_mask (miner w)) (current_difficulty (miner w)) binding He Hid)
    as (v1 & rest & r' & Ha & Hsub & Hn & He' & Hj).
  exists v1. eexists. unfold forward_notify, safe_lock, with_lock.
  rewrite Hp. unfold mbind, M_bind, update_self, modify, self, gets, add_recent_job. cbn.
  change (current_difficulty (set_first_job notify binding (miner w)))
    with (current_difficulty (miner w)). rewrite Ha. cbn.
  unfold send_message_downstream. cbn. rewrite Hp, Ho. cbn.
  split; [done|]. split; [by split|]. by split_and!.
Qed.

(** The jobs the loop takes before the channel is closed. *)
Fixpoint jobs_taken (received : list Broadcast) : list Notify :=
  match received with
  | [] => []
  | Received m :: received => mn_notify m :: jobs_taken received
  | Lagged _ :: received => jobs_taken received
  | Closed :: _ => []
  end.
Definition closes (received : list Broadcast) : bool :=
  existsb (λ r, match r with Closed => true | _ => false end) received.

(** The miner after the deliveries of [received]. *)
Definition served (received : list Broadcast) (w : DownWorld) : DownWorld := (serve received w).2.
(** [v1] is the identifier of the job of [m]: it was not in use when the job was issued after
    [before], and from then on it leads to this job with the miner's mask and difficulty. *)
Definition issued_as (before : list Broadcast) (m : MiningNotify) (v1 : N) (w : DownWorld) : Prop :=
  rj_v1_to_v2 (dn_recent_jobs (miner (served before w))) !! v1 = None ∧
  get_matching_job (dn_recent_jobs (miner (served (before ++ [Received m]) w))) v1 =
    Some (MkIssuedJob (apply_mask (dn_version_rolling_mask (miner w)) (mn_notify m))
            (current_difficulty (miner w)) (mn_merge_mining_binding_id m)).

Lemma serve_lagged n received w : serve (Lagged n :: received) w = serve received w.
Proof. reflexivity. Qed.
Lemma serve_received m received w w1 :
  forward_notify (mn_notify m) (mn_merge_mining_binding_id m) w = (Done true, w1) →
  serve (Received m :: received) w = serve received w1.
Proof. intros H. cbn [serve serve_turn]. unfold mbind, M_bind. cbn. by rewrite H. Qed.

(** C38: The loop over the broadcast channel serves every job in order: as long as the miner is
    there, each job it takes, whatever it missed by lagging, is sent to the miner exactly once,
    with the miner's version mask and under an identifier from the random draws that no job
    of the miner has at that moment, however the draws repeat or collide with identifiers in
    use, as long as enough of them are free; the identifier leads to that job and its
    binding from then on.  The loop ends when the channel is closed and not before. *)
Theorem jobs_served_in_order received w :
  supplied w (length (jobs_taken received)) →
  (∀ n, n ∈ jobs_taken received → is_Some (parse_uint u32_max (nf_job_id n))) →
  ∃ w' ids, serve received w = (Done (if closes received then NkEnded else NkServe), w') ∧
    length ids = length (jobs_taken received) ∧ ids `sublist_of` dw_draws w ∧
    outgoing w' = outgoing w ++
      zip_with (sent_job (dn_version_rolling_mask (miner w))) (jobs_taken received) ids ∧
    ∀ before m later, received = before ++ Received m :: later → closes before = false →
      ∃ v1, ids !! length (jobs_taken before) = Some v1 ∧ issued_as before m v1 w.
Proof.
  revert w. induction received as [|[m|skipped|] received IH]; intros w Hs Hids.
  - exists w, []. cbn. rewrite app_nil_r. split_and!; try done; [apply sublist_nil_l|].
    intros before m later E. by destruct before.
  - cbn [jobs_taken length] in *.
    destruct (forward_notify_supplied (mn_notify m) (mn_merge_mining_binding_id m) w
      (length (jobs_taken received)) Hs)
      as (v1 & w1 & Hr & Hs1 & Hsub & Hfree & Hj & Hm & Hd & Hout); [apply Hids; set_solver|].
    destruct (IH w1 Hs1) as (w' & ids & Hw' & Hlen & Hsub' & Hout' & Hiss);
      [intros n Hn; apply Hids; set_solver|].
    exists w', (v1 :: ids). rewrite (serve_received _ _ _ _ Hr). split; [exact Hw'|].
    split; [cbn; lia|]. split; [etrans; [|exact Hsub]; by apply sublist_skip|].
    split; [rewrite Hout', Hout, Hm; cbn; by rewrite <- app_assoc|].
    intros before m' later E Hc. destruct before as [|b before]; injection E as <- E.
    + exists v1. split; [done|]. split; [exact Hfree|]. unfold served. cbn [app].
      by rewrite (serve_received _ _ _ _ Hr).
    + destruct (Hiss before m' later E Hc) as (v & Hv & Hf & Hj'). exists v. split; [exact Hv|].
      unfold issued_as, served in *. cbn [app]. rewrite !(serve_received _ _ _ _ Hr).
      unfold current_difficulty in *. by rewrite Hm, Hd in Hj'.
  - cbn [jobs_taken] in *. destruct (IH w Hs Hids) as (w' & ids & Hw' & Hlen & Hsub & Hout & Hiss).
    exists w', ids. rewrite serve_lagged. split_and!; try done.
    intros before m' later E Hc. destruct before as [|b before]; [done|]. injection E as <- E.
    destruct (Hiss before m' later E Hc) as (v & Hv & Hi).
    exists v. split; [exact Hv|]. exact Hi.
  - exists w, []. cbn. rewrite app_nil_r. split_and!; try done; [apply sublist_nil_l|].
    intros before m later E Hc. destruct before as [|b before]; [done|]. by injection E as <- _.
Qed.

(** *** The first job *)
Lemma clone_last_fresh r v2s v1 rest difficulty :
  recent_wf r v2s → fresh_draws r (v1 :: rest) →
  match last (rj_jobs r) with
  | None => clone_last r (v1 :: rest) difficulty = Some (None, r, v1 :: rest)
  | Some raw => ∃ r', clone_last r (v1 :: rest) difficulty =
      Some (Some (with_job_id (display_N v1) (rj_notify raw)), r', rest) ∧
      get_matching_job r' v1 =
        Some (MkIssuedJob (rj_notify raw) difficulty (rj_merge_mining_binding_id raw))
  end.
Proof.
  intros Hw Hf. unfold clone_last. destruct (last (rj_jobs r)) as [raw|] eqn:Hl; [|done].
  destruct (rw_raw _ _ Hw raw) as [v2 ->]; [by apply last_Some_elem_of|].
  rewrite (draw_fresh r v1 rest Hf). eexists. split; [done|]. by apply lookup_insert_eq.
Qed.

(** The job of an authorized miner: the newest one, or the first when it has none. *)
Definition seed_of (d : Downstream) : Notify :=
  match last (rj_jobs (dn_recent_jobs d)) with
  | Some raw => rj_notify raw
  | None => apply_mask (dn_version_rolling_mask d) (dn_first_job d)
  end.

Lemma current_or_initial_job_fresh w v2s v1 rest :
  recent_wf (dn_recent_jobs (miner w)) v2s → dw_draws w = v1 :: rest →
  fresh_draws (dn_recent_jobs (miner w)) (dw_draws w) →
  is_Some (parse_uint u32_max (nf_job_id (dn_first_job (miner w)))) →
  ∃ r' v2s', recent_wf r' v2s' ∧
    current_or_initial_job w = (Done (with_job_id (display_N v1) (seed_of (miner w))),
      set_dw_self (store (dw_self w) (set_recent_jobs r' (miner w))) (set_dw_draws rest w)) ∧
    ∃ j, get_matching_job r' v1 = Some j ∧ ij_notify j = seed_of (miner w) ∧
         ij_difficulty j = current_difficulty (miner w).
Proof.
  intros Hw Hd Hf Hid. rewrite Hd in Hf. unfold current_or_initial_job, seed_of. rewrite Hd.
  pose proof (clone_last_fresh _ v2s v1 rest (current_difficulty (miner w)) Hw Hf) as Hc.
  destruct (last (rj_jobs (dn_recent_jobs (miner w)))) as [raw|] eqn:Hl.
  - destruct Hc as (r' & Hc & Hj). rewrite Hc.
    destruct (clone_last_spec _ _ _ _ _ _ _ Hw Hc) as (_ & v2 & _ & _ & _ & _ & _ & Hw' & _).
    exists r', (tracked_after v2s v2). split; [done|]. split; [done|]. eexists. by split.
  - rewrite Hc. unfold add_recent_job. rewrite Hd.
    destruct (add_job_fresh _ v1 rest (dn_first_job (miner w)) (dn_version_rolling_mask (miner w))
      (current_difficulty (miner w)) (dn_first_job_merge_mining_binding_id (miner w)) Hf Hid)
      as (r' & Ha & _ & Hj).
    rewrite Ha.
    destruct (add_job_spec _ _ _ _ _ _ _ _ _ _ Hw Ha) as (_ & v2 & _ & _ & _ & _ & Hw' & _ & _).
    exists r', (tracked_after v2s v2). split; [done|]. split; [done|]. eexists. by split.
Qed.

Lemma send_message_on_down e msg w :
  serving (fw_down w) →
  on_down e (send_message_downstream msg) w = (Done tt, set_fw_down (after_send msg (fw_down w)) w).
Proof. intros Hs. unfold on_down. by rewrite send_message_serving. Qed.

(** The first difficulty reaches a miner that is served. *)
Lemma init_difficulty_serving env w message target :
  serving (fw_down w) →
  diff_to_sv1_message (f64_of_f32 (current_difficulty (miner (fw_down w)))) = Some (message, target) →
  ∃ w', init_difficulty_management env w = (Done message, w') ∧ serving (fw_down w') ∧
    dw_self (fw_down w') = dw_self (after_send message (fw_down w)).
Proof.
  intros Hs Hm. unfold init_difficulty_management.
  set (d := miner (fw_down w)) in *.
  rewrite (bind_run _ _ w (current_difficulty d, dn_connection_id d,
    dd_estimated_downstream_hash_rate (dn_difficulty_mgmt d)) w).
  2: { rewrite (lock_down_serving _ _ w (current_difficulty d, dn_connection_id d,
         dd_estimated_downstream_hash_rate (dn_difficulty_mgmt d)) (fw_down w)).
       - by destruct w.
       - apply Hs.
       - done. }
  cbv beta iota. rewrite Hm. cbv beta iota.
  rewrite (bind_run _ _ _ _ _ (send_message_on_down DiffPoisonLock message w Hs)).
  eexists. split; [reflexivity|]. split; [exact Hs|reflexivity].
Qed.

(** C36: A miner gets no job before it is authorized, and then at once: while it is not
    authorized a turn sends nothing and changes nothing; once it is, the turn sends the
    difficulty and then the newest job, which is registered under the identifier the miner got,
    to be judged at the difficulty that was announced. *)
Theorem job_only_after_authorization env elapsed_secs w v2s v1 rest :
  let d := miner (fw_down w) in
  serving (fw_down w) → recent_wf (dn_recent_jobs d) v2s →
  dw_draws (fw_down w) = v1 :: rest → fresh_draws (dn_recent_jobs d) (dw_draws (fw_down w)) →
  is_Some (parse_uint u32_max (nf_job_id (dn_first_job d))) →
  is_Some (difficulty_to_target (f32_of_f64 (f64_of_f32 (current_difficulty d)))) →
  match dn_authorized_names d with
  | [] => init_turn env elapsed_secs w =
      (Done (if (SUBSCRIBE_TIMEOUT_SECS <? elapsed_secs)%N then NkStartUpdate false else NkInit), w)
  | _ => ∃ w' j, init_turn env elapsed_secs w = (Done (NkStartUpdate true), w') ∧
      outgoing (fw_down w') = outgoing (fw_down w) ++
        [set_difficulty_message (f64_of_f32 (current_difficulty d));
         notify_message (with_job_id (display_N v1) (seed_of d))] ∧
      get_matching_job (dn_recent_jobs (miner (fw_down w'))) v1 = Some j ∧
      ij_notify j = seed_of d ∧ ij_difficulty j = current_difficulty d
  end.
Proof.
  intros d Hs Hw Hd Hf Hid [target Ht]. unfold init_turn.
  destruct (dn_authorized_names d) as [|name names] eqn:Hn.
  - rewrite (bind_run _ _ w (None : option Notify) w).
    + by destruct (SUBSCRIBE_TIMEOUT_SECS <? elapsed_secs)%N.
    + unfold unwrap. rewrite (lock_down_serving _ _ w (None : option Notify) (fw_down w)).
      * by destruct w.
      * apply Hs.
      * unfold job_when_authorized, mbind, M_bind, self, gets. cbn. fold d. by rewrite Hn.
  - destruct (current_or_initial_job_fresh (fw_down w) v2s v1 rest Hw Hd Hf Hid)
      as (r' & v2s' & _ & Hjob & j & Hj & Hjn & Hjd).
    set (d1 := set_dw_self _ _) in Hjob.
    set (job := with_job_id (display_N v1) (seed_of d)).
    rewrite (bind_run _ _ w (Some job) (set_fw_down d1 w)).
    2: { unfold unwrap. rewrite (lock_down_serving _ _ w (Some job) d1); [done|apply Hs|].
         unfold job_when_authorized, mbind, M_bind, self, gets. cbn. fold d. rewrite Hn.
         rewrite Hjob. done. }
    assert (Hs1 : serving (fw_down (set_fw_down d1 w))) by exact Hs.
    destruct (init_difficulty_serving env (set_fw_down d1 w)
      (set_difficulty_message (f64_of_f32 (current_difficulty d))) target Hs1)
      as (w2 & Hi & Hs2 & Hself).
    { unfold diff_to_sv1_message. cbn. change (current_difficulty (set_recent_jobs r' (miner (fw_down w))))
        with (current_difficulty d). by rewrite Ht. }
    unfold seed_miner. rewrite Hi.
    rewrite (bind_run _ _ _ _ _ (send_message_on_down DiffPoisonLock (notify_message job) w2 Hs2)).
    eexists _, j. split; [reflexivity|]. cbn. rewrite Hself. cbn. rewrite <- app_assoc. by split_and!.
Qed.

(** A miner that does not authorize in time is not disconnected: its notify task ends, but the
    update task is started all the same, nothing is sent, and no kill signal is. *)
Theorem unauthorized_miner_kept env elapsed_secs w update t :
  serving (fw_down w) → dn_authorized_names (miner (fw_down w)) = [] →
  (SUBSCRIBE_TIMEOUT_SECS < elapsed_secs)%N → tm_running t = true →
  (N.of_nat (length (tm_receiver t)) < DOWNSTREAM_TASK_MANAGER_BUFFER_SIZE)%N →
  let c := dn_connection_id (miner (fw_down w)) in
  init_turn env elapsed_secs w = (Done (NkStartUpdate false), w) ∧
  start_update update c false t =
    Some (NkEnded, set_tm_receiver (tm_receiver t ++ [(Some c, UpdateTask update)]) t).
Proof.
  intros Hs Hn He Hr Hl c. split.
  - unfold init_turn. rewrite (bind_run _ _ w (None : option Notify) w).
    + by apply N.ltb_lt in He as ->.
    + unfold unwrap. rewrite (lock_down_serving _ _ w (None : option Notify) (fw_down w)).
      * by destruct w.
      * apply Hs.
      * unfold job_when_authorized, mbind, M_bind, self, gets. cbn. by rewrite Hn.
  - unfold start_update, add_update, send_task. rewrite Hr. apply N.ltb_lt in Hl. cbn [negb].
    by rewrite Hl.
Qed.

(** The next job for a miner whose writer has ended is reported as a failure of the translator,
    and the loop goes on: one departing miner takes the proxy down. *)
Theorem departed_writer_reported notify binding w v1 rest :
  poisoned (dw_self w) = false → tx_open (dn_tx_outgoing (miner w)) = false →
  dw_draws w = v1 :: rest → fresh_draws (dn_recent_jobs (miner w)) (dw_draws w) →
  is_Some (parse_uint u32_max (nf_job_id notify)) →
  ∃ w', serve_turn (Received (MkMiningNotify notify binding)) w = (Done NkServe, w') ∧
    dw_downstream_down w' = true ∧ outgoing w' = outgoing w.
Proof.
  intros Hp Ho Hd Hf Hid. rewrite Hd in Hf.
  destruct (add_job_fresh (dn_recent_jobs (miner w)) v1 rest notify
    (dn_version_rolling_mask (miner w)) (current_difficulty (miner w)) binding Hf Hid)
    as (r' & Ha & _).
  eexists. unfold serve_turn, forward_notify, safe_lock, with_lock. cbn.
  unfold mbind, M_bind, update_self, modify, self, gets, add_recent_job. rewrite Hp. cbn.
  rewrite Hd. change (current_difficulty (set_first_job notify binding (miner w)))
    with (current_difficulty (miner w)). rewrite Ha. cbn.
  unfold send_message_downstream. cbn. rewrite Hp, Ho. cbn. by split_and!.
Qed.
End serving.

(** ** The writer *)

(** What reaches the socket is the messages up to the first that cannot be serialised, each
    on a line of its own. *)
Fixpoint written (to_string : Message → option str) (receiver : list Message) : list str :=
  match receiver with
  | [] => []
  | res :: receiver =>
      match to_string res with
      | Some string => (string ++ [10%N]) :: written to_string receiver
      | None => []
      end
  end.
Theorem writer_writes_lines to_string receiver send_to_down :
  tx_open send_to_down = true →
  let '(goes_on, s) := send_all_to_downstream to_string receiver send_to_down in
  tx_sent s = tx_sent send_to_down ++ written to_string receiver ∧
  (goes_on = true ↔ ∀ m, m ∈ receiver → is_Some (to_string m)).
Proof.
  revert send_to_down. induction receiver as [|m receiver IH]; intros s Ho; cbn.
  - rewrite app_nil_r. split; [done|]. split; [set_solver|done].
  - unfold send_to_downstream. destruct (to_string m) as [string|] eqn:Hm; cbn.
    + rewrite Ho. specialize (IH (sender_push (string ++ [10%N]) s) Ho).
      destruct (send_all_to_downstream _ _ _) as [g s']. destruct IH as [IH1 IH2].
      rewrite IH1, IH2. cbn. rewrite <- app_assoc. split; [done|]. split.
      * intros H x [->|Hx]%elem_of_cons; [by eexists|auto].
      * intros H x Hx. apply H. set_solver.
    + rewrite app_nil_r. split; [done|]. split; [done|]. intros H.
      destruct (H m) as [? Hx]; [set_solver|]. congruence.
Qed.

(** ** Accepting *)
Section accept.
Context `{ML : !MiningLib}.
Abbreviation BM := (Handler BridgeWorld BridgeError).

(** The bridge has a job for new miners. *)
Definition bridge_ready (w : BridgeWorld) : Prop := is_Some (br_last_notify (guarded (bw_bridge w))).

(** A computation that leaves a bridge that is ready so, whatever its outcome. *)
Definition keeps_ready {A} (m : BM A) : Prop := ∀ w, bridge_ready w → bridge_ready (m w).2.

Lemma keeps_ret {A} (a : A) : keeps_ready (mret a).
Proof. by intros w. Qed.
Lemma keeps_fail {A} e : keeps_ready (fail e : BM A).
Proof. by intros w. Qed.
Lemma keeps_panic {A} : keeps_ready (panic : BM A).
Proof. by intros w. Qed.
Lemma keeps_gets {A} (f : BridgeWorld → A) : keeps_ready (gets f).
Proof. by intros w. Qed.
Lemma ready_bind {A C} (m : BM A) (k : A → BM C) :
  keeps_ready m → (∀ a, keeps_ready (k a)) → keeps_ready (m ≫= k).
Proof.
  intros Hm Hk w Hw. unfold mbind, M_bind. specialize (Hm w Hw).
  destruct (m w) as [[a|e|] w']; [by apply Hk|done..].
Qed.
Lemma keeps_lock_bridge {A} (m : BM A) : keeps_ready m → keeps_ready (lock_bridge m).
Proof.
  intros Hm w Hw. unfold lock_bridge, with_lock. destruct (poisoned _); [done|].
  specialize (Hm w Hw). by destruct (m w) as [[] w'].
Qed.
Lemma keeps_lock_target {A} (m : BM A) : keeps_ready m → keeps_ready (lock_target m).
Proof.
  intros Hm w Hw. unfold lock_target, with_lock. destruct (poisoned _); [done|].
  specialize (Hm w Hw). by destruct (m w) as [[] w'].
Qed.
Lemma keeps_update (f : Bridge → Bridge) :
  (∀ b, is_Some (br_last_notify b) → is_Some (br_last_notify (f b))) →
  keeps_ready (update_bridge f).
Proof. intros Hf w Hw. by apply Hf. Qed.
Lemma keeps_factory_call {A} (f : Factory → A * Factory) : keeps_ready (factory_call f).
Proof. intros w Hw. unfold factory_call. by destruct (f _). Qed.
Lemma keeps_modify (f : BridgeWorld → BridgeWorld) :
  (∀ w, bw_bridge (f w) = bw_bridge w) → keeps_ready (modify f).
Proof. intros Hf w Hw. unfold bridge_ready. cbn. by rewrite Hf. Qed.

Create HintDb ready.
#[local] Hint Resolve keeps_ret keeps_fail keeps_panic keeps_gets ready_bind keeps_lock_bridge
  keeps_lock_target keeps_factory_call : ready.
#[local] Hint Extern 1 (keeps_ready (update_bridge _)) =>
  (apply keeps_update; intros ? ?; cbn; repeat case_match; done) : ready.
#[local] Hint Extern 1 (keeps_ready (modify _)) => (apply keeps_modify; done) : ready.
#[local] Hint Extern 1 (keeps_ready (bridge _)) => (apply keeps_gets) : ready.
Ltac ready :=
  intros; repeat first
    [ apply ready_bind; [|intros ?] | match goal with |- keeps_ready (match ?x with _ => _ end) => destruct x end
    | progress cbv zeta ]; auto with ready.

Lemma keeps_clear_pending env l : keeps_ready (clear_pending_bindings env l).
Proof. induction l; cbn; unfold clear_pending_binding; ready. Qed.
#[local] Hint Resolve keeps_clear_pending : ready.
Lemma keeps_activate env b : keeps_ready (activate_binding env b).
Proof. unfold activate_binding. ready. Qed.
Lemma keeps_broadcast n : keeps_ready (broadcast_notify n).
Proof. unfold broadcast_notify. ready. Qed.
#[local] Hint Resolve keeps_activate keeps_broadcast : ready.
Lemma keeps_issue_notify env n : keeps_ready (issue_notify env n).
Proof. unfold issue_notify. ready. Qed.
#[local] Hint Resolve keeps_issue_notify : ready.
Lemma keeps_pop env p n l : keeps_ready (pop_future_jobs env p n l).
Proof. induction l; cbn; unfold clear_pending_binding; ready. Qed.
#[local] Hint Resolve keeps_pop : ready.
Lemma keeps_new_prev_hash env p : keeps_ready (handle_new_prev_hash env p).
Proof. unfold handle_new_prev_hash. ready. Qed.
Lemma keeps_new_job env j b : keeps_ready (handle_new_extended_mining_job env j b).
Proof. unfold handle_new_extended_mining_job. ready. Qed.
Lemma keeps_report {A} f (a : A) : keeps_ready (report f a).
Proof. unfold report. ready. Qed.
#[local] Hint Resolve keeps_new_prev_hash keeps_new_job keeps_report : ready.

(** A handler whose failure is reported. *)
Lemma keeps_reported (m : BM unit) f :
  keeps_ready m →
  keeps_ready (λ w, match m w with
                    | (Failed _, w) => report f false w
                    | (Panicked, w) => (Panicked, w)
                    | (Done _, w) => (Done true, w)
                    end).
Proof.
  intros Hm w Hw. specialize (Hm w Hw). destruct (m w) as [[] w']; [done| |done].
  by apply keeps_report.
Qed.
Lemma keeps_upstream_work env work : keeps_ready (handle_upstream_work env work).
Proof. destruct work; apply keeps_reported; auto with ready. Qed.

Lemma keeps_open hash_rate : keeps_ready (on_new_sv1_connection hash_rate).
Proof. unfold on_new_sv1_connection. ready. Qed.

Lemma open_has_job hash_rate w opened w' :
  on_new_sv1_connection hash_rate w = (Done opened, w') → bridge_ready w →
  is_Some (od_last_notify opened).
Proof.
  intros H Hw. unfold on_new_sv1_connection in H.
  apply bind_done in H as (r & w1 & H1 & H). pose proof (keeps_factory_call (new_extended_channel hash_rate) w Hw) as Hw1.
  rewrite H1 in Hw1. cbn in Hw1. destruct r as [messages|]; [|done].
  destruct (first_success messages) as [s|]; [|done]. by injection H as <- _.
Qed.

Context `{EC : !SubmitErrorCodes}.
Lemma keeps_send_upstream s : keeps_ready (send_upstream s).
Proof. intros w Hw. unfold send_upstream. by destruct (tx_open _). Qed.
Lemma keeps_reserve_slot env : keeps_ready (reserve_slot env).
Proof. intros w Hw. unfold reserve_slot. by destruct (allow_submit_share _ _ _). Qed.
#[local] Hint Resolve keeps_send_upstream keeps_reserve_slot : ready.
Lemma keeps_verdict env tx res : keeps_ready (on_factory_verdict env tx res).
Proof. unfold on_factory_verdict, resolve_submit. ready. Qed.
#[local] Hint Resolve keeps_verdict : ready.
Lemma keeps_translate t c s m : keeps_ready (translate_share t c s m).
Proof. unfold translate_share. ready. Qed.
#[local] Hint Resolve keeps_translate : ready.
Lemma keeps_submit env share tx : keeps_ready (handle_submit_shares env share tx).
Proof. unfold handle_submit_shares, count_submit_failure, resolve_submit. ready. Qed.
Lemma keeps_downstream_message env msg : keeps_ready (handle_downstream_message env msg).
Proof.
  destruct msg as [share tx|target]; apply keeps_reported; [apply keeps_submit|].
  unfold handle_update_downstream_target. auto with ready.
Qed.

(** Which of the miners, in the order they were accepted, update the token. *)
Definition created_updates (o : option Downstream) : bool :=
  match o with Some d => dn_updates_upstream_token d | None => false end.
Definition token_updates (a : AcceptWorld) : list bool :=
  (created_updates <$> ac_created a) ++ (op_updates_upstream_token <$> ac_waiting a).

Record accept_ok (a : AcceptWorld) : Prop := {
  ao_ready : ac_stage a = AcAccepts → bridge_ready (ac_bridge a);
  ao_waiting o : o ∈ ac_waiting a → is_Some (od_last_notify (op_opened o));
  ao_created o : o ∈ ac_created a → is_Some o;
  ao_token : token_updates a = [] ∧ ac_token_claimed a = false ∨
    ∃ k, token_updates a = true :: replicate k false ∧ ac_token_claimed a = true;
  ao_starting : (ac_starting a <= DOWNSTREAM_INIT_CONCURRENCY)%nat
}.

Lemma accept_ok_stage a stage :
  stage ≠ AcAccepts → accept_ok a → accept_ok (set_ac_stage stage a).
Proof. intros Hs [Hr Hw Hc Ht Hn]. by split. Qed.
Lemma accept_ok_bridge a w :
  (bridge_ready (ac_bridge a) → bridge_ready w) → accept_ok a → accept_ok (set_ac_bridge w a).
Proof. intros Hk [Hr Hw Hc Ht Hn]. split; try done. cbn. auto. Qed.

Lemma token_claim a opened w :
  accept_ok a → is_Some (od_last_notify opened) → bridge_ready w →
  accept_ok (MkAcceptWorld AcAccepts w true
    (ac_waiting a ++ [MkOpened opened (negb (ac_token_claimed a))]) (ac_starting a)
    (ac_created a) (ac_downstream_down a)).
Proof.
  intros [Hr Hw Hc Ht Hn] Ho Hb. split; cbn; try done.
  - intros o [?|Hin]%elem_of_app; [auto|]. by apply list_elem_of_singleton in Hin as ->.
  - right. unfold token_updates in *. cbn. rewrite fmap_app, app_assoc. cbn.
    destruct Ht as [[-> ->]|(k & -> & ->)]; [by exists 0|]. exists (S k). split; [|done]. cbn.
    by rewrite replicate_cons_app.
Qed.

Lemma start_accept_connection_ok c connection a : accept_ok a → accept_ok (start_accept_connection c connection a).
Proof.
  intros Ha. pose proof Ha as [Hr Hw Hc Ht Hn]. unfold start_accept_connection. destruct (ac_stage a) eqn:Hst.
  - unfold ready_poll, lock. destruct (poisoned _); [by apply accept_ok_stage|].
    case_bool_decide as Hb; [|done]. by split.
  - destruct connection; [|by apply accept_ok_stage]. cbn [negb].
    destruct (poisoned _); [by apply accept_ok_stage|].
    pose proof (keeps_open (expected_hash_rate c) (ac_bridge a)) as Hk.
    destruct (on_new_sv1_connection (expected_hash_rate c) (ac_bridge a)) as [[opened|e|] w] eqn:E.
    + apply token_claim; [done| |by apply Hk, Hr]. eapply open_has_job; [exact E|by apply Hr].
    + by split.
    + apply accept_ok_stage; [done|]. apply accept_ok_bridge; [exact Hk|done].
  - done.
Qed.
Lemma downstream_init_turn_ok c a : accept_ok a → accept_ok (downstream_init_turn c a).
Proof.
  intros Ha. pose proof Ha as [Hr Hw Hc Ht Hn]. unfold downstream_init_turn.
  destruct (ac_waiting a) as [|o waiting] eqn:E; [done|].
  destruct (Nat.ltb_spec (ac_starting a) DOWNSTREAM_INIT_CONCURRENCY); [|done].
  destruct (Hw o) as [n Ho]; [set_solver|].
  assert (is_Some (create_downstream c o)) as Hcr.
  { unfold create_downstream, new_downstream. by rewrite Ho. }
  split; cbn; try done.
  - set_solver.
  - intros x [?|Hin]%elem_of_app; [auto|]. by apply list_elem_of_singleton in Hin as ->.
  - assert (created_updates (create_downstream c o) = op_updates_upstream_token o) as Hu.
    { unfold create_downstream, new_downstream. by rewrite Ho. }
    unfold token_updates in *. cbn. rewrite fmap_app, <- app_assoc. cbn. rewrite Hu, E in *. exact Ht.
Qed.

Lemma accept_reach_ok c bridge a : rtc (accept_step c) (accept_new bridge) a → accept_ok a.
Proof.
  intros H. assert (accept_ok (accept_new bridge)) as H0.
  { split; cbn; try done; [set_solver..|by left|lia]. }
  revert H0. induction H as [|a1 a2 a3 Hs _ IH]; [done|]. intros Ha. apply IH.
  destruct Hs as [connection a|a|a|env work a|env msg a].
  - by apply start_accept_connection_ok.
  - by apply downstream_init_turn_ok.
  - destruct Ha as [Hr Hw Hc Ht Hn]. split; try done. cbn. lia.
  - apply accept_ok_bridge; [apply keeps_upstream_work|done].
  - apply accept_ok_bridge; [apply keeps_downstream_message|done].
Qed.

(** Miners are accepted safely: whatever jobs, previous hashes, shares and connections come
    in whatever order, no miner is opened before the bridge has a job for it, so the assertion
    of [new_downstream] never fails; the first miner that was accepted updates the upstream's
    token and no other ever does; and at most 512 miners are started at a time. *)
Theorem accepted_miners_have_job c bridge a :
  rtc (accept_step c) (accept_new bridge) a →
  (∀ o, o ∈ ac_created a → is_Some o) ∧
  (∀ o, o ∈ ac_waiting a → is_Some (create_downstream c o)) ∧
  (token_updates a = [] ∨ ∃ k, token_updates a = true :: replicate k false) ∧
  (ac_starting a <= DOWNSTREAM_INIT_CONCURRENCY)%nat.
Proof.
  intros [_ Hw Hc Ht Hn]%accept_reach_ok. split_and!; [done| | |done].
  - intros o Ho. unfold create_downstream, new_downstream. by destruct (Hw o Ho) as [n ->].
  - destruct Ht as [[? _]|(k & ? & _)]; eauto.
Qed.
End accept.

(** ** Witnesses *)

(** A factory that opens one channel for every miner. *)
Definition open_model : MiningLib := {|
  Factory := N;
  factory_job := λ _ _, true;
  set_target := λ _ f, f;
  last_valid_job_version := λ f, Some f;
  on_submit_shares_extended := λ s f, (Ok (SendSubmitShareUpstream (Extended s)), f);
  on_new_prev_hash := λ _ f, (Ok tt, f);
  on_new_extended_mining_job := λ job _, (Ok tt, ej_version job);
  get_extranonce_len := λ _, 16;
  update_target_for_channel := λ _ _ f, f;
  new_extended_channel := λ _ f,
    (Ok [OtherMiningMessage; OpenSuccess (MkOpenSuccess 4 [Byte.x01] 8)], f);
  is_future := λ job, match ej_min_ntime job with Some _ => false | None => true end;
  extended_job_to_non_segwit := λ job _, Ok job
|}.
Definition ready_world : @BridgeWorld open_model :=
  MkBridgeWorld (ML := open_model) (new_mutex (MkBridge (ML := open_model) (MkSender true [])
      (MkSender true []) (Some (MkMiningNotify (example_notify 7) None)) 1%N [] None))
    (new_mutex []) 0 (MkShareGlobals (new_mutex []) false (new_mutex None) (new_mutex ∅)) None
    (Some (new_mutex proxy_state_new)) [].
Definition example_accept : AcceptConfig :=
  MkAcceptConfig (f32_of_N 100) (f32_of_N 10) (f32_of_N 1) None (MkSender true []).
Definition three_turns : AcceptWorld (ML := open_model) :=
  downstream_init_turn example_accept (start_accept_connection example_accept true
    (start_accept_connection example_accept true (start_accept_connection example_accept true (accept_new ready_world)))).

Lemma accepted_miners_have_job_witness :
  (token_updates three_turns = [] ∨ ∃ k, token_updates three_turns = true :: replicate k false) ∧
  length (ac_created three_turns) = 1 ∧ length (ac_waiting three_turns) = 1.
Proof.
  split; [|split; reflexivity].
  destruct (accepted_miners_have_job (ML := open_model) (EC := error_codes_model) example_accept
    ready_world three_turns) as (_ & _ & H & _); [|exact H].
  eapply rtc_l; [apply (ac_turn _ true)|]. eapply rtc_l; [apply (ac_turn _ true)|].
  eapply rtc_l; [apply (ac_turn _ true)|]. eapply rtc_l; [apply ac_start|]. apply rtc_refl.
Defined.

Lemma fresh_draws_new draws : NoDup draws → fresh_draws recent_jobs_new draws.
Proof. intros H. split; [done|]. intros d _. reflexivity. Qed.
Lemma example_draws_fresh : fresh_draws (dn_recent_jobs example_downstream) [101; 102; 103]%N.
Proof. apply fresh_draws_new. apply (bool_decide_unpack _). vm_compute. exact I. Qed.

(** The second draw repeats the first, which is in use by then. *)
Definition colliding_world : DownWorld := set_dw_draws [101; 101; 102]%N example_world.
Lemma jobs_served_in_order_witness :
  ∃ w' ids, serve [Received (MkMiningNotify (example_notify 7) None); Lagged 3;
               Received (MkMiningNotify (example_notify 8) (Some 2%N)); Closed] colliding_world
        = (Done NkEnded, w') ∧
    tx_sent (dn_tx_outgoing (guarded (dw_self w'))) =
      zip_with (sent_job None) [example_notify 7; example_notify 8] ids ∧ length ids = 2.
Proof.
  destruct (jobs_served_in_order [Received (MkMiningNotify (example_notify 7) None); Lagged 3;
    Received (MkMiningNotify (example_notify 8) (Some 2%N)); Closed] colliding_world)
    as (w' & ids & H & Hlen & _ & Hout & _).
  - split; [by split|]. exists [101; 102]%N. split; [|split; [|split]].
    + apply (bool_decide_unpack _). vm_compute. exact I.
    + cbn. set_solver.
    + intros x _. reflexivity.
    + cbn. lia.
  - cbn [jobs_taken mn_notify]. intros n Hn.
    apply elem_of_cons in Hn as [->|Hn]; [vm_compute; eexists; reflexivity|].
    apply list_elem_of_singleton in Hn as ->. vm_compute. eexists. reflexivity.
  - exists w', ids. split; [exact H|]. split; [exact Hout|exact Hlen].
Defined.

Definition seed_world : DiffWorld :=
  MkDiffWorld (set_dw_self (new_mutex (set_difficulty_mgmt (MkDownstreamDifficultyConfig
      (f32_of_N 1) [] (difficulty_pid (f32_of_N 10) (f32_of_N 1)) [f32_of_N 1] (f32_of_N 1) None)
      example_downstream)) example_world)
    0 (new_mutex (upstream_difficulty_config_new 60 (f32_of_N 100))) [].
Lemma job_only_after_authorization_witness :
  ∃ w' j, init_turn retarget_env 0 seed_world = (Done (NkStartUpdate true), w') ∧
    get_matching_job (dn_recent_jobs (guarded (dw_self (fw_down w')))) 101 = Some j ∧
    ij_difficulty j = f32_of_N 1.
Proof.
  destruct (job_only_after_authorization retarget_env 0 seed_world [] 101 [102; 103]%N)
    as (w' & j & H1 & _ & H3 & _ & H5).
  - by split.
  - exact recent_wf_new.
  - reflexivity.
  - exact example_draws_fresh.
  - vm_compute. eexists. reflexivity.
  - vm_compute. eexists. reflexivity.
  - exists w', j. split; [exact H1|]. split; [exact H3|exact H5].
Defined.

Definition unauthorized_world : DiffWorld :=
  set_fw_down (set_dw_self (new_mutex (set_authorized_names [] example_downstream)) example_world)
    seed_world.
Lemma unauthorized_miner_kept_witness :
  init_turn retarget_env 11 unauthorized_world = (Done (NkStartUpdate false), unauthorized_world) ∧
  start_update 5 9 false initialize =
    Some (NkEnded, set_tm_receiver [(Some 9%N, UpdateTask 5)] initialize).
Proof.
  apply (unauthorized_miner_kept retarget_env 11 unauthorized_world 5 initialize);
    [by split|reflexivity..].
Defined.
Definition departed_world : DownWorld :=
  set_dw_self (new_mutex (set_tx_outgoing (MkSender false []) example_downstream)) example_world.
Lemma departed_writer_reported_witness :
  ∃ w', serve_turn (Received (MkMiningNotify (example_notify 7) None)) departed_world
      = (Done NkServe, w') ∧ dw_downstream_down w' = true.
Proof.
  destruct (departed_writer_reported (example_notify 7) None departed_world 101 [102; 103]%N)
    as (w' & H1 & H2 & _);
    [reflexivity..|exact example_draws_fresh|vm_compute; eexists; reflexivity|].
  exists w'. split; [exact H1|exact H2].
Defined.
