(* ===== verification/BindingFlow.v ===== *)
(** * The flow of merge-mining bindings

    The upstream claims the binding of a job as pending, and the bridge activates or
    clears it.  In between the binding travels with the job: in the future job the main
    loop keeps, in the queue between the two tasks, or in the future jobs of the bridge.
    No interleaving of the two loops leaves a pending binding behind. *)

From S2P Require Import Prelude Str Bitcoin BitcoinModel F32 Sv1 RskCommitment MergeState MergeMining RecentJobs ShareLimits ShareLimitsProps Effects Stats ProxyState Downstream Sv2 Bridge BridgeProps Upstream UpstreamProps.

(** ** Pending bindings of the service *)
Definition pending_bindings (merge : option MergeMining) : gset N :=
  match merge with
  | Some m => cs_pending_activation_bindings (guarded (co_context (mm_core m)))
  | None => ∅
  end.
Definition usable (merge : option MergeMining) : Prop :=
  match merge with Some m => poisoned (co_context (mm_core m)) = false | None => True end.
Definition binding_set (binding_id : option N) : gset N :=
  match binding_id with Some b => {[b]} | None => ∅ end.

Lemma update_context_usable f m :
  usable (Some m) → usable (Some (update_context f m)) ∧
  pending_bindings (Some (update_context f m)) =
    cs_pending_activation_bindings (f (guarded (co_context (mm_core m)))).
Proof. intros Hu. cbn in Hu. unfold update_context, lock. rewrite Hu. by cbn. Qed.

Lemma claim_pending_bindings secret merge job_id :
  usable merge →
  let '(binding_id, merge') := claim_job_binding_pending_global secret merge job_id in
  usable merge' ∧ pending_bindings merge' ⊆ pending_bindings merge ∪ binding_set binding_id.
Proof.
  intros Hu. unfold claim_job_binding_pending_global.
  destruct (enabled secret); cbn [negb]; [|by split; [|set_solver]].
  destruct merge as [m|]; [|by split; [|set_solver]].
  unfold claim_job_binding_pending, claim_job_binding_. cbn in Hu. unfold lock at 1.
  rewrite Hu. destruct (claim_job_binding _ _ _) as [[binding_id s]|] eqn:E.
  - destruct (update_context_usable (λ _, s) m Hu) as [H1 H2]. split; [done|]. rewrite H2.
    unfold claim_job_binding in E. destruct (position _ _) as [index|]; [|done].
    destruct (_ !! index) as [[jid b]|]; [|done]. injection E as <- <-.
    destruct b as [b|]; cbn; [|set_solver]. case_match; cbn; set_solver.
  - by split; [|set_solver].
Qed.

Lemma clear_pending_bindings_set secret merge binding_id :
  enabled secret = true → usable merge →
  let merge' := clear_pending_job_binding_global secret merge binding_id in
  usable merge' ∧ pending_bindings merge' ⊆ pending_bindings merge ∖ binding_set binding_id.
Proof.
  intros He Hu. unfold clear_pending_job_binding_global. rewrite He. cbn [negb].
  destruct merge as [m|]; [|by split; [|set_solver]].
  destruct binding_id as [b|]; [|by split; [|set_solver]].
  destruct (update_context_usable (λ s, clear_pending_job_binding s b) m Hu) as [H1 H2].
  split; [done|]. unfold clear_pending_job_binding_. rewrite H2. cbn. set_solver.
Qed.

Lemma set_active_pending_set secret merge binding_id :
  enabled secret = true → usable merge →
  let merge' := set_active_job_binding_global secret merge binding_id in
  usable merge' ∧ pending_bindings merge' ⊆ pending_bindings merge ∖ binding_set binding_id.
Proof.
  intros He Hu. unfold set_active_job_binding_global. rewrite He. cbn [negb].
  destruct merge as [m|]; [|by split; [|set_solver]].
  destruct (update_context_usable (λ s, set_active_job_binding s binding_id) m Hu) as [H1 H2].
  split; [done|]. cbn [fmap option_fmap option_map].
  unfold set_active_job_binding_. rewrite H2. destruct binding_id; cbn; set_solver.
Qed.

Section flow.
Context `{ML : !MiningLib} `{EL : !ExtranonceLib} `{EC : !SubmitErrorCodes}.

(** ** The two loops together *)

(** The worlds of the two tasks.  The service they share is that of the upstream; the
    queue between them is what the upstream sent and the bridge has not taken. *)
Record Flow := MkFlow { fl_upstream : UpstreamWorld; fl_bridge : BridgeWorld }.

Definition work_binding (work : BridgeWork) : option N :=
  match work with
  | WorkNewExtendedMiningJob _ binding_id => binding_id
  | WorkSetNewPrevHash _ => None
  end.
Definition flow_queue (f : Flow) : list BridgeWork := tx_sent (uw_bridge_work (fl_upstream f)).

(** The bindings that travel with a job. *)
Definition future_binding (w : UpstreamWorld) : gset N :=
  match uw_future_j w with Some (_, binding_id) => binding_set binding_id | None => ∅ end.
Definition queued_bindings (queue : list BridgeWork) : gset N :=
  ⋃ ((binding_set ∘ work_binding) <$> queue).
Definition bridge_bindings (jobs : list BoundExtendedJob) : gset N :=
  ⋃ ((binding_set ∘ bj_merge_mining_binding_id) <$> jobs).
#[local] Arguments queued_bindings _ : simpl never.
#[local] Arguments bridge_bindings _ : simpl never.
Definition travelling (f : Flow) : gset N :=
  future_binding (fl_upstream f) ∪ queued_bindings (flow_queue f)
  ∪ bridge_bindings (br_future_jobs (guarded (bw_bridge (fl_bridge f)))).

(** A step: the main loop handles a message of the pool, the bridge handles the oldest
    message of the queue, or another user of the service acts without adding a pending
    binding. *)
Inductive flow_step (env : BridgeEnv) : Flow → Flow → Prop :=
| flow_pool now message up up' br :
    parse_incoming (be_api_secret env) now message up = (Done tt, up') →
    flow_step env (MkFlow up br) (MkFlow up' br)
| flow_bridge work queue up br br' :
    tx_sent (uw_bridge_work up) = work :: queue →
    handle_upstream_work env work (set_bw_merge (uw_merge up) br) = (Done true, br') →
    flow_step env (MkFlow up br)
      (MkFlow (set_uw_merge (bw_merge br')
                 (set_uw_bridge_work (MkSender (tx_open (uw_bridge_work up)) queue) up)) br')
| flow_service merge up br :
    usable merge → pending_bindings merge ⊆ pending_bindings (uw_merge up) →
    flow_step env (MkFlow up br) (MkFlow (set_uw_merge merge up) br).

(** The invariant of the two loops. *)
Record flow_inv (f : Flow) : Prop := {
  fi_usable : usable (uw_merge (fl_upstream f));
  fi_travelling : pending_bindings (uw_merge (fl_upstream f)) ⊆ travelling f
}.

(** ** The upstream side *)

(** Computations that leave the service, the queue and the future job alone. *)
Definition keeps {A} (m : Handler UpstreamWorld unit A) : Prop :=
  ∀ w, uw_merge (m w).2 = uw_merge w ∧ uw_bridge_work (m w).2 = uw_bridge_work w ∧
       uw_future_j (m w).2 = uw_future_j w.

Lemma keeps_bind {A B} (m : Handler UpstreamWorld unit A)
    (k : A → Handler UpstreamWorld unit B) :
  keeps m → (∀ a, keeps (k a)) → keeps (m ≫= k).
Proof.
  intros Hm Hk w. unfold mbind, M_bind. specialize (Hm w).
  destruct (m w) as [[a|e|] w1]; try done. cbn in Hm. specialize (Hk a w1). intuition congruence.
Qed.
Lemma keeps_lock {A} (m : Handler UpstreamWorld unit A) : keeps m → keeps (lock_upstream m).
Proof.
  intros Hm w. unfold lock_upstream, with_lock. destruct (poisoned _); [done|].
  specialize (Hm w). by destruct (m w) as [[a|e|] w1].
Qed.
Lemma keeps_store_target target : keeps (store_target target).
Proof. intros w. unfold store_target, with_lock. by destruct (poisoned _). Qed.
Lemma keeps_answering f : keeps (answering f).
Proof. intros w. unfold answering. by destruct (f _). Qed.
Lemma keeps_send_extranonce e channel_id : keeps (send_extranonce e channel_id).
Proof. intros w. unfold send_extranonce. by destruct (tx_open _). Qed.

Lemma keeps_open_handler m target :
  keeps (handle_open_extended_mining_channel_success m target).
Proof.
  apply keeps_bind; [done|]. intros size. destruct (invalid_extranonce_size _ _); [done|].
  apply keeps_bind; [apply keeps_store_target|done].
Qed.
Lemma keeps_open_loop m : keeps (incoming_open_success m).
Proof.
  apply keeps_bind; [by apply keeps_lock|]. intros _. apply keeps_bind; [done|]. intros size.
  cbv zeta beta.
  destruct (from_upstream_extranonce (os_extranonce_prefix m) (extranonce_ranges
    (usize_of (length (os_extranonce_prefix m))) (os_extranonce_size m) size)); [apply keeps_send_extranonce|done].
Qed.
Lemma keeps_error sequence_number code : keeps (handle_submit_shares_error sequence_number code).
Proof. apply keeps_bind; [done|]. intros _. apply keeps_answering. Qed.

(** What a message of the pool does to the bindings: pending ones travel. *)
Definition upstream_travelling (w : UpstreamWorld) : gset N :=
  future_binding w ∪ queued_bindings (tx_sent (uw_bridge_work w)).

Lemma queued_bindings_app q work :
  queued_bindings (q ++ [work]) = queued_bindings q ∪ binding_set (work_binding work).
Proof. unfold queued_bindings. rewrite fmap_app, union_list_app_L. cbn. set_solver. Qed.

Lemma lock_done {A} (m : Handler UpstreamWorld unit A) w a w' :
  lock_upstream m w = (Done a, w') → m w = (Done a, w').
Proof.
  unfold lock_upstream, with_lock. destruct (poisoned _); [done|].
  by destruct (m w) as [[|e|] w1].
Qed.

Lemma send_bridge_work_done secret work binding_id w w' :
  send_bridge_work secret work binding_id w = (Done tt, w') →
  w' = set_uw_bridge_work (sender_push work (uw_bridge_work w)) w.
Proof.
  unfold send_bridge_work. destruct (tx_open _); [by intros [= <-]|done].
Qed.
Lemma record_job_id_done secret job_id binding_id w w' :
  record_job_id secret job_id binding_id w = (Done tt, w') →
  uw_merge w' = uw_merge w ∧ uw_bridge_work w' = uw_bridge_work w ∧
  uw_future_j w' = uw_future_j w.
Proof.
  unfold record_job_id. destruct (lock_upstream _ w) as [[[]|e|] w1] eqn:E; try done.
  intros [= <-]. apply lock_done in E. unfold update_upstream, modify in E.
  by injection E as <-.
Qed.

Lemma incoming_job_travels secret m w w' :
  enabled secret = true → usable (uw_merge w) →
  incoming_new_extended_mining_job secret m w = (Done tt, w') →
  usable (uw_merge w') ∧
  pending_bindings (uw_merge w') ⊆ pending_bindings (uw_merge w) ∪ upstream_travelling w' ∧
  (pending_bindings (uw_merge w') ∩ upstream_travelling w ⊆ upstream_travelling w').
Proof.
  intros He Hu H. unfold incoming_new_extended_mining_job in H.
  apply bind_done in H as (binding_id & w1 & Hc & H). unfold claim_pending in Hc.
  pose proof (claim_pending_bindings secret (uw_merge w) (ej_job_id m) Hu) as Hp.
  destruct (claim_job_binding_pending_global _ _ _) as [b merge]. injection Hc as -> <-.
  destruct Hp as [Hu1 Hp]. destruct (is_future m).
  - apply bind_done in H as (future_j & w2 & [= <- <-] & H).
    apply bind_done in H as ([] & w3 & [= <-] & H).
    unfold upstream_travelling, future_binding. cbn in H.
    destruct (uw_future_j w) as [[j replaced]|] eqn:Hf.
    + injection H as <-. cbn. destruct (clear_pending_bindings_set secret merge replaced He Hu1)
        as [Hu2 Hp2]. split; [done|]. split; set_solver.
    + injection H as <-. cbn. split; [done|]. split; set_solver.
  - apply bind_done in H as ([] & w2 & Hr & H).
    apply record_job_id_done in Hr as (Hm & Hb & Hf). apply send_bridge_work_done in H as ->.
    unfold upstream_travelling, future_binding. cbn. rewrite Hm, Hf, Hb. cbn.
    rewrite queued_bindings_app. cbn. split; [done|]. split; set_solver.
Qed.

Lemma incoming_prev_hash_travels secret m w w' :
  incoming_set_new_prev_hash secret m w = (Done tt, w') →
  uw_merge w' = uw_merge w ∧ upstream_travelling w ⊆ upstream_travelling w'.
Proof.
  intros H. unfold incoming_set_new_prev_hash in H.
  apply bind_done in H as (future_j & w1 & [= <- <-] & H).
  unfold upstream_travelling, future_binding.
  destruct (uw_future_j w) as [[j binding_id]|] eqn:Hfj.
  - apply bind_done in H as ([] & w2 & [= <-] & H).
    apply bind_done in H as ([] & w3 & Hr & H).
    apply record_job_id_done in Hr as (Hm & Hb & Hf).
    apply bind_done in H as ([] & w4 & Hs & H). apply send_bridge_work_done in Hs as ->.
    apply send_bridge_work_done in H as ->. cbn. rewrite Hm, Hf, Hb. cbn.
    rewrite !queued_bindings_app. cbn. split; [done|]. set_solver.
  - apply send_bridge_work_done in H as ->. cbn. rewrite Hfj, queued_bindings_app. cbn.
    split; [done|]. set_solver.
Qed.

Lemma keeps_done {A} (m : Handler UpstreamWorld unit A) w a w' :
  keeps m → m w = (Done a, w') →
  uw_merge w' = uw_merge w ∧ upstream_travelling w' = upstream_travelling w.
Proof.
  intros Hm H. specialize (Hm w). rewrite H in Hm. cbn in Hm.
  unfold upstream_travelling, future_binding. destruct Hm as (-> & -> & ->). done.
Qed.

Lemma parse_incoming_travels secret now message w w' extra :
  enabled secret = true → usable (uw_merge w) →
  pending_bindings (uw_merge w) ⊆ upstream_travelling w ∪ extra →
  parse_incoming secret now message w = (Done tt, w') →
  usable (uw_merge w') ∧
  pending_bindings (uw_merge w') ⊆ upstream_travelling w' ∪ extra.
Proof.
  intros He Hu Hp H. destruct message as [m target|m|m|last count|k code|target|j| |];
    cbn [parse_incoming] in H.
  - eapply keeps_done in H as [-> ->]; [done|].
    apply keeps_bind; [apply keeps_lock, keeps_open_handler|intros _; apply keeps_open_loop].
  - apply bind_done in H as ([] & w1 & Hl & H). apply lock_done in Hl as [= <-].
    destruct (incoming_job_travels _ _ _ _ He Hu H) as (Hu' & H1 & H2).
    split; [done|]. set_solver.
  - apply bind_done in H as ([] & w1 & Hl & H). apply lock_done in Hl.
    unfold update_upstream, modify in Hl. injection Hl as <-.
    apply incoming_prev_hash_travels in H as [-> Ht]. split; [done|].
    unfold upstream_travelling in Ht at 1. cbn in Ht. unfold upstream_travelling in Hp at 1.
    set_solver.
  - eapply keeps_done in H as [-> ->]; [done|]. apply keeps_lock, keeps_answering.
  - eapply keeps_done in H as [-> ->]; [done|]. apply keeps_lock, keeps_error.
  - eapply keeps_done in H as [-> ->]; [done|]. apply keeps_lock, keeps_store_target.
  - eapply keeps_done in H as [-> ->]; [done|]. by apply keeps_lock.
  - apply bind_done in H as ([] & w1 & _ & H). done.
  - apply lock_done in H. done.
Qed.

(** ** The bridge side *)

Lemma lock_bridge_done {A} (m : Handler BridgeWorld BridgeError A) w a w' :
  lock_bridge m w = (Done a, w') → poisoned (bw_bridge w) = false ∧ m w = (Done a, w').
Proof.
  unfold lock_bridge, with_lock. destruct (poisoned _); [done|].
  by destruct (m w) as [[|e|] w1].
Qed.

Definition bridge_jobs (w : BridgeWorld) : list BoundExtendedJob :=
  br_future_jobs (guarded (bw_bridge w)).

Lemma clear_all_set env merge l :
  enabled (be_api_secret env) = true → usable merge →
  usable (cleared env merge l) ∧
  pending_bindings (cleared env merge l) ⊆ pending_bindings merge ∖ bridge_bindings l.
Proof.
  intros He. unfold cleared, bridge_bindings. revert merge.
  induction l as [|job l IH]; intros merge Hu; cbn; [by split; [|set_solver]|].
  destruct (clear_pending_bindings_set _ _ (bj_merge_mining_binding_id job) He Hu) as [H1 H2].
  destruct (IH _ H1) as [H3 H4]. split; [done|]. set_solver.
Qed.

Lemma bridge_bindings_reverse l : bridge_bindings (reverse l) ≡ bridge_bindings l.
Proof.
  unfold bridge_bindings. rewrite fmap_reverse. intros b. rewrite !elem_of_union_list.
  by setoid_rewrite elem_of_reverse.
Qed.

Lemma issue_notify_set env notify w w' :
  enabled (be_api_secret env) = true → usable (bw_merge w) →
  issue_notify env notify w = (Done tt, w') →
  usable (bw_merge w') ∧ bridge_jobs w' = bridge_jobs w ∧
  pending_bindings (bw_merge w') ⊆
    pending_bindings (bw_merge w) ∖ binding_set (mn_merge_mining_binding_id notify).
Proof.
  intros He Hu H. pose proof H as H0. unfold issue_notify in H0.
  apply bind_done in H0 as ([] & w1 & [= <-] & H0).
  apply bind_done in H0 as ([] & w2 & [= <-] & H0). apply lock_bridge_done in H0 as [Hp _].
  cbn in Hp. rewrite issue_notify_run in H by done. injection H as <-.
  destruct (set_active_pending_set _ _ (mn_merge_mining_binding_id notify) He Hu) as [H1 H2].
  split; [done|]. split; [|done]. unfold bridge_jobs, notified. cbn. by destruct (tx_open _).
Qed.

Lemma pop_future_jobs_set env prev_hash len popped w b w' :
  enabled (be_api_secret env) = true → usable (bw_merge w) →
  pop_future_jobs env prev_hash len popped w = (Done b, w') →
  usable (bw_merge w') ∧ bridge_jobs w' = bridge_jobs w ∧
  pending_bindings (bw_merge w') ⊆ pending_bindings (bw_merge w) ∖ bridge_bindings popped.
Proof.
  intros He. revert w. induction popped as [|job popped IH]; intros w Hu; cbn [pop_future_jobs].
  { intros [= _ <-]. unfold bridge_bindings. cbn. by split; [|split; [|set_solver]]. }
  assert (bridge_bindings (job :: popped) = binding_set (bj_merge_mining_binding_id job)
    ∪ bridge_bindings popped) as Hcons by done.
  destruct (_ =? _)%N.
  - destruct (create_notify _ _ _ _) as [notify|]; [|done]. intros H.
    apply bind_done in H as ([] & w1 & Hi & H).
    destruct (issue_notify_set _ _ _ _ He Hu Hi) as (Hu1 & Hj & Hp).
    apply bind_done in H as ([] & w2 & Hc & [= _ <-]).
    rewrite clear_pending_bindings_run in Hc. injection Hc as <-. cbn.
    destruct (clear_all_set env (bw_merge w1) (reverse popped) He Hu1) as [Hu2 Hp2].
    split; [done|]. split; [done|]. rewrite bridge_bindings_reverse in Hp2.
    rewrite Hcons. cbn in Hp. set_solver.
  - intros H. apply bind_done in H as ([] & w1 & [= <-] & H).
    destruct (clear_pending_bindings_set _ _ (bj_merge_mining_binding_id job) He Hu) as [Hu1 Hp].
    destruct (IH (set_bw_merge _ w) Hu1 H) as (Hu2 & Hj & Hp2). split; [done|]. split; [done|].
    rewrite Hcons. cbn in Hp2. set_solver.
Qed.

Lemma new_prev_hash_set env prev_hash w w' :
  enabled (be_api_secret env) = true → usable (bw_merge w) →
  handle_new_prev_hash env prev_hash w = (Done tt, w') →
  usable (bw_merge w') ∧ bridge_jobs w' = [] ∧
  pending_bindings (bw_merge w') ⊆
    pending_bindings (bw_merge w) ∖ bridge_bindings (bridge_jobs w).
Proof.
  intros He Hu H. pose proof H as H0. unfold handle_new_prev_hash in H0.
  apply bind_done in H0 as ([] & w1 & H1 & H0). apply lock_bridge_done in H1 as [Hp [= <-]].
  apply bind_done in H0 as (accepted & w2 & H2 & H0). apply lock_bridge_done in H2 as [_ H2].
  unfold factory_call in H2. cbn in H2.
  destruct (on_new_prev_hash prev_hash (br_channel_factory (guarded (bw_bridge w))))
    as [r factory] eqn:Hf. injection H2 as <- <-. destruct r as [[]|e]; [|done]. clear H0.
  rewrite (handle_new_prev_hash_run _ _ _ _ Hp Hf) in H.
  apply bind_done in H as (b & w3 & H & [= <-]).
  destruct (pop_future_jobs_set _ _ _ _ (set_bw_bridge _ w) _ _ He Hu H) as (Hu' & Hj & Hp').
  split; [done|]. split; [done|]. by rewrite bridge_bindings_reverse in Hp'.
Qed.

Lemma new_job_set env job binding_id w w' :
  enabled (be_api_secret env) = true → usable (bw_merge w) →
  handle_new_extended_mining_job env job binding_id w = (Done tt, w') →
  usable (bw_merge w') ∧
  pending_bindings (bw_merge w') ⊆ pending_bindings (bw_merge w) ∧
  pending_bindings (bw_merge w')
    ∩ (binding_set binding_id ∪ bridge_bindings (bridge_jobs w))
    ⊆ bridge_bindings (bridge_jobs w').
Proof.
  intros He Hu H. unfold handle_new_extended_mining_job in H.
  apply bind_done in H as (accepted & w1 & H1 & H). apply lock_bridge_done in H1 as [Hp H1].
  unfold factory_call in H1. destruct (Sv2.on_new_extended_mining_job job _) as [r factory].
  injection H1 as <- <-. destruct r as [u|e]; [|done].
  apply bind_done in H as (len & w2 & H2 & H). apply lock_bridge_done in H2 as [_ [= <- <-]].
  destruct (is_future job).
  - apply lock_bridge_done in H as [_ H]. unfold update_bridge, modify in H.
    injection H as <-. cbn. split; [done|]. split; [done|].
    unfold bridge_jobs, bridge_bindings. cbn. rewrite fmap_app, union_list_app_L. cbn.
    set_solver.
  - apply bind_done in H as (last & w3 & H3 & H). apply lock_bridge_done in H3 as [_ [= <- <-]].
    cbn in H. destruct (br_last_p_hash _) as [prev_hash|]; [|done].
    destruct (create_notify _ _ _ _) as [notify|]; [|done].
    destruct (issue_notify_set _ _ (set_bw_bridge _ w) _ He Hu H) as (Hu' & Hj & Hp'). split; [done|].
    unfold bridge_jobs in Hj |- *. cbn in Hp', Hj. rewrite Hj. split; set_solver.
Qed.

(** ** No binding is left behind *)

Lemma flow_step_inv env f f' :
  enabled (be_api_secret env) = true → flow_inv f → flow_step env f f' → flow_inv f'.
Proof.
  intros He [Hu Ht] Hs. destruct Hs as [now message up up' br H|work queue up br br' Hq H|
    merge up br Hm Hp].
  - cbn in Hu, Ht. unfold travelling, flow_queue in Ht. cbn in Ht.
    destruct (parse_incoming_travels _ _ _ _ _ _ He Hu Ht H) as [H1 H2]. by split.
  - cbn in Hu, Ht. unfold travelling, flow_queue in Ht. cbn in Ht. rewrite Hq in Ht.
    assert (queued_bindings (work :: queue) = binding_set (work_binding work)
      ∪ queued_bindings queue) as Hcons by done. rewrite Hcons in Ht.
    unfold handle_upstream_work in H. destruct work as [job binding_id|prev_hash].
    + destruct (handle_new_extended_mining_job _ _ _ _) as [[[]|e|] w1] eqn:E; [|done..].
      injection H as <-. destruct (new_job_set _ _ _ (set_bw_merge (uw_merge up) br) _ He Hu E) as (H1 & H2 & H3).
      split; [done|]. unfold travelling, flow_queue, future_binding in *.
      unfold bridge_jobs in H3. cbn in *. set_solver.
    + destruct (handle_new_prev_hash _ _ _) as [[[]|e|] w1] eqn:E; [|done..].
      injection H as <-. destruct (new_prev_hash_set _ _ (set_bw_merge (uw_merge up) br) _ He Hu E) as (H1 & H2 & H3).
      split; [done|]. unfold travelling, flow_queue, future_binding in *.
      unfold bridge_jobs in H2, H3. cbn in *. rewrite H2. set_solver.
  - split; [done|]. cbn. unfold travelling, flow_queue in *. cbn in *. set_solver.
Qed.

(** C6: no merge-mining binding is left pending behind its job: however the two loops
    and the other users of the service interleave, every binding that is pending
    activation travels with a job that is still on its way, in the future job of the
    main loop, in the queue, or in the future jobs of the bridge. *)
Theorem pending_bindings_travel env f f' :
  enabled (be_api_secret env) = true →
  usable (uw_merge (fl_upstream f)) → pending_bindings (uw_merge (fl_upstream f)) = ∅ →
  rtc (flow_step env) f f' →
  pending_bindings (uw_merge (fl_upstream f')) ⊆ travelling f'.
Proof.
  intros He Hu Hp Hsteps. assert (flow_inv f) as Hi by (split; [done|rewrite Hp; set_solver]).
  clear Hu Hp. induction Hsteps as [f|f f1 f' Hs Hsteps IH]; [apply Hi|].
  apply IH. by eapply flow_step_inv.
Qed.
End flow.

(** ** Witness *)
#[export] Instance extranonce_model : ExtranonceLib := {
  ExtendedExtranonce := bytes;
  from_upstream_extranonce := λ prefix _, Some prefix
}.

(** A service that announced job 1 with binding 7. *)
Definition announced_context : ContextState :=
  set_job_announcements [(1, Some 7)]%N
    (set_jobs {[7%N := MkJobBinding 7 1 2 3 None [] []]} default_context).
Definition announced_service : option MergeMining :=
  Some (MkMergeMining (with_co_context (new_mutex announced_context) new_core)
    (MkObserverState None None)).
Definition example_upstream_world : UpstreamWorld :=
  MkUpstreamWorld (new_mutex example_upstream) (new_mutex []) (MkSender true [])
    (MkSender true []) announced_service (Some (new_mutex proxy_state_new)) [] None.
Definition example_flow : Flow := MkFlow example_upstream_world example_bridge_world.
Definition example_pool_job : PoolMessage :=
  PoolNewExtendedMiningJob (MkNewExtendedMiningJob 1 1 None 536870912 true [] [] []).

Lemma pending_bindings_travel_witness :
  ∃ f', rtc (flow_step example_env) example_flow f' ∧
    pending_bindings (uw_merge (fl_upstream f')) = {[7%N]} ∧
    pending_bindings (uw_merge (fl_upstream f')) ⊆ travelling f'.
Proof.
  destruct (parse_incoming (be_api_secret example_env) 0 example_pool_job
    example_upstream_world) as [r up'] eqn:E.
  assert (r = Done tt) as -> by (vm_compute in E; injection E as <- <-; reflexivity).
  assert (rtc (flow_step example_env) example_flow (MkFlow up' example_bridge_world)) as H
    by (eapply rtc_l; [eapply flow_pool; exact E|apply rtc_refl]).
  exists (MkFlow up' example_bridge_world). split; [exact H|]. split.
  - vm_compute in E. injection E as <-. reflexivity.
  - apply (pending_bindings_travel example_env example_flow); [reflexivity|reflexivity|
      reflexivity|exact H].
Defined.
