(* ===== verification/ReceiveLoop.v ===== *)
(** * The reader of a miner's connection

    The task that [start_receive_downstream] spawns ([receive_from_downstream.rs]): it handles
    the miner's lines one after the other until the connection closes, a line cannot be read or
    its handler fails, and then takes the miner out of everything that knows it.
    [process_incoming_message] is in [DiffManagement], the kill signal in [TaskManager]. *)

From S2P Require Import Prelude Str Bitcoin BitcoinModel F32 Sv1 RskCommitment MergeState MergeMining RecentJobs ShareLimits ShareLimitsProps Stats Effects Downstream DownstreamProps DiffManagement DiffManagementProps TaskManager.

(** ** Definitions *)
Definition DOWNSTREAM_IDLE_TIMEOUT : N := 99999999.

(** What the reader's channel delivers: a line, its end, or nothing before the timeout. *)
Inductive Incoming := IncomingLine (line : str) | IncomingClosed | IncomingIdle.

Section reader.
Context `{B : !BitcoinLib} `{SV : !Sv1Lib}.
(** [serde_json::from_str] for [json_rpc::Message], and the handlers of [sv1_api]. *)
Context (from_str : str → option Message)
  (handle_message : Message → M (result (option Response) V1Error)).

(** One turn of the loop: whether it goes on. *)
Definition receive_turn (down_env : DownEnv) (env : DiffEnv) (incoming : Incoming) : FM bool := λ w,
  match incoming with
  | IncomingClosed | IncomingIdle => (Done false, w)
  | IncomingLine line =>
      match from_str line with
      | None => (Done false, w)
      | Some incoming =>
          match process_incoming_message handle_message down_env env incoming w with
          | (Done _, w) => (Done true, w)
          | (Failed _, w) => (Done false, w)
          | (Panicked, w) => (Panicked, w)
          end
      end
  end.

(** The loop, each delivery with the time and the draws of its turn. *)
Fixpoint receive_loop (deliveries : list (DownEnv * DiffEnv * Incoming)) : FM bool :=
  match deliveries with
  | [] => mret true
  | (down_env, env, incoming) :: deliveries =>
      goes_on ← receive_turn down_env env incoming;
      if goes_on : bool then receive_loop deliveries else mret false
  end.
End reader.

(** What the end of the reader touches: the miner with the channel's configuration, the
    disconnections told to the monitor, the code reported to [ProxyState], and the tasks. *)
Record ReaderWorld := MkReaderWorld {
  rd_miner : DiffWorld;
  rd_disconnected : list N;
  rd_inconsistency : option N;
  rd_tasks : TaskManager
}.

Definition first_name (d : Downstream) : str := default [] (head (dn_authorized_names d)).

(** The code after the loop; [None] waits for room in the channel of the kill signals. *)
Definition reader_ended (connection_id : N) (w : ReaderWorld) : option ReaderWorld :=
  let miner := (on_down DiffPoisonLock (safe_lock mark_closed) (rd_miner w)).2 in
  let miner :=
    if poisoned (dw_self (fw_down miner)) then miner
    else (on_down DiffPoisonLock (send_stats_reliable (RemoveStats connection_id)) miner).2 in
  let miner := (remove_downstream_hashrate_from_channel miner).2 in
  let '(worker_name, inconsistency) :=
    match lock (dw_self (fw_down miner)) with
    | Some d => (first_name d, rd_inconsistency w)
    | None => (lit "unknown", Some 1%N)
    end in
  let disconnected :=
    match worker_name with
    | [] => rd_disconnected w
    | _ => rd_disconnected w ++ [connection_id]
    end in
  match send_kill_signal connection_id (rd_tasks w) with
  | None => None
  | Some (Ok _, tasks) => Some (MkReaderWorld miner disconnected inconsistency tasks)
  | Some (Err _, tasks) => Some (MkReaderWorld miner disconnected (Some 1%N) tasks)
  end.

(** The whole task: a panic ends it before it cleans up. *)
Definition start_receive_downstream `{B : !BitcoinLib} `{SV : !Sv1Lib}
    (from_str : str → option Message)
    (handle_message : Message → M (result (option Response) V1Error)) (connection_id : N)
    (deliveries : list (DownEnv * DiffEnv * Incoming)) (w : ReaderWorld) : option ReaderWorld :=
  let after miner := MkReaderWorld miner (rd_disconnected w) (rd_inconsistency w) (rd_tasks w) in
  match receive_loop from_str handle_message deliveries (rd_miner w) with
  | (Done false, miner) => reader_ended connection_id (after miner)
  | (_, miner) => Some (after miner)
  end.

(** ** The theorems *)

(** What a miner that left leaves behind: it is closed, its estimate is taken out of the
    channel's hash rate if it was in it, its statistics and its worker are gone, and its tasks
    are to be killed. *)
Record cleaned_up (connection_id : N) (w w' : ReaderWorld) : Prop := {
  cu_closed : dn_closed (guarded (dw_self (fw_down (rd_miner w')))) = true;
  cu_registered : dn_channel_hashrate_registered (guarded (dw_self (fw_down (rd_miner w')))) = false;
  cu_channel : guarded (fw_upstream (rd_miner w')) =
    let d := guarded (dw_self (fw_down (rd_miner w))) in
    let channel := guarded (fw_upstream (rd_miner w)) in
    if dn_channel_hashrate_registered d
    then subtract_channel_hashrate (dd_estimated_downstream_hash_rate (dn_difficulty_mgmt d)) channel
    else channel;
  cu_stats : dw_stats (fw_down (rd_miner w')) =
    stats_send_waiting (RemoveStats connection_id) (dw_stats (fw_down (rd_miner w)));
  cu_monitor : rd_disconnected w' = rd_disconnected w ++
    match first_name (guarded (dw_self (fw_down (rd_miner w)))) with
    | [] => [] | _ => [connection_id]
    end;
  cu_kill : tm_receiver_kill_signal (rd_tasks w') =
    tm_receiver_kill_signal (rd_tasks w) ++ [connection_id];
  cu_inconsistency : rd_inconsistency w' = rd_inconsistency w
}.

Lemma remove_hashrate_run w :
  poisoned (dw_self (fw_down w)) = false → poisoned (fw_upstream w) = false →
  let d := guarded (dw_self (fw_down w)) in
  let estimated := dd_estimated_downstream_hash_rate (dn_difficulty_mgmt d) in
  ∃ down, remove_downstream_hashrate_from_channel w = (Done tt,
      MkDiffWorld down (fw_last_call_to_update_hr w)
        (MkMutex (if dn_channel_hashrate_registered d
                  then subtract_channel_hashrate estimated (guarded (fw_upstream w))
                  else guarded (fw_upstream w)) false) (fw_targets w)) ∧
    poisoned (dw_self down) = false ∧ dn_closed (guarded (dw_self down)) = dn_closed d ∧
    dn_channel_hashrate_registered (guarded (dw_self down)) = false ∧
    dw_stats down = dw_stats (fw_down w) ∧
    dn_authorized_names (guarded (dw_self down)) = dn_authorized_names d.
Proof.
  destruct w as [[[d p] ? ? ? ? ? ? ? ?] ? [c p'] ?]. cbn. intros -> ->.
  unfold remove_downstream_hashrate_from_channel, lock_down, on_down, safe_lock, with_lock,
    take_channel_hashrate_registered, mbind, M_bind.
  cbn. destruct (dn_channel_hashrate_registered d); eexists; (split; [reflexivity|]); done.
Qed.

Lemma reader_ended_cleans_up id w :
  poisoned (dw_self (fw_down (rd_miner w))) = false → poisoned (fw_upstream (rd_miner w)) = false →
  tm_running (rd_tasks w) = true →
  (N.of_nat (length (tm_receiver_kill_signal (rd_tasks w))) < DOWNSTREAM_TASK_MANAGER_BUFFER_SIZE)%N →
  ∃ w', reader_ended id w = Some w' ∧ cleaned_up id w w'.
Proof.
  destruct w as [[[[d p] ? ? ? ? ? ? ? ?] ? [c p'] ?] disconnected inconsistency tasks].
  cbn -[N.of_nat N.lt]. intros -> -> Hr Hroom.
  unfold reader_ended, send_kill_signal. cbn [rd_tasks rd_miner]. rewrite Hr. cbn [negb].
  destruct (N.ltb_spec (N.of_nat (length (tm_receiver_kill_signal tasks)))
    DOWNSTREAM_TASK_MANAGER_BUFFER_SIZE); [|lia].
  match goal with |- context [remove_downstream_hashrate_from_channel ?w] =>
    destruct (remove_hashrate_run w eq_refl eq_refl) as (down & -> & Hp & Hc & Hreg & Hs & Hn) end.
  unfold lock, first_name. cbn [snd fw_down]. rewrite Hp, Hn. eexists. split; [reflexivity|].
  split; cbn; try done. unfold first_name. destruct (default [] _); by rewrite ?app_nil_r.
Qed.

Section loop.
Context `{B : !BitcoinLib} `{SV : !Sv1Lib}.
Context (from_str : str → option Message)
  (handle_message : Message → M (result (option Response) V1Error)).

Lemma receive_turn_outcome de env incoming w :
  match receive_turn from_str handle_message de env incoming w with
  | (Done true, _) => ∃ line, incoming = IncomingLine line ∧ from_str line ≠ None
  | (Failed _, _) => False
  | _ => True
  end.
Proof.
  unfold receive_turn. destruct incoming as [line| |]; [|done..].
  destruct (from_str line) as [m|] eqn:E; [|done].
  destruct (process_incoming_message _ _ _ _ _) as [[[]|e|] w']; try done.
  exists line. by rewrite E.
Qed.

(** The loop goes on only over lines that can be read, and never fails. *)
Lemma receive_loop_outcome deliveries w :
  match receive_loop from_str handle_message deliveries w with
  | (Done true, _) => Forall (λ d, ∃ line, d.2 = IncomingLine line ∧ from_str line ≠ None) deliveries
  | (Failed _, _) => False
  | _ => True
  end.
Proof.
  revert w. induction deliveries as [|[[de env] incoming] ds IH]; intros w.
  - by constructor.
  - cbn [receive_loop]. unfold mbind, M_bind.
    pose proof (receive_turn_outcome de env incoming w) as Ht.
    destruct (receive_turn from_str handle_message de env incoming w) as [[[]|e|] w1]; try done.
    specialize (IH w1). destruct (receive_loop from_str handle_message ds w1) as [[[]|e|] w2]; try done.
    by constructor.
Qed.

(** C40: A miner that leaves is forgotten everywhere: once its deliveries contain the end of the
    connection or a line that cannot be read, the reader ends, and unless a handler panicked it
    marks the miner closed, takes its estimate out of the channel's hash rate exactly if it was
    in it, removes its statistics and its worker and has its tasks killed. *)
Theorem reader_cleans_up id deliveries w :
  Exists (λ d, match d.2 with IncomingLine line => from_str line = None | _ => True end) deliveries →
  let '(r, miner) := receive_loop from_str handle_message deliveries (rd_miner w) in
  let after := MkReaderWorld miner (rd_disconnected w) (rd_inconsistency w) (rd_tasks w) in
  (r = Panicked ∨ r = Done false) ∧
  (r = Done false → poisoned (dw_self (fw_down miner)) = false → poisoned (fw_upstream miner) = false →
   tm_running (rd_tasks w) = true →
   (N.of_nat (length (tm_receiver_kill_signal (rd_tasks w))) < DOWNSTREAM_TASK_MANAGER_BUFFER_SIZE)%N →
   ∃ w', start_receive_downstream from_str handle_message id deliveries w = Some w' ∧
     cleaned_up id after w').
Proof.
  intros Hex. pose proof (receive_loop_outcome deliveries (rd_miner w)) as H.
  unfold start_receive_downstream. destruct (receive_loop from_str handle_message deliveries (rd_miner w)) as [[[]|e|] miner].
  - exfalso. apply Exists_exists in Hex as (d & Hd & Hx).
    rewrite Forall_forall in H. destruct (H d Hd) as (line & E & Hl). by rewrite E in Hx.
  - split; [by right|]. intros _. apply (reader_ended_cleans_up id (MkReaderWorld miner _ _ _)).
  - done.
  - split; [by left|done].
Qed.

(** A miner whose mutex is poisoned keeps its part of the channel's hash rate; the
    inconsistency is reported, which restarts the proxy. *)
Theorem poisoned_miner_reported id w w' :
  poisoned (dw_self (fw_down (rd_miner w))) = true → reader_ended id w = Some w' →
  rd_miner w' = rd_miner w ∧ rd_inconsistency w' = Some 1%N ∧
  rd_disconnected w' = rd_disconnected w ++ [id].
Proof.
  destruct w as [[d last up targets] disconnected inconsistency tasks]. cbn. intros Hd.
  unfold reader_ended, on_down, safe_lock, with_lock. cbn. rewrite Hd. cbn. rewrite Hd.
  unfold remove_downstream_hashrate_from_channel, lock_down, on_down, safe_lock, with_lock, mbind, M_bind.
  cbn. rewrite Hd. unfold lock. cbn. rewrite Hd. cbn.
  destruct (send_kill_signal id tasks) as [[[] ?]|]; [| |done]; by intros [= <-].
Qed.
End loop.

(** ** Witnesses *)
Definition no_json (line : str) : option Message := None.
Definition example_reader : ReaderWorld :=
  MkReaderWorld retarget_world [] None initialize.
Definition example_deliveries : list (DownEnv * DiffEnv * Incoming) :=
  [(example_down_env, retarget_env, IncomingLine []);
   (example_down_env, retarget_env, IncomingClosed)].
Lemma reader_cleans_up_witness :
  ∃ w', start_receive_downstream no_json no_message 3 example_deliveries example_reader = Some w' ∧
    tm_receiver_kill_signal (rd_tasks w') = [3%N].
Proof.
  pose proof (reader_cleans_up no_json no_message 3 example_deliveries example_reader
    ltac:(apply Exists_cons_hd; reflexivity)) as H.
  destruct H as [_ H]. destruct (H eq_refl eq_refl eq_refl eq_refl) as (w' & Hw & Hc).
  - reflexivity.
  - exists w'. split; [exact Hw|]. exact (cu_kill _ _ _ Hc).
Defined.
Lemma poisoned_miner_reported_witness :
  ∃ w', reader_ended 3 (MkReaderWorld (set_fw_down (set_dw_self
      (poison (dw_self (fw_down retarget_world))) (fw_down retarget_world)) retarget_world)
      [] None initialize) = Some w' ∧ rd_inconsistency w' = Some 1%N.
Proof.
  eexists. split; [reflexivity|].
  refine (proj1 (proj2 (poisoned_miner_reported 3 (MkReaderWorld (set_fw_down (set_dw_self
      (poison (dw_self (fw_down retarget_world))) (fw_down retarget_world)) retarget_world)
      [] None initialize) _ eq_refl eq_refl))).
Defined.
