(* ===== verification/TranslatorStart.v ===== *)
(** * The start of the translator

    [start] of [translator/mod.rs] with its start-up task; [Upstream::new], [start] and
    [connect] ([translator/upstream/upstream.rs]); [Bridge::new] and [start]
    ([translator/proxy/bridge.rs]); and [Downstream::accept_connections]
    ([translator/downstream/downstream.rs]).  The start-up task waits for the channel the pool
    opens, then builds the bridge and lets the miners in; meanwhile the tasks of [Upstream]
    run.  Tasks are the handles of [TaskList] and [TaskManager]. *)

From S2P Require Import Prelude Str Bitcoin F32 Sv1 RskCommitment MergeState MergeMining RecentJobs ShareLimits Effects Stats ProxyState Downstream DiffManagement Sv2 Bridge Upstream TaskManager TaskList.

(** ** Definitions *)
Definition MIN_EXTRANONCE2_SIZE : N := 5.
Definition TRANSLATOR_MIN_EXTRANONCE_SIZE : N := 6.
Definition UPSTREAM_EXTRANONCE1_SIZE : nat := 20.
Definition CHANNEL_DIFF_UPDTATE_INTERVAL : N := 10.
Definition u256_max : bytes := replicate 32 Byte.xff.
Definition zero_target : bytes := replicate 32 Byte.x00.

Inductive StartError :=
| StTaskManagerFailed
| StUpstreamMutexPoisoned
| StDiffConfigMutexPoisoned
| StAsyncChannelError
| StUnrecoverable.

(** The handles of the tasks, in the order they are spawned. *)
Record TranslatorHandles := MkTranslatorHandles {
  th_upstream : N;
  th_diff_managment : N;
  th_main_loop : N;
  th_handle_submit : N;
  th_handle_token_update : N;
  th_startup : N;
  th_bridge : N;
  th_upstream_work : N;
  th_downstream_messages : N;
  th_listener : N;
  th_accept : N
}.

(** What the outside decides: whether somebody takes the translator's connection to the pool
    and still has its other end when the channel is asked for, whether the upstream can be
    locked after its main loop was spawned, and the configured rate of shares. *)
Record TranslatorEnv := MkTranslatorEnv {
  te_pool_connection : bool;
  te_pool_open : bool;
  te_submit_lock : bool;
  te_share_per_min : f32;
  te_handles : TranslatorHandles
}.

(** [Upstream::new] *)
Definition upstream_new (min_extranonce_size : N) (sender : Sender ToPool) : Upstream :=
  MkUpstream None None None None min_extranonce_size UPSTREAM_EXTRANONCE1_SIZE sender
    0 0 [] 0 [].

Section start.
Context `{ML : !MiningLib} `{EL : !ExtranonceLib} `{EC : !SubmitErrorCodes} `{BL : !BinaryLib}.

(** [ProxyExtendedChannelFactory::new] for the rate of shares, the target and the channel. *)
Context (proxy_factory_new : ExtendedExtranonce → f32 → bytes → N → Factory).

(** The start-up task: it waits for the channel, then for the target, then builds. *)
Inductive StartupStage :=
| SuExtranonce
| SuTarget (extended : ExtendedExtranonce) (up_id : N)
| SuBridge (extended : ExtendedExtranonce) (up_id : N)
| SuEnded.

(** What the tasks share, which of them run, the managers, and the bridge once it is built. *)
Record TranslatorWorld := MkTranslatorWorld {
  tr_up : UpstreamWorld;
  tr_diff_config : Mutex UpstreamDifficultyConfig;
  tr_main_loop : bool;
  tr_upstream_tasks : TaskList (Task := UpstreamSubtask);
  tr_tasks : TaskList (Task := TranslatorTask);
  tr_startup : StartupStage;
  tr_bridge : option Bridge;
  tr_bridge_tasks : TaskList (Task := BridgeSubtask);
  tr_listener : TaskManager
}.
Definition set_tr_up v w := MkTranslatorWorld v (tr_diff_config w) (tr_main_loop w)
  (tr_upstream_tasks w) (tr_tasks w) (tr_startup w) (tr_bridge w) (tr_bridge_tasks w)
  (tr_listener w).
Definition set_tr_main_loop v w := MkTranslatorWorld (tr_up w) (tr_diff_config w) v
  (tr_upstream_tasks w) (tr_tasks w) (tr_startup w) (tr_bridge w) (tr_bridge_tasks w)
  (tr_listener w).
Definition set_tr_upstream_tasks v w := MkTranslatorWorld (tr_up w) (tr_diff_config w)
  (tr_main_loop w) v (tr_tasks w) (tr_startup w) (tr_bridge w) (tr_bridge_tasks w)
  (tr_listener w).
Definition set_tr_tasks v w := MkTranslatorWorld (tr_up w) (tr_diff_config w) (tr_main_loop w)
  (tr_upstream_tasks w) v (tr_startup w) (tr_bridge w) (tr_bridge_tasks w) (tr_listener w).
Definition set_tr_startup v w := MkTranslatorWorld (tr_up w) (tr_diff_config w)
  (tr_main_loop w) (tr_upstream_tasks w) (tr_tasks w) v (tr_bridge w) (tr_bridge_tasks w)
  (tr_listener w).
Definition set_tr_bridge bridge tasks w := MkTranslatorWorld (tr_up w) (tr_diff_config w)
  (tr_main_loop w) (tr_upstream_tasks w) (tr_tasks w) (tr_startup w) bridge tasks
  (tr_listener w).
Definition set_tr_listener v w := MkTranslatorWorld (tr_up w) (tr_diff_config w)
  (tr_main_loop w) (tr_upstream_tasks w) (tr_tasks w) (tr_startup w) (tr_bridge w)
  (tr_bridge_tasks w) v.

(** *** The upstream *)

(** [Upstream::connect] *)
Definition open_channel_request (nominal_hash_rate : f32) : OpenChannelRequest :=
  MkOpenChannelRequest 0 (lit "ABC") nominal_hash_rate u256_max MIN_EXTRANONCE2_SIZE.
Definition connect (difficulty_config : Mutex UpstreamDifficultyConfig) (w : UpstreamWorld)
    : result unit StartError * UpstreamWorld :=
  match lock (uw_upstream w) with
  | None => (Err StUpstreamMutexPoisoned, w)
  | Some u =>
      match lock difficulty_config with
      | None => (Err StDiffConfigMutexPoisoned, w)
      | Some c =>
          if tx_open (up_sender u)
          then (Ok tt, set_uw_upstream (store (uw_upstream w)
                 (set_up_sender (sender_push
                    (ToPoolOpenChannel (open_channel_request (ud_channel_nominal_hashrate c)))
                    (up_sender u)) u)) w)
          else (Err StAsyncChannelError, w)
      end
  end.

(** [Upstream::start]: what was spawned before a failure is dropped. *)
Definition upstream_subtasks (h : TranslatorHandles) : list UpstreamSubtask :=
  [DiffManagment (th_diff_managment h); MainLoop (th_main_loop h);
   HandleSubmit (th_handle_submit h); HandleTokenUpdate (th_handle_token_update h)].
Definition upstream_start (e : TranslatorEnv) (w : TranslatorWorld)
    : result unit StartError * TranslatorWorld :=
  let h := te_handles e in
  let '(abortable, t) := list_get_aborter initialize_list in
  if negb abortable then (Err StTaskManagerFailed, set_tr_upstream_tasks t w)
  else match connect (tr_diff_config w) (tr_up w) with
  | (Err error, up) =>
      (Err error, set_tr_upstream_tasks (list_drop upstream_handle t) (set_tr_up up w))
  | (Ok _, up) =>
      let w := set_tr_up up w in
      if poisoned (uw_upstream up)
      then (Err StUpstreamMutexPoisoned, set_tr_upstream_tasks (list_drop upstream_handle t) w)
      else if negb (te_submit_lock e)
      then (Err StUpstreamMutexPoisoned, set_tr_upstream_tasks
             (list_abort [th_diff_managment h; th_main_loop h] (list_drop upstream_handle t)) w)
      else match add_tasks upstream_handle (upstream_subtasks h) t with
      | (true, t) => (Ok tt, set_tr_main_loop true (set_tr_upstream_tasks t w))
      | (false, t) =>
          (Err StTaskManagerFailed, set_tr_upstream_tasks (list_drop upstream_handle t) w)
      end
  end.

(** *** The translator *)

(** Everything [start] creates before it calls anything. *)
Definition translator_new (e : TranslatorEnv) (merge : option MergeMining)
    (proxy : option (Mutex ProxyState)) : TranslatorWorld :=
  MkTranslatorWorld
    (MkUpstreamWorld
       (new_mutex (upstream_new (TRANSLATOR_MIN_EXTRANONCE_SIZE - 1)
          (MkSender (te_pool_open e) [])))
       (new_mutex zero_target) (MkSender true []) (MkSender true []) merge proxy [] None)
    (new_mutex (upstream_difficulty_config_new CHANNEL_DIFF_UPDTATE_INTERVAL (f32_of_N 0)))
    false initialize_list initialize_list SuExtranonce None initialize_list initialize.

Definition translator_start (e : TranslatorEnv) (merge : option MergeMining)
    (proxy : option (Mutex ProxyState)) : result unit StartError * TranslatorWorld :=
  let h := te_handles e in
  let w := translator_new e merge proxy in
  let '(abortable, t) := list_get_aborter (tr_tasks w) in
  if negb abortable then (Err StTaskManagerFailed, set_tr_tasks t w)
  else if negb (te_pool_connection e)
  then (Err StUnrecoverable, set_tr_tasks (list_drop translator_handle t) w)
  else match upstream_start e w with
  | (Err error, w) => (Err error, set_tr_tasks (list_drop translator_handle t) w)
  | (Ok _, w) =>
      let failed t := (Err StTaskManagerFailed,
        set_tr_upstream_tasks (list_drop upstream_handle (tr_upstream_tasks w))
          (set_tr_main_loop false (set_tr_tasks (list_drop translator_handle t) w))) in
      match list_add translator_handle (UpstreamTask (th_upstream h)) t with
      | (false, t) => failed t
      | (true, t) =>
          match list_add translator_handle (StartupTask (th_startup h)) t with
          | (false, t) => failed t
          | (true, t) => (Ok tt, set_tr_tasks t w)
          end
      end
  end.

(** *** The start-up task *)

(** [Bridge::new]; [None] is the error of the poisoned target.  A target of the protocol has
    32 bytes, so its conversion does not fail. *)
Definition bridge_new (e : TranslatorEnv) (extranonces : ExtendedExtranonce)
    (target : Mutex bytes) (channel_id : N) : option Bridge :=
  match lock target with
  | None => None
  | Some upstream_target =>
      Some (MkBridge (MkSender true []) (MkSender true []) None
        (proxy_factory_new extranonces (te_share_per_min e) upstream_target channel_id) [] None)
  end.

(** [Bridge::start] *)
Definition bridge_subtasks (h : TranslatorHandles) : list BridgeSubtask :=
  [UpstreamWork (th_upstream_work h); DownstreamMessagesTask (th_downstream_messages h)].
Definition bridge_start (h : TranslatorHandles) : bool * TaskList (Task := BridgeSubtask) :=
  let '(abortable, t) := list_get_aborter initialize_list in
  if negb abortable then (false, t)
  else match add_tasks bridge_handle (bridge_subtasks h) t with
  | (true, t) => (true, t)
  | (false, t) => (false, list_drop bridge_handle t)
  end.

(** [Downstream::accept_connections]: whether the accept loop is with its manager. *)
Definition accept_connections (h : TranslatorHandles) (proxy : option (Mutex ProxyState))
    : bool * option (Mutex ProxyState) * TaskManager :=
  let '(abortable, t) := get_aborter initialize in
  if negb abortable then (false, proxy, t)
  else match add_accept_connection (th_accept h) t with
  | Some (Ok _, t) => (true, proxy, t)
  | Some (Err _, t) => (false, proxy ≫= update_downstream_state TranslatorDownstream, drop_manager t)
  | None => (false, proxy, drop_manager t)   (** a new manager has room *)
  end.

(** The end of the start-up task closes the channel it receives the extranonce from; without a
    bridge the queue to the bridge is closed as well. *)
Definition startup_ended (built : bool) (w : TranslatorWorld) : TranslatorWorld :=
  let up := tr_up w in
  let close {A} (s : Sender A) := MkSender false (tx_sent s) in
  let up := set_uw_sv2_extranonce (close (uw_sv2_extranonce up)) up in
  set_tr_startup SuEnded (set_tr_up
    (if built then up else set_uw_bridge_work (close (uw_bridge_work up)) up) w).

(** The managers of the bridge and of the listener reach the translator's manager, or are
    dropped. *)
Definition register_parts (h : TranslatorHandles) (w : TranslatorWorld) : TranslatorWorld :=
  match list_add translator_handle (BridgeTask (th_bridge h)) (tr_tasks w) with
  | (false, t) =>
      startup_ended false (set_tr_tasks t
        (set_tr_bridge (tr_bridge w) (list_drop bridge_handle (tr_bridge_tasks w))
           (set_tr_listener (drop_manager (tr_listener w)) w)))
  | (true, t) =>
      match list_add translator_handle (DownstreamListener (th_listener h)) t with
      | (false, t) =>
          startup_ended true (set_tr_tasks t (set_tr_listener (drop_manager (tr_listener w)) w))
      | (true, t) => startup_ended true (set_tr_tasks t w)
      end
  end.

(** The bridge is built and started, and the miners are let in. *)
Definition build_bridge (e : TranslatorEnv) (extended : ExtendedExtranonce) (up_id : N)
    (w : TranslatorWorld) : TranslatorWorld :=
  match bridge_new e extended (uw_target (tr_up w)) up_id with
  | None => startup_ended false w
  | Some b =>
      match bridge_start (te_handles e) with
      | (false, bridge_tasks) => startup_ended false (set_tr_bridge (Some b) bridge_tasks w)
      | (true, bridge_tasks) =>
          let '(accepts, proxy, listener) :=
            accept_connections (te_handles e) (uw_proxy (tr_up w)) in
          let w := set_tr_listener listener (set_tr_up (set_uw_proxy proxy (tr_up w)) w) in
          if accepts : bool
          then register_parts (te_handles e) (set_tr_bridge (Some b) bridge_tasks w)
          else startup_ended false
                 (set_tr_bridge (Some b) (list_drop bridge_handle bridge_tasks) w)
      end
  end.

(** A turn of the task.  [senders_gone]: nobody is left who could send the extranonce. *)
Definition startup_turn (e : TranslatorEnv) (senders_gone : bool) (w : TranslatorWorld)
    : TranslatorWorld :=
  match tr_startup w with
  | SuExtranonce =>
      match tx_sent (uw_sv2_extranonce (tr_up w)) with
      | (extended, up_id) :: _ => set_tr_startup (SuTarget extended up_id) w
      | [] =>
          if senders_gone
          then let up := tr_up w in startup_ended false (set_tr_up
                 (set_uw_proxy (uw_proxy up ≫= update_translator_state TranslatorDown) up) w)
          else w
      end
  | SuTarget extended up_id =>
      match lock (uw_target (tr_up w)) with
      | None => set_tr_startup (SuBridge extended up_id) w
      | Some target =>
          if bool_decide (target = zero_target) then w
          else set_tr_startup (SuBridge extended up_id) w
      end
  | SuBridge extended up_id => build_bridge e extended up_id w
  | SuEnded => w
  end.

(** *** The translator at work *)

(** The main loop takes a message of the pool, a share or a token is sent, the managers take a
    handle, or the start-up task makes a turn. *)
Inductive TranslatorEvent :=
| TrPool (api_secret : option bytes) (now : N) (message : PoolMessage)
| TrSubmit (message : UpstreamSubmitShare)
| TrToken (new_token : str)
| TrKeep
| TrStartup (senders_gone : bool).
Definition translator_event (e : TranslatorEnv) (ev : TranslatorEvent) (w : TranslatorWorld)
    : TranslatorWorld :=
  match ev with
  | TrPool api_secret now message =>
      if tr_main_loop w then
        match parse_incoming api_secret now message (tr_up w) with
        | (Done _, up) => set_tr_up up w
        | (_, up) => set_tr_main_loop false (set_tr_up up w)
        end
      else w
  | TrSubmit message => set_tr_up (handle_submit message (tr_up w)).2 w
  | TrToken new_token => set_tr_up (handle_token_update new_token (tr_up w)).2 w
  | TrKeep =>
      set_tr_upstream_tasks (list_keep_turn (tr_upstream_tasks w))
        (set_tr_tasks (list_keep_turn (tr_tasks w))
           (set_tr_bridge (tr_bridge w) (list_keep_turn (tr_bridge_tasks w))
              (set_tr_listener (keep_turn (tr_listener w)) w)))
  | TrStartup senders_gone => startup_turn e senders_gone w
  end.
Definition translator_run (e : TranslatorEnv) (events : list TranslatorEvent)
    (w : TranslatorWorld) : TranslatorWorld :=
  fold_left (λ w ev, translator_event e ev w) events w.

(** The translator's handle is dropped: so are the handles its manager stays, and with a
    manager's handle those that manager stays. *)
Definition translator_drop (h : TranslatorHandles) (w : TranslatorWorld) : TranslatorWorld :=
  let t := list_drop translator_handle (tr_tasks w) in
  let dropped (handle : N) := bool_decide (handle ∈ tl_aborted t) in
  let upstream := dropped (th_upstream h) in
  MkTranslatorWorld (tr_up w) (tr_diff_config w)
    (if upstream then false else tr_main_loop w)
    (if upstream then list_drop upstream_handle (tr_upstream_tasks w) else tr_upstream_tasks w)
    t
    (if dropped (th_startup h) then SuEnded else tr_startup w)
    (tr_bridge w)
    (if dropped (th_bridge h) then list_drop bridge_handle (tr_bridge_tasks w)
     else tr_bridge_tasks w)
    (if dropped (th_listener h) then drop_manager (tr_listener w) else tr_listener w).
End start.
