(* ===== verification/TranslatorStartProps.v ===== *)
(** * Properties of the start of the translator

    The bridge belongs to the channel the pool opened first ([bridge_of_first_channel]); the
    translator starts completely or not at all ([translator_start_all_or_nothing]), builds its
    bridge once the pool has answered ([startup_completes]) and stops with everything it
    started ([translator_stops_whole]); a refused channel is not noticed
    ([refused_channel_unnoticed]). *)

From S2P Require Import Prelude Str Bitcoin F32 Sv1 RskCommitment MergeState MergeMining RecentJobs ShareLimits Effects Stats ProxyState Downstream DiffManagement Sv2 Bridge BridgeProps Upstream TaskManager TaskList TranslatorStart BindingFlow.
From Stdlib Require Import Permutation.

(** ** Where the bridge comes from *)

Section frames.
Context `{ML : !MiningLib} `{EL : !ExtranonceLib} `{EC : !SubmitErrorCodes} `{BL : !BinaryLib}.

(** What the start-up task looks at. *)
Definition frame (w : UpstreamWorld) : Sender (ExtendedExtranonce * N) * Mutex bytes * N :=
  (uw_sv2_extranonce w, uw_target w, up_min_extranonce_size (guarded (uw_upstream w))).
Definition stays {A} (m : Handler UpstreamWorld unit A) : Prop := ∀ w, frame (m w).2 = frame w.

Lemma stays_bind {A X} (m : Handler UpstreamWorld unit A) (k : A → Handler UpstreamWorld unit X) :
  stays m → (∀ a, stays (k a)) → stays (m ≫= k).
Proof.
  intros Hm Hk w. unfold mbind, M_bind. specialize (Hm w).
  destruct (m w) as [[a| |] w']; cbn in *; [|done..]. by rewrite Hk.
Qed.
Lemma stays_same {A} (m : Handler UpstreamWorld unit A) : (∀ w, (m w).2 = w) → stays m.
Proof. intros H w. by rewrite H. Qed.
Lemma stays_ret {A} (a : A) : stays (mret a).
Proof. by apply stays_same. Qed.
Lemma stays_fail {A} : stays (@fail UpstreamWorld unit A tt).
Proof. by apply stays_same. Qed.
Lemma stays_panic {A} : stays (@panic UpstreamWorld unit A).
Proof. by apply stays_same. Qed.
Lemma stays_gets {A} (f : UpstreamWorld → A) : stays (gets f).
Proof. by apply stays_same. Qed.
Lemma stays_upstream {A} (f : Upstream → A) : stays (upstream f).
Proof. by apply stays_same. Qed.
Lemma stays_modify f : (∀ w, frame (f w) = frame w) → stays (modify f).
Proof. intros H w. apply H. Qed.
Lemma stays_lock {A} (m : Handler UpstreamWorld unit A) : stays m → stays (lock_upstream m).
Proof.
  intros Hm w. unfold lock_upstream, with_lock. destruct (poisoned _); [done|].
  specialize (Hm w). destruct (m w) as [[a|[]|] w']; cbn in *; done.
Qed.
Lemma stays_update f :
  (∀ u, up_min_extranonce_size (f u) = up_min_extranonce_size u) → stays (update_upstream f).
Proof. intros H w. unfold frame. cbn. by rewrite H. Qed.
Lemma stays_answering f :
  (∀ u, up_min_extranonce_size (f u).2 = up_min_extranonce_size u) → stays (answering f).
Proof.
  intros H w. unfold answering, frame. specialize (H (guarded (uw_upstream w))).
  destruct (f _) as [a u]. cbn in *. by rewrite H.
Qed.
End frames.

Create HintDb stays.
#[export] Hint Resolve stays_bind stays_ret stays_fail stays_panic stays_gets stays_upstream stays_lock : stays.

Section start_props.
Context `{ML : !MiningLib} `{EL : !ExtranonceLib} `{EC : !SubmitErrorCodes} `{BL : !BinaryLib}.
Context (proxy_factory_new : ExtendedExtranonce → f32 → bytes → N → Factory).

Lemma answer_pending_min k r u :
  up_min_extranonce_size (answer_pending k r u).2 = up_min_extranonce_size u.
Proof. unfold answer_pending. by destruct (bt_remove _ _) as [[?|] ?]. Qed.
Lemma answer_all_min ks r u :
  up_min_extranonce_size (answer_all ks r u).2 = up_min_extranonce_size u.
Proof.
  revert u. induction ks as [|k ks IH]; intros u; [done|]. cbn [answer_all].
  pose proof (answer_pending_min k r u) as H. destruct (answer_pending k r u) as [a u1].
  specialize (IH u1). destruct (answer_all ks r u1) as [a' u2]. cbn in *. congruence.
Qed.
Lemma stays_answer_pending k r : stays (answering (answer_pending k r)).
Proof. apply stays_answering. intros u. apply answer_pending_min. Qed.
Lemma stays_resolve_success l n : stays (answering (resolve_submit_success l n)).
Proof.
  apply stays_answering. intros u. unfold resolve_submit_success.
  destruct (_ =? 0)%N; [done|]. destruct (_ =? 1)%N; [apply answer_pending_min|apply answer_all_min].
Qed.
Lemma stays_answer k r : stays (answer k r).
Proof. by apply stays_modify. Qed.
Lemma stays_send_to_pool m : stays (send_to_pool m).
Proof. intros w. unfold send_to_pool. by destruct (tx_open _). Qed.
Lemma stays_clear s b : stays (clear_pending s b).
Proof. by apply stays_modify. Qed.
Lemma stays_claim s j : stays (claim_pending s j).
Proof. intros w. unfold claim_pending. by destruct (claim_job_binding_pending_global _ _ _). Qed.
Lemma stays_work s work b : stays (send_bridge_work s work b).
Proof.
  intros w. unfold send_bridge_work. destruct (tx_open _); [done|].
  by rewrite (stays_bind _ _ (stays_clear s b) (λ _, stays_fail)).
Qed.
Lemma stays_record s j b : stays (record_job_id s j b).
Proof.
  intros w. unfold record_job_id.
  assert (H : stays (lock_upstream (update_upstream (set_up_job_id j))))
    by by apply stays_lock, stays_update.
  specialize (H w). destruct (lock_upstream _ w) as [[a|[]|] w']; cbn in *; [done| |done].
  by rewrite (stays_bind _ _ (stays_clear s b) (λ _, stays_fail)).
Qed.

#[local] Hint Resolve stays_answer_pending stays_resolve_success stays_answer stays_send_to_pool stays_clear stays_claim stays_work stays_record : stays.
(** Binds and cases of a handler that stays the frame. *)
Ltac staying :=
  repeat (intros; first
    [ done | eassumption
    | apply stays_bind | apply stays_lock | solve [eauto 1 with stays]
    | apply stays_update; intros; done | apply stays_modify; intros; done
    | match goal with |- context [match ?x with _ => _ end] => destruct x end ]).

Lemma stays_submit m : stays (handle_submit m).
Proof.
  intros w. unfold handle_submit.
  set (reject := (_ ← answer _ _; fail tt)).
  assert (Hr : stays reject) by (unfold reject; staying).
  assert (H1 : stays (lock_upstream (upstream up_channel_id))) by staying.
  specialize (H1 w). destruct (lock_upstream (upstream up_channel_id) w) as [[[c|]|[]|] w1];
    cbn in H1; rewrite <- H1; [|by rewrite Hr..|done].
  set (register := lock_upstream _). assert (H2 : stays register)
    by (apply stays_lock; by intros w').
  specialize (H2 w1). destruct (register w1) as [[n|[]|] w2]; cbn in H2; rewrite <- H2;
    [|by rewrite Hr|done].
  revert w2 H2. set (rest := _ ≫= _). assert (H3 : stays rest).
  { unfold rest, unwrap_lock. apply stays_bind; [apply stays_send_to_pool|]. intros [|].
    - intros w2. assert (H3 : stays (lock_upstream (update_upstream (λ u, set_up_counters
        (wrapping_add u32_max (up_sent_up u) 1) (up_rejected u) (up_toa u) u)))) by staying.
      specialize (H3 w2). by destruct (lock_upstream _ w2) as [[[]|[]|] w3].
    - staying. }
  intros w2 _. apply H3.
Qed.
Lemma stays_token t : stays (handle_token_update t).
Proof.
  intros w. unfold handle_token_update. set (failed := (_ ← modify _; fail tt)).
  assert (Hf : stays failed) by (unfold failed; staying).
  assert (H1 : stays (lock_upstream (upstream (λ u, default 0%N (up_channel_id u))))) by staying.
  specialize (H1 w). destruct (lock_upstream (upstream _) w) as [[c|[]|] w1];
    cbn in H1; rewrite <- H1; [|by rewrite Hf|done].
  destruct (fits_0255 _); [|done].
  revert w1 H1. set (rest := _ ≫= _). assert (H3 : stays rest) by (unfold rest; staying).
  intros w1 _. apply H3.
Qed.

(** What a message of the pool does to the frame: the extranonce and the target it carries. *)
Definition target_of (message : PoolMessage) : option bytes :=
  match message with
  | PoolOpenSuccess _ target => Some target
  | PoolSetTarget target => Some target
  | _ => None
  end.
Definition opened_by (min_size : N) (message : PoolMessage) (extended : ExtendedExtranonce)
    (channel_id : N) : Prop :=
  match message with
  | PoolOpenSuccess m _ =>
      os_channel_id m = channel_id ∧
      from_upstream_extranonce (os_extranonce_prefix m)
        (extranonce_ranges (usize_of (length (os_extranonce_prefix m))) (os_extranonce_size m)
           min_size) = Some extended
  | _ => False
  end.
Record frame_step (message : PoolMessage) (w w' : UpstreamWorld) : Prop := {
  fs_min : up_min_extranonce_size (guarded (uw_upstream w'))
           = up_min_extranonce_size (guarded (uw_upstream w));
  fs_poisoned : poisoned (uw_target w') = poisoned (uw_target w);
  fs_target : guarded (uw_target w') = guarded (uw_target w)
              ∨ target_of message = Some (guarded (uw_target w'));
  fs_sent : tx_sent (uw_sv2_extranonce w') = tx_sent (uw_sv2_extranonce w)
            ∨ ∃ extended channel_id,
                opened_by (up_min_extranonce_size (guarded (uw_upstream w))) message
                  extended channel_id ∧
                tx_sent (uw_sv2_extranonce w')
                = tx_sent (uw_sv2_extranonce w) ++ [(extended, channel_id)]
}.
Lemma frame_step_stays message w w' : frame w' = frame w → frame_step message w w'.
Proof. unfold frame. intros [= H1 H2 H3]. split; [done|congruence|left; congruence..]. Qed.

Lemma store_target_frame message target w :
  target_of message = Some target →
  frame_step message w (lock_upstream (store_target target) w).2.
Proof.
  intros Ht. unfold lock_upstream, store_target, with_lock.
  destruct (poisoned (uw_upstream w)); [by apply frame_step_stays|].
  destruct (poisoned (uw_target w)); [by apply frame_step_stays|]. cbn.
  split; [done|done|by right|by left].
Qed.

Lemma handle_open_frame m target w :
  let w' := (lock_upstream (handle_open_extended_mining_channel_success m target) w).2 in
  frame_step (PoolOpenSuccess m target) w w' ∧ uw_sv2_extranonce w' = uw_sv2_extranonce w.
Proof.
  cbn zeta. unfold lock_upstream, with_lock.
  destruct (poisoned (uw_upstream w)); [split; [by apply frame_step_stays|done]|].
  unfold handle_open_extended_mining_channel_success, mbind, M_bind. cbn.
  destruct (invalid_extranonce_size (up_min_extranonce_size (guarded (uw_upstream w)))
    (os_extranonce_size m)); [split; [by apply frame_step_stays|done]|].
  unfold store_target, with_lock.
  destruct (poisoned (uw_target w)); [split; [by apply frame_step_stays|done]|].
  split; [|done]. split; [done|done|by right|by left].
Qed.
Lemma open_loop_frame m target w :
  let w' := (incoming_open_success m w).2 in
  frame_step (PoolOpenSuccess m target) w w' ∧ uw_target w' = uw_target w.
Proof.
  cbn zeta. unfold incoming_open_success, lock_upstream, with_lock, mbind, M_bind.
  destruct (poisoned (uw_upstream w)); [split; [by apply frame_step_stays|done]|]. cbn.
  destruct (from_upstream_extranonce _ _) as [x|] eqn:Hx; [|split; [by apply frame_step_stays|done]].
  unfold send_extranonce. destruct (tx_open _); [|split; [by apply frame_step_stays|done]].
  split; [|done]. split; [done|done|by left|]. right. exists x, (os_channel_id m). done.
Qed.

Lemma parse_incoming_frame s now message w :
  frame_step message w (parse_incoming s now message w).2.
Proof.
  destruct message; cbn [parse_incoming]; try solve [apply frame_step_stays; revert w; staying].
  - unfold mbind, M_bind.
    destruct (handle_open_frame m target w) as [[H1 Hp H2 _] H3].
    destruct (lock_upstream _ w) as [[[]|[]|] w1]; cbn in *; try (split; [done|done|done|left; congruence]).
    destruct (open_loop_frame m target w1) as [[H4 Hp' _ H5] H6].
    rewrite H1, H3 in H5. split; [congruence|congruence|by rewrite H6|done].
  - by apply store_target_frame.
Qed.

(** What holds after [events]. *)
Definition target_sent (events : list TranslatorEvent) (target : bytes) : Prop :=
  ∃ s now message, TrPool s now message ∈ events ∧ target_of message = Some target.
Definition channel_opened (events : list TranslatorEvent) (extended : ExtendedExtranonce)
    (channel_id : N) : Prop :=
  ∃ s now message, TrPool s now message ∈ events ∧
    opened_by (TRANSLATOR_MIN_EXTRANONCE_SIZE - 1) message extended channel_id.
Definition new_bridge (e : TranslatorEnv) (extended : ExtendedExtranonce) (target : bytes)
    (channel_id : N) : Bridge :=
  MkBridge (MkSender true []) (MkSender true []) None
    (proxy_factory_new extended (te_share_per_min e) target channel_id) [] None.
Definition sent_extranonces (w : TranslatorWorld) : list (ExtendedExtranonce * N) :=
  tx_sent (uw_sv2_extranonce (tr_up w)).
Record tr_inv (e : TranslatorEnv) (events : list TranslatorEvent) (w : TranslatorWorld) : Prop := {
  ti_min : up_min_extranonce_size (guarded (uw_upstream (tr_up w)))
           = (TRANSLATOR_MIN_EXTRANONCE_SIZE - 1)%N;
  ti_poisoned : poisoned (uw_target (tr_up w)) = false;
  ti_sent x id : (x, id) ∈ sent_extranonces w → channel_opened events x id;
  ti_target : guarded (uw_target (tr_up w)) = zero_target
              ∨ target_sent events (guarded (uw_target (tr_up w)));
  ti_stage : match tr_startup w with
             | SuTarget x id => head (sent_extranonces w) = Some (x, id)
             | SuBridge x id => head (sent_extranonces w) = Some (x, id) ∧
                 target_sent events (guarded (uw_target (tr_up w)))
             | _ => True
             end;
  ti_bridge b : tr_bridge w = Some b → ∃ x id target,
    head (sent_extranonces w) = Some (x, id) ∧ target_sent events target ∧
    b = new_bridge e x target id;
  ti_listener : tr_bridge w = None → tr_listener w = initialize ∧ tr_bridge_tasks w = initialize_list
}.

Lemma target_sent_more events ev target :
  target_sent events target → target_sent (events ++ [ev]) target.
Proof. intros (s & now & m & ? & ?). exists s, now, m. set_solver. Qed.
Lemma channel_opened_more events ev x id :
  channel_opened events x id → channel_opened (events ++ [ev]) x id.
Proof. intros (s & now & m & ? & ?). exists s, now, m. set_solver. Qed.
Lemma head_more {A} (l l' : list A) a : head l = Some a → head (l ++ l') = Some a.
Proof. by destruct l. Qed.

Lemma tr_inv_more e events ev w : tr_inv e events w → tr_inv e (events ++ [ev]) w.
Proof.
  intros [Hm Hp Hs Ht Hst Hb Hl]. split; try done.
  - eauto using channel_opened_more.
  - destruct Ht; eauto using target_sent_more.
  - destruct (tr_startup w); try done. destruct Hst. eauto using target_sent_more.
  - intros b Hb'. destruct (Hb b Hb') as (x & id & t & ? & ? & ?).
    exists x, id, t. eauto using target_sent_more.
Qed.

(** The upstream's tasks: a message of the pool, or something that keeps the frame. *)
Lemma tr_inv_pool e events s now message w up b :
  tr_inv e events w → frame_step message (tr_up w) up →
  tr_inv e (events ++ [TrPool s now message]) (set_tr_main_loop b (set_tr_up up w)).
Proof.
  intros Hi [Hm' Hp' Ht' Hs'].
  destruct (tr_inv_more e events (TrPool s now message) w Hi) as [Hm Hp Hs Ht Hst Hb Hl].
  assert (Hnew : ∀ t, target_of message = Some t → target_sent (events ++ [TrPool s now message]) t).
  { intros t ?. exists s, now, message. set_solver. }
  assert (Hhead : ∀ a, head (sent_extranonces w) = Some a →
    head (tx_sent (uw_sv2_extranonce up)) = Some a).
  { intros a Ha. destruct Hs' as [->|(? & ? & _ & ->)]; [done|by apply head_more]. }
  split; unfold sent_extranonces; cbn.
  - congruence.
  - congruence.
  - intros x id. destruct Hs' as [->|(x' & id' & Ho & ->)]; [apply Hs|].
    intros [Hin|Hin%list_elem_of_singleton]%elem_of_app; [by apply Hs|]. injection Hin as -> ->.
    exists s, now, message. rewrite Hm in Ho. split; [set_solver|done].
  - destruct Ht' as [->|?]; auto.
  - destruct (tr_startup w); try done; [by apply Hhead|]. destruct Hst as [? ?].
    split; [by apply Hhead|]. destruct Ht' as [->|?]; auto.
  - intros b' Hb'. destruct (Hb b' Hb') as (x & id & t & ? & ? & ?).
    exists x, id, t. eauto.
  - done.
Qed.
Lemma tr_inv_frame e events w up b :
  tr_inv e events w → frame up = frame (tr_up w) →
  tr_inv e events (set_tr_main_loop b (set_tr_up up w)).
Proof.
  intros [Hm Hp Hs Ht Hst Hb Hl]. unfold frame. intros [= H1 H2 H3].
  split; unfold sent_extranonces; cbn; rewrite ?H1, ?H2, ?H3; done.
Qed.

(** The new managers take their tasks. *)
Lemma bridge_started h :
  bridge_start h = (true, MkTaskList (bridge_subtasks h) [] false true []).
Proof. done. Qed.
Lemma miners_accepted h proxy :
  accept_connections h proxy =
  (true, proxy, MkTaskManager [(None, AcceptConnection (th_accept h))] [] (MkMutex ∅ false)
     false true false []).
Proof. done. Qed.

(** The end of the start-up task, whatever it did to the managers. *)
Lemma startup_ended_inv e events built w :
  tr_inv e events w → tr_inv e events (startup_ended built w).
Proof.
  intros [Hm Hp Hs Ht Hst Hb Hl]. unfold startup_ended.
  destruct built; split; unfold sent_extranonces; cbn; done.
Qed.
Lemma startup_turn_inv e events g w :
  tr_inv e events w → tr_inv e events (startup_turn proxy_factory_new e g w).
Proof.
  intros Hi. pose proof Hi as [Hm Hp Hs Ht Hst Hb Hl]. unfold startup_turn.
  destruct (tr_startup w) as [|x id|x id|] eqn:Hstage; [| | |done].
  - destruct (tx_sent _) as [|[x id] rest] eqn:Hsent.
    + destruct g; [|done]. apply startup_ended_inv.
      split; unfold sent_extranonces; cbn; try done. by rewrite Hstage.
    + split; unfold sent_extranonces; cbn; try done. by rewrite Hsent.
  - unfold lock. rewrite Hp. case_bool_decide as Hz; [done|].
    split; unfold sent_extranonces; cbn; try done. split; [done|].
    destruct Ht; [done|]. assumption.
  - destruct Hst as [Hhead Htarget]. unfold build_bridge, bridge_new, lock. rewrite Hp.
    rewrite bridge_started, miners_accepted. cbv beta iota zeta.
    assert (Hnew : ∀ w', frame (tr_up w') = frame (tr_up w) → tr_startup w' = SuBridge x id →
      tr_bridge w' = Some (new_bridge e x (guarded (uw_target (tr_up w))) id) →
      tr_inv e events w').
    { unfold frame. intros w' [= H1 H2 H3] Hstage' Hb'.
      split; unfold sent_extranonces; rewrite ?H1, ?H2, ?H3, ?Hstage'; try done.
      - rewrite Hb'. intros b [= <-]. by exists x, id, (guarded (uw_target (tr_up w))).
      - by rewrite Hb'. }
    unfold register_parts.
    destruct (list_add translator_handle (BridgeTask _) _) as [[] t];
      [|by apply startup_ended_inv, Hnew].
    destruct (list_add translator_handle (DownstreamListener _) t) as [[] t'];
      by apply startup_ended_inv, Hnew.
Qed.

Lemma translator_event_inv e events ev w :
  tr_inv e events w → tr_inv e (events ++ [ev]) (translator_event proxy_factory_new e ev w).
Proof.
  intros Hi. pose proof (tr_inv_more e events ev w Hi) as Hm.
  destruct ev as [s now m|m|t| |g]; cbn [translator_event].
  - destruct (tr_main_loop w) eqn:Hl; [|done]. pose proof (parse_incoming_frame s now m (tr_up w)) as Hf.
    destruct (parse_incoming s now m (tr_up w)) as [[[]|[]|] up]; cbn in Hf;
      pose proof (tr_inv_pool e events s now m w up (tr_main_loop w) Hi Hf) as H1;
      pose proof (tr_inv_pool e events s now m w up false Hi Hf) as H2; [|done..].
    destruct w; exact H1.
  - pose proof (tr_inv_frame e _ w _ (tr_main_loop w) Hm (stays_submit m (tr_up w))) as H.
    destruct w; exact H.
  - pose proof (tr_inv_frame e _ w _ (tr_main_loop w) Hm (stays_token t (tr_up w))) as H.
    destruct w; exact H.
  - destruct Hm as [? ? ? ? ? ? Hl]. split; try done. intros Hn. cbn in *.
    by destruct (Hl Hn) as [-> ->].
  - by apply startup_turn_inv.
Qed.

Lemma translator_start_inv e merge proxy : tr_inv e [] (translator_start e merge proxy).2.
Proof.
  assert (Hn : ∀ w, frame (tr_up w) = frame (tr_up (translator_new e merge proxy)) →
    tr_startup w = SuExtranonce → tr_bridge w = None → tr_listener w = initialize →
    tr_bridge_tasks w = initialize_list → tr_inv e [] w).
  { unfold frame. intros w [= H1 H2 H3] Hs Hb Hl Ht.
    split; unfold sent_extranonces; rewrite ?H1, ?H2, ?H3, ?Hs, ?Hb; try done; [|by left].
    intros x id Hin. by apply not_elem_of_nil in Hin. }
  unfold translator_start, upstream_start, connect. cbn.
  destruct (te_pool_connection e), (te_pool_open e), (te_submit_lock e); by apply Hn.
Qed.

Lemma translator_run_inv e events w :
  tr_inv e [] w → tr_inv e events (translator_run proxy_factory_new e events w).
Proof.
  intros Hw. induction events as [|ev events IH] using rev_ind; [done|].
  unfold translator_run. rewrite fold_left_app. by apply translator_event_inv.
Qed.

(** A translator that started. *)
Record started_world (e : TranslatorEnv) (proxy : option (Mutex ProxyState))
    (w : TranslatorWorld) : Prop := {
  sw_main_loop : tr_main_loop w = true;
  sw_poisoned : poisoned (uw_upstream (tr_up w)) = false;
  sw_startup : tr_startup w = SuExtranonce;
  sw_bridge : tr_bridge w = None;
  sw_sent : tx_sent (uw_sv2_extranonce (tr_up w)) = [];
  sw_proxy : uw_proxy (tr_up w) = proxy;
  sw_tasks : tr_tasks w = MkTaskList
    [UpstreamTask (th_upstream (te_handles e)); StartupTask (th_startup (te_handles e))] []
    false true [];
  sw_upstream_tasks : tr_upstream_tasks w
    = MkTaskList (upstream_subtasks (te_handles e)) [] false true [];
  sw_bridge_tasks : tr_bridge_tasks w = initialize_list;
  sw_listener : tr_listener w = initialize
}.
Lemma started e merge proxy w :
  translator_start e merge proxy = (Ok tt, w) → started_world e proxy w.
Proof.
  unfold translator_start, upstream_start, connect. cbn.
  destruct (te_pool_connection e), (te_pool_open e), (te_submit_lock e); try done.
  by intros [= <-].
Qed.

(** The three turns of the start-up task. *)
Lemma turn_extranonce e w x id rest :
  tr_startup w = SuExtranonce → tx_sent (uw_sv2_extranonce (tr_up w)) = (x, id) :: rest →
  startup_turn proxy_factory_new e false w = set_tr_startup (SuTarget x id) w.
Proof. intros Hs Hx. unfold startup_turn. by rewrite Hs, Hx. Qed.
Lemma turn_target e w x id target :
  tr_startup w = SuTarget x id → uw_target (tr_up w) = new_mutex target → target ≠ zero_target →
  startup_turn proxy_factory_new e false w = set_tr_startup (SuBridge x id) w.
Proof.
  intros Hs Ht Hz. unfold startup_turn. rewrite Hs, Ht. unfold lock. cbn [new_mutex poisoned guarded].
  by rewrite bool_decide_false.
Qed.
Lemma turn_bridge e w x id target :
  tr_startup w = SuBridge x id → uw_target (tr_up w) = new_mutex target →
  tl_running (tr_tasks w) = true →
  let w' := startup_turn proxy_factory_new e false w in
  let h := te_handles e in
  tr_startup w' = SuEnded ∧ tr_bridge w' = Some (new_bridge e x target id) ∧
  tl_receiver (tr_bridge_tasks w') = bridge_subtasks h ∧
  queued (tr_listener w') = [th_accept h] ∧
  tl_tasks (tr_tasks w') ++ tl_receiver (tr_tasks w')
  = tl_tasks (tr_tasks w) ++ tl_receiver (tr_tasks w) ++
    [BridgeTask (th_bridge h); DownstreamListener (th_listener h)].
Proof.
  intros Hs Ht Hr. cbn zeta. unfold startup_turn. rewrite Hs.
  unfold build_bridge, bridge_new, lock. rewrite Ht. cbn [new_mutex poisoned guarded].
  rewrite bridge_started, miners_accepted. cbv beta iota zeta. unfold register_parts.
  cbn [set_tr_bridge set_tr_listener set_tr_up tr_tasks].
  destruct (list_add_running translator_handle (BridgeTask (th_bridge (te_handles e))) _ Hr)
    as (t1 & -> & Hr1 & _ & H1).
  destruct (list_add_running translator_handle (DownstreamListener (th_listener (te_handles e))) _ Hr1)
    as (t2 & -> & _ & _ & H2).
  cbn. split_and!; try done. rewrite H2, app_assoc, H1, <- !app_assoc. done.
Qed.

(** Where the handles of a translator that started are. *)
Definition built {A} (w : TranslatorWorld) (l : list A) : list A :=
  match tr_bridge w with Some _ => l | None => [] end.
Record tasks_inv (h : TranslatorHandles) (w : TranslatorWorld) : Prop := {
  tv_running : tl_running (tr_tasks w) = true;
  tv_aborted : tl_aborted (tr_tasks w) = [];
  tv_tasks : tl_tasks (tr_tasks w) ++ tl_receiver (tr_tasks w)
    = [UpstreamTask (th_upstream h); StartupTask (th_startup h)] ++
      built w [BridgeTask (th_bridge h); DownstreamListener (th_listener h)];
  tv_upstream_aborted : tl_aborted (tr_upstream_tasks w) = [];
  tv_upstream : tl_tasks (tr_upstream_tasks w) ++ tl_receiver (tr_upstream_tasks w)
    = upstream_subtasks h;
  tv_bridge_aborted : tl_aborted (tr_bridge_tasks w) = [];
  tv_bridge : tl_tasks (tr_bridge_tasks w) ++ tl_receiver (tr_bridge_tasks w)
    = built w (bridge_subtasks h);
  tv_listener : all_handles (tr_listener w) = built w [th_accept h] ∧
    tm_aborted (tr_listener w) = [] ∧ poisoned (tm_tasks (tr_listener w)) = false;
  tv_stage : tr_startup w ≠ SuEnded → tr_bridge w = None
}.
Arguments built : simpl never.

Lemma list_keep_turn_tasks {Task} (t : TaskList (Task := Task)) :
  tl_tasks (list_keep_turn t) ++ tl_receiver (list_keep_turn t) = tl_tasks t ++ tl_receiver t ∧
  tl_aborted (list_keep_turn t) = tl_aborted t ∧ tl_running (list_keep_turn t) = tl_running t.
Proof.
  unfold list_keep_turn. destruct (tl_receiver t) as [|task rest] eqn:E; [by rewrite E|].
  cbn. by rewrite <- app_assoc.
Qed.
Lemma keep_turn_one (t : TaskManager) (l : list N) :
  all_handles t = l → (length l <= 1)%nat → poisoned (tm_tasks t) = false → tm_aborted t = [] →
  all_handles (keep_turn t) = l ∧ tm_aborted (keep_turn t) = [] ∧
  poisoned (tm_tasks (keep_turn t)) = false.
Proof.
  intros <- Hl Hp Ha. pose proof (tm_event_handles EvKeepTurn t) as H. cbn [handed tm_event app] in H.
  assert (Hk : tm_aborted (keep_turn t) = [] ∧ poisoned (tm_tasks (keep_turn t)) = false).
  { unfold keep_turn. destruct (tm_receiver t) as [|[c task] rest]; [done|].
    unfold lock. cbn. by rewrite Hp. }
  split; [|done]. destruct (all_handles t) as [|a [|b l]].
  - by apply Permutation_nil_r in H.
  - by apply Permutation_singleton_r in H.
  - cbn in Hl. lia.
Qed.

Lemma tasks_inv_same h w w' :
  tasks_inv h w → tr_tasks w' = tr_tasks w → tr_upstream_tasks w' = tr_upstream_tasks w →
  tr_bridge w' = tr_bridge w → tr_bridge_tasks w' = tr_bridge_tasks w →
  tr_listener w' = tr_listener w → (tr_startup w ≠ SuEnded ∨ tr_startup w' = tr_startup w) →
  tasks_inv h w'.
Proof.
  intros [] H1 H2 H3 H4 H5 H6. split; unfold built; rewrite ?H1, ?H2, ?H3, ?H4, ?H5; try done.
  intros H. destruct H6 as [?|H6]; [|rewrite H6 in H]; auto.
Qed.

Lemma build_bridge_tasks e x id w :
  tasks_inv (te_handles e) w → tr_startup w = SuBridge x id →
  tasks_inv (te_handles e) (build_bridge proxy_factory_new e x id w).
Proof.
  intros Hi Hs. pose proof Hi as [Hr Ha Ht Hua Hu Hba Hb Hl Hst]. unfold build_bridge, bridge_new.
  destruct (lock _) as [target|]; [|by apply (tasks_inv_same _ w); [..|left; rewrite Hs]].
  rewrite bridge_started, miners_accepted. cbv beta iota zeta. unfold register_parts.
  cbn [set_tr_bridge set_tr_listener set_tr_up tr_tasks].
  destruct (list_add_running translator_handle (BridgeTask (th_bridge (te_handles e))) _ Hr)
    as (t1 & -> & Hr1 & Ha1 & H1).
  destruct (list_add_running translator_handle (DownstreamListener (th_listener (te_handles e))) _ Hr1)
    as (t2 & -> & Hr2 & Ha2 & H2).
  unfold built in Ht. rewrite Hst in Ht by (by rewrite Hs). split; cbn; try done.
  - congruence.
  - unfold built. cbn. rewrite H2, app_assoc, H1, app_assoc, Ht. done.
Qed.

Lemma translator_event_tasks e ev w :
  tasks_inv (te_handles e) w →
  tasks_inv (te_handles e) (translator_event proxy_factory_new e ev w).
Proof.
  intros Hi. destruct ev as [s now m|m|t| |g]; cbn [translator_event].
  - destruct (tr_main_loop w); [|done].
    destruct (parse_incoming _ _ _ _) as [[[]|[]|] up]; apply (tasks_inv_same _ w); auto.
  - apply (tasks_inv_same _ w); auto.
  - apply (tasks_inv_same _ w); auto.
  - pose proof Hi as [Hr Ha Ht Hua Hu Hba Hb (Hl & Hla & Hlp) Hst].
    destruct (list_keep_turn_tasks (tr_tasks w)) as (T1 & T2 & T3).
    destruct (list_keep_turn_tasks (tr_upstream_tasks w)) as (U1 & U2 & _).
    destruct (list_keep_turn_tasks (tr_bridge_tasks w)) as (B1 & B2 & _).
    split; cbn; unfold built; cbn; rewrite ?T1, ?T2, ?T3, ?U1, ?U2, ?B1, ?B2; try done.
    apply (keep_turn_one _ _ Hl); try done. unfold built. destruct (tr_bridge w); cbn; lia.
  - unfold startup_turn. destruct (tr_startup w) as [|x id|x id|] eqn:Hs; [| | |done].
    + destruct (tx_sent _) as [|[x id] rest]; [destruct g; [|done]|];
        (apply (tasks_inv_same _ w); [done..|left; by rewrite Hs]).
    + destruct (lock _) as [target|]; [case_bool_decide; [done|]|];
        (apply (tasks_inv_same _ w); [done..|left; by rewrite Hs]).
    + by apply build_bridge_tasks.
Qed.

Lemma translator_run_tasks e events w :
  tasks_inv (te_handles e) w → tasks_inv (te_handles e) (translator_run proxy_factory_new e events w).
Proof.
  revert w. induction events as [|ev events IH]; intros w Hw; [done|].
  by apply IH, translator_event_tasks.
Qed.

(** What the translator's manager drops. *)
Lemma dropped_handles h w :
  tasks_inv h w →
  tl_aborted (list_drop translator_handle (tr_tasks w)) ≡ₚ
    [th_upstream h; th_startup h] ++ built w [th_bridge h; th_listener h].
Proof.
  intros Hi. pose proof (f_equal (fmap translator_handle) (tv_tasks _ _ Hi)) as H.
  rewrite !fmap_app in H. cbn. rewrite (tv_aborted _ _ Hi). cbn.
  rewrite (Permutation_app_comm (translator_handle <$> _)), H. unfold built. by destruct (tr_bridge w).
Qed.

Lemma drop_aborted {Task} (handle : Task → N) (t : TaskList (Task := Task)) :
  tl_aborted (list_drop handle t) ≡ₚ
    tl_aborted t ++ (handle <$> (tl_tasks t ++ tl_receiver t)).
Proof. cbn. rewrite fmap_app. by rewrite (Permutation_app_comm (handle <$> tl_receiver t)). Qed.

(** ** The theorems *)

(** C39: The bridge is built for the first channel the pool opened: however the messages of the
    pool, the shares, the tokens and the start-up task interleave, a bridge that exists has the
    extranonce and the identifier of that channel and a target the pool sent, never the zero
    target of the start; and before there is one no task accepts miners. *)
Theorem bridge_of_first_channel e merge proxy events :
  let w := translator_run proxy_factory_new e events (translator_start e merge proxy).2 in
  (∀ b, tr_bridge w = Some b → ∃ x id target,
     head (sent_extranonces w) = Some (x, id) ∧ channel_opened events x id ∧
     target_sent events target ∧ b = new_bridge e x target id) ∧
  (tr_bridge w = None → all_handles (tr_listener w) = [] ∧ tr_bridge_tasks w = initialize_list).
Proof.
  cbn zeta.
  destruct (translator_run_inv e events _ (translator_start_inv e merge proxy))
    as [_ _ Hs _ _ Hb Hl].
  split.
  - intros b Hb'. destruct (Hb b Hb') as (x & id & t & Hx & ? & ?). exists x, id, t.
    split_and!; try done. apply Hs. destruct (sent_extranonces _); [done|]. injection Hx as ->. left.
  - intros Hn. by destruct (Hl Hn) as [-> ->].
Qed.

(** The translator starts completely or not at all: when it starts, the pool was asked for
    one channel, without any hash rate yet, and the four tasks of the upstream and the
    start-up task are with the managers; when it does not, whatever had been spawned is
    aborted, and nothing runs. *)
Theorem translator_start_all_or_nothing e merge proxy :
  let h := te_handles e in
  let '(r, w) := translator_start e merge proxy in
  tr_bridge w = None ∧ tr_startup w = SuExtranonce ∧
  match r with
  | Ok _ =>
      tx_sent (up_sender (guarded (uw_upstream (tr_up w))))
      = [ToPoolOpenChannel (open_channel_request (f32_of_N 0))] ∧
      tr_main_loop w = true ∧
      tl_receiver (tr_tasks w) = [UpstreamTask (th_upstream h); StartupTask (th_startup h)] ∧
      tl_receiver (tr_upstream_tasks w) = upstream_subtasks h ∧
      tl_aborted (tr_tasks w) = [] ∧ tl_aborted (tr_upstream_tasks w) = []
  | Err _ =>
      tr_main_loop w = false ∧ tl_receiver (tr_tasks w) = [] ∧ tl_tasks (tr_tasks w) = [] ∧
      tl_receiver (tr_upstream_tasks w) = [] ∧ tl_tasks (tr_upstream_tasks w) = [] ∧
      tl_running (tr_tasks w) = false ∧
      tl_aborted (tr_upstream_tasks w) =
        if te_pool_connection e && te_pool_open e
        then [th_diff_managment h; th_main_loop h] else []
  end.
Proof.
  cbn zeta. unfold translator_start, upstream_start, connect. cbn.
  by destruct (te_pool_connection e), (te_pool_open e), (te_submit_lock e).
Qed.

(** C15: Once the pool opened a channel and sent a target, three turns of the start-up task let
    the miners in: the bridge is built for that channel and target, its two tasks and the
    accept loop are with their managers, and these with the translator's. *)
Theorem startup_completes e w x id target rest :
  tr_startup w = SuExtranonce → tx_sent (uw_sv2_extranonce (tr_up w)) = (x, id) :: rest →
  uw_target (tr_up w) = new_mutex target → target ≠ zero_target →
  tl_running (tr_tasks w) = true →
  let w' := translator_run proxy_factory_new e (replicate 3 (TrStartup false)) w in
  let h := te_handles e in
  tr_startup w' = SuEnded ∧ tr_bridge w' = Some (new_bridge e x target id) ∧
  tl_receiver (tr_bridge_tasks w') = bridge_subtasks h ∧
  queued (tr_listener w') = [th_accept h] ∧
  tl_tasks (tr_tasks w') ++ tl_receiver (tr_tasks w')
  = tl_tasks (tr_tasks w) ++ tl_receiver (tr_tasks w) ++
    [BridgeTask (th_bridge h); DownstreamListener (th_listener h)].
Proof.
  intros Hs Hsent Ht Hz Hr. cbn zeta. cbn [replicate translator_run fold_left translator_event].
  rewrite (turn_extranonce e w x id rest Hs Hsent).
  rewrite (turn_target e (set_tr_startup (SuTarget x id) w) x id target) by done.
  destruct (turn_bridge e (set_tr_startup (SuBridge x id) (set_tr_startup (SuTarget x id) w)) x id
    target) as (H1 & H2 & H3 & H4 & H5); done.
Qed.

(** Dropping the translator's handle stops all of it, however far it got: every task of the
    upstream, the start-up task, and, once they exist, both tasks of the bridge and the accept
    loop are aborted, each once, and no manager keeps anything. *)
Theorem translator_stops_whole e merge proxy w0 events :
  translator_start e merge proxy = (Ok tt, w0) →
  let h := te_handles e in
  let w := translator_run proxy_factory_new e events w0 in
  let w' := translator_drop h w in
  tr_startup w' = SuEnded ∧ tr_main_loop w' = false ∧
  tl_aborted (tr_tasks w') ≡ₚ [th_upstream h; th_startup h] ++
    built w [th_bridge h; th_listener h] ∧
  tl_aborted (tr_upstream_tasks w') ≡ₚ upstream_handle <$> upstream_subtasks h ∧
  tl_aborted (tr_bridge_tasks w') ≡ₚ built w (bridge_handle <$> bridge_subtasks h) ∧
  tm_aborted (tr_listener w') ≡ₚ built w [th_accept h] ∧
  tl_receiver (tr_tasks w') = [] ∧ tl_tasks (tr_tasks w') = [] ∧
  tl_receiver (tr_upstream_tasks w') = [] ∧ tl_tasks (tr_upstream_tasks w') = [] ∧
  tl_tasks (tr_bridge_tasks w') ++ tl_receiver (tr_bridge_tasks w') = [] ∧
  queued (tr_listener w') ++ held (tr_listener w') = [].
Proof.
  intros Hok. cbn zeta. apply started in Hok as [_ _ _ Hb _ _ Ht Hu Hbt Hl].
  assert (Hi : tasks_inv (te_handles e) w0).
  { split; unfold built; rewrite ?Hb, ?Ht, ?Hu, ?Hbt, ?Hl; done. }
  apply (translator_run_tasks _ events) in Hi.
  revert Hi. generalize (translator_run proxy_factory_new e events w0). clear. intros w Hi.
  pose proof (dropped_handles _ _ Hi) as Hd. pose proof Hi as [_ _ _ Hua Hu Hba Hb (Hl & Hla & _) _].
  unfold translator_drop. rewrite !bool_decide_true by (rewrite Hd; set_solver). cbn -[list_drop drop_manager].
  split_and!; try done.
  - rewrite drop_aborted, Hua, Hu. done.
  - unfold built in *. destruct (tr_bridge w) eqn:Hbr in |- *.
    + rewrite bool_decide_true by (rewrite Hd, Hbr; set_solver).
      rewrite drop_aborted, Hba, Hb, Hbr. done.
    + case_bool_decide; [|by rewrite Hba]. rewrite drop_aborted, Hba, Hb, Hbr. done.
  - unfold built in *. unfold all_handles in Hl. rewrite Hla in Hl. cbn in Hl.
    destruct (tr_bridge w) eqn:Hbr in |- *.
    + rewrite bool_decide_true by (rewrite Hd, Hbr; set_solver). cbn. rewrite Hla, Hl, Hbr. done.
    + case_bool_decide; [cbn; rewrite Hla, Hl, Hbr|rewrite Hla]; done.
  - unfold built in *. case_bool_decide as Hin; [done|]. rewrite Hb. destruct (tr_bridge w); [|done].
    destruct Hin. rewrite Hd. set_solver.
  - unfold built in *. case_bool_decide as Hin; [done|].
    unfold all_handles in Hl. rewrite Hla in Hl. cbn in Hl. rewrite Hl. destruct (tr_bridge w); [|done].
    destruct Hin. rewrite Hd. set_solver.
Qed.

(** A pool that refuses to open a channel is not noticed: the main loop ends in a panic,
    nothing is reported, and the start-up task waits for ever. *)
Theorem refused_channel_unnoticed e merge proxy w s now events :
  translator_start e merge proxy = (Ok tt, w) →
  Forall (λ ev, match ev with TrPool _ _ _ | TrStartup false => True | _ => False end) events →
  let w' := translator_run proxy_factory_new e (TrPool s now PoolTodo :: events) w in
  tr_main_loop w' = false ∧ tr_startup w' = SuExtranonce ∧ tr_bridge w' = None ∧
  uw_proxy (tr_up w') = proxy.
Proof.
  intros Hok Hev. cbn zeta.
  assert (H : ∀ w1, tr_main_loop w1 = false → tr_startup w1 = SuExtranonce →
    tx_sent (uw_sv2_extranonce (tr_up w1)) = [] →
    translator_run proxy_factory_new e events w1 = w1).
  { intros w1 Hm Hs Hx. induction Hev as [|ev events Hev _ IH]; [done|]. cbn [translator_run fold_left].
    replace (translator_event proxy_factory_new e ev w1) with w1; [done|].
    destruct ev as [? ? ?|?|?| |[]]; try done; cbn [translator_event].
    - by rewrite Hm.
    - unfold startup_turn. by rewrite Hs, Hx. }
  destruct (started e merge proxy w Hok) as [Hm Hp Hs Hb Hx Hpr _ _ _ _].
  change (translator_run proxy_factory_new e (TrPool s now PoolTodo :: events) w)
    with (translator_run proxy_factory_new e events
            (translator_event proxy_factory_new e (TrPool s now PoolTodo) w)).
  cbn [translator_event parse_incoming]. rewrite Hm. unfold lock_upstream, with_lock, mbind, M_bind.
  rewrite Hp. cbn. rewrite H; done.
Qed.
End start_props.

(** ** Witnesses *)
Definition example_handles : TranslatorHandles := MkTranslatorHandles 1 2 3 4 5 6 7 8 9 10 11.
Definition example_translator_env : TranslatorEnv :=
  MkTranslatorEnv true true true (f32_of_N 10) example_handles.
Definition example_factory (x : bytes) (share_per_min : f32) (target : bytes) (id : N) : N := id.
Definition example_started : TranslatorWorld :=
  (translator_start example_translator_env None (Some (new_mutex proxy_state_new))).2.
Definition example_open : TranslatorEvent :=
  TrPool None 0 (PoolOpenSuccess (MkOpenSuccess 42 [Byte.x01] 8) u256_max).
Definition example_opened : TranslatorWorld :=
  translator_run example_factory example_translator_env [example_open] example_started.

Lemma startup_completes_witness :
  tr_bridge (translator_run example_factory example_translator_env
    (replicate 3 (TrStartup false)) example_opened)
  = Some (new_bridge example_factory example_translator_env [Byte.x01] u256_max 42).
Proof.
  refine (proj1 (proj2 (startup_completes example_factory example_translator_env example_opened
    [Byte.x01] 42 u256_max [] _ _ _ _ _))).
  - vm_compute. reflexivity.
  - vm_compute. reflexivity.
  - vm_compute. reflexivity.
  - discriminate.
  - vm_compute. reflexivity.
Defined.
Lemma translator_stops_whole_witness :
  tm_aborted (tr_listener (translator_drop example_handles
    (translator_run example_factory example_translator_env
       [example_open; TrStartup false; TrStartup false; TrKeep; TrStartup false] example_started)))
  ≡ₚ [11%N].
Proof.
  destruct (translator_stops_whole (ML := mining_model) (EL := extranonce_model) example_factory example_translator_env None
    (Some (new_mutex proxy_state_new)) example_started
    [example_open; TrStartup false; TrStartup false; TrKeep; TrStartup false] eq_refl)
    as (_ & _ & _ & _ & _ & H & _).
  exact H.
Defined.
Lemma refused_channel_unnoticed_witness :
  tr_startup (translator_run example_factory example_translator_env
    [TrPool None 0 PoolTodo; TrStartup false] example_started) = SuExtranonce.
Proof.
  refine (proj1 (proj2 (refused_channel_unnoticed (ML := mining_model) (EL := extranonce_model) example_factory example_translator_env None
    (Some (new_mutex proxy_state_new)) example_started None 0 [TrStartup false] eq_refl _))).
  repeat constructor.
Defined.
