(* ===== verification/SetupConnection.v ===== *)
(** * Setting up the connections

    The [SetupConnection] messages of the client and what it makes of the answers: to the pool
    ([get_mining_setup_connection_msg] of [minin_pool_connection/mod.rs]; the wait for the
    answer is in [Router]), to the pool's declaration server
    ([jd_client/job_declarator/setup_connection.rs]) and to the template provider
    ([jd_client/template_receiver/setup_connection.rs]), with [TemplateRx::connect]
    ([jd_client/template_receiver/mod.rs]).  Random identifiers and the text of an IP address
    are inputs; framing belongs to [codec_sv2]. *)

From S2P Require Import Prelude Str Effects Sv2 TaskManager TaskList.
From Stdlib Require Import Permutation.

(** ** Definitions *)
Inductive Protocol := MiningProtocol | JobDeclarationProtocol | TemplateDistributionProtocol.
Record SetupConnection := MkSetupConnection {
  sc_protocol : Protocol;
  sc_min_version : N;
  sc_max_version : N;
  sc_flags : N;
  sc_endpoint_host : str;
  sc_endpoint_port : N;
  sc_vendor : str;
  sc_hardware_version : str;
  sc_firmware : str;
  sc_device_id : str
}.

(** What the other side answers: nothing more, something that is no frame, a frame without a
    header, one that [handle_message_common] refuses, or one of its three messages. *)
Inductive SetupReply :=
| ReplyClosed | ReplyNoFrame | ReplyNoHeader | ReplyRefused
| ReplySuccess | ReplyError | ReplyEndpointChanged.

Section setup.
Context `{BL : !BinaryLib}.

(** [try_into] of a string, whose failure the client does not expect. *)
Definition str0255 (s : str) : option str := if fits_0255 (str_len s) then Some s else None.

(** The identifier of a pooled device: [draw] are the sixteen random characters. *)
Definition POOLED : str := lit "::POOLED::".
Definition pooled_device_id (draw token : str) : option str := str0255 (draw ++ POOLED ++ token).

Definition get_mining_setup_connection_msg (work_selection : bool) (draw token : str)
    : option SetupConnection :=
  endpoint_host ← str0255 (lit "0.0.0.0");
  device_id ← pooled_device_id draw token;
  let flags := if work_selection then 6%N else 4%N in
  Some (MkSetupConnection MiningProtocol 2 2 flags endpoint_host 50 [] [] [] device_id).

(** The declaration server.  [set_async_job_nogotiation] belongs to [common_messages_sv2]. *)
Definition jd_setup_connection_message (set_async_job_nogotiation : SetupConnection → SetupConnection)
    (host : str) (port : N) (draw token : str) : option SetupConnection :=
  endpoint_host ← str0255 host;
  device_id ← pooled_device_id draw token;
  Some (set_async_job_nogotiation
    (MkSetupConnection JobDeclarationProtocol 2 2 0 endpoint_host port [] [] [] device_id)).

Record SetupConnectionHandler := MkSetupConnectionHandler { sh_setup_succeeded : bool }.
Definition handle_setup_connection_success (h : SetupConnectionHandler) : SetupConnectionHandler :=
  MkSetupConnectionHandler true.
Definition handle_setup_connection_error (h : SetupConnectionHandler) : SetupConnectionHandler := h.
Definition handle_channel_endpoint_changed (h : SetupConnectionHandler) : SetupConnectionHandler := h.

(** [SetupConnectionHandler::setup] of the declarator, once the message is framed. *)
Definition jd_setup (sent : bool) (reply : SetupReply) : bool :=
  let handler := MkSetupConnectionHandler false in
  if negb sent then false
  else match reply with
  | ReplyClosed | ReplyNoFrame | ReplyNoHeader | ReplyRefused => false
  | ReplySuccess => sh_setup_succeeded (handle_setup_connection_success handler)
  | ReplyError => sh_setup_succeeded (handle_setup_connection_error handler)
  | ReplyEndpointChanged => sh_setup_succeeded (handle_channel_endpoint_changed handler)
  end.

(** The template provider.  Two of its handlers are [todo!]. *)
Definition tp_setup_connection_message (host : str) (port : N) : option SetupConnection :=
  endpoint_host ← str0255 host;
  Some (MkSetupConnection TemplateDistributionProtocol 2 2 0 endpoint_host port [] [] [] []).
Definition tp_setup (sent : bool) (reply : SetupReply) : Outcome unit unit :=
  if negb sent then Failed tt
  else match reply with
  | ReplyClosed | ReplyNoFrame | ReplyNoHeader | ReplyRefused => Failed tt
  | ReplySuccess => Done tt
  | ReplyError | ReplyEndpointChanged => Panicked
  end.
End setup.

(** [TemplateRx::connect]: what the outside answers, with the task that takes solutions and the
    one [start_templates] gives. *)
Record TemplateConnect := MkTemplateConnect {
  tc_stream : bool;
  tc_initiator : bool;
  tc_handshake : bool;
  tc_sent : bool;
  tc_reply : SetupReply;
  tc_on_new_solution : N;
  tc_main_task : option N
}.
Definition template_connect (i : TemplateConnect)
    : Outcome unit unit * TaskList (Task := TemplateTask) :=
  if negb (tc_stream i) then (Failed tt, initialize_list)
  else if negb (tc_initiator i) then (Failed tt, initialize_list)
  else if negb (tc_handshake i) then (Failed tt, initialize_list)
  else match tp_setup (tc_sent i) (tc_reply i) with
  | Failed e => (Failed e, initialize_list)
  | Panicked => (Panicked, initialize_list)
  | Done _ =>
      let '(abortable, t) := list_get_aborter initialize_list in
      if negb abortable then (Failed tt, t)
      else match list_add template_handle (OnNewSolution (tc_on_new_solution i)) t with
      | (false, t) => (Failed tt, list_drop template_handle t)
      | (true, t) =>
          match tc_main_task i with
          | None => (Failed tt, list_drop template_handle t)
          | Some main_task =>
              match list_add template_handle (TemplateMainTask main_task) t with
              | (false, t) => (Failed tt, list_drop template_handle t)
              | (true, t) => (Done tt, t)
              end
          end
      end
  end.

(** ** The theorems *)
Section setup_props.
Context `{BL : !BinaryLib}.


(** The token of the user bounds the identifier of the device: with sixteen characters of
    ASCII in front, both messages to the pool can be built exactly when the token has at most
    229 bytes, and then they carry the token; a longer token panics, although the client
    expects that this cannot happen. *)
Theorem device_id_bound work_selection set_async host port draw token :
  length draw = 16%nat → Forall (λ c, (c < 128)%N) draw → (str_len host <= 255)%nat →
  ((str_len token <= 229)%nat ↔
     is_Some (get_mining_setup_connection_msg work_selection draw token)) ∧
  ((str_len token <= 229)%nat ↔
     is_Some (jd_setup_connection_message set_async host port draw token)) ∧
  ∀ m, get_mining_setup_connection_msg work_selection draw token = Some m →
    sc_device_id m = draw ++ POOLED ++ token ∧
    N.testbit (sc_flags m) 1 = work_selection ∧ N.testbit (sc_flags m) 2 = true ∧
    N.testbit (sc_flags m) 0 = false.
Proof.
  intros Hl Ha Hhost.
  assert (Hfits : ∀ s, str0255 s = Some s ∧ (str_len s <= 255)%nat ∨
    str0255 s = None ∧ (255 < str_len s)%nat).
  { intros s. unfold str0255. pose proof (fits_0255_spec (str_len s)) as H.
    destruct (fits_0255 (str_len s)); [left|right]; (split; [done|]).
    - by apply H.
    - destruct (decide (str_len s <= 255)%nat); [|lia]. apply H in l. done. }
  assert (Hlen : str_len (draw ++ POOLED ++ token) = (26 + str_len token)%nat).
  { rewrite !str_len_app, (ascii_len draw Ha), Hl. done. }
  unfold get_mining_setup_connection_msg, jd_setup_connection_message, pooled_device_id.
  destruct (Hfits (lit "0.0.0.0")) as [[-> _]|[_ H]]; [|vm_compute in H; lia].
  destruct (Hfits host) as [[-> _]|[_ H]]; [|lia].
  destruct (Hfits (draw ++ POOLED ++ token)) as [[-> H]|[-> H]]; rewrite Hlen in H; cbn.
  - assert (str_len token <= 229)%nat by lia.
    split; [split; [by eexists|done]|]. split; [split; [by eexists|done]|].
    intros m [= <-]. by destruct work_selection.
  - split; [split; [lia|intros [? [=]]]|]. split; [split; [lia|intros [? [=]]]|]. done.
Qed.
End setup_props.

(** A connection counts as set up only after the other side said so: the declaration
    server's answer has to be a success; the template provider's too, but any other of its
    setup answers panics instead of failing. *)
Theorem setup_needs_success sent reply :
  (jd_setup sent reply = true ↔ sent = true ∧ reply = ReplySuccess) ∧
  (tp_setup sent reply = Done tt ↔ sent = true ∧ reply = ReplySuccess) ∧
  (tp_setup sent reply = Panicked ↔
     sent = true ∧ (reply = ReplyError ∨ reply = ReplyEndpointChanged)).
Proof. destruct sent, reply; cbn; intuition done. Qed.

(** The template receiver connects completely or not at all. *)
Theorem template_connect_all_or_nothing i :
  let '(r, t) := template_connect i in
  match r with
  | Done _ => ∃ main_task, tc_main_task i = Some main_task ∧ tc_reply i = ReplySuccess ∧
      tl_running t = true ∧ tl_aborted t = [] ∧
      (template_handle <$> tl_receiver t) = [tc_on_new_solution i; main_task]
  | _ => tl_receiver t = [] ∧ tl_tasks t = [] ∧
      tl_aborted t = (if tc_stream i && tc_initiator i && tc_handshake i && tc_sent i
                         && match tc_reply i with ReplySuccess => true | _ => false end
                      then [tc_on_new_solution i] else [])
  end.
Proof.
  destruct i as [stream initiator handshake sent reply solution main]. cbn.
  destruct stream, initiator, handshake, sent, reply, main as [m|]; cbn; try done; by exists m.
Qed.

(** ** Witness *)
Lemma device_id_bound_witness :
  get_mining_setup_connection_msg true (replicate 16 97%N) (replicate 230 97%N) = None ∧
  is_Some (get_mining_setup_connection_msg true (replicate 16 97%N) (replicate 229 97%N)).
Proof.
  split.
  - destruct (get_mining_setup_connection_msg true (replicate 16 97%N) (replicate 230 97%N))
      eqn:E; [|reflexivity].
    destruct (device_id_bound true id [] 0 (replicate 16 97%N) (replicate 230 97%N)
      eq_refl ltac:(repeat constructor) ltac:(cbn; lia)) as [H _].
    rewrite E in H. apply proj2 in H. specialize (H ltac:(eexists; reflexivity)).
    vm_compute in H. exfalso. lia.
  - apply (device_id_bound true id [] 0 (replicate 16 97%N) (replicate 229 97%N)
      eq_refl ltac:(repeat constructor) ltac:(cbn; lia)). vm_compute. lia.
Defined.
