(* ===== verification/Net.v ===== *)
(** * Network addresses

    The addresses of [std::net] and their parser, as far as the client uses them:
    [IpAddr::from_str] reads an IPv4 address or else an IPv6 address, and must consume
    the whole text. *)

From S2P Require Import Prelude Str F32 Sv1.

(** ** Data: the octets of an address *)
Inductive IpAddr := V4 (octets : bytes) | V6 (octets : bytes).
Record SocketAddr := MkSocketAddr { sa_ip : IpAddr; sa_port : N }.

Definition ip_wf (ip : IpAddr) : Prop :=
  match ip with V4 o => length o = 4 | V6 o => length o = 16 end.

(** ** The parser of [std::net]

    A reader returns what it read and the rest, or nothing, leaving the input as it was
    ([read_atomically]). *)
Fixpoint read_digits (digit : char → option N) (s : str) : list N * str :=
  match s with
  | [] => ([], [])
  | c :: s' =>
      match digit c with
      | Some d => let '(ds, rest) := read_digits digit s' in (d :: ds, rest)
      | None => ([], s)
      end
  end.

(** [read_number]; the digits of a number are at most [max_digits]. *)
Definition decimal_digit (c : char) : option N := if is_digit c then Some (c - 48)%N else None.
Definition read_number (radix : N) (digit : char → option N) (max_digits : nat)
    (allow_zero_prefix : bool) (limit : N) (s : str) : option (N * str) :=
  let '(ds, rest) := read_digits digit s in
  if (length ds =? 0) || (max_digits <? length ds) then None
  else if negb allow_zero_prefix && bool_decide (head s = Some 48%N) && (1 <? length ds)
  then None
  else match try_from limit (fold_left (λ acc d, acc * radix + d)%N ds 0%N) with
  | Some n => Some (n, rest)
  | None => None
  end.

Definition read_given_char (c : char) (s : str) : option str :=
  match s with c' :: s => if (c =? c')%N then Some s else None | [] => None end.

(** [read_separator] *)
Definition read_separator {A} (sep : char) (index : nat) (inner : str → option (A * str))
    (s : str) : option (A * str) :=
  if 0 <? index then s ← read_given_char sep s; inner s else inner s.

(** [read_ipv4_addr] *)
Definition read_octet (index : nat) (s : str) : option (N * str) :=
  read_separator 46%N index (read_number 10 decimal_digit 3 false 255) s.
Definition read_ipv4_addr (s : str) : option (bytes * str) :=
  '(a, s) ← read_octet 0 s;
  '(b, s) ← read_octet 1 s;
  '(c, s) ← read_octet 2 s;
  '(d, s) ← read_octet 3 s;
  Some ([byte_of_N a; byte_of_N b; byte_of_N c; byte_of_N d], s).

(** [read_groups] of [read_ipv6_addr]: the octets of the groups, whether they end with an
    embedded IPv4 address, and the rest.  [remaining] groups are left from [index] on. *)
Fixpoint read_groups (remaining index : nat) (s : str) : bytes * bool * str :=
  match remaining with
  | 0 => ([], false, s)
  | S remaining =>
      match (if 0 <? remaining then read_separator 58%N index read_ipv4_addr s else None) with
      | Some (octets, s) => (octets, true, s)
      | None =>
          match read_separator 58%N index (read_number 16 hex_digit_value 4 true u16_max) s with
          | Some (group, s) =>
              let '(octets, ipv4, s) := read_groups remaining (S index) s in
              (be_bytes 2 group ++ octets, ipv4, s)
          | None => ([], false, s)
          end
      end
  end.

(** [read_ipv6_addr] *)
Definition read_ipv6_addr (s : str) : option (bytes * str) :=
  let '(head, head_ipv4, s) := read_groups 8 0 s in
  if length head =? 16 then Some (head, s)
  else if head_ipv4 : bool then None
  else
    s ← read_given_char 58%N s;
    s ← read_given_char 58%N s;
    let limit := 8 - (length head / 2 + 1) in
    let '(tail, _, s) := read_groups limit 0 s in
    Some (head ++ replicate (16 - length head - length tail) Byte.x00 ++ tail, s).

(** [IpAddr::from_str] *)
Definition parse_ip (s : str) : option IpAddr :=
  let r := match read_ipv4_addr s with
           | Some (octets, s) => Some (V4 octets, s)
           | None =>
               match read_ipv6_addr s with
               | Some (octets, s) => Some (V6 octets, s)
               | None => None
               end
           end in
  match r with Some (ip, []) => Some ip | _ => None end.

(** [Display] of an IPv4 address. *)
Definition dot : str := [46%N].
Definition display_ipv4 (a b c d : N) : str :=
  display_N a ++ dot ++ display_N b ++ dot ++ display_N c ++ dot ++ display_N d.

Example parse_ipv4_example :
  parse_ip (lit "203.0.113.10") = Some (V4 [Byte.xcb; Byte.x00; Byte.x71; Byte.x0a]).
Proof. vm_compute. reflexivity. Qed.
Example parse_ipv4_leading_zero : parse_ip (lit "203.0.113.010") = None.
Proof. vm_compute. reflexivity. Qed.
Example parse_ipv6_example :
  parse_ip (lit "2001:db8::1:1.2.3.4") = Some (V6
    [Byte.x20; Byte.x01; Byte.x0d; Byte.xb8; Byte.x00; Byte.x00; Byte.x00; Byte.x00;
     Byte.x00; Byte.x00; Byte.x00; Byte.x01; Byte.x01; Byte.x02; Byte.x03; Byte.x04]).
Proof. vm_compute. reflexivity. Qed.

(** ** Reading back *)
Lemma read_digits_app digit ds s :
  (∀ c, c ∈ ds → is_Some (digit c)) → (∀ c, head s = Some c → digit c = None) →
  read_digits digit (ds ++ s) = (omap digit ds, s).
Proof.
  intros Hds Hs. induction ds as [|c ds IH]; cbn.
  - destruct s as [|c s]; [done|]. cbn. by rewrite (Hs c eq_refl).
  - destruct (Hds c) as [d Hd]; [left|]. rewrite Hd, IH; [done|].
    intros x Hx. apply Hds. by right.
Qed.

(** What the parser needs of the decimal text of an octet, checked for all of them. *)
Definition octet_text_ok (n : N) : bool :=
  let ds := display_N n in
  forallb is_digit ds && negb (length ds =? 0) && (length ds <=? 3)
  && (negb (bool_decide (head ds = Some 48%N)) || (length ds =? 1))
  && (fold_left (λ acc d, acc * 10 + d)%N (omap decimal_digit ds) 0%N =? n)%N
  && (length (omap decimal_digit ds) =? length ds).
Lemma octet_text n : (n <= 255)%N → octet_text_ok n = true.
Proof.
  intros Hn. assert (forallb octet_text_ok (N.of_nat <$> seq 0 256) = true) as H
    by (vm_compute; reflexivity).
  rewrite forallb_forall in H. apply H. rewrite <- list_elem_of_In, list_elem_of_fmap.
  exists (N.to_nat n). rewrite N2Nat.id, elem_of_seq. split; [done|lia].
Qed.

Lemma read_octet_number n s :
  (n <= 255)%N → (∀ c, head s = Some c → is_digit c = false) →
  read_number 10 decimal_digit 3 false 255 (display_N n ++ s) = Some (n, s).
Proof.
  intros Hn Hs. pose proof (octet_text n Hn) as H. unfold octet_text_ok in H.
  set (ds := display_N n) in *. clearbody ds. bool_to_prop.
  unfold read_number. rewrite read_digits_app.
  - replace (length (omap decimal_digit ds)) with (length ds) by done.
    destruct (Nat.eqb_spec (length ds) 0); [done|].
    destruct (Nat.ltb_spec 3 (length ds)); [lia|]. cbn [orb negb andb].
    replace (head (ds ++ s)) with (head ds) by (by destruct ds).
    match goal with H : _ || _ = true |- _ => apply orb_true_iff in H as [Hz|Hz] end.
    + bool_to_prop. rewrite bool_decide_false by done. cbn [andb].
      by match goal with H : _ = n |- _ => rewrite H end; unfold try_from;
        rewrite (proj2 (N.leb_le n 255) Hn).
    + bool_to_prop. rewrite Hz. cbn [Nat.ltb Nat.leb]. rewrite andb_false_r.
      by match goal with H : _ = n |- _ => rewrite H end; unfold try_from;
        rewrite (proj2 (N.leb_le n 255) Hn).
  - intros c Hc. unfold decimal_digit.
    match goal with H : forallb is_digit ds = true |- _ =>
      rewrite forallb_forall in H; rewrite (H c) by by apply list_elem_of_In end. eauto.
  - intros c Hc. unfold decimal_digit. by rewrite Hs.
Qed.

Lemma parse_display_ipv4 a b c d :
  (a <= 255)%N → (b <= 255)%N → (c <= 255)%N → (d <= 255)%N →
  parse_ip (display_ipv4 a b c d) =
    Some (V4 [byte_of_N a; byte_of_N b; byte_of_N c; byte_of_N d]).
Proof.
  intros Ha Hb Hc Hd. unfold parse_ip, display_ipv4.
  assert (∀ s x, head (dot ++ s) = Some x → is_digit x = false) as Hdot
    by (intros s x [= <-]; reflexivity).
  assert (read_ipv4_addr (display_N a ++ dot ++ display_N b ++ dot ++ display_N c ++ dot
    ++ display_N d) = Some ([byte_of_N a; byte_of_N b; byte_of_N c; byte_of_N d], [])) as ->;
    [|done].
  assert (∀ i n s, (n <= 255)%N → (∀ x, head s = Some x → is_digit x = false) →
    read_octet (S i) (dot ++ display_N n ++ s) = Some (n, s)) as Hsep.
  { intros i n s Hn Hs. by apply read_octet_number. }
  unfold read_ipv4_addr.
  assert (read_octet 0 (display_N a ++ dot ++ display_N b ++ dot ++ display_N c ++ dot
    ++ display_N d) = Some (a, dot ++ display_N b ++ dot ++ display_N c ++ dot ++ display_N d))
    as -> by (apply read_octet_number; [done|apply Hdot]).
  cbn [mbind option_bind].
  rewrite Hsep by (done || apply Hdot). cbn [mbind option_bind].
  rewrite Hsep by (done || apply Hdot). cbn [mbind option_bind].
  rewrite <- (app_nil_r (display_N d)), Hsep by done. done.
Qed.
