(* ===== verification/JdData.v ===== *)
(** * Data of the job declaration client

    The messages of the template distribution, job declaration and mining protocols the
    client of [src/src/jd_client] exchanges, its flags ([jd_client/mod.rs]) and its errors
    ([jd_client/error.rs]). *)

From S2P Require Import Prelude Str Bitcoin F32 Sv1 Sv2.

(** ** Flags

    [IS_NEW_TEMPLATE_HANDLED], [IS_CUSTOM_JOB_SET] and [IS_NEW_PHASH_ARRIVED], and their
    values when the client starts. *)
Record JdFlags := MkJdFlags {
  is_new_template_handled : bool;
  is_custom_job_set : bool;
  is_new_phash_arrived : bool
}.
Definition jd_flags_start : JdFlags := MkJdFlags true true false.
Definition set_new_template_handled v f :=
  MkJdFlags v (is_custom_job_set f) (is_new_phash_arrived f).
Definition set_custom_job_set v f :=
  MkJdFlags (is_new_template_handled f) v (is_new_phash_arrived f).
Definition set_new_phash_arrived v f :=
  MkJdFlags (is_new_template_handled f) (is_custom_job_set f) v.

(** ** Errors: those the client's own code tells apart. *)
Inductive JdError :=
| Unrecoverable
| RolesSv2Logic (e : Sv2Error)
| UnsupportedCoinbaseOutputCount (count max : N)
| JobDeclaratorMutexCorrupted
| JdClientDownstreamMutexCorrupted
| JdClientUpstreamMutexCorrupted
| TemplateRxMutexCorrupted.

(** ** Template distribution *)

(** [template_distribution_sv2::SetNewPrevHash] *)
Record TpSetNewPrevHash := MkTpSetNewPrevHash {
  tp_template_id : N;
  tp_prev_hash : bytes;
  tp_header_timestamp : N;
  tp_n_bits : N;
  tp_target : bytes
}.
#[export] Instance tp_set_new_prev_hash_eq_dec : EqDecision TpSetNewPrevHash.
Proof. solve_decision. Defined.

Record SubmitSolution := MkSubmitSolution {
  ss_template_id : N;
  ss_version : N;
  ss_header_timestamp : N;
  ss_header_nonce : N;
  ss_coinbase_tx : bytes
}.

(** What the template provider sends, and what it is sent. *)
Inductive FromTp :=
| TpNewTemplate (m : NewTemplate)
| TpNewPrevHash (m : TpSetNewPrevHash)
| TpTransactionData (template_id : N) (excess_data : bytes) (transaction_list : list bytes)
| TpTransactionDataError (template_id : N) (error_code : str).
Inductive ToTp :=
| CoinbaseOutputDataSize (coinbase_output_max_additional_size : N)
| RequestTransactionData (template_id : N)
| TpSubmitSolution (solution : SubmitSolution).

(** ** Job declaration *)

(** [mining_downstream::DownstreamJob]: the job as the miner works on it. *)
Record DownstreamJob := MkDownstreamJob {
  dj_local_job_id : N;
  dj_coinbase_tx_prefix : bytes;
  dj_coinbase_tx_suffix : bytes
}.

Record AllocateMiningJobTokenSuccess := MkToken {
  tk_request_id : N;
  tk_mining_job_token : bytes;
  tk_coinbase_output_max_additional_size : N;
  tk_coinbase_output : bytes;
  tk_async_mining_allowed : bool
}.

Record DeclareMiningJob := MkDeclareMiningJob {
  dm_request_id : N;
  dm_mining_job_token : bytes;
  dm_version : N;
  dm_coinbase_prefix : bytes;
  dm_coinbase_suffix : bytes;
  dm_tx_list : list bytes;
  dm_excess_data : bytes
}.
Definition with_token (token : bytes) (m : DeclareMiningJob) : DeclareMiningJob :=
  MkDeclareMiningJob (dm_request_id m) token (dm_version m) (dm_coinbase_prefix m)
    (dm_coinbase_suffix m) (dm_tx_list m) (dm_excess_data m).

Record SubmitSolutionJd := MkSubmitSolutionJd {
  sj_extranonce : bytes;
  sj_prev_hash : bytes;
  sj_ntime : N;
  sj_nonce : N;
  sj_nbits : N;
  sj_version : N
}.

(** What the job declaration server sends, and what it is sent. *)
Inductive FromJds :=
| JdsTokenSuccess (m : AllocateMiningJobTokenSuccess)
| JdsDeclareSuccess (request_id : N) (new_mining_job_token : bytes)
| JdsDeclareError (request_id : N)
| JdsProvideMissing (request_id : N) (unknown_tx_position_list : list N).
Inductive ToJds :=
| AllocateMiningJobToken (request_id : N)
| DeclareJob (m : DeclareMiningJob)
| ProvideMissingSuccess (request_id : N) (transaction_list : list bytes)
| JdsSubmitSolution (m : SubmitSolutionJd).

(** ** Mining *)
Record SetCustomMiningJob := MkSetCustomMiningJob {
  cm_channel_id : N;
  cm_request_id : N;
  cm_token : bytes;
  cm_version : N;
  cm_prev_hash : bytes;
  cm_min_ntime : N;
  cm_nbits : N;
  cm_coinbase_tx_version : N;
  cm_coinbase_prefix : bytes;
  cm_coinbase_tx_input_n_sequence : N;
  cm_coinbase_tx_value_remaining : N;
  cm_coinbase_tx_outputs : bytes;
  cm_coinbase_tx_locktime : N;
  cm_merkle_path : list bytes
}.

Record OpenExtendedMiningChannel := MkOpenExtendedMiningChannel {
  oe_request_id : N;
  oe_nominal_hash_rate : f32;
  oe_min_extranonce_size : N
}.
Record OpenExtendedSuccess := MkOpenExtendedSuccess {
  oes_channel_id : N;
  oes_target : bytes;
  oes_extranonce_prefix : bytes;
  oes_extranonce_size : N
}.

(** [parsers::Mining]: the messages the client treats by their contents, and the others by
    their kind. *)
Inductive MiningKind :=
| OpenStandardMiningChannel | OpenStandardMiningChannelSuccess | OpenMiningChannelError
| UpdateChannel | UpdateChannelError | CloseChannel | SetExtranoncePrefix
| SubmitSharesStandard | SubmitSharesSuccess | NewMiningJob | Reconnect | OtherKind.
Inductive Mining :=
| MOpenExtended (m : OpenExtendedMiningChannel)
| MOpenExtendedSuccess (m : OpenExtendedSuccess)
| MSubmitSharesExtended (m : SubmitSharesExtended)
| MSubmitSharesError (error_code : bytes)
| MNewExtendedMiningJob (m : NewExtendedMiningJob)
| MSetNewPrevHash (m : SetNewPrevHash)
| MSetTarget (channel_id : N) (maximum_target : bytes)
| MSetCustomMiningJob (m : SetCustomMiningJob)
| MSetCustomMiningJobSuccess (request_id job_id : N)
| MSetCustomMiningJobError (request_id : N)
| MKind (kind : MiningKind).

(** [handlers::mining::SendTo], with the remote a marker: each side has one. *)
Inductive SendTo :=
| RelaySameMessageToRemote
| RelayNewMessage (m : Mining)
| Respond (m : Mining)
| Multiple (ms : list SendTo)
| SendNone.

(** The tasks the miners' side spawns: a solution for the template provider, one for the job
    declarator, a share that waits for its job's identifier. *)
Inductive MinerTask :=
| SendSolution (solution : SubmitSolution)
| DeclareSolution (share : SubmitSharesExtended)
| RelayShare (share : SubmitSharesExtended).

(** ** The pool-side channel factory

    [PoolChannelFactory], its share verdicts and [JobsCreators] belong to
    [roles_logic_sv2]; so do the identifiers [Id] draws. *)
Inductive PoolShare := PoolExtended (share : SubmitSharesExtended) | PoolStandard.
Inductive PoolOnNewShare :=
| PoolSendErrorDownstream (error_code : bytes)
| PoolSendSubmitShareUpstream (share : PoolShare) (template_id : option N)
| PoolRelaySubmitShareUpstream
| PoolShareMeetBitcoinTarget (share : PoolShare) (template_id : option N)
    (coinbase extranonce : bytes)
| PoolShareMeetDownstreamTarget.

Inductive ExtendedChannelKind := ProxyJd (upstream_target : bytes) | PoolKind.

Class PoolLib `{B : !BitcoinLib} := {
  PoolFactory : Type;
  (** ranges of the extranonce, length for the creator, tag *)
  pool_factory_new : (N * N) * (N * N) * (N * N) → N → f32 → ExtendedChannelKind →
    list TxOut → bytes → result PoolFactory Sv2Error;
  (** [None]: the call fails, and the client panics *)
  replicate_upstream_extended_channel_only_jd :
    bytes → bytes → N → N → PoolFactory → option PoolFactory;
  pool_update_target_for_channel : N → bytes → PoolFactory → PoolFactory;
  (** the target, which is passed by mutable reference, as the call leaves it *)
  pool_set_target : bytes → PoolFactory → bytes * PoolFactory;
  pool_get_extranonce_len : PoolFactory → N;
  update_pool_outputs : list TxOut → PoolFactory → PoolFactory;
  pool_on_new_template : NewTemplate → PoolFactory → result (list Mining) Sv2Error * PoolFactory;
  on_new_prev_hash_from_tp :
    TpSetNewPrevHash → PoolFactory → result N Sv2Error * PoolFactory;
  get_extended_channels_ids : PoolFactory → list N;
  pool_new_extended_channel :
    N → f32 → N → PoolFactory → result (list Mining) Sv2Error * PoolFactory;
  pool_on_submit_shares_extended :
    SubmitSharesExtended → PoolFactory → result PoolOnNewShare Sv2Error * PoolFactory;
  (** a fresh [JobsCreators]'s [on_new_template]: prefix and suffix of the coinbase *)
  creator_on_new_template : N → NewTemplate → list TxOut → result (bytes * bytes) Sv2Error;
  (** [compute_wtxid] of a transaction *)
  compute_wtxid : Transaction → bytes;
  (** [tx_outputs_to_costum_scripts], as the number of outputs it reads *)
  tx_outputs_to_costum_scripts : bytes → N;
  (** [utils::Id] *)
  Id : Type;
  id_new : Id;
  id_next : Id → N * Id
}.
