(* ===== verification/JdClient.v ===== *)
(** * The start of the job declaration client

    [jd_client/mod.rs]: [start] and [initialize_jd], which connect to the pool's declaration
    server and to the template provider and keep the tasks of the four parts, and
    [retry_connection], which brings the template provider back.  What the connections answer
    is an input; the tasks are the handles of [TaskList]. *)

From S2P Require Import Prelude Str Net ProxyState Effects TaskManager TaskList JdData.
From Stdlib Require Import Permutation.

(** ** Definitions *)

(** The global address of the template provider, the retrying tasks with the address each of
    them tries, the flags, what was reported, and whether the process was ended. *)
Record TpWorld := MkTpWorld {
  tw_tp_address : Mutex (option str);
  tw_retries : list str;
  tw_flags : JdFlags;
  tw_reports : list ProxyUpdate;
  tw_exited : bool
}.
Definition set_tw_flags v w := MkTpWorld (tw_tp_address w) (tw_retries w) v (tw_reports w)
  (tw_exited w).
Definition tw_report u w := MkTpWorld (tw_tp_address w) (tw_retries w) (tw_flags w)
  (tw_reports w ++ [u]) (tw_exited w).

(** What the client meets while it starts: the address of the pool, what the declarator, the
    miners' side, the pool's side with the lock on it, and the template receiver answer to their
    start.  [JdParts] computes the answers. *)
Record JdStartUp := MkJdStartUp {
  jb_pool_address : Mutex (option SocketAddr);
  jb_declarator : Outcome unit N;
  jb_downstream : option N;
  jb_upstream_lock : bool;
  jb_upstream : option N;
  jb_template_receiver : Outcome unit N
}.

Inductive JdStart := JdStarts | JdFails | JdPanics.

(** The two pieces of the address that are read before anything is started: the text of the IP
    address, and the port; [None] is a panic. *)
Definition split_tp_address (tp_address : str) : option (str * N) :=
  match split_on 58 tp_address with
  | ip_tp :: port :: _ => port_tp ← parse_uint u16_max port; Some (ip_tp, port_tp)
  | _ => None
  end.

(** A task is added, or everything added so far is dropped. *)
Definition add_or_drop (task : JdTask) (t : TaskList (Task := JdTask))
    : bool * TaskList (Task := JdTask) :=
  match list_add jd_handle task t with
  | (true, t) => (true, t)
  | (false, t) => (false, list_drop jd_handle t)
  end.

(** The connection to the template provider fails: mining goes on without it, and a task tries
    to bring it back. *)
Definition template_provider_lost (tp_address : str) (w : TpWorld) : TpWorld :=
  if poisoned (tw_tp_address w) then w
  else MkTpWorld (store (tw_tp_address w) None) (tw_retries w ++ [tp_address]) (tw_flags w)
         (tw_reports w) (tw_exited w).

(** [initialize_jd], from its last connection on, before it and from the beginning. *)
Definition connect_template_receiver (i : JdStartUp) (tp_address ip_tp : str) (w : TpWorld)
    (t : TaskList (Task := JdTask)) : JdStart * TpWorld * TaskList (Task := JdTask) :=
  match parse_ip ip_tp with
  | None => (JdPanics, w, list_drop jd_handle t)
  | Some _ =>
      match jb_template_receiver i with
      | Panicked => (JdPanics, w, list_drop jd_handle t)
      | Failed _ => (JdFails, template_provider_lost tp_address w, list_drop jd_handle t)
      | Done tp_abortable =>
          match add_or_drop (TemplateReceiverTask tp_abortable) t with
          | (true, t) => (JdStarts, w, t)
          | (false, t) => (JdFails, w, t)
          end
      end
  end.
Definition start_parts_of_jd (i : JdStartUp) (tp_address ip_tp : str) (w : TpWorld)
    (t : TaskList (Task := JdTask)) : JdStart * TpWorld * TaskList (Task := JdTask) :=
  match jb_declarator i with
  | Panicked => (JdPanics, w, list_drop jd_handle t)
  | Failed _ => (JdFails, w, list_drop jd_handle t)
  | Done jd_abortable =>
      match add_or_drop (JobDeclaratorTask jd_abortable) t with
      | (false, t) => (JdFails, w, t)
      | (true, t) =>
          match jb_downstream i with
          | None => (JdFails, tw_report (UpdateDownstream JdClientMiningDownstream) w,
                     list_drop jd_handle t)
          | Some downstream_abortable =>
              match add_or_drop (MiningDowntreamTask downstream_abortable) t with
              | (false, t) => (JdFails, w, t)
              | (true, t) =>
                  if negb (jb_upstream_lock i) then (JdFails, w, list_drop jd_handle t)
                  else match jb_upstream i with
                  | None => (JdFails, w, list_drop jd_handle t)
                  | Some upstream_abortable =>
                      match add_or_drop (MiningUpstreamTask upstream_abortable) t with
                      | (false, t) => (JdFails, w, t)
                      | (true, t) => connect_template_receiver i tp_address ip_tp w t
                      end
                  end
              end
          end
      end
  end.
Definition initialize_jd (i : JdStartUp) (w : TpWorld)
    : JdStart * TpWorld * TaskList (Task := JdTask) :=
  let '(abortable, t) := list_get_aborter initialize_list in
  if negb abortable then (JdFails, w, t)
  else match lock (tw_tp_address w) with
  | None => (JdFails, w, list_drop jd_handle t)
  | Some None => (JdPanics, w, list_drop jd_handle t)
  | Some (Some tp_address) =>
      match split_tp_address tp_address with
      | None => (JdPanics, w, list_drop jd_handle t)
      | Some (ip_tp, _) =>
          match lock (jb_pool_address i) with
          | Some (Some _) => start_parts_of_jd i tp_address ip_tp w t
          | _ => (JdFails, tw_report (UpdateInconsistency (Some 1%N)) w, list_drop jd_handle t)
          end
      end
  end.

(** [start]: the flags are reset first. *)
Definition jd_client_start (i : JdStartUp) (w : TpWorld)
    : JdStart * TpWorld * TaskList (Task := JdTask) :=
  initialize_jd i (set_tw_flags jd_flags_start w).

(** One tick of a [retry_connection]: whether it was the last one. *)
Definition retry_connection (address : str) (connected : bool) (w : TpWorld) : bool * TpWorld :=
  if negb connected then (false, w)
  else if poisoned (tw_tp_address w)
  then (true, MkTpWorld (tw_tp_address w) (tw_retries w) (tw_flags w) (tw_reports w) true)
  else (true, tw_report (UpdateTp TpDown)
         (MkTpWorld (store (tw_tp_address w) (Some address)) (tw_retries w) (tw_flags w)
            (tw_reports w) (tw_exited w))).

(** *** The address over the life of the process *)

(** The supervisor starts the client when there is an address ([initialize_proxy]); the tasks
    that retry take their ticks whenever they do. *)
Inductive TpEvent := TpStart (i : JdStartUp) | TpTick (k : nat) (connected : bool).
Definition tp_event (e : TpEvent) (w : TpWorld) : TpWorld :=
  match e with
  | TpStart i =>
      match lock (tw_tp_address w) with
      | Some (Some _) => (jd_client_start i w).1.2
      | _ => w
      end
  | TpTick k connected =>
      match tw_retries w !! k with
      | None => w
      | Some address =>
          let '(ends, w) := retry_connection address connected w in
          if ends : bool
          then MkTpWorld (tw_tp_address w) (take k (tw_retries w) ++ drop (S k) (tw_retries w))
                 (tw_flags w) (tw_reports w) (tw_exited w)
          else w
      end
  end.
Definition tp_new (tp_address : option str) : TpWorld :=
  MkTpWorld (new_mutex tp_address) [] jd_flags_start [] false.
Definition tp_run (events : list TpEvent) (w : TpWorld) : TpWorld :=
  fold_left (λ w e, tp_event e w) events w.

(** ** All or nothing *)

(** The tasks the outside starts before the template receiver, up to the first failure; none
    when one of the two addresses is missing or cannot be read. *)
Definition addresses_known (i : JdStartUp) (w : TpWorld) : bool :=
  match lock (tw_tp_address w), lock (jb_pool_address i) with
  | Some (Some tp_address), Some (Some _) =>
      match split_tp_address tp_address with Some _ => true | None => false end
  | _, _ => false
  end.
Definition started_handles (i : JdStartUp) (w : TpWorld) : list N :=
  if addresses_known i w then
    match jb_declarator i with
    | Failed _ | Panicked => []
    | Done a => a ::
        match jb_downstream i with
        | None => []
        | Some b => b :: if jb_upstream_lock i then option_list (jb_upstream i) else []
        end
    end
  else [].

Lemma initialize_jd_tp_address i w :
  tw_tp_address (initialize_jd i w).1.2 = tw_tp_address w ∧
    tw_retries (initialize_jd i w).1.2 = tw_retries w ∨
  poisoned (tw_tp_address w) = false ∧
  ∃ a, guarded (tw_tp_address w) = Some a ∧
    (initialize_jd i w).1.2 = template_provider_lost a w.
Proof.
  unfold initialize_jd. cbn. unfold lock. destruct (poisoned (tw_tp_address w)) eqn:Hp; [by left|].
  destruct (guarded (tw_tp_address w)) as [a|] eqn:Ha; [|by left].
  destruct (split_tp_address a) as [[ip port]|]; [|by left].
  destruct (if poisoned _ then _ else _) as [[?|]|]; [|by left..].
  unfold start_parts_of_jd. destruct (jb_declarator i); [|by left..]. cbn.
  destruct (jb_downstream i); [|by left]. cbn.
  destruct (jb_upstream_lock i); [|by left]. destruct (jb_upstream i); [|by left]. cbn.
  unfold connect_template_receiver. destruct (parse_ip ip); [|by left].
  destruct (jb_template_receiver i); [by left| |by left]. right. split; [done|]. by exists a.
Qed.

(** The client starts completely or not at all: when it starts, the tasks of all four parts
    are with its manager and none was aborted; when it does not, every task that was started
    before the failure is aborted, once, and nothing is left running. *)
Theorem jd_start_all_or_nothing i w :
  let '(r, _, t) := jd_client_start i w in
  match r with
  | JdStarts => ∃ a b c d, started_handles i w = [a; b; c] ∧ jb_template_receiver i = Done d ∧
      tl_running t = true ∧ tl_aborted t = [] ∧
      (jd_handle <$> tl_receiver t) ++ (jd_handle <$> tl_tasks t) = [a; b; c; d]
  | _ => tl_running t = false ∧ tl_receiver t = [] ∧ tl_tasks t = [] ∧
      tl_aborted t = started_handles i w
  end.
Proof.
  unfold jd_client_start, initialize_jd, started_handles, addresses_known. cbn.
  destruct (lock (tw_tp_address w)) as [[a|]|]; cbn; [|done..].
  destruct (split_tp_address a) as [[ip port]|];
    destruct (lock (jb_pool_address i)) as [[p|]|]; cbn; try done.
  unfold start_parts_of_jd.
  destruct (jb_declarator i) as [h1| |]; cbn; [|done..]. destruct (jb_downstream i) as [h2|]; cbn; [|done].
  destruct (jb_upstream_lock i), (jb_upstream i) as [h3|]; cbn; try done.
  unfold connect_template_receiver. destruct (parse_ip ip); cbn; [|done].
  destruct (jb_template_receiver i) as [h4| |]; cbn; [|done..]. by exists h1, h2, h3, h4.
Qed.

(** ** The address *)

(** The address is set, or exactly one task tries to bring it back. *)
Definition tp_kept (configured : option str) (w : TpWorld) : Prop :=
  poisoned (tw_tp_address w) = false ∧
  (guarded (tw_tp_address w) = configured ∧ tw_retries w = [] ∨
   ∃ a, configured = Some a ∧ guarded (tw_tp_address w) = None ∧ tw_retries w = [a]).

Lemma tp_event_kept configured e w : tp_kept configured w → tp_kept configured (tp_event e w).
Proof.
  intros Hw. pose proof Hw as [Hp Hk]. destruct e as [i|k connected]; cbn [tp_event].
  - unfold lock. rewrite Hp. destruct (guarded (tw_tp_address w)) as [a|] eqn:Ha; [|exact Hw].
    destruct Hk as [[<- Hr]|(? & _ & [=] & _)].
    unfold jd_client_start. destruct (initialize_jd_tp_address i (set_tw_flags jd_flags_start w))
      as [[H1 H2]|(_ & a' & H1 & ->)].
    + split; rewrite H1; [done|]. left. by rewrite H2.
    + cbn in H1. rewrite Ha in H1. injection H1 as <-. unfold template_provider_lost. cbn. rewrite Hp.
      split; [done|]. right. exists a. cbn. by rewrite Hr.
  - destruct (tw_retries w !! k) as [a|] eqn:Hk'; [|exact Hw].
    unfold retry_connection. destruct connected; [|exact Hw]. cbn [negb]. rewrite Hp.
    destruct Hk as [[_ Hr]|(a' & -> & Hg & Hr)]; rewrite Hr in Hk'; [done|].
    destruct k as [|k]; [|done]. injection Hk' as <-. split; [done|]. left. cbn. by rewrite Hr.
Qed.

(** C35: The template provider is never forgotten and never retried twice: however often the
    client is started and whatever fails, either the configured address is in place and
    nobody retries it, or it is taken out and exactly one task tries to bring it back; the
    first of its attempts that succeeds puts it back and makes the proxy restart. *)
Theorem tp_address_never_lost configured events :
  let w := tp_run events (tp_new configured) in
  (guarded (tw_tp_address w) = configured ∧ tw_retries w = [] ∨
   ∃ a, configured = Some a ∧ guarded (tw_tp_address w) = None ∧ tw_retries w = [a]) ∧
  ∀ k a, tw_retries w !! k = Some a →
    let w' := tp_event (TpTick k true) w in
    guarded (tw_tp_address w') = configured ∧ tw_retries w' = [] ∧
    tw_reports w' = tw_reports w ++ [UpdateTp TpDown].
Proof.
  cbn zeta. assert (H : ∀ w, tp_kept configured w → tp_kept configured (tp_run events w)).
  { induction events as [|e events IH]; [done|]. intros w Hw. apply IH. by apply tp_event_kept. }
  destruct (H (tp_new configured)) as [Hp Hk]; [split; [done|by left]|]. split; [done|].
  intros k a Ha. destruct Hk as [[_ Hr]|(a' & -> & Hg & Hr)]; rewrite Hr in Ha; [done|].
  destruct k as [|k]; [|done]. injection Ha as <-. cbn. rewrite Hr. cbn.
  unfold retry_connection. cbn. by rewrite Hp.
Qed.

(** The address has to be an IPv4 address with a port: any such address is read... *)
Lemma split_on_app sep (s t : str) :
  Forall (λ c, c ≠ sep) s → split_on sep (s ++ [sep] ++ t) = s :: split_on sep t.
Proof.
  induction 1 as [|c s Hc Hs IH]; cbn; [by rewrite N.eqb_refl|].
  apply N.eqb_neq in Hc as ->. cbn in IH. by rewrite IH.
Qed.
Lemma split_on_none sep (s : str) : Forall (λ c, c ≠ sep) s → split_on sep s = [s].
Proof.
  induction 1 as [|c s Hc Hs IH]; cbn; [done|]. apply N.eqb_neq in Hc as ->. by rewrite IH.
Qed.
Lemma digits_no_colon n : Forall (λ c, c ≠ 58%N) (display_N n).
Proof.
  apply Forall_forall. intros c Hc ->.
  pose proof (decimal_digits (N.size_nat n) n [] eq_refl) as H.
  rewrite forallb_forall in H. specialize (H 58%N). rewrite <- list_elem_of_In in H.
  by specialize (H Hc).
Qed.
Lemma display_ipv4_no_colon a b c d : Forall (λ c, c ≠ 58%N) (display_ipv4 a b c d).
Proof.
  unfold display_ipv4, dot. repeat (apply Forall_app_2; [apply digits_no_colon|]; try
    (apply Forall_app_2; [by repeat constructor|])). apply digits_no_colon.
Qed.
Theorem ipv4_tp_address_read a b c d port :
  (a <= 255)%N → (b <= 255)%N → (c <= 255)%N → (d <= 255)%N → (port <= u16_max)%N →
  let ip := display_ipv4 a b c d in
  split_tp_address (ip ++ [58%N] ++ display_N port) = Some (ip, port) ∧
  parse_ip ip = Some (V4 [byte_of_N a; byte_of_N b; byte_of_N c; byte_of_N d]).
Proof.
  intros Ha Hb Hc Hd Hp ip. split; [|by apply parse_display_ipv4].
  unfold split_tp_address. rewrite split_on_app by apply display_ipv4_no_colon.
  rewrite split_on_none by apply digits_no_colon. by rewrite parse_uint_display.
Qed.

(** ... and a host name ends the process, after everything but the template receiver was
    started. *)
Theorem host_name_panics i w host port a b c :
  poisoned (tw_tp_address w) = false → Forall (λ c, c ≠ 58%N) host → parse_ip host = None →
  (port <= u16_max)%N →
  guarded (tw_tp_address w) = Some (host ++ [58%N] ++ display_N port) →
  (∃ pool, lock (jb_pool_address i) = Some (Some pool)) →
  jb_declarator i = Done a → jb_downstream i = Some b → jb_upstream_lock i = true →
  jb_upstream i = Some c →
  (initialize_jd i w).1.1 = JdPanics.
Proof.
  intros Hp Hh Hip Hport Ha [p Hpool] H1 H2 H3 H4. unfold initialize_jd. cbn.
  unfold lock at 1. rewrite Hp, Ha. unfold split_tp_address.
  rewrite split_on_app by done. rewrite split_on_none by apply digits_no_colon.
  rewrite parse_uint_display by done. cbn.
  rewrite Hpool.
  unfold start_parts_of_jd. rewrite H1. cbn. rewrite H2. cbn. rewrite H3, H4. cbn.
  unfold connect_template_receiver. by rewrite Hip.
Qed.

(** ** Witnesses *)
Definition example_jd : JdStartUp :=
  MkJdStartUp (new_mutex (Some (MkSocketAddr (V4 []) 1))) (Done 1%N) (Some 2%N) true (Some 3%N)
    (Failed tt).
Lemma host_name_panics_witness :
  (initialize_jd example_jd (tp_new (Some (lit "localhost:8442")))).1.1 = JdPanics.
Proof.
  apply (host_name_panics example_jd (tp_new (Some (lit "localhost:8442"))) (lit "localhost") 8442
    1 2 3); try reflexivity.
  - repeat constructor; vm_compute; discriminate.
  - vm_compute. discriminate.
  - vm_compute. eexists. reflexivity.
Defined.
Lemma ipv4_tp_address_read_witness :
  split_tp_address (lit "127.0.0.1:8442") = Some (lit "127.0.0.1", 8442%N).
Proof.
  exact (proj1 (ipv4_tp_address_read 127 0 0 1 8442 ltac:(vm_compute; discriminate)
    ltac:(vm_compute; discriminate) ltac:(vm_compute; discriminate)
    ltac:(vm_compute; discriminate) ltac:(vm_compute; discriminate))).
Defined.

(** An IPv6 address is cut at its first colon. *)
Example ipv6_tp_address_panics : split_tp_address (lit "[::1]:8442") = None.
Proof. vm_compute. reflexivity. Qed.
