(* ===== verification/JdState.v ===== *)
(** * The objects of the job declaration client

    The state of [Upstream] ([mining_upstream/upstream.rs]), [DownstreamMiningNode]
    ([mining_downstream/mod.rs]) and [JobDeclarator] ([job_declarator/mod.rs]), each behind
    its mutex, with the flags, the merge-mining service and what is reported to the global
    state: the world of the client's handlers and tasks. *)

From S2P Require Import Prelude Str Bitcoin F32 Sv1 Sv2 RskCommitment MergeState MergeMining ProxyState Effects JdData.

Section state.
Context `{B : !BitcoinLib} `{PL : !PoolLib}.

(** ** [mining_upstream] *)

(** The file's own [CircularBuffer] of pairs. *)
Record JobIdBuffer := MkJobIdBuffer { jb_buffer : list (N * N); jb_capacity : nat }.
Record PendingCustomJob := MkPendingCustomJob {
  pc_template_id : N;
  pc_downstream_job : DownstreamJob
}.
Record TemplateToJobId := MkTemplateToJobId {
  tj_downstream_to_pool_job_id : JobIdBuffer;
  tj_requests : gmap N PendingCustomJob
}.
Record JdUpstream := MkJdUpstream {
  ju_channel_id : option N;
  ju_min_extranonce_size : N;
  ju_upstream_extranonce1_size : N;
  ju_sender : Sender Mining;
  ju_downstream : bool;   (** [downstream.is_some()] *)
  ju_channel_factory : option PoolFactory;
  ju_template_to_job_id : TemplateToJobId;
  ju_req_ids : Id
}.
Definition set_ju_channel ch f u := MkJdUpstream ch (ju_min_extranonce_size u)
  (ju_upstream_extranonce1_size u) (ju_sender u) (ju_downstream u) f
  (ju_template_to_job_id u) (ju_req_ids u).
Definition set_ju_sender v u := MkJdUpstream (ju_channel_id u) (ju_min_extranonce_size u)
  (ju_upstream_extranonce1_size u) v (ju_downstream u) (ju_channel_factory u)
  (ju_template_to_job_id u) (ju_req_ids u).
Definition set_ju_template_to_job_id v u := MkJdUpstream (ju_channel_id u)
  (ju_min_extranonce_size u) (ju_upstream_extranonce1_size u) (ju_sender u) (ju_downstream u)
  (ju_channel_factory u) v (ju_req_ids u).
Definition set_ju_req_ids v u := MkJdUpstream (ju_channel_id u) (ju_min_extranonce_size u)
  (ju_upstream_extranonce1_size u) (ju_sender u) (ju_downstream u) (ju_channel_factory u)
  (ju_template_to_job_id u) v.

(** ** [mining_downstream] *)
Inductive DownstreamMiningNodeStatus :=
| Paired
| ChannelOpened (channel : PoolFactory)
| SoloMinerPaired
| SoloMinerChannelOpend (channel : PoolFactory).

Record DownstreamMiningNode := MkDownstreamMiningNode {
  dmn_sender : Sender Mining;
  dmn_status : DownstreamMiningNodeStatus;
  dmn_prev_job_id : option N;
  dmn_solution_sender : Sender SubmitSolution;
  dmn_withhold : bool;
  dmn_miner_coinbase_output : list TxOut;
  dmn_jd : bool   (** [jd.is_some()] *)
}.
Definition set_dmn_sender v d := MkDownstreamMiningNode v (dmn_status d) (dmn_prev_job_id d)
  (dmn_solution_sender d) (dmn_withhold d) (dmn_miner_coinbase_output d) (dmn_jd d).
Definition set_dmn_status v d := MkDownstreamMiningNode (dmn_sender d) v (dmn_prev_job_id d)
  (dmn_solution_sender d) (dmn_withhold d) (dmn_miner_coinbase_output d) (dmn_jd d).

Definition set_dmn_solution_sender v d := MkDownstreamMiningNode (dmn_sender d) (dmn_status d)
  (dmn_prev_job_id d) v (dmn_withhold d) (dmn_miner_coinbase_output d) (dmn_jd d).

(** ** [job_declarator] *)
Record LastDeclareJob := MkLastDeclareJob {
  ld_declare_job : DeclareMiningJob;
  ld_template : NewTemplate;
  ld_coinbase_pool_output : bytes;
  ld_tx_list : list bytes;
  ld_downstream_job : DownstreamJob
}.

(** The stored declarations are all [Some]: the map holds them directly.  The capacity of
    the maps is a hint. *)
Record JobDeclarator := MkJobDeclarator {
  jd_sender : Sender ToJds;
  jd_allocated_tokens : list AllocateMiningJobTokenSuccess;
  jd_req_ids : Id;
  jd_min_extranonce_size : N;
  jd_last_declare_mining_jobs_sent : gmap N LastDeclareJob;
  jd_last_set_new_prev_hash : option TpSetNewPrevHash;
  jd_set_new_prev_hash_counter : N;
  jd_future_jobs : gmap N
    (DeclareMiningJob * list bytes * NewTemplate * bytes * DownstreamJob)
}.
Definition set_jd_sender v j := MkJobDeclarator v (jd_allocated_tokens j) (jd_req_ids j)
  (jd_min_extranonce_size j) (jd_last_declare_mining_jobs_sent j)
  (jd_last_set_new_prev_hash j) (jd_set_new_prev_hash_counter j) (jd_future_jobs j).
Definition set_jd_allocated_tokens v j := MkJobDeclarator (jd_sender j) v (jd_req_ids j)
  (jd_min_extranonce_size j) (jd_last_declare_mining_jobs_sent j)
  (jd_last_set_new_prev_hash j) (jd_set_new_prev_hash_counter j) (jd_future_jobs j).
Definition set_jd_req_ids v j := MkJobDeclarator (jd_sender j) (jd_allocated_tokens j) v
  (jd_min_extranonce_size j) (jd_last_declare_mining_jobs_sent j)
  (jd_last_set_new_prev_hash j) (jd_set_new_prev_hash_counter j) (jd_future_jobs j).
Definition set_jd_declared v j := MkJobDeclarator (jd_sender j) (jd_allocated_tokens j)
  (jd_req_ids j) (jd_min_extranonce_size j) v
  (jd_last_set_new_prev_hash j) (jd_set_new_prev_hash_counter j) (jd_future_jobs j).
Definition set_jd_prev_hash p c j := MkJobDeclarator (jd_sender j) (jd_allocated_tokens j)
  (jd_req_ids j) (jd_min_extranonce_size j) (jd_last_declare_mining_jobs_sent j)
  p c (jd_future_jobs j).
Definition set_jd_future_jobs v j := MkJobDeclarator (jd_sender j) (jd_allocated_tokens j)
  (jd_req_ids j) (jd_min_extranonce_size j) (jd_last_declare_mining_jobs_sent j)
  (jd_last_set_new_prev_hash j) (jd_set_new_prev_hash_counter j) v.

(** ** The world *)

(** [jw_custom_job_send_lock]: whether some task holds the asynchronous lock. *)
Record JdWorld := MkJdWorld {
  jw_flags : JdFlags;
  jw_up : Mutex JdUpstream;
  jw_custom_job_send_lock : bool;
  jw_down : Mutex DownstreamMiningNode;
  jw_jd : Mutex JobDeclarator;
  jw_merge : option MergeMining;
  jw_reports : list ProxyUpdate;
  jw_spawned : list MinerTask
}.
Definition set_jw_flags f w := MkJdWorld (f (jw_flags w)) (jw_up w)
  (jw_custom_job_send_lock w) (jw_down w) (jw_jd w) (jw_merge w) (jw_reports w) (jw_spawned w).
Definition set_jw_up v w := MkJdWorld (jw_flags w) v (jw_custom_job_send_lock w) (jw_down w)
  (jw_jd w) (jw_merge w) (jw_reports w) (jw_spawned w).
Definition set_jw_send_lock v w := MkJdWorld (jw_flags w) (jw_up w) v (jw_down w) (jw_jd w)
  (jw_merge w) (jw_reports w) (jw_spawned w).
Definition set_jw_down v w := MkJdWorld (jw_flags w) (jw_up w) (jw_custom_job_send_lock w) v
  (jw_jd w) (jw_merge w) (jw_reports w) (jw_spawned w).
Definition set_jw_jd v w := MkJdWorld (jw_flags w) (jw_up w) (jw_custom_job_send_lock w)
  (jw_down w) v (jw_merge w) (jw_reports w) (jw_spawned w).
Definition set_jw_merge v w := MkJdWorld (jw_flags w) (jw_up w) (jw_custom_job_send_lock w)
  (jw_down w) (jw_jd w) v (jw_reports w) (jw_spawned w).
Definition set_jw_reports v w := MkJdWorld (jw_flags w) (jw_up w) (jw_custom_job_send_lock w)
  (jw_down w) (jw_jd w) (jw_merge w) v (jw_spawned w).
Definition set_jw_spawned v w := MkJdWorld (jw_flags w) (jw_up w) (jw_custom_job_send_lock w)
  (jw_down w) (jw_jd w) (jw_merge w) (jw_reports w) v.

Definition update_up (f : JdUpstream → JdUpstream) (w : JdWorld) : JdWorld :=
  set_jw_up (store (jw_up w) (f (guarded (jw_up w)))) w.
Definition update_down (f : DownstreamMiningNode → DownstreamMiningNode) (w : JdWorld)
    : JdWorld := set_jw_down (store (jw_down w) (f (guarded (jw_down w)))) w.
Definition update_jd (f : JobDeclarator → JobDeclarator) (w : JdWorld) : JdWorld :=
  set_jw_jd (store (jw_jd w) (f (guarded (jw_jd w)))) w.

(** [ProxyState::update_...] *)
Definition report (u : ProxyUpdate) (w : JdWorld) : JdWorld :=
  set_jw_reports (jw_reports w ++ [u]) w.
End state.

Abbreviation JM := (Handler JdWorld JdError).

Section computations.
Context `{B : !BitcoinLib} `{PL : !PoolLib}.

Definition lock_up {A} (e : JdError) (m : JM A) : JM A := with_lock jw_up set_jw_up e m.
Definition lock_down_node {A} (e : JdError) (m : JM A) : JM A :=
  with_lock jw_down set_jw_down e m.
Definition lock_jd {A} (m : JM A) : JM A :=
  with_lock jw_jd set_jw_jd JobDeclaratorMutexCorrupted m.
Definition from_up {A} (f : JdUpstream → A) : JM A := gets (λ w, f (guarded (jw_up w))).
Definition from_down {A} (f : DownstreamMiningNode → A) : JM A :=
  gets (λ w, f (guarded (jw_down w))).
Definition from_jd {A} (f : JobDeclarator → A) : JM A := gets (λ w, f (guarded (jw_jd w))).
Definition set_flag (f : JdFlags → JdFlags) : JM unit := modify (set_jw_flags f).
(** A [match] on the [Result] of a call. *)
Definition attempt {A} (m : JM A) : JM (result A JdError) := λ w,
  match m w with
  | (Done a, w) => (Done (Ok a), w)
  | (Failed e, w) => (Done (Err e), w)
  | (Panicked, w) => (Panicked, w)
  end.
(** [tokio::task::spawn] *)
Definition spawn (t : MinerTask) : JM unit :=
  modify (λ w, set_jw_spawned (jw_spawned w ++ [t]) w).
Definition reports (u : ProxyUpdate) : JM unit := modify (report u).

(** [Upstream::send], [DownstreamMiningNode::send] and the sender of the job declarator. *)
Definition send_up (message : Mining) : JM unit :=
  sender ← lock_up JdClientUpstreamMutexCorrupted (from_up ju_sender);
  if tx_open sender
  then modify (update_up (λ u, set_ju_sender (sender_push message (ju_sender u)) u))
  else fail Unrecoverable.
Definition send_down (message : Mining) : JM unit :=
  sender ← lock_down_node JdClientDownstreamMutexCorrupted (from_down dmn_sender);
  if tx_open sender
  then modify (update_down (λ d, set_dmn_sender (sender_push message (dmn_sender d)) d))
  else fail Unrecoverable.
Definition send_jds (message : ToJds) : JM unit :=
  sender ← from_jd jd_sender;
  if tx_open sender
  then modify (update_jd (λ j, set_jd_sender (sender_push message (jd_sender j)) j))
  else fail Unrecoverable.

(** ** Computations that only move the world along a relation

    A relation that is reflexive, transitive and blind to poisoning is kept by a computation
    when its assignments keep it. *)
Class WorldOrder (R : JdWorld → JdWorld → Prop) : Prop := {
  world_order_pre :: PreOrder R;
  order_poison_up w : R w (set_jw_up (poison (jw_up w)) w);
  order_poison_down w : R w (set_jw_down (poison (jw_down w)) w);
  order_poison_jd w : R w (set_jw_jd (poison (jw_jd w)) w)
}.

Section follows.
Context (R : JdWorld → JdWorld → Prop) `{!WorldOrder R}.
Definition follows {A} (m : JM A) : Prop := ∀ w, R w (m w).2.

Lemma follows_ret {A} (a : A) : follows (mret a).
Proof using Type*. intros w. reflexivity. Qed.
Lemma follows_fail {A} e : follows (fail e : JM A).
Proof using Type*. intros w. reflexivity. Qed.
Lemma follows_panic {A} : follows (panic : JM A).
Proof using Type*. intros w. reflexivity. Qed.
Lemma follows_gets {A} (f : JdWorld → A) : follows (gets f).
Proof using Type*. intros w. reflexivity. Qed.
Lemma follows_of_result {A} (r : result A JdError) : follows (of_result r).
Proof using Type*. destruct r; intros w; reflexivity. Qed.
Lemma follows_modify (f : JdWorld → JdWorld) : (∀ w, R w (f w)) → follows (modify f).
Proof using Type*. intros H w. apply H. Qed.
Lemma follows_bind {A X} (m : JM A) (k : A → JM X) :
  follows m → (∀ a, follows (k a)) → follows (m ≫= k).
Proof using Type*.
  intros Hm Hk w. unfold mbind, M_bind. specialize (Hm w).
  destruct (m w) as [[a|e|] w']; [|done|done]. cbn [snd] in Hm. etrans; [exact Hm|apply Hk].
Qed.
Lemma follows_attempt {A} (m : JM A) : follows m → follows (attempt m).
Proof using Type*. intros Hm w. unfold attempt. specialize (Hm w). by destruct (m w) as [[] w']. Qed.
Lemma follows_lock_up {A} e (m : JM A) : follows m → follows (lock_up e m).
Proof using Type*.
  intros Hm w. unfold lock_up, with_lock. destruct (poisoned _); [reflexivity|].
  specialize (Hm w). destruct (m w) as [[a|e'|] w']; [done|done|]. etrans; [exact Hm|apply order_poison_up].
Qed.
Lemma follows_lock_down {A} e (m : JM A) : follows m → follows (lock_down_node e m).
Proof using Type*.
  intros Hm w. unfold lock_down_node, with_lock. destruct (poisoned _); [reflexivity|].
  specialize (Hm w). destruct (m w) as [[a|e'|] w']; [done|done|]. etrans; [exact Hm|apply order_poison_down].
Qed.
Lemma follows_lock_jd {A} (m : JM A) : follows m → follows (lock_jd m).
Proof using Type*.
  intros Hm w. unfold lock_jd, with_lock. destruct (poisoned _); [reflexivity|].
  specialize (Hm w). destruct (m w) as [[a|e'|] w']; [done|done|]. etrans; [exact Hm|apply order_poison_jd].
Qed.
End follows.
End computations.

(** A computation follows a relation by its shape; [tac] proves it of the assignments. *)
Ltac follows tac :=
  repeat first
    [ assumption
    | first [ apply follows_ret | apply follows_fail | apply follows_panic | apply follows_gets
            | apply follows_of_result ]; typeclasses eauto
    | first [ apply follows_attempt | apply follows_lock_up | apply follows_lock_down
            | apply follows_lock_jd ]; [typeclasses eauto|]
    | apply follows_bind; [typeclasses eauto| |intro]
    | apply follows_modify; [typeclasses eauto|]; intro; solve [tac]
    | case_match ].
