(* ===== verification/JdUpstream.v ===== *)
(** * The job declaration client towards the pool

    [jd_client/mining_upstream/upstream.rs]: the custom jobs sent to the pool and the
    identifiers the pool gives them, the messages of the pool, and what the miners' side
    asks for.  An asynchronous function that waits is a sequence of turns; a turn that
    waits changes nothing. *)

From S2P Require Import Prelude Str Bitcoin F32 Sv1 Sv2 RskCommitment MergeState MergeMining ProxyState Effects JdData JdState.

(** ** The identifiers of custom jobs *)

(** [CircularBuffer] of this file, [TemplateToJobId] *)
Definition job_id_buffer_new (capacity : nat) : JobIdBuffer := MkJobIdBuffer [] capacity.
Definition job_id_insert (key value : N) (b : JobIdBuffer) : JobIdBuffer :=
  let buffer := retain (λ e, negb (e.1 =? key)%N) (jb_buffer b) in
  let buffer := if length buffer =? jb_capacity b then tail buffer else buffer in
  MkJobIdBuffer (buffer ++ [(key, value)]) (jb_capacity b).
Definition job_id_get (id : N) (b : JobIdBuffer) : option N :=
  snd <$> head (retain (λ e, (e.1 =? id)%N) (jb_buffer b)).

Definition template_to_job_id_new : TemplateToJobId :=
  MkTemplateToJobId (job_id_buffer_new 1000) ∅.
Definition register_request (request_id : N) (request : PendingCustomJob)
    (t : TemplateToJobId) : TemplateToJobId :=
  MkTemplateToJobId (tj_downstream_to_pool_job_id t)
    (<[request_id := request]> (tj_requests t)).
Definition register_job_id (downstream_job_id pool_job_id : N) (t : TemplateToJobId)
    : TemplateToJobId :=
  MkTemplateToJobId (job_id_insert downstream_job_id pool_job_id
    (tj_downstream_to_pool_job_id t)) (tj_requests t).
Definition get_job_id (downstream_job_id : N) (t : TemplateToJobId) : option N :=
  job_id_get downstream_job_id (tj_downstream_to_pool_job_id t).
Definition take_request (request_id : N) (t : TemplateToJobId)
    : option PendingCustomJob * TemplateToJobId :=
  (tj_requests t !! request_id,
   MkTemplateToJobId (tj_downstream_to_pool_job_id t) (delete request_id (tj_requests t))).

Section upstream.
Context `{B : !BitcoinLib} `{PL : !PoolLib}.

(** [Upstream::new] *)
Definition jd_upstream_new (min_extranonce_size : N) (sender : Sender Mining) : JdUpstream :=
  MkJdUpstream None min_extranonce_size 16 sender false None template_to_job_id_new id_new.

(** ** Custom jobs *)

(** The arguments of [set_custom_jobs]. *)
Record CustomJob := MkCustomJob {
  cj_declare_mining_job : DeclareMiningJob;
  cj_set_new_prev_hash : TpSetNewPrevHash;
  cj_merkle_path : list bytes;
  cj_signed_token : bytes;
  cj_coinbase_tx_version : N;
  cj_coinbase_prefix : bytes;
  cj_coinbase_tx_input_n_sequence : N;
  cj_coinbase_tx_value_remaining : N;
  cj_coinbase_tx_outs : bytes;
  cj_coinbase_tx_locktime : N;
  cj_template_id : N;
  cj_downstream_job : DownstreamJob
}.

Definition set_custom_mining_job (channel_id request_id : N) (c : CustomJob)
    : SetCustomMiningJob :=
  MkSetCustomMiningJob channel_id request_id (cj_signed_token c)
    (dm_version (cj_declare_mining_job c)) (tp_prev_hash (cj_set_new_prev_hash c))
    (tp_header_timestamp (cj_set_new_prev_hash c)) (tp_n_bits (cj_set_new_prev_hash c))
    (cj_coinbase_tx_version c) (cj_coinbase_prefix c) (cj_coinbase_tx_input_n_sequence c)
    (cj_coinbase_tx_value_remaining c) (cj_coinbase_tx_outs c) (cj_coinbase_tx_locktime c)
    (cj_merkle_path c).

(** [set_custom_jobs]: reaching for the lock, waiting for it, then for the channel. *)
Inductive CustomStage := CsStart | CsLock | CsChannel (request_id : N).
Inductive CustomResult :=
| CustomWaits (stage : CustomStage)
| CustomReturns (r : result unit JdError)
| CustomPanics.

Definition release (r : CustomResult) (w : JdWorld) : CustomResult * JdWorld :=
  (r, set_jw_send_lock false w).
Definition update_requests (f : TemplateToJobId → TemplateToJobId) : JM unit :=
  modify (update_up (λ u, set_ju_template_to_job_id (f (ju_template_to_job_id u)) u)).

(** Once the channel is known: the message, the registered request and the send. *)
Definition send_custom_job (channel_id request_id : N) (c : CustomJob) : JM unit :=
  if negb (b064k_fits (cj_coinbase_tx_outs c)) then panic
  else
    let message := MSetCustomMiningJob (set_custom_mining_job channel_id request_id c) in
    _ ← lock_up JdClientUpstreamMutexCorrupted
          (update_requests (register_request request_id
             (MkPendingCustomJob (cj_template_id c) (cj_downstream_job c))));
    let send : JM unit := λ w,
      match send_up message w with
      | (Failed error, w) =>
          let w := (lock_up JdClientUpstreamMutexCorrupted
            (update_requests (λ t, (take_request request_id t).2)) w).2 in
          (Failed error, set_jw_flags (set_custom_job_set true) w)
      | r => r
      end in
    send.

Definition custom_turn (c : CustomJob) (stage : CustomStage) (w : JdWorld)
    : CustomResult * JdWorld :=
  match stage with
  | CsStart =>
      if poisoned (jw_up w) then (CustomReturns (Err JdClientUpstreamMutexCorrupted), w)
      else (CustomWaits CsLock, w)
  | CsLock =>
      if jw_custom_job_send_lock w then (CustomWaits CsLock, w)
      else if poisoned (jw_up w) then (CustomReturns (Err JdClientUpstreamMutexCorrupted), w)
      else
        let '(request_id, ids) := id_next (ju_req_ids (guarded (jw_up w))) in
        (CustomWaits (CsChannel request_id),
         set_jw_send_lock true (update_up (set_ju_req_ids ids) w))
  | CsChannel request_id =>
      if poisoned (jw_up w) then release (CustomReturns (Err JdClientUpstreamMutexCorrupted)) w
      else
        match ju_channel_id (guarded (jw_up w)) with
        | None => (CustomWaits (CsChannel request_id), w)
        | Some channel_id =>
            match send_custom_job channel_id request_id c w with
            | (Done _, w) => release (CustomReturns (Ok tt)) w
            | (Failed e, w) => release (CustomReturns (Err e)) w
            | (Panicked, w) => release CustomPanics w
            end
        end
  end.

(** ** The channel factory and the status of the miners' side *)
Definition get_channel (s : DownstreamMiningNodeStatus) : option PoolFactory :=
  match s with
  | Paired | SoloMinerPaired => None
  | ChannelOpened channel | SoloMinerChannelOpend channel => Some channel
  end.
(** [get_channel] hands out a mutable reference: the status with another channel. *)
Definition put_channel (channel : PoolFactory) (s : DownstreamMiningNodeStatus)
    : DownstreamMiningNodeStatus :=
  match s with
  | Paired => Paired
  | SoloMinerPaired => SoloMinerPaired
  | ChannelOpened _ => ChannelOpened channel
  | SoloMinerChannelOpend _ => SoloMinerChannelOpend channel
  end.
Definition update_channel (f : PoolFactory → PoolFactory) (d : DownstreamMiningNode)
    : DownstreamMiningNode :=
  match get_channel (dmn_status d) with
  | Some channel => set_dmn_status (put_channel (f channel) (dmn_status d)) d
  | None => d
  end.

(** ** The pool's messages *)

(** The error of a handler whose remote is missing. *)
Definition DownstreamDown : Sv2Error := OtherSv2Error 1.
Definition NotFoundChannelId : Sv2Error := OtherSv2Error 2.
Definition UnexpectedMessage : Sv2Error := OtherSv2Error 3.

Definition relay_downstream : JM SendTo :=
  downstream ← from_up ju_downstream;
  if downstream : bool then mret RelaySameMessageToRemote else fail (RolesSv2Logic DownstreamDown).

Definition handle_open_extended_mining_channel_success (share_per_min : f32)
    (m : OpenExtendedSuccess) : JM SendTo :=
  let prefix_len := N.of_nat (length (oes_extranonce_prefix m)) in
  let self_len := 0%N in
  let total_len := (prefix_len + oes_extranonce_size m)%N in
  let range_0 := (0%N, prefix_len) in
  let range_1 := (prefix_len, (prefix_len + self_len)%N) in
  let range_2 := ((prefix_len + self_len)%N, total_len) in
  match pool_factory_new (range_0, range_1, range_2) (total_len mod 256) share_per_min
          (ProxyJd (oes_target m)) [] [] with
  | Err e => fail (RolesSv2Logic e)
  | Ok channel_factory =>
      _ ← modify (update_up (λ u,
            set_ju_channel (Some (oes_channel_id m)) (ju_channel_factory u) u));
      match replicate_upstream_extended_channel_only_jd (oes_target m)
              (oes_extranonce_prefix m) (oes_channel_id m) (oes_extranonce_size m)
              channel_factory with
      | None => panic
      | Some channel_factory =>
          _ ← modify (update_up (λ u,
                set_ju_channel (ju_channel_id u) (Some channel_factory) u));
          relay_downstream
      end
  end.

Definition handle_set_custom_mining_job_success (request_id job_id : N) : JM SendTo :=
  request ← from_up (λ u, (take_request request_id (ju_template_to_job_id u)).1);
  _ ← update_requests (λ t, (take_request request_id t).2);
  match request : option PendingCustomJob with
  | Some request =>
      _ ← update_requests
            (register_job_id (dj_local_job_id (pc_downstream_job request)) job_id);
      _ ← set_flag (set_custom_job_set true);
      mret SendNone
  | None => mret SendNone
  end.

Definition handle_set_custom_mining_job_error (request_id : N) : JM SendTo :=
  request ← from_up (λ u, (take_request request_id (ju_template_to_job_id u)).1);
  _ ← update_requests (λ t, (take_request request_id t).2);
  _ ← match request : option PendingCustomJob with
      | Some _ => set_flag (set_custom_job_set true)
      | None => mret tt
      end;
  mret SendNone.

Definition handle_set_target (channel_id : N) (maximum_target : bytes) : JM SendTo :=
  let retarget factory :=
    (pool_set_target maximum_target
      (pool_update_target_for_channel channel_id maximum_target factory)).2 in
  let retarget_downstream factory :=
    let '(target, factory) := pool_set_target maximum_target factory in
    pool_update_target_for_channel channel_id target factory in
  _ ← modify (update_up (λ u,
        set_ju_channel (ju_channel_id u) (retarget <$> ju_channel_factory u) u));
  downstream ← from_up ju_downstream;
  if downstream : bool then
    _ ← lock_down_node (RolesSv2Logic DownstreamDown) (
          channel ← from_down (λ d, get_channel (dmn_status d));
          match channel : option PoolFactory with
          | Some _ => modify (update_down (update_channel retarget_downstream))
          | None => fail (RolesSv2Logic NotFoundChannelId)
          end);
    mret RelaySameMessageToRemote
  else fail (RolesSv2Logic DownstreamDown).

(** [handle_message_mining_deserialized]: the handler of each message of the pool, under
    the lock. *)
Definition handle_from_pool (share_per_min : f32) (m : Mining) : JM SendTo :=
  lock_up JdClientUpstreamMutexCorrupted
    match m with
    | MOpenExtendedSuccess m => handle_open_extended_mining_channel_success share_per_min m
    | MSetCustomMiningJobSuccess request_id job_id =>
        handle_set_custom_mining_job_success request_id job_id
    | MSetCustomMiningJobError request_id => handle_set_custom_mining_job_error request_id
    | MSetTarget channel_id maximum_target => handle_set_target channel_id maximum_target
    | MKind OpenMiningChannelError | MKind UpdateChannelError | MKind CloseChannel
    | MKind SetExtranoncePrefix | MKind SubmitSharesSuccess | MKind Reconnect =>
        relay_downstream
    | MSubmitSharesError _ | MNewExtendedMiningJob _ | MSetNewPrevHash _ => mret SendNone
    | MKind OpenStandardMiningChannelSuccess | MKind NewMiningJob => panic
    | _ => fail (RolesSv2Logic UnexpectedMessage)
    end.

(** A message in the main loop of [parse_incoming]; [false] when the loop ends. *)
Definition upstream_incoming (share_per_min : f32) (incoming : Mining) : JM bool := λ w,
  match handle_from_pool share_per_min incoming w with
  | (Done RelaySameMessageToRemote, w) =>
      match send_down incoming w with
      | (Done _, w) => (Done true, w)
      | (Failed _, w) => (Done false, report (UpdateDownstream JdClientMiningDownstream) w)
      | (Panicked, w) => (Panicked, w)
      end
  | (Done SendNone, w) => (Done true, w)
  | (Done _, w) => (Panicked, w)
  | (Failed _, w) => (Done false, report (UpdateUpstream JDCMiningUpstream) w)
  | (Panicked, w) => (Panicked, w)
  end.

(** ** What the miners' side asks for *)

(** A poll of [take_channel_factory], and of [get_job_id]; [None] waits. *)
Definition take_channel_factory_poll : JM (option PoolFactory) :=
  lock_up JdClientUpstreamMutexCorrupted (
    factory ← from_up ju_channel_factory;
    _ ← match factory : option PoolFactory with
        | Some _ => modify (update_up (λ u, set_ju_channel (ju_channel_id u) None u))
        | None => mret tt
        end;
    mret factory).
Definition get_job_id_poll (downstream_job_id : N) : JM (option N) :=
  lock_up JdClientDownstreamMutexCorrupted
    (from_up (λ u, get_job_id downstream_job_id (ju_template_to_job_id u))).
End upstream.
