(* ===== verification/JobDeclarator.v ===== *)
(** * The job declarator

    [jd_client/job_declarator/mod.rs] and [message_handler.rs]: the declarations sent to the
    job declaration server and its answers, the tokens, the previous hashes of the template
    provider, and the solutions.  An asynchronous function that waits is a sequence of
    turns; spawned tasks and the calls of [set_custom_jobs] are returned, to be run. *)

From S2P Require Import Prelude Str Bitcoin F32 Sv1 Sv2 RskCommitment MergeState MergeMining ProxyState Effects JdData JdState JdUpstream.

Section declarator.
Context `{B : !BitcoinLib} `{PL : !PoolLib}.

(** [JobDeclarator::new], the object *)
Definition job_declarator_new (sender : Sender ToJds) (min_extranonce_size : N) : JobDeclarator :=
  MkJobDeclarator sender [] id_new min_extranonce_size ∅ None 0 ∅.

(** ** The declarations that wait for an answer *)

Definition min_key (m : gmap N LastDeclareJob) : option N :=
  foldr (λ k acc, match acc with Some a => Some (N.min k a) | None => Some k end) None
    (map_to_list m).*1.

Definition take_last_declare_job_sent (request_id : N) : JM (option LastDeclareJob) :=
  lock_jd (
    last ← from_jd (λ j, jd_last_declare_mining_jobs_sent j !! request_id);
    _ ← modify (update_jd (λ j,
          set_jd_declared (delete request_id (jd_last_declare_mining_jobs_sent j)) j));
    mret last).

Definition insert_declared (request_id : N) (last : LastDeclareJob)
    (m : gmap N LastDeclareJob) : gmap N LastDeclareJob :=
  if size m <? 1000 then <[request_id := last]> m
  else match min_key m with
  | Some k => <[request_id := last]> (delete k m)
  | None => m
  end.
Definition update_last_declare_job_sent (request_id : N) (j : LastDeclareJob) : JM unit :=
  lock_jd (modify (update_jd (λ d,
    set_jd_declared (insert_declared request_id j (jd_last_declare_mining_jobs_sent d)) d))).

(** ** Tokens *)

Fixpoint allocate_tokens (token_to_allocate : nat) : JM unit :=
  match token_to_allocate with
  | 0 => mret tt
  | S n =>
      request ← attempt (lock_jd (
        request ← from_jd (λ j, id_next (jd_req_ids j));
        _ ← modify (update_jd (set_jd_req_ids (request : N * Id).2));
        mret request.1));
      match request with
      | Err _ => reports (UpdateJd JdDown)
      | Ok request_id =>
          sent ← attempt (send_jds (AllocateMiningJobToken request_id));
          _ ← match sent with
              | Ok _ => mret tt
              | Err _ => reports (UpdateJd JdDown)
              end;
          allocate_tokens n
      end
  end.

(** [get_last_token]: a call reads the number of tokens, or waits for the first. *)
Inductive TokenStage := GtStart | GtWait.
Inductive TokenResult :=
| TokenWaits (stage : TokenStage)
| TokenReady (token : AllocateMiningJobTokenSuccess).

(** [allocated_tokens.pop()] *)
Definition pop_token : JM AllocateMiningJobTokenSuccess :=
  token ← lock_jd (
    tokens ← from_jd jd_allocated_tokens;
    _ ← modify (update_jd (set_jd_allocated_tokens (removelast tokens)));
    mret (last tokens));
  match token : option AllocateMiningJobTokenSuccess with
  | Some token => mret token
  | None => panic
  end.

(** A turn, with the number of tokens a spawned task is to allocate. *)
Definition get_last_token_turn (stage : TokenStage) : JM (TokenResult * option nat) :=
  token_len ← lock_jd (from_jd (λ j, length (jd_allocated_tokens j)));
  match stage, token_len with
  | GtStart, 0 => mret (TokenWaits GtWait, Some 2)
  | GtStart, 1 => token ← pop_token; mret (TokenReady token, Some 1)
  | GtStart, _ => token ← pop_token; mret (TokenReady token, None)
  | GtWait, 0 => mret (TokenWaits GtWait, None)
  | GtWait, _ => mret (TokenWaits GtStart, None)
  end.

(** ** [on_new_template] *)

(** [missing_prioritized_txids]: what the log warns of. *)
Definition missing_prioritized_txids (prioritized_txids template_txids : gset bytes)
    : gset bytes := prioritized_txids ∖ template_txids.

(** The witness identifiers of the template's transactions, [None] when one does not decode. *)
Fixpoint template_wtxids (transactions : list bytes) : option (list bytes) :=
  match transactions with
  | [] => Some []
  | tx :: rest =>
      match deserialize_transaction tx with
      | None => None
      | Some tx => ids ← template_wtxids rest; Some (compute_wtxid tx :: ids)
      end
  end.

Record DeclareArgs := MkDeclareArgs {
  da_template : NewTemplate;
  da_token : bytes;
  da_tx_list : list bytes;
  da_excess_data : bytes;
  da_coinbase_pool_output : bytes;
  da_downstream_job : DownstreamJob
}.
Definition declare_mining_job (request_id : N) (tx_ids : list bytes) (a : DeclareArgs)
    : DeclareMiningJob :=
  MkDeclareMiningJob request_id (da_token a) (nt_version (da_template a))
    (dj_coinbase_tx_prefix (da_downstream_job a)) (dj_coinbase_tx_suffix (da_downstream_job a))
    tx_ids (da_excess_data a).
Definition last_declare (request_id : N) (tx_ids : list bytes) (a : DeclareArgs)
    : LastDeclareJob :=
  MkLastDeclareJob (declare_mining_job request_id tx_ids a) (da_template a)
    (da_coinbase_pool_output a) (da_tx_list a) (da_downstream_job a).

(** Once the gate is open. *)
Definition declare_template (a : DeclareArgs) : JM unit :=
  _ ← set_flag (set_custom_job_set false);
  request ← lock_jd (
    request ← from_jd (λ j, id_next (jd_req_ids j));
    _ ← modify (update_jd (set_jd_req_ids (request : N * Id).2));
    mret request.1);
  match template_wtxids (da_tx_list a) with
  | None => fail Unrecoverable
  | Some tx_ids =>
      if negb (length (da_token a) <=? 255) then panic
      else
        _ ← update_last_declare_job_sent request (last_declare request tx_ids a);
        send_jds (DeclareJob (declare_mining_job request tx_ids a))
  end.

(** A turn of the wait, [elapsed] seconds after it began; [true] when the call is over. *)
Definition on_new_template_turn (elapsed : N) (a : DeclareArgs) : JM bool :=
  free ← gets (λ w, is_custom_job_set (jw_flags w));
  if free : bool then _ ← declare_template a; mret true
  else if (120 <? elapsed)%N then
    _ ← reports (UpdateJd JdDown); fail Unrecoverable
  else mret false.

(** ** The server's messages *)

(** What the loop of [on_upstream_message] does next. *)
Inductive JdLoop := JdContinues | JdCalls (c : CustomJob) | JdEnds.

(** The arguments both callers give [set_custom_jobs]. *)
Definition custom_job_of (job : DeclareMiningJob) (p : TpSetNewPrevHash)
    (merkle_path : list bytes) (token : bytes) (template : NewTemplate)
    (pool_outs : bytes) (downstream_job : DownstreamJob) : CustomJob :=
  MkCustomJob job p merkle_path token (nt_coinbase_tx_version template)
    (nt_coinbase_prefix template) (nt_coinbase_tx_input_sequence template)
    (nt_coinbase_tx_value_remaining template) (pool_outs ++ nt_coinbase_tx_outputs template)
    (nt_coinbase_tx_locktime template) (nt_template_id template) downstream_job.

Definition JDSMissingTransactions : Sv2Error := OtherSv2Error 4.

(** [handle_provide_missing_transactions] *)
Definition handle_provide_missing_transactions (request_id : N) (positions : list N)
    : JM (option ToJds) :=
  last ← from_jd (λ j, jd_last_declare_mining_jobs_sent j !! request_id);
  match last : option LastDeclareJob with
  | None => mret None
  | Some last =>
      let missing := omap (λ pos, ld_tx_list last !! N.to_nat pos) positions in
      if (N.of_nat (length missing) <=? u16_max)%N
      then mret (Some (ProvideMissingSuccess request_id missing))
      else fail (RolesSv2Logic JDSMissingTransactions)
  end.

Definition jd_down : JM JdLoop := _ ← reports (UpdateJd JdDown); mret JdEnds.

Definition on_declare_success (request_id : N) (new_token : bytes) : JM JdLoop :=
  last ← attempt (take_last_declare_job_sent request_id);
  match last with
  | Err _ => jd_down
  | Ok None => mret JdContinues
  | Ok (Some last) =>
      let template := ld_template last in
      let merkle_path := nt_merkle_path template in
      if nt_future_template template then
        inserted ← attempt (lock_jd (modify (update_jd (λ j,
          set_jd_future_jobs
            (<[nt_template_id template :=
                (with_token new_token (ld_declare_job last), merkle_path, template,
                 ld_coinbase_pool_output last, ld_downstream_job last)]>
              (jd_future_jobs j)) j))));
        match inserted with Ok _ => mret JdContinues | Err _ => jd_down end
      else
        p ← attempt (lock_jd (from_jd jd_last_set_new_prev_hash));
        match p with
        | Err _ => jd_down
        | Ok None => panic
        | Ok (Some p) =>
            mret (JdCalls (custom_job_of (ld_declare_job last) p merkle_path new_token template
              (ld_coinbase_pool_output last) (ld_downstream_job last)))
        end
  end.

Definition on_declare_error (request_id : N) : JM JdLoop :=
  removed ← attempt (take_last_declare_job_sent request_id);
  _ ← match removed with
      | Ok (Some _) => set_flag (set_custom_job_set true)
      | _ => mret tt
      end;
  mret JdContinues.

(** A message of the server: its handler under the lock, then the loop's [match]. *)
Definition jds_incoming (incoming : FromJds) : JM JdLoop :=
  match incoming with
  | JdsTokenSuccess m =>
      pushed ← attempt (lock_jd (modify (update_jd (λ j,
        set_jd_allocated_tokens (jd_allocated_tokens j ++ [m]) j))));
      match pushed with Ok _ => mret JdContinues | Err _ => jd_down end
  | JdsDeclareSuccess request_id new_token =>
      locked ← attempt (lock_jd (mret tt));
      match locked with Ok _ => on_declare_success request_id new_token | Err _ => jd_down end
  | JdsDeclareError request_id =>
      locked ← attempt (lock_jd (mret tt));
      match locked with Ok _ => on_declare_error request_id | Err _ => jd_down end
  | JdsProvideMissing request_id positions =>
      answer ← attempt (lock_jd (handle_provide_missing_transactions request_id positions));
      match answer with
      | Err _ => jd_down
      | Ok None => mret JdContinues
      | Ok (Some answer) =>
          sent ← attempt (_ ← lock_jd (mret tt); send_jds answer);
          match sent with Ok _ => mret JdContinues | Err _ => jd_down end
      end
  end.

(** The call's result, back in the loop. *)
Definition jds_call_returned (r : result unit JdError) : JM JdLoop :=
  match r with Ok _ => mret JdContinues | Err _ => jd_down end.

(** ** The task of [on_set_new_prev_hash] *)
Inductive PrevHashStage := PhStart | PhLoop.
Inductive PrevHashResult :=
| PhWaits
| PhCalls (c : CustomJob)
| PhReturns.

Definition set_prev_hash_counter (f : N → N) (j : JobDeclarator) : JobDeclarator :=
  set_jd_prev_hash (jd_last_set_new_prev_hash j) (f (jd_set_new_prev_hash_counter j) mod 256) j.
Definition less_one (c : N) : N := (c + 255)%N.

Definition prev_hash_start (p : TpSetNewPrevHash) : JM bool :=
  stored ← attempt (lock_jd (modify (update_jd (λ j,
    set_jd_prev_hash (Some p) ((jd_set_new_prev_hash_counter j + 1) mod 256) j))));
  mret (match stored with Ok _ => true | Err _ => false end).

(** One round of the loop. *)
Definition prev_hash_round (p : TpSetNewPrevHash) : JM PrevHashResult :=
  round ← attempt (lock_jd (
    j ← from_jd (λ j, j);
    if ((1 <? jd_set_new_prev_hash_counter j)%N
         && negb (bool_decide (jd_last_set_new_prev_hash j = Some p)))
    then _ ← modify (update_jd (set_prev_hash_counter less_one)); mret (Some None)
    else
      match jd_future_jobs j !! tp_template_id p with
      | Some future =>
          _ ← modify (update_jd (λ j, set_prev_hash_counter less_one (set_jd_future_jobs ∅ j)));
          mret (Some (Some future))
      | None => mret None
      end));
  match round with
  | Ok (Some (Some (job, merkle_path, template, pool_outs, downstream_job))) =>
      mret (PhCalls (custom_job_of job p merkle_path (dm_mining_job_token job) template pool_outs
        downstream_job))
  | Ok (Some None) => mret PhReturns
  | Ok None => mret PhWaits
  | Err _ => mret PhReturns
  end.

(** A turn of the task: what is left of it, and the call it goes on with. *)
Definition prev_hash_turn (p : TpSetNewPrevHash) (stage : PrevHashStage) (w : JdWorld)
    : list (TpSetNewPrevHash * PrevHashStage) * list CustomJob * JdWorld :=
  match stage with
  | PhStart =>
      let '(o, w) := prev_hash_start p w in
      (match o with Done true => [(p, PhLoop)] | _ => [] end, [], w)
  | PhLoop =>
      let '(o, w) := prev_hash_round p w in
      match o with
      | Done PhWaits => ([(p, PhLoop)], [], w)
      | Done (PhCalls c) => ([], [c], w)
      | _ => ([], [], w)
      end
  end.

(** ** Solutions *)
Definition on_solution (solution : SubmitSharesExtended) : JM unit :=
  prev_hash ← lock_jd (from_jd jd_last_set_new_prev_hash);
  match prev_hash : option TpSetNewPrevHash with
  | None => fail Unrecoverable
  | Some p =>
      _ ← lock_jd (mret tt);
      send_jds (JdsSubmitSolution (MkSubmitSolutionJd (se_extranonce solution) (tp_prev_hash p)
        (se_ntime solution) (se_nonce solution) (tp_n_bits p) (se_version solution)))
  end.
End declarator.
