(* ===== verification/MiningDownstream.v ===== *)
(** * The job declaration client towards the miners

    [jd_client/mining_downstream/mod.rs]: the node that stands for the pool in front of the
    translator.  It builds jobs from templates with its channel factory, judges the shares
    and relays them under the pool's identifiers.  Tasks that are spawned are recorded in the
    world; a function that waits is a sequence of turns.  [Panicked] also stands for the end
    of the process. *)

From S2P Require Import Prelude Str Bitcoin F32 Sv1 Sv2 RskCommitment MergeState MergeMining ProxyState Effects JdData JdState JdUpstream JobDeclarator.

Definition MAX_SUPPORTED_COINBASE_OUTPUTS : N := 252.

(** What the environment decides: the merge-mining secret and the state of the observer. *)
Record JdEnv := MkJdEnv {
  je_api_secret : option bytes;
  je_observer : ObserverEnv
}.

Section node.
Context `{B : !BitcoinLib} `{PL : !PoolLib}.

(** ** [DownstreamMiningNodeStatus] *)
Definition set_channel (channel : PoolFactory) (s : DownstreamMiningNodeStatus)
    : bool * DownstreamMiningNodeStatus :=
  match s with
  | Paired => (true, ChannelOpened channel)
  | ChannelOpened _ => (false, s)
  | SoloMinerPaired => (true, SoloMinerChannelOpend channel)
  | SoloMinerChannelOpend _ => (false, s)
  end.
Definition have_channel (s : DownstreamMiningNodeStatus) : bool :=
  match s with
  | Paired => false
  | ChannelOpened _ => true
  | SoloMinerPaired => false
  | SoloMinerChannelOpend _ => true
  end.
(** [get_upstream], as whether there is one: all nodes share the same. *)
Definition get_upstream (s : DownstreamMiningNodeStatus) : bool :=
  match s with
  | Paired => true
  | ChannelOpened _ => true
  | SoloMinerPaired => false
  | SoloMinerChannelOpend _ => false
  end.
Definition is_solo_miner (s : DownstreamMiningNodeStatus) : bool :=
  match s with SoloMinerPaired | SoloMinerChannelOpend _ => true | _ => false end.

(** [DownstreamMiningNode::new] *)
Definition downstream_mining_node_new (sender : Sender Mining) (upstream : bool)
    (solution_sender : Sender SubmitSolution) (withhold : bool)
    (miner_coinbase_output : list TxOut) (jd : bool) : DownstreamMiningNode :=
  MkDownstreamMiningNode sender (if upstream then Paired else SoloMinerPaired) None
    solution_sender withhold miner_coinbase_output jd.

(** ** Coinbase outputs *)

(** The loop of [decode_pool_coinbase_outputs]; every decoded output takes bytes, so their
    number bounds the rounds. *)
Fixpoint decode_pool_loop (fuel : nat) (encoded_outputs : bytes) : result (list TxOut) JdError :=
  match encoded_outputs with
  | [] => Ok []
  | _ :: _ =>
      match fuel with
      | 0 => Err Unrecoverable
      | S fuel =>
          match txout_consensus_decode encoded_outputs with
          | None => Err Unrecoverable
          | Some (output, rest) =>
              match decode_pool_loop fuel rest with
              | Ok outputs => Ok (output :: outputs)
              | Err e => Err e
              end
          end
      end
  end.
Definition decode_pool_coinbase_outputs (encoded_outputs : bytes) : result (list TxOut) JdError :=
  decode_pool_loop (length encoded_outputs) encoded_outputs.

Definition with_template_id (id : N) (t : NewTemplate) : NewTemplate :=
  MkNewTemplate id (nt_future_template t) (nt_version t) (nt_coinbase_tx_version t)
    (nt_coinbase_prefix t) (nt_coinbase_tx_input_sequence t) (nt_coinbase_tx_value_remaining t)
    (nt_coinbase_tx_outputs_count t) (nt_coinbase_tx_outputs t) (nt_coinbase_tx_locktime t)
    (nt_merkle_path t).
Definition preview_template_job_with_extranonce (template : NewTemplate)
    (pool_outputs : list TxOut) (extranonce_len : N) : result (bytes * bytes) JdError :=
  match pool_outputs with
  | [] => Err Unrecoverable
  | _ =>
      match try_from 255 extranonce_len with
      | None => Err Unrecoverable
      | Some extranonce_len =>
          match creator_on_new_template extranonce_len (with_template_id 0 template)
                  pool_outputs with
          | Ok job => Ok job
          | Err e => Err (RolesSv2Logic e)
          end
      end
  end.
Definition preview_template_job (template : NewTemplate) (pool_output : bytes)
    : JM (bytes * bytes) :=
  channel ← lock_down_node JdClientDownstreamMutexCorrupted
              (from_down (λ d, get_channel (dmn_status d)));
  match channel : option PoolFactory with
  | None => fail (RolesSv2Logic DownstreamDown)
  | Some channel =>
      pool_outputs ← of_result (decode_pool_coinbase_outputs pool_output);
      of_result (preview_template_job_with_extranonce template pool_outputs
        (pool_get_extranonce_len channel))
  end.

Definition validate_final_coinbase_output_count (template : NewTemplate)
    (additional_output_count : N) : result unit JdError :=
  let template_output_count := tx_outputs_to_costum_scripts (nt_coinbase_tx_outputs template) in
  match checked_add usize_max template_output_count additional_output_count with
  | None => Err (UnsupportedCoinbaseOutputCount usize_max MAX_SUPPORTED_COINBASE_OUTPUTS)
  | Some final_output_count =>
      if (MAX_SUPPORTED_COINBASE_OUTPUTS <? final_output_count)%N
      then Err (UnsupportedCoinbaseOutputCount final_output_count MAX_SUPPORTED_COINBASE_OUTPUTS)
      else Ok tt
  end.

(** ** The channel of the pool *)

(** A turn of the task of [set_channel_factory]; [true] when the task ends. *)
Definition set_channel_factory_turn : JM bool :=
  solo ← lock_down_node JdClientDownstreamMutexCorrupted
           (from_down (λ d, is_solo_miner (dmn_status d)));
  if solo : bool then mret true
  else
    taken ← attempt take_channel_factory_poll;
    match taken with
    | Ok None => mret false
    | Err _ => mret true
    | Ok (Some factory) =>
        _ ← attempt (lock_down_node JdClientDownstreamMutexCorrupted
              (modify (update_down (λ d,
                set_dmn_status (set_channel factory (dmn_status d)).2 d))));
        mret true
    end.

(** ** The miners' messages *)
Definition NoUpstreamsConnected : Sv2Error := OtherSv2Error 5.
Definition ChannelIsNeitherExtendedNeitherInAPool : Sv2Error := OtherSv2Error 6.
Definition ConversionError : Sv2Error := OtherSv2Error 7.
Definition PoisonLock : Sv2Error := OtherSv2Error 8.

Definition node_status : JM DownstreamMiningNodeStatus := from_down dmn_status.
Definition put_status (s : DownstreamMiningNodeStatus) : JM unit :=
  modify (update_down (set_dmn_status s)).

Definition relay_upstream : JM SendTo :=
  s ← node_status;
  if get_upstream s then mret RelaySameMessageToRemote
  else fail (RolesSv2Logic NoUpstreamsConnected).

Definition handle_open_extended_mining_channel (m : OpenExtendedMiningChannel) : JM SendTo :=
  s ← node_status;
  if negb (is_solo_miner s) then relay_upstream
  else
    coinbase_outputs ← from_down dmn_miner_coinbase_output;
    match pool_factory_new ((0, 0), (0, 16), (16, 32))%N 32 (f32_of_N 1) PoolKind
            coinbase_outputs (ascii_bytes "SOLO") with
    | Err e => fail (RolesSv2Logic e)
    | Ok channel_factory =>
        let s := (set_channel channel_factory s).2 in
        _ ← put_status s;
        match get_channel s with
        | None => fail (RolesSv2Logic NotFoundChannelId)
        | Some channel =>
            let '(messages, channel) :=
              pool_new_extended_channel (oe_request_id m) (oe_nominal_hash_rate m)
                (oe_min_extranonce_size m) channel in
            _ ← put_status (put_channel channel s);
            match messages with
            | Ok messages => mret (Multiple (map Respond messages))
            | Err _ => fail (RolesSv2Logic ChannelIsNeitherExtendedNeitherInAPool)
            end
        end
    end.

Definition handle_update_channel : JM SendTo :=
  s ← node_status;
  if negb (is_solo_miner s) then relay_upstream else panic.

(** The arms of [handle_submit_shares_extended] for a share that meets Bitcoin's target. *)
Definition with_extranonce (extranonce : bytes) (s : SubmitSharesExtended)
    : SubmitSharesExtended :=
  MkSubmitSharesExtended (se_channel_id s) (se_sequence_number s) (se_job_id s) (se_nonce s)
    (se_ntime s) (se_version s) extranonce.
Definition block_found (solo withhold : bool) (share : SubmitSharesExtended) (template_id : N)
    (coinbase extranonce : bytes) : JM SendTo :=
  if negb (b064k_fits coinbase) then fail (RolesSv2Logic ConversionError)
  else
    _ ← spawn (SendSolution (MkSubmitSolution template_id (se_version share) (se_ntime share)
          (se_nonce share) coinbase));
    _ ← if solo then mret tt
        else if negb (length extranonce <=? 32) then fail (RolesSv2Logic ConversionError)
        else spawn (DeclareSolution (with_extranonce extranonce share));
    if negb withhold && negb solo
    then mret (RelayNewMessage (MSubmitSharesExtended share))
    else mret SendNone.

Definition handle_submit_shares_extended (m : SubmitSharesExtended) : JM SendTo :=
  s ← node_status;
  withhold ← from_down dmn_withhold;
  match get_channel s with
  | None => fail (RolesSv2Logic NotFoundChannelId)
  | Some channel =>
      let '(verdict, channel) := pool_on_submit_shares_extended m channel in
      _ ← put_status (put_channel channel s);
      match verdict with
      | Err e => fail (RolesSv2Logic e)
      | Ok (PoolSendErrorDownstream e) => mret (Respond (MSubmitSharesError e))
      | Ok (PoolSendSubmitShareUpstream share (Some _)) =>
          if negb (is_solo_miner s) then
            match share with
            | PoolExtended share => mret (RelayNewMessage (MSubmitSharesExtended share))
            | PoolStandard => panic
            end
          else mret SendNone
      | Ok (PoolShareMeetBitcoinTarget share (Some template_id) coinbase extranonce) =>
          match share with
          | PoolExtended share =>
              block_found (is_solo_miner s) withhold share template_id coinbase extranonce
          | PoolStandard => panic
          end
      | Ok PoolShareMeetDownstreamTarget => mret SendNone
      | Ok (PoolSendSubmitShareUpstream _ None) | Ok PoolRelaySubmitShareUpstream
      | Ok (PoolShareMeetBitcoinTarget _ None _ _) => panic
      end
  end.

(** The two tasks spawned for a found block. *)
Definition send_solution (solution : SubmitSolution) : JM unit :=
  sender ← from_down dmn_solution_sender;
  if tx_open sender
  then modify (update_down (λ d,
    set_dmn_solution_sender (sender_push solution (dmn_solution_sender d)) d))
  else mret tt.
Definition declare_solution (share : SubmitSharesExtended) : JM unit :=
  jd ← from_down dmn_jd;
  if jd : bool then
    declared ← attempt (on_solution share);
    match declared with
    | Ok _ => mret tt
    | Err _ => reports (UpdateInconsistency (Some 1%N))
    end
  else mret tt.

(** [handle_message_mining_deserialized], under the lock. *)
Definition handle_from_miner (m : Mining) : JM SendTo :=
  lock_down_node (RolesSv2Logic PoisonLock)
    match m with
    | MOpenExtended m => handle_open_extended_mining_channel m
    | MSubmitSharesExtended m => handle_submit_shares_extended m
    | MSetCustomMiningJob _ => mret SendNone
    | MKind OpenStandardMiningChannel => mret SendNone
    | MKind UpdateChannel => handle_update_channel
    | MKind SubmitSharesStandard => panic
    | _ => fail (RolesSv2Logic UnexpectedMessage)
    end.

(** ** [match_send_to] *)
Fixpoint match_send_to (next_message_to_send : SendTo) (incoming : option Mining) : JM unit :=
  match next_message_to_send with
  | RelaySameMessageToRemote =>
      match incoming with
      | None => _ ← reports (UpdateJd JdDown); fail Unrecoverable
      | Some incoming => send_up incoming
      end
  | RelayNewMessage (MSubmitSharesExtended share) => spawn (RelayShare share)
  | RelayNewMessage message =>
      s ← lock_down_node JdClientDownstreamMutexCorrupted node_status;
      if get_upstream s then send_up message
      else fail (RolesSv2Logic NoUpstreamsConnected)
  | Multiple messages =>
      (fix each (messages : list SendTo) : JM unit :=
         match messages with
         | [] => mret tt
         | message :: messages =>
             sent ← attempt (match_send_to message None);
             _ ← match sent with
                 | Ok _ => mret tt
                 | Err _ => reports (UpdateDownstream JdClientMiningDownstream)
                 end;
             each messages
         end) messages
  | Respond message => send_down message
  | SendNone => mret tt
  end.

(** [DownstreamMiningNode::next] *)
Definition next (incoming : Mining) : JM unit :=
  message ← attempt (handle_from_miner incoming);
  match message with
  | Ok message => match_send_to message (Some incoming)
  | Err (RolesSv2Logic ShareDoNotMatchAnyJob) => mret tt
  | Err e => fail e
  end.
(** A message in the main task of [start]. *)
Definition miner_incoming (incoming : Mining) : JM unit :=
  handled ← attempt (next incoming);
  match handled with
  | Ok _ => mret tt
  | Err _ => reports (UpdateDownstream JdClientMiningDownstream)
  end.

(** ** A share that waits for its job's identifier *)
Definition with_job_id (job_id : N) (s : SubmitSharesExtended) : SubmitSharesExtended :=
  MkSubmitSharesExtended (se_channel_id s) (se_sequence_number s) job_id (se_nonce s)
    (se_ntime s) (se_version s) (se_extranonce s).

(** The start of the task, and a poll [elapsed] nanoseconds later; [true] when it ends. *)
Definition relay_share_start : JM bool :=
  s ← attempt (lock_down_node JdClientDownstreamMutexCorrupted node_status);
  match s with
  | Ok s =>
      if get_upstream s then mret false
      else _ ← reports (UpdateDownstream JdClientMiningDownstream); mret true
  | Err _ => _ ← reports (UpdateDownstream JdClientMiningDownstream); mret true
  end.
Definition RELAY_TIMEOUT : N := 20000000000.
Definition relay_share_poll (elapsed : N) (share : SubmitSharesExtended) : JM bool :=
  job_id ← attempt (get_job_id_poll (se_job_id share));
  match job_id with
  | Ok (Some job_id) =>
      sent ← attempt (send_up (MSubmitSharesExtended (with_job_id job_id share)));
      _ ← match sent with
          | Ok _ => mret tt
          | Err _ => reports (UpdateUpstream JDCMiningUpstream)
          end;
      mret true
  | Ok None => mret (RELAY_TIMEOUT <=? elapsed)%N
  | Err _ => mret true
  end.

(** ** Templates *)

(** [merge_mining::global]: the service is created when it is first used. *)
Definition found_service (env : JdEnv) (merge : option MergeMining) : MergeMining :=
  match merge with Some m => m | None => new (je_observer env) end.
Definition with_merge {A} (env : JdEnv) (f : MergeMining → A * MergeMining) : JM A := λ w,
  let '(a, service) := f (found_service env (jw_merge w)) in
  (Done a, set_jw_merge (Some service) w).

Definition extended_job (m : Mining) : option DownstreamJob :=
  match m with
  | MNewExtendedMiningJob job =>
      Some (MkDownstreamJob (ej_job_id job) (ej_coinbase_tx_prefix job)
              (ej_coinbase_tx_suffix job))
  | _ => None
  end.
(** The binding of the new job, or the announcement that it has none. *)
Definition bind_downstream_job (env : JdEnv) (template_generation : option N)
    (job : DownstreamJob) : JM unit :=
  bound ← match template_generation with
          | Some generation =>
              with_merge env (λ m, bind_job_generation (je_observer env) m (dj_local_job_id job)
                generation (dj_coinbase_tx_prefix job) (dj_coinbase_tx_suffix job))
          | None => mret false
          end;
  if bound : bool then mret tt
  else with_merge env (λ m, (tt, announce_unbound_job_ m (dj_local_job_id job))).

Fixpoint send_all (messages : list Mining) : JM unit :=
  match messages with
  | [] => mret tt
  | message :: messages =>
      sent ← attempt (send_down message);
      match sent with
      | Ok _ => send_all messages
      | Err _ => fail (RolesSv2Logic DownstreamDown)
      end
  end.

(** The channel's messages for a template. *)
Definition channel_on_new_template (pool_outputs : list TxOut) (new_template : NewTemplate)
    : JM (list Mining) :=
  lock_down_node JdClientDownstreamMutexCorrupted (
    s ← node_status;
    match get_channel s with
    | None => fail (RolesSv2Logic DownstreamDown)
    | Some channel =>
        let '(messages, channel) :=
          pool_on_new_template new_template (update_pool_outputs pool_outputs channel) in
        _ ← put_status (put_channel channel s);
        match messages with
        | Ok messages => mret messages
        | Err e => fail (RolesSv2Logic e)
        end
    end).

Definition on_new_template (env : JdEnv) (new_template : NewTemplate) (pool_output : bytes)
    (template_generation : option N) : JM (option DownstreamJob) :=
  s ← lock_down_node (RolesSv2Logic PoisonLock) node_status;
  if negb (have_channel s) then
    _ ← set_flag (set_new_template_handled true); mret None
  else
    pool_outputs ← of_result (decode_pool_coinbase_outputs pool_output);
    _ ← of_result (validate_final_coinbase_output_count new_template
          (N.of_nat (length pool_outputs)));
    messages ← channel_on_new_template pool_outputs new_template;
    let downstream_job := head (omap extended_job messages) in
    _ ← (if enabled (je_api_secret env) then
           match downstream_job with
           | Some job => bind_downstream_job env template_generation job
           | None => mret tt
           end
         else mret tt);
    _ ← send_all messages;
    _ ← set_flag (set_new_template_handled true);
    mret downstream_job.

Definition on_set_new_prev_hash (new_prev_hash : TpSetNewPrevHash) : JM unit :=
  s ← lock_down_node JdClientDownstreamMutexCorrupted node_status;
  if negb (have_channel s) then mret tt
  else
    job_id ← lock_down_node JdClientDownstreamMutexCorrupted (
      s ← node_status;
      match get_channel s with
      | None => fail (RolesSv2Logic DownstreamDown)
      | Some channel =>
          let '(job_id, channel) := on_new_prev_hash_from_tp new_prev_hash channel in
          _ ← put_status (put_channel channel s);
          match job_id with Ok job_id => mret job_id | Err e => fail (RolesSv2Logic e) end
      end);
    channel_ids ← lock_down_node JdClientDownstreamMutexCorrupted (
      s ← node_status;
      match get_channel s with
      | None => fail (RolesSv2Logic NotFoundChannelId)
      | Some channel => mret (get_extended_channels_ids channel)
      end);
    match channel_ids : list N with
    | [channel_id] =>
        sent ← attempt (send_down (MSetNewPrevHash (MkSetNewPrevHash channel_id job_id
          (tp_prev_hash new_prev_hash) (tp_header_timestamp new_prev_hash)
          (tp_n_bits new_prev_hash))));
        match sent with
        | Ok _ => mret tt
        | Err _ => fail (RolesSv2Logic DownstreamDown)
        end
    | _ => panic
    end.
End node.
