(* ===== verification/MinerTag.v ===== *)
(** * The miner's tag in the coinbase

    [shared/miner_tag.rs]: the tag [/DMND/<name>/] is pushed onto the coinbase script of
    every template.  The error strings of the source are constructors here. *)

From S2P Require Import Prelude Str Bitcoin.

Definition MAX_MINER_NAME_LEN : nat := 10.
Definition MAX_COINBASE_SCRIPT_LEN : nat := 100.
Definition MAX_EXTRANONCE_LEN : nat := 32.
Definition MAX_DIRECT_PUSH_LEN : nat := 75.
Definition TAG_PREFIX : str := lit "/DMND/".
Definition TAG_SUFFIX : str := lit "/".

Inductive MinerTagError :=
| NameTooLong (len : nat)
| TagNotADirectPush (len : nat)
| ScriptPrefixTooLong (prefix_len tag_push_len : nat)
| PrefixDoesNotFit.

(** [String::into_bytes] *)
Definition encode_char (c : char) : bytes :=
  let tail k := byte_of_N (128 + c / k mod 64)%N in
  match char_len_utf8 c with
  | 1 => [byte_of_N c]
  | 2 => [byte_of_N (192 + c / 64)%N; tail 1%N]
  | 3 => [byte_of_N (224 + c / 4096)%N; tail 64%N; tail 1%N]
  | _ => [byte_of_N (240 + c / 262144)%N; tail 4096%N; tail 64%N; tail 1%N]
  end.
Definition into_bytes (s : str) : bytes := concat (map encode_char s).

Definition validate_miner_name (name : str) : result unit MinerTagError :=
  if MAX_MINER_NAME_LEN <? str_len name then Err (NameTooLong (str_len name)) else Ok tt.

Definition format_miner_tag (miner_name : option str) : str :=
  TAG_PREFIX ++ default [] miner_name ++ TAG_SUFFIX.

Definition append_tag_to_script_prefix (coinbase_prefix tag : bytes) : result bytes MinerTagError :=
  if MAX_DIRECT_PUSH_LEN <? length tag then Err (TagNotADirectPush (length tag))
  else
    let tagged_prefix_len := length coinbase_prefix + length tag + 1 in
    let max_prefix_len := MAX_COINBASE_SCRIPT_LEN - MAX_EXTRANONCE_LEN in
    if max_prefix_len <? tagged_prefix_len
    then Err (ScriptPrefixTooLong (length coinbase_prefix) (length tag + 1))
    else
      let prefix := coinbase_prefix ++ [byte_of_N (N.of_nat (length tag))] ++ tag in
      if length prefix <=? 255 then Ok prefix else Err PrefixDoesNotFit.

Definition with_coinbase_prefix (prefix : bytes) (t : NewTemplate) : NewTemplate :=
  MkNewTemplate (nt_template_id t) (nt_future_template t) (nt_version t)
    (nt_coinbase_tx_version t) prefix (nt_coinbase_tx_input_sequence t)
    (nt_coinbase_tx_value_remaining t) (nt_coinbase_tx_outputs_count t)
    (nt_coinbase_tx_outputs t) (nt_coinbase_tx_locktime t) (nt_merkle_path t).

(** The template is changed in place. *)
Definition tag_new_template (template : NewTemplate) (miner_name : option str)
    : result unit MinerTagError * NewTemplate :=
  match append_tag_to_script_prefix (nt_coinbase_prefix template)
          (into_bytes (format_miner_tag miner_name)) with
  | Ok prefix => (Ok tt, with_coinbase_prefix prefix template)
  | Err e => (Err e, template)
  end.

(** ** What the tag promises *)

Lemma length_into_bytes s : length (into_bytes s) = str_len s.
Proof.
  unfold into_bytes. induction s as [|c s IH]; [done|]. cbn [map concat].
  rewrite length_app, IH. unfold str_len. cbn [sum_list_with]. f_equal.
  unfold encode_char, char_len_utf8. by repeat case_match.
Qed.
(** C17: A template whose miner name passed the check at start-up is tagged exactly when its
    script prefix leaves room for the tag; the tagged prefix is the old one, a direct push
    whose length byte is the length of the tag, and the tag, so that with any extranonce the
    script stays within the 100 bytes of a coinbase script; nothing else of the template
    changes, and nothing at all when tagging fails. *)
Theorem tag_fits_coinbase_script template name :
  (∀ n, name = Some n → validate_miner_name n = Ok tt) →
  let tag := into_bytes (format_miner_tag name) in
  let room := length (nt_coinbase_prefix template) + length tag + 1 + MAX_EXTRANONCE_LEN
                <=? MAX_COINBASE_SCRIPT_LEN in
  length tag <= 17 ∧
  match tag_new_template template name with
  | (Ok _, t) => room = true ∧
      nt_coinbase_prefix t =
        nt_coinbase_prefix template ++ [byte_of_N (N.of_nat (length tag))] ++ tag ∧
      Byte.to_N (byte_of_N (N.of_nat (length tag))) = N.of_nat (length tag) ∧
      with_coinbase_prefix (nt_coinbase_prefix template) t = template
  | (Err e, t) => room = false ∧ t = template
  end.
Proof.
  intros Hname tag room.
  assert (length tag <= 17) as Hlen.
  { subst tag. rewrite length_into_bytes. unfold format_miner_tag. rewrite !str_len_app.
    change (str_len TAG_PREFIX) with 6. change (str_len TAG_SUFFIX) with 1.
    destruct name as [n|]; [|cbn; lia]. change (default [] (Some n)) with n. specialize (Hname n eq_refl).
    unfold validate_miner_name in Hname. destruct (Nat.ltb_spec MAX_MINER_NAME_LEN (str_len n)) as [|H]; [done|].
    unfold MAX_MINER_NAME_LEN in H. lia. }
  split; [done|]. unfold tag_new_template, append_tag_to_script_prefix. fold tag.
  unfold MAX_DIRECT_PUSH_LEN. destruct (Nat.ltb_spec 75 (length tag)); [lia|].
  subst room. unfold MAX_COINBASE_SCRIPT_LEN, MAX_EXTRANONCE_LEN.
  destruct (Nat.ltb_spec (100 - 32) (length (nt_coinbase_prefix template) + length tag + 1)).
  { split; [apply Nat.leb_gt; lia|done]. }
  rewrite !length_app. cbn [length].
  destruct (Nat.leb_spec (length (nt_coinbase_prefix template) + (1 + length tag)) 255); [|lia].
  split; [apply Nat.leb_le; lia|]. split; [done|]. split; [apply byte_of_N_lt; lia|].
  by destruct template.
Qed.

Lemma tag_fits_coinbase_script_witness :
  let t := MkNewTemplate 1 false 0 1 [Byte.x03; Byte.x5a; Byte.x59; Byte.x0e; Byte.x00] 0 0 0 [] 0 [] in
  length (into_bytes (format_miner_tag (Some (lit "miner4")))) <= 17 ∧
  (∃ t', tag_new_template t (Some (lit "miner4")) = (Ok tt, t')).
Proof.
  intros t. destruct (tag_fits_coinbase_script t (Some (lit "miner4"))) as [H _].
  - by intros n [= <-].
  - split; [exact H|]. by eexists.
Defined.
