(* ===== verification/TemplateReceiver.v ===== *)
(** * The template receiver

    [jd_client/template_receiver/mod.rs] and [message_handler.rs]: the task that takes a
    token, receives templates, decides which of them is published, asks for its transactions
    and has it declared.  The local variables of the task are a record; a turn is what the
    task does between two points where it waits.  Frames that do not parse, and the end of
    the process, are [TrExits]. *)

From S2P Require Import Prelude Str Bitcoin F32 Sv1 Sv2 RskCommitment MergeState MergeMining ProxyState Effects JdData JdState JdUpstream JobDeclarator MiningDownstream MinerTag.

Definition coinbase_capacity_with_merge_mining (base : N) (enabled : bool) : N * option nat :=
  if negb enabled then (base, None)
  else match checked_add u32_max base RESERVED_COINBASE_OUTPUT_BYTES with
  | Some advertised => (advertised, Some (N.to_nat RESERVED_COINBASE_OUTPUT_BYTES))
  | None => (base, None)
  end.

Definition will_publish_template (wait_for_last_template_to_be_completed go_to_next_template
    discard_last_and_use_this : bool) : bool :=
  wait_for_last_template_to_be_completed || (negb go_to_next_template && discard_last_and_use_this).

Section receiver.
Context `{B : !BitcoinLib} `{PL : !PoolLib}.

(** [TemplateRx] *)
Record TemplateRx := MkTemplateRx {
  tr_sender : Sender ToTp;
  tr_jd : bool;
  tr_new_template_message : option NewTemplate;
  tr_miner_coinbase_output : bytes;
  tr_merge_mining_enabled : bool;
  tr_test_only_do_not_send_solution_to_tp : bool
}.
Definition set_tr_sender v r := MkTemplateRx v (tr_jd r) (tr_new_template_message r)
  (tr_miner_coinbase_output r) (tr_merge_mining_enabled r)
  (tr_test_only_do_not_send_solution_to_tp r).
Definition set_tr_new_template_message v r := MkTemplateRx (tr_sender r) (tr_jd r) v
  (tr_miner_coinbase_output r) (tr_merge_mining_enabled r)
  (tr_test_only_do_not_send_solution_to_tp r).

(** The tasks it spawns: allocations of tokens, declarations, previous hashes. *)
Inductive TrTask :=
| AllocateTask (n : nat)
| DeclareTask (a : DeclareArgs)
| PrevHashTask (p : TpSetNewPrevHash).

Record TrWorld := MkTrWorld {
  tw_client : JdWorld;
  tw_rx : Mutex TemplateRx;
  tw_tasks : list TrTask
}.
Definition set_tw_client v w := MkTrWorld v (tw_rx w) (tw_tasks w).
Definition set_tw_rx v w := MkTrWorld (tw_client w) v (tw_tasks w).
Definition update_rx (f : TemplateRx → TemplateRx) (w : TrWorld) : TrWorld :=
  set_tw_rx (store (tw_rx w) (f (guarded (tw_rx w)))) w.

(** The local variables of the task. *)
Record TrLocals := MkTrLocals {
  tl_coinbase_output_max_additional_size_sent : bool;
  tl_last_token : option (option AllocateMiningJobTokenSuccess);
  tl_pending_new_template : option NewTemplate;
  tl_pending_tx_data_template_id : option N;
  tl_pending_downstream_job : option DownstreamJob;
  tl_pending_template_generation : option N;
  tl_merge_mining_reserved_bytes : option nat
}.
Definition tr_locals_start : TrLocals := MkTrLocals false None None None None None None.
Definition set_tl_last_token v l := MkTrLocals (tl_coinbase_output_max_additional_size_sent l) v
  (tl_pending_new_template l) (tl_pending_tx_data_template_id l) (tl_pending_downstream_job l)
  (tl_pending_template_generation l) (tl_merge_mining_reserved_bytes l).
Definition set_tl_size_sent reserved l := MkTrLocals true (tl_last_token l)
  (tl_pending_new_template l) (tl_pending_tx_data_template_id l) (tl_pending_downstream_job l)
  (tl_pending_template_generation l) reserved.
Definition set_tl_pending_new_template v l :=
  MkTrLocals (tl_coinbase_output_max_additional_size_sent l) (tl_last_token l) v
  (tl_pending_tx_data_template_id l) (tl_pending_downstream_job l)
  (tl_pending_template_generation l) (tl_merge_mining_reserved_bytes l).
Definition set_tl_pending_tx v l :=
  MkTrLocals (tl_coinbase_output_max_additional_size_sent l) (tl_last_token l)
  (tl_pending_new_template l) v (tl_pending_downstream_job l)
  (tl_pending_template_generation l) (tl_merge_mining_reserved_bytes l).
Definition set_tl_pending_job job generation l :=
  MkTrLocals (tl_coinbase_output_max_additional_size_sent l) (tl_last_token l)
  (tl_pending_new_template l) (tl_pending_tx_data_template_id l) job generation
  (tl_merge_mining_reserved_bytes l).
End receiver.

Abbreviation TM := (Handler TrWorld JdError).

Section computations.
Context `{B : !BitcoinLib} `{PL : !PoolLib}.

(** A computation of the client's other objects, and a section under the receiver's mutex. *)
Definition in_client {A} (m : JM A) : TM A := λ w,
  let '(o, client) := m (tw_client w) in (o, set_tw_client client w).
Definition lock_rx {A} (m : TM A) : TM A :=
  with_lock tw_rx set_tw_rx TemplateRxMutexCorrupted m.
Definition from_rx {A} (f : TemplateRx → A) : TM A := gets (λ w, f (guarded (tw_rx w))).
Definition try_tm {A} (m : TM A) : TM (result A JdError) := λ w,
  match m w with
  | (Done a, w) => (Done (Ok a), w)
  | (Failed e, w) => (Done (Err e), w)
  | (Panicked, w) => (Panicked, w)
  end.
Definition tr_report (u : ProxyUpdate) : TM unit := in_client (reports u).
Definition tr_spawn (t : TrTask) : TM unit :=
  modify (λ w, MkTrWorld (tw_client w) (tw_rx w) (tw_tasks w ++ [t])).
Definition flags : TM JdFlags := gets (λ w, jw_flags (tw_client w)).

(** [TemplateRx::send], and the messages of its callers. *)
Definition tp_send (m : ToTp) : TM unit :=
  sender ← try_tm (lock_rx (from_rx tr_sender));
  match sender with
  | Err _ => tr_report (UpdateTp TpDown)
  | Ok sender =>
      if tx_open sender
      then modify (update_rx (λ r, set_tr_sender (sender_push m (tr_sender r)) r))
      else tr_report (UpdateTp TpDown)
  end.
Definition send_max_coinbase_size (size : N) : TM unit := tp_send (CoinbaseOutputDataSize size).
Definition send_tx_data_request (new_template : NewTemplate) : TM unit :=
  tp_send (RequestTransactionData (nt_template_id new_template)).

(** A solution in the loop of [on_new_solution]; [false] when the task ends. *)
Definition on_new_solution (solution : SubmitSolution) : TM bool :=
  test_only ← try_tm (lock_rx (from_rx tr_test_only_do_not_send_solution_to_tp));
  match test_only with
  | Err _ => _ ← tr_report (UpdateTp TpDown); mret false
  | Ok true => mret true
  | Ok false => _ ← tp_send (TpSubmitSolution solution); mret true
  end.

(** ** The main task *)

(** Where the task waits: at the top of its loop, for a token, for a message, or with a
    previous hash for the last template to be handled. *)
Inductive TrStage :=
| TrTop
| TrToken (stage : TokenStage)
| TrReceive
| TrWaitHandled (m : TpSetNewPrevHash).
Inductive TrNext :=
| TrStay (stage : TrStage) (l : TrLocals)
| TrEnds
| TrExits.

Definition down_and_end (u : ProxyUpdate) : TM TrNext := _ ← tr_report u; mret TrEnds.

(** [get_last_token]: a turn of the wait for it. *)
Definition solo_token (miner_coinbase_output : bytes) : AllocateMiningJobTokenSuccess :=
  MkToken 0 (repeat Byte.x00 32) (N.of_nat (length miner_coinbase_output))
    miner_coinbase_output true.
Definition token_turn (stage : TokenStage) (l : TrLocals) : TM TrNext :=
  turn ← try_tm (in_client (get_last_token_turn stage));
  match turn with
  | Err _ => mret (TrStay TrTop (set_tl_last_token (Some None) l))
  | Ok (r, allocations) =>
      _ ← match allocations with Some n => tr_spawn (AllocateTask n) | None => mret tt end;
      match r with
      | TokenWaits stage => mret (TrStay (TrToken stage) l)
      | TokenReady token => mret (TrStay TrTop (set_tl_last_token (Some (Some token)) l))
      end
  end.
Definition take_token (l : TrLocals) : TM TrNext :=
  jd ← try_tm (lock_rx (from_rx tr_jd));
  match jd with
  | Err _ => down_and_end (UpdateJd JdDown)
  | Ok true => token_turn GtStart l
  | Ok false =>
      miner_coinbase_output ← from_rx tr_miner_coinbase_output;
      mret (TrStay TrTop (set_tl_last_token (Some (Some (solo_token miner_coinbase_output))) l))
  end.

(** *** A new template *)

(** The decisions on a template, by whether the last one was a future one, this one is, and a
    previous hash has arrived: wait for the last one, go to the next, discard the last. *)
Definition template_decisions (last_is_future future new_phash : bool) : bool * bool * bool :=
  let wait_for_last_template_to_be_completed := (last_is_future && new_phash) || negb new_phash in
  let go_to_next_template := negb future && new_phash in
  let discard_last_and_use_this :=
    negb last_is_future && negb wait_for_last_template_to_be_completed in
  (wait_for_last_template_to_be_completed, go_to_next_template, discard_last_and_use_this).

Definition current_token (l : TrLocals) : option AllocateMiningJobTokenSuccess :=
  match tl_last_token l with Some token => token | None => None end.
Definition pool_output_count (l : TrLocals) : N :=
  match current_token l with
  | Some token =>
      match decode_pool_coinbase_outputs (tk_coinbase_output token) with
      | Ok outputs => N.of_nat (length outputs)
      | Err _ => usize_max
      end
  | None => usize_max
  end.
(** [preview_template_job] on the token's outputs. *)
Definition preview (l : TrLocals) (m : NewTemplate) : JM unit :=
  match current_token l with
  | None => fail Unrecoverable
  | Some token => _ ← preview_template_job m (tk_coinbase_output token); mret tt
  end.

(** The template with the RSK commitment and its generation, or the pristine template. *)
Definition prepare_rsk (env : JdEnv) (reserved_bytes : nat) (l : TrLocals) (m : NewTemplate)
    : TM (NewTemplate * option N) :=
  applied ← in_client (with_merge env (λ service,
    let '(r, m, service) := apply_to_template_with_pool_output_count (je_observer env) service m
                              reserved_bytes (pool_output_count l) in
    ((r, m), service)));
  match applied : result bool MergeMiningError * NewTemplate with
  | (Err _, _) => mret (m, None)
  | (Ok false, applied) => mret (applied, None)
  | (Ok true, applied) =>
      generation ← in_client (with_merge env (λ service,
        (template_generation_ service (nt_template_id applied), service)));
      match generation : option N with
      | None => mret (m, None)
      | Some generation =>
          previewed ← in_client (attempt (preview l applied));
          match previewed with
          | Ok _ => mret (applied, Some generation)
          | Err _ =>
              _ ← in_client (with_merge env (λ service,
                    (tt, discard_template_generation service generation)));
              mret (m, None)
          end
      end
  end.

(** A template that is published: the two branches differ in whether the declaration under
    way is given up ([discard]). *)
Definition publish_template (env : JdEnv) (new_phash discard : bool) (l : TrLocals)
    (m : NewTemplate) : TM TrNext :=
  _ ← (if new_phash then in_client (set_flag (set_new_phash_arrived false)) else mret tt);
  _ ← (if discard then in_client (set_flag (set_custom_job_set true)) else mret tt);
  _ ← in_client (set_flag (set_new_template_handled false));
  let l := set_tl_pending_tx (Some (nt_template_id m)) l in
  _ ← send_tx_data_request m;
  stored ← try_tm (lock_rx (modify (update_rx (set_tr_new_template_message (Some m)))));
  match stored with
  | Err _ => down_and_end (UpdateTp TpDown)
  | Ok _ =>
      match current_token l with
      | None => mret TrEnds
      | Some token =>
          job ← in_client (attempt (on_new_template env m (tk_coinbase_output token)
                  (tl_pending_template_generation l)));
          match job with
          | Ok job =>
              mret (TrStay TrTop (set_tl_pending_job job (tl_pending_template_generation l) l))
          | Err _ =>
              _ ← in_client (set_flag (set_new_template_handled true));
              _ ← tr_report (UpdateDownstream JdClientMiningDownstream);
              mret (TrStay TrTop l)
          end
      end
  end.

Definition new_template (env : JdEnv) (miner_name : option str) (l : TrLocals)
    (m : NewTemplate) : TM TrNext :=
  f ← flags;
  if negb (is_new_template_handled f && bool_decide (tl_pending_tx_data_template_id l = None))
  then mret (TrStay TrTop (set_tl_pending_new_template (Some m) l))
  else match tag_new_template m miner_name with
  | (Err _, _) => down_and_end (UpdateTp TpDown)
  | (Ok _, m) =>
      let new_phash := is_new_phash_arrived f in
      last ← try_tm (lock_rx (from_rx tr_new_template_message));
      match last with
      | Err _ => down_and_end (UpdateTp TpDown)
      | Ok last =>
          let last_is_future :=
            match last with Some t => nt_future_template t | None => false end in
          let '(wait, next, discard) :=
            template_decisions last_is_future (nt_future_template m) new_phash in
          prepared ← (if will_publish_template wait next discard then
                        let l := set_tl_pending_job None None l in
                        match tl_merge_mining_reserved_bytes l with
                        | Some reserved_bytes =>
                            prepared ← prepare_rsk env reserved_bytes l m;
                            mret (prepared.1, set_tl_pending_job None prepared.2 l)
                        | None => mret (m, l)
                        end
                      else mret (m, l));
          let '(m, l) := prepared : NewTemplate * TrLocals in
          if wait : bool then publish_template env new_phash false l m
          else if next : bool then mret (TrStay TrTop l)
          else if discard : bool then publish_template env new_phash true l m
          else panic
      end
  end.

(** *** The other messages *)

(** The previous hash, once the last template is handled. *)
Definition set_new_prev_hash (env : JdEnv) (jd : bool) (l : TrLocals) (m : TpSetNewPrevHash)
    : TM TrNext :=
  _ ← (if enabled (je_api_secret env) && (length (tp_prev_hash m) =? 32)
       then in_client (with_merge env (λ service,
         (tt, record_chain_state_ (je_observer env) service (tp_template_id m) (tp_prev_hash m)
                (tp_n_bits m))))
       else mret tt);
  started ← (if jd then
               try_tm (_ ← in_client (lock_jd (mret tt)); tr_spawn (PrevHashTask m))
             else mret (Ok tt));
  match started with
  | Err _ => down_and_end (UpdateJd JdDown)
  | Ok _ =>
      sent ← in_client (attempt (on_set_new_prev_hash m));
      match sent with
      | Ok _ => mret (TrStay TrTop l)
      | Err _ => down_and_end (UpdateTp TpDown)
      end
  end.
Definition wait_handled (env : JdEnv) (jd : bool) (l : TrLocals) (m : TpSetNewPrevHash)
    : TM TrNext :=
  f ← flags;
  if is_new_template_handled f then set_new_prev_hash env jd l m
  else mret (TrStay (TrWaitHandled m) l).

(** Everything about the template under way is forgotten, the token too. *)
Definition forget_template (l : TrLocals) : TrLocals :=
  set_tl_last_token None (set_tl_pending_job None None (set_tl_pending_tx None l)).

Definition transaction_data (env : JdEnv) (jd : bool) (l : TrLocals) (template_id : N)
    (excess_data : bytes) (transaction_list : list bytes) : TM TrNext :=
  if negb (bool_decide (tl_pending_tx_data_template_id l = Some template_id))
  then mret (TrStay TrTop l)
  else
    new_template_message ← try_tm (lock_rx (from_rx tr_new_template_message));
    match new_template_message with
    | Err _ | Ok None =>
        _ ← tr_report (UpdateTp TpDown); mret (TrStay TrTop (forget_template l))
    | Ok (Some template) =>
        if negb (nt_template_id template =? template_id)%N
        then mret (TrStay TrTop (forget_template l))
        else
          merge_mining_enabled ← from_rx tr_merge_mining_enabled;
          _ ← match (if merge_mining_enabled : bool then tl_pending_template_generation l else None) with
              | Some generation =>
                  in_client (with_merge env (λ service,
                    (tt, record_transaction_count (je_observer env) service generation
                           (N.of_nat (length transaction_list)))))
              | None => mret tt
              end;
          match current_token l with
          | None => mret TrEnds
          | Some token =>
              let downstream_job := tl_pending_downstream_job l in
              _ ← match (if jd then downstream_job else None) with
                  | Some job =>
                      tr_spawn (DeclareTask (MkDeclareArgs template (tk_mining_job_token token)
                        transaction_list excess_data (tk_coinbase_output token) job))
                  | None => mret tt
                  end;
              mret (TrStay TrTop (forget_template l))
          end
    end.

(** [handle_request_tx_data_error]: only a stale template reaches the loop's arm; any other
    error is [NoValidTemplate], which the loop ignores. *)
Definition STALE_TEMPLATE_ID : str := lit "stale-template-id".
Definition transaction_data_error (l : TrLocals) (template_id : N) (error_code : str)
    : TM TrNext :=
  if bool_decide (error_code = STALE_TEMPLATE_ID) then
    mret (TrStay TrTop
      (if bool_decide (tl_pending_tx_data_template_id l = Some template_id)
       then forget_template l else l))
  else mret (TrStay TrTop l).

Definition tp_message (env : JdEnv) (miner_name : option str) (jd : bool) (l : TrLocals)
    (m : FromTp) : TM TrNext :=
  match m with
  | TpNewTemplate m => new_template env miner_name l m
  | TpNewPrevHash m =>
      _ ← in_client (set_flag (set_new_phash_arrived true)); wait_handled env jd l m
  | TpTransactionData template_id excess_data transaction_list =>
      transaction_data env jd l template_id excess_data transaction_list
  | TpTransactionDataError template_id error_code =>
      transaction_data_error l template_id error_code
  end.

(** What arrives while the task waits: a message, or the end of the connection. *)
Definition tp_received (env : JdEnv) (miner_name : option str) (jd : bool) (l : TrLocals)
    (received : option FromTp) : TM TrNext :=
  match received with
  | None => down_and_end (UpdateTp TpDown)
  | Some m => tp_message env miner_name jd l m
  end.

(** The top of the loop: the token, the size the template provider must leave, and the
    template that was kept for later. *)
Definition advertise (l : TrLocals) (token : AllocateMiningJobTokenSuccess) : TM TrLocals :=
  if tl_coinbase_output_max_additional_size_sent l then mret l
  else
    merge_mining_enabled ← from_rx tr_merge_mining_enabled;
    let '(advertised_size, reserved_bytes) :=
      coinbase_capacity_with_merge_mining (tk_coinbase_output_max_additional_size token)
        merge_mining_enabled in
    _ ← send_max_coinbase_size advertised_size;
    mret (set_tl_size_sent reserved_bytes l).
Definition loop_top (env : JdEnv) (miner_name : option str) (l : TrLocals) : TM TrNext :=
  match tl_last_token l with
  | None => take_token l
  | Some None => mret TrEnds
  | Some (Some token) =>
      l ← advertise l token;
      f ← flags;
      match (if is_new_template_handled f && bool_decide (tl_pending_tx_data_template_id l = None)
             then tl_pending_new_template l else None) with
      | Some pending => new_template env miner_name (set_tl_pending_new_template None l) pending
      | None => mret (TrStay TrReceive l)
      end
  end.

(** A turn of the main task; [received] is used when it waits for a message. *)
Definition tr_turn (env : JdEnv) (miner_name : option str) (jd : bool) (stage : TrStage)
    (received : option FromTp) (l : TrLocals) : TM TrNext :=
  match stage with
  | TrTop => loop_top env miner_name l
  | TrToken stage => token_turn stage l
  | TrReceive => tp_received env miner_name jd l received
  | TrWaitHandled m => wait_handled env jd l m
  end.

(** [start_templates], before the task. *)
Definition start_templates (env : JdEnv) : TM bool :=
  jd ← lock_rx (from_rx tr_jd);
  merge_mining_enabled ← lock_rx (from_rx tr_merge_mining_enabled);
  _ ← (if merge_mining_enabled : bool
       then in_client (with_merge env (λ service,
              (tt, begin_template_session (je_observer env) service)))
       else mret tt);
  mret jd.
End computations.
