(* ===== verification/JdModel.v ===== *)
(** * A concrete pool-side library

    One instance of [PoolLib], over [bitcoin_model], and a client that has just connected:
    the theorems on the job declaration client are instantiated here.  A factory keeps its
    channels, targets, outputs and the template of the current job; a job carries the
    template's prefix and, as its suffix, the outputs of the pool and of the template. *)

From S2P Require Import Prelude Str Bitcoin BitcoinModel F32 Sv1 Sv2 RskCommitment MergeState MergeMining ProxyState Effects JdData JdState JdUpstream.

Record ToyFactory := MkToyFactory {
  tf_channels : list N;
  tf_target : bytes;
  tf_outputs : list (@TxOut bitcoin_model);
  tf_template : option NewTemplate;
  tf_jobs : N
}.

(** The bytes after the miner's extranonce. *)
Definition toy_suffix (template : NewTemplate) (outputs : list (@TxOut bitcoin_model)) : bytes :=
  concat (map serialize_txout outputs) ++ nt_coinbase_tx_outputs template.
Definition toy_job (channel : N) (f : ToyFactory) (t : NewTemplate) : Mining :=
  MNewExtendedMiningJob (MkNewExtendedMiningJob channel (tf_jobs f) None (nt_version t) true
    (nt_merkle_path t) (nt_coinbase_prefix t) (toy_suffix t (tf_outputs f))).

#[export] Instance toy_pool : PoolLib (B := bitcoin_model) := {|
  PoolFactory := ToyFactory;
  pool_factory_new _ _ _ _ outputs _ := Ok (MkToyFactory [] [] outputs None 1);
  replicate_upstream_extended_channel_only_jd target _ channel _ f :=
    Some (MkToyFactory (tf_channels f ++ [channel]) target (tf_outputs f) (tf_template f) (tf_jobs f));
  pool_update_target_for_channel _ target f :=
    MkToyFactory (tf_channels f) target (tf_outputs f) (tf_template f) (tf_jobs f);
  pool_set_target target f :=
    (target, MkToyFactory (tf_channels f) target (tf_outputs f) (tf_template f) (tf_jobs f));
  pool_get_extranonce_len _ := 32%N;
  update_pool_outputs outputs f :=
    MkToyFactory (tf_channels f) (tf_target f) outputs (tf_template f) (tf_jobs f);
  pool_on_new_template t f :=
    (Ok (map (λ c, toy_job c f t) (tf_channels f)),
     MkToyFactory (tf_channels f) (tf_target f) (tf_outputs f) (Some t) (tf_jobs f + 1));
  on_new_prev_hash_from_tp _ f := (Ok (tf_jobs f), f);
  get_extended_channels_ids := tf_channels;
  pool_new_extended_channel _ _ _ f := (Ok [], f);
  pool_on_submit_shares_extended share f :=
    (Ok (PoolSendSubmitShareUpstream (PoolExtended share) (Some 1%N)), f);
  creator_on_new_template _ t outputs := Ok (nt_coinbase_prefix t, toy_suffix t outputs);
  compute_wtxid tx := compute_txid tx;
  tx_outputs_to_costum_scripts outputs := N.of_nat (length outputs / 9);
  Id := N;
  id_new := 1%N;
  id_next id := (id, (id + 1)%N)
|}.

Definition toy_upstream : JdUpstream := jd_upstream_new 8 (MkSender true []).
Definition toy_node : DownstreamMiningNode :=
  MkDownstreamMiningNode (MkSender true []) Paired None (MkSender true []) false [] true.
Definition toy_declarator : JobDeclarator :=
  MkJobDeclarator (MkSender true []) [] id_new 8 ∅ None 0 ∅.
Definition toy_world : JdWorld :=
  MkJdWorld jd_flags_start (new_mutex toy_upstream) false (new_mutex toy_node)
    (new_mutex toy_declarator) None [] [].
(** The same client once the pool has opened channel 5 and its factory was handed over. *)
Definition toy_factory : ToyFactory := MkToyFactory [5%N] [] [] None 1.
Definition toy_open_world : JdWorld :=
  MkJdWorld jd_flags_start
    (new_mutex (MkJdUpstream (Some 5%N) 8 16 (MkSender true []) true None
      template_to_job_id_new id_new)) false
    (new_mutex (set_dmn_status (ChannelOpened toy_factory) toy_node))
    (new_mutex toy_declarator) None [] [].

Definition toy_template (id : N) (future : bool) : NewTemplate :=
  MkNewTemplate id future 2 1 [] 7 0 0 [] 9 [].
Definition toy_prev_hash (template_id : N) : TpSetNewPrevHash :=
  MkTpSetNewPrevHash template_id [Byte.x01] 3 4 [].
Definition toy_job_of (local_job_id : N) : DownstreamJob := MkDownstreamJob local_job_id [] [].
Definition toy_custom (template_id local_job_id : N) : CustomJob :=
  MkCustomJob (MkDeclareMiningJob 1 [] 2 [] [] [] []) (toy_prev_hash template_id) [] [] 1 []
    7 0 [] 9 template_id (toy_job_of local_job_id).
