(* ===== verification/JdUpstreamProps.v ===== *)
(** * What the custom jobs promise

    A share leaves under the identifier the pool gave to exactly the job its miner worked
    on, and the pool sees custom jobs in the order their requests were numbered. *)

From S2P Require Import Prelude Str Bitcoin BitcoinModel F32 Sv1 Sv2 RskCommitment MergeState MergeMining ProxyState Effects JdData JdState JdUpstream JdModel.

(** ** The buffer of identifiers *)

(** The newest entry of each key, oldest first. *)
Definition latest_entries (inserts : list (N * N)) : list (N * N) :=
  fold_left (λ l e, retain (λ x, negb (x.1 =? e.1)%N) l ++ [e]) inserts [].
Definition last_n {A} (n : nat) (l : list A) : list A := drop (length l - n) l.

(** [l] without the entry of [k]. *)
Abbreviation without k l := (retain (λ x : N * N, negb (x.1 =? k)%N) l).

Lemma without_none (k : N) (l : list (N * N)) : k ∉ l.*1 → without k l = l.
Proof.
  intros H. apply retain_all. intros [k' v] Hin. cbn [fst]. apply negb_true_iff, N.eqb_neq.
  intros ->. apply H. apply list_elem_of_fmap. by exists (k, v).
Qed.
Lemma without_app k l1 l2 : without k (l1 ++ l2) = without k l1 ++ without k l2.
Proof. apply retain_app. Qed.
Lemma without_length (k : N) (l : list (N * N)) :
  NoDup l.*1 → k ∈ l.*1 → S (length (without k l)) = length l.
Proof.
  induction l as [|[k' v] l IH]; cbn [fmap list_fmap fst]; intros Hnd Hin;
    [by apply elem_of_nil in Hin|].
  apply NoDup_cons in Hnd as [Hn Hnd]. rewrite retain_cons. cbn [fst].
  destruct (N.eqb_spec k' k) as [->|Hne]; cbn [negb].
  - by rewrite without_none.
  - cbn [length]. f_equal. apply IH; [done|]. by apply elem_of_cons in Hin as [->|].
Qed.
Lemma without_keys (k : N) (l : list (N * N)) : NoDup l.*1 → NoDup (without k l).*1 ∧ k ∉ (without k l).*1.
Proof.
  intros Hnd. split.
  - induction l as [|[k' v] l IH]; [done|]. cbn [fmap list_fmap fst] in Hnd.
    apply NoDup_cons in Hnd as [Hn Hnd]. rewrite retain_cons.
    destruct (negb _); [|by apply IH]. cbn [fmap list_fmap fst]. apply NoDup_cons.
    split; [|by apply IH]. intros Hin. apply Hn. apply list_elem_of_fmap in Hin as (x & -> & Hx).
    apply elem_of_retain in Hx as [_ Hx]. by apply list_elem_of_fmap_2.
  - intros Hin. apply list_elem_of_fmap in Hin as (x & -> & Hx).
    apply elem_of_retain in Hx as [Hx _]. by rewrite N.eqb_refl in Hx.
Qed.

(** The buffer is the end of the newest entries, and only a full one has lost some. *)
Definition buffer_of (l : list (N * N)) (b : JobIdBuffer) : Prop :=
  NoDup l.*1 ∧ length (jb_buffer b) <= jb_capacity b ∧
  ∃ lost, l = lost ++ jb_buffer b ∧ (lost ≠ [] → length (jb_buffer b) = jb_capacity b).

Lemma buffer_of_insert l b k v :
  0 < jb_capacity b → buffer_of l b → buffer_of (without k l ++ [(k, v)]) (job_id_insert k v b).
Proof.
  intros Hc (Hnd & Hle & lost & -> & Hlost). unfold buffer_of, job_id_insert. cbn [jb_buffer jb_capacity].
  destruct (without_keys k _ Hnd) as [Hnd' Hk]. split.
  { rewrite fmap_app. apply NoDup_app. split; [done|]. split; [|apply NoDup_singleton].
    intros x Hx Hx'. apply list_elem_of_singleton in Hx'. cbn in Hx'. by subst. }
  clear Hnd' Hk. rewrite fmap_app in Hnd. apply NoDup_app in Hnd as (Hn1 & Hdis & Hn2).
  rewrite without_app. set (lost' := without k lost).
  assert (length (without k (jb_buffer b)) <= length (jb_buffer b)) as Hlen by apply length_retain.
  assert (lost' ≠ [] → lost ≠ []) as Hne by (by intros H ->).
  destruct (Nat.eqb_spec (length (without k (jb_buffer b))) (jb_capacity b)) as [He|He].
  - destruct (without k (jb_buffer b)) as [|e r] eqn:Er; [cbn in He; lia|]. cbn [tail].
    split; [rewrite length_app; cbn in *; lia|].
    exists (lost' ++ [e]). split; [by rewrite <- !(assoc_L (++))|].
    intros _. rewrite length_app. cbn in *. lia.
  - split; [rewrite length_app; cbn; lia|]. exists lost'. split; [by rewrite (assoc_L (++))|].
    intros Hl. rewrite length_app. cbn.
    destruct (decide (k ∈ (jb_buffer b).*1)) as [Hin|Hin].
    + pose proof (without_length k _ Hn2 Hin). specialize (Hlost (Hne Hl)). lia.
    + rewrite without_none in He |- * by done. specialize (Hlost (Hne Hl)). lia.
Qed.

Lemma buffer_of_fold inserts l b :
  0 < jb_capacity b → buffer_of l b →
  buffer_of (fold_left (λ l e, without e.1 l ++ [e]) inserts l)
    (fold_left (λ b e, job_id_insert e.1 e.2 b) inserts b).
Proof.
  intros Hc H. revert l b Hc H. induction inserts as [|[k v] r IH]; intros l b Hc H; [done|].
  apply IH; [done|]. by apply buffer_of_insert.
Qed.

(** The buffer of pool job identifiers is exactly the last [capacity] entries among the
    newest entry of each miner job: however identifiers are inserted, repeated or evicted,
    looking up a job gives the newest identifier recorded for it, and only the oldest jobs
    are forgotten. *)
Theorem job_ids_are_the_newest (inserts : list (N * N)) (capacity : nat) :
  0 < capacity →
  jb_buffer (fold_left (λ b e, job_id_insert e.1 e.2 b) inserts (job_id_buffer_new capacity)) =
    last_n capacity (latest_entries inserts).
Proof.
  intros Hc. destruct (buffer_of_fold inserts [] (job_id_buffer_new capacity)) as (_ & Hle & lost & Hl & Hlost).
  - done.
  - split; [constructor|]. split; [cbn; lia|]. by exists [].
  - unfold latest_entries. rewrite Hl. unfold last_n. set (b := fold_left _ _ _) in *.
    assert (jb_capacity b = capacity) as Hcap.
    { subst b. generalize (eq_refl : jb_capacity (job_id_buffer_new capacity) = capacity).
      generalize (job_id_buffer_new capacity). clear. induction inserts as [|e r IH]; intros b Hb; [done|].
      by apply IH. }
    rewrite Hcap in *. rewrite length_app. destruct lost as [|x lost].
    + cbn [length app]. replace (0 + length (jb_buffer b) - capacity) with 0 by lia. by rewrite drop_0.
    + rewrite <- (Hlost ltac:(done)).
      replace (length (x :: lost) + length (jb_buffer b) - length (jb_buffer b))
        with (length (x :: lost)) by lia.
      by rewrite drop_app_length.
Qed.

Lemma job_ids_are_the_newest_witness :
  0 < 2 ∧ jb_buffer (fold_left (λ b e, job_id_insert e.1 e.2 b)
            [(1, 10); (2, 20); (1, 11); (3, 30)]%N (job_id_buffer_new 2)) =
          [(1, 11); (3, 30)]%N.
Proof. split; [lia|]. by rewrite (job_ids_are_the_newest _ 2 ltac:(lia)). Defined.

(** ** Computations that leave the custom jobs alone *)
Section frames.
Context `{B : !BitcoinLib} `{PL : !PoolLib}.
Implicit Types (w : JdWorld).

Definition custom_sent w : list SetCustomMiningJob :=
  omap (λ m, match m with MSetCustomMiningJob m => Some m | _ => None end)
    (tx_sent (ju_sender (guarded (jw_up w)))).
Definition job_ids w : TemplateToJobId := ju_template_to_job_id (guarded (jw_up w)).
(** What the custom jobs depend on. *)
Definition custom_view w : bool * TemplateToJobId * list SetCustomMiningJob :=
  (jw_custom_job_send_lock w, job_ids w, custom_sent w).
Definition same_customs w w' : Prop := custom_view w' = custom_view w.
#[export] Instance same_customs_order : WorldOrder same_customs.
Proof.
  split; [|done..]. split; [done|]. intros w1 w2 w3. unfold same_customs. congruence.
Qed.
Abbreviation framed := (follows same_customs).
End frames.
Abbreviation framed := (follows same_customs).
#[export] Existing Instance same_customs_order.
Ltac framed := follows ltac:(reflexivity).

Section pool.
Context `{B : !BitcoinLib} `{PL : !PoolLib}.
Implicit Types (w : JdWorld).

Lemma framed_send_down m : framed (send_down m).
Proof. unfold send_down, from_down. framed. Qed.
Lemma framed_report u : framed (modify (report u)).
Proof. framed. Qed.
Lemma framed_relay_downstream : framed relay_downstream.
Proof. unfold relay_downstream, from_up. framed. Qed.
Lemma framed_set_target channel_id target : framed (handle_set_target channel_id target).
Proof. unfold handle_set_target, from_up, from_down. framed. Qed.
Lemma framed_open_success spm m : framed (handle_open_extended_mining_channel_success spm m).
Proof. unfold handle_open_extended_mining_channel_success. framed. Qed.

(** ** A pool message *)

(** What an acknowledgement does to the identifiers. *)
Definition acknowledge (request_id job_id : N) (t : TemplateToJobId) : TemplateToJobId :=
  match tj_requests t !! request_id with
  | Some request => register_job_id (dj_local_job_id (pc_downstream_job request)) job_id
                      (take_request request_id t).2
  | None => (take_request request_id t).2
  end.
Definition pool_message (m : Mining) (t : TemplateToJobId) : TemplateToJobId :=
  match m with
  | MSetCustomMiningJobSuccess request_id job_id => acknowledge request_id job_id t
  | MSetCustomMiningJobError request_id => (take_request request_id t).2
  | _ => t
  end.

Lemma handle_from_pool_view spm m w :
  let w' := (handle_from_pool spm m w).2 in
  jw_custom_job_send_lock w' = jw_custom_job_send_lock w ∧ custom_sent w' = custom_sent w ∧
  (job_ids w' = job_ids w ∨ job_ids w' = pool_message m (job_ids w)).
Proof.
  assert (∀ {A} (n : JM A), framed n → let w' := (n w).2 in
    jw_custom_job_send_lock w' = jw_custom_job_send_lock w ∧ custom_sent w' = custom_sent w ∧
    (job_ids w' = job_ids w ∨ job_ids w' = pool_message m (job_ids w))) as Hf.
  { intros A n Hn w'. specialize (Hn w). unfold same_customs, custom_view in Hn. fold w' in Hn.
    injection Hn as -> -> ->. eauto. }
  destruct m; try (apply Hf; unfold handle_from_pool; framed;
    first [apply framed_open_success|apply framed_set_target|apply framed_relay_downstream]).
  - unfold handle_from_pool, lock_up, with_lock. destruct (poisoned _); [by eauto|].
    unfold handle_set_custom_mining_job_success, pool_message, acknowledge, mbind, M_bind, from_up, gets, job_ids.
    cbn [take_request fst]. destruct (tj_requests _ !! request_id) as [p|]; cbn; eauto.
  - unfold handle_from_pool, lock_up, with_lock. destruct (poisoned _); [by eauto|].
    unfold handle_set_custom_mining_job_error, pool_message, mbind, M_bind, from_up, gets, job_ids.
    cbn [take_request fst]. destruct (tj_requests _ !! request_id) as [p|]; cbn; eauto.
Qed.

Lemma upstream_incoming_view spm m w :
  let w' := (upstream_incoming spm m w).2 in
  jw_custom_job_send_lock w' = jw_custom_job_send_lock w ∧ custom_sent w' = custom_sent w ∧
  (job_ids w' = job_ids w ∨ job_ids w' = pool_message m (job_ids w)).
Proof.
  intros w'. pose proof (handle_from_pool_view spm m w) as H.
  assert (custom_view w' = custom_view (handle_from_pool spm m w).2) as Hv.
  { subst w'. unfold upstream_incoming.
    destruct (handle_from_pool spm m w) as [[[]|e|] w1]; try done. cbn [snd].
    pose proof (framed_send_down m w1) as Hs. by destruct (send_down m w1) as [[] w2]. }
  unfold custom_view in Hv. by injection Hv as -> -> ->.
Qed.

(** ** A turn of [set_custom_jobs] *)

Lemma send_up_eq m w :
  send_up m w =
    if poisoned (jw_up w) then (Failed JdClientUpstreamMutexCorrupted, w)
    else if tx_open (ju_sender (guarded (jw_up w)))
    then (Done tt, update_up (λ u, set_ju_sender (sender_push m (ju_sender u)) u) w)
    else (Failed Unrecoverable, w).
Proof.
  unfold send_up, lock_up, with_lock, from_up, gets, mbind, M_bind.
  destruct (poisoned _); [done|]. by destruct (tx_open _).
Qed.

Definition pending_of (c : CustomJob) : PendingCustomJob :=
  MkPendingCustomJob (cj_template_id c) (cj_downstream_job c).

Lemma update_requests_eq e f w :
  lock_up e (update_requests f) w =
    if poisoned (jw_up w) then (Failed e, w)
    else (Done tt, update_up (λ u, set_ju_template_to_job_id (f (ju_template_to_job_id u)) u) w).
Proof. unfold lock_up, with_lock. by destruct (poisoned _). Qed.

(** Either the message leaves and its request is registered, or the request is not. *)
Lemma send_custom_job_view ch r c w :
  let '(o, w') := send_custom_job ch r c w in
  jw_custom_job_send_lock w' = jw_custom_job_send_lock w ∧
  ((o = Done tt ∧ custom_sent w' = custom_sent w ++ [set_custom_mining_job ch r c] ∧
    job_ids w' = register_request r (pending_of c) (job_ids w)) ∨
   (o ≠ Done tt ∧ custom_sent w' = custom_sent w ∧
    (job_ids w' = job_ids w ∨
     job_ids w' = (take_request r (register_request r (pending_of c) (job_ids w))).2))).
Proof.
  unfold send_custom_job. destruct (negb _).
  { cbn. split; [done|]. right. eauto. }
  unfold mbind, M_bind. rewrite update_requests_eq.
  destruct (poisoned (jw_up w)) eqn:Hp.
  { cbn. split; [done|]. right. eauto. }
  rewrite send_up_eq. cbn [jw_up update_up set_jw_up store poisoned guarded].
  rewrite Hp. cbn [ju_sender set_ju_template_to_job_id].
  destruct (tx_open _).
  - split; [done|]. left. split; [done|]. split; [|done].
    unfold custom_sent. cbn. by rewrite omap_app.
  - rewrite update_requests_eq. cbn [jw_up update_up set_jw_up store poisoned]. rewrite Hp.
    split; [done|]. right. split; [done|]. split; [done|]. by right.
Qed.
End pool.

(** ** Every interleaving of the custom jobs

    The calls of [set_custom_jobs] that have not returned, between any turns of the other
    tasks; beside the world, what was drawn and acknowledged so far. *)
Section system.
Context `{B : !BitcoinLib} `{PL : !PoolLib}.

Record Customs := MkCustoms {
  cu_world : JdWorld;
  cu_tasks : list (CustomJob * CustomStage);
  cu_drawn : list (N * CustomJob);
  cu_acknowledged : list (N * N)
}.

(** What a turn of the call [c] at [stage] leaves of it, and the identifier it draws. *)
Definition left_over (c : CustomJob) (r : CustomResult) : list (CustomJob * CustomStage) :=
  match r with CustomWaits stage => [(c, stage)] | _ => [] end.
Definition draws (c : CustomJob) (stage : CustomStage) (r : CustomResult)
    : list (N * CustomJob) :=
  match stage, r with CsLock, CustomWaits (CsChannel id) => [(id, c)] | _, _ => [] end.
Definition acknowledges (m : Mining) : list (N * N) :=
  match m with MSetCustomMiningJobSuccess request_id job_id => [(request_id, job_id)] | _ => [] end.

Inductive call_turn : Customs → Customs → Prop :=
| turn_of_call w ts1 ts2 d a c stage r w' :
    custom_turn c stage w = (r, w') →
    call_turn (MkCustoms w (ts1 ++ (c, stage) :: ts2) d a)
      (MkCustoms w' (ts1 ++ left_over c r ++ ts2) (d ++ draws c stage r) a).

(** Another task may do anything that is framed. *)
Inductive customs_step : Customs → Customs → Prop :=
| step_call w ts d a c : customs_step (MkCustoms w ts d a) (MkCustoms w (ts ++ [(c, CsStart)]) d a)
| step_turn s s' : call_turn s s' → customs_step s s'
| step_pool w ts d a spm m :
    customs_step (MkCustoms w ts d a)
      (MkCustoms (upstream_incoming spm m w).2 ts d (a ++ acknowledges m))
| step_other w ts d a w' :
    custom_view w' = custom_view w → customs_step (MkCustoms w ts d a) (MkCustoms w' ts d a).

(** A client that has just connected. *)
Definition customs_start (w : JdWorld) : Customs := MkCustoms w [] [] [].
Definition fresh_customs (w : JdWorld) : Prop :=
  custom_view w = (false, template_to_job_id_new, []).
Definition customs_reach (w : JdWorld) : Customs → Prop := rtc customs_step (customs_start w).

(** ** The invariant *)

(** The calls that wait for the channel: they hold the lock. *)
Definition holders (ts : list (CustomJob * CustomStage)) : list (N * CustomJob) :=
  omap (λ t, match t.2 with CsStart | CsLock => None | CsChannel id => Some (id, t.1) end) ts.
Definition is_job (d : N * CustomJob) (m : SetCustomMiningJob) : Prop :=
  ∃ channel_id, m = set_custom_mining_job channel_id d.1 d.2.

Record customs_ok (s : Customs) : Prop := {
  co_lock : length (holders (cu_tasks s)) = if jw_custom_job_send_lock (cu_world s) then 1 else 0;
  co_order : ∃ served : list (N * CustomJob),
    Forall2 is_job served (custom_sent (cu_world s)) ∧
    served ++ holders (cu_tasks s) `sublist_of` cu_drawn s;
  co_requests : ∀ r p, tj_requests (job_ids (cu_world s)) !! r = Some p →
    ∃ c m, (r, c) ∈ cu_drawn s ∧ m ∈ custom_sent (cu_world s) ∧ is_job (r, c) m ∧ p = pending_of c;
  co_ids : ∀ l j, (l, j) ∈ jb_buffer (tj_downstream_to_pool_job_id (job_ids (cu_world s))) →
    ∃ r c m, (r, j) ∈ cu_acknowledged s ∧ (r, c) ∈ cu_drawn s ∧ m ∈ custom_sent (cu_world s) ∧ is_job (r, c) m ∧
      dj_local_job_id (cj_downstream_job c) = l
}.

Lemma customs_ok_start w : fresh_customs w → customs_ok (customs_start w).
Proof.
  unfold fresh_customs, custom_view. intros [= Hl Hj Hs].
  split; cbn [customs_start cu_world cu_tasks cu_drawn cu_acknowledged]; rewrite ?Hl, ?Hj, ?Hs.
  - done.
  - exists []. split; [constructor|apply sublist_nil_l].
  - intros r p Hr. change (tj_requests template_to_job_id_new) with (∅ : gmap N PendingCustomJob) in Hr.
    by rewrite lookup_empty in Hr.
  - intros l j Hin. by apply elem_of_nil in Hin.
Qed.
Lemma holders_app ts1 ts2 : holders (ts1 ++ ts2) = holders ts1 ++ holders ts2.
Proof. apply omap_app. Qed.
Lemma holders_cons c stage ts :
  holders ((c, stage) :: ts) =
    match stage with CsStart | CsLock => holders ts | CsChannel id => (id, c) :: holders ts end.
Proof. by destruct stage. Qed.

(** Forgetting requests and acknowledging one keep the correspondence. *)
Lemma pool_message_requests m t r p :
  tj_requests (pool_message m t) !! r = Some p → tj_requests t !! r = Some p.
Proof.
  destruct m; cbn [pool_message]; auto; unfold acknowledge.
  - destruct (tj_requests t !! request_id); cbn; rewrite lookup_delete_Some; tauto.
  - cbn. rewrite lookup_delete_Some. tauto.
Qed.
Lemma job_id_insert_elem k v b e :
  e ∈ jb_buffer (job_id_insert k v b) → e ∈ jb_buffer b ∨ e = (k, v).
Proof.
  unfold job_id_insert. cbn [jb_buffer]. rewrite elem_of_app, list_elem_of_singleton.
  intros [Hin|]; [|by right]. left.
  destruct (_ =? _); [|by apply elem_of_retain in Hin as [_ ?]].
  assert (e ∈ without k (jb_buffer b)) as He.
  { destruct (without k (jb_buffer b)); [done|]. by right. }
  by apply elem_of_retain in He as [_ ?].
Qed.
Lemma pool_message_ids m t l j :
  (l, j) ∈ jb_buffer (tj_downstream_to_pool_job_id (pool_message m t)) →
  (l, j) ∈ jb_buffer (tj_downstream_to_pool_job_id t) ∨
  ∃ r p, m = MSetCustomMiningJobSuccess r j ∧ tj_requests t !! r = Some p ∧
    l = dj_local_job_id (pc_downstream_job p).
Proof.
  destruct m; cbn [pool_message]; auto. unfold acknowledge.
  destruct (tj_requests t !! request_id) as [p|] eqn:E; [|by left].
  intros [|[= -> ->]]%job_id_insert_elem; [by left|]. right. eauto.
Qed.

(** A lookup finds an entry of the buffer. *)
Lemma get_job_id_elem l j t :
  get_job_id l t = Some j → (l, j) ∈ jb_buffer (tj_downstream_to_pool_job_id t).
Proof.
  unfold get_job_id, job_id_get. intros Hget. destruct (head _) as [[l' j']|] eqn:E; [|done].
  injection Hget as ->. apply head_Some_elem_of in E. apply elem_of_retain in E as [El Hin].
  apply N.eqb_eq in El. cbn in El. by subst.
Qed.

Lemma customs_ok_pool w ts d a spm m :
  customs_ok (MkCustoms w ts d a) →
  customs_ok (MkCustoms (upstream_incoming spm m w).2 ts d (a ++ acknowledges m)).
Proof.
  intros [Hl Ho Hr Hi]. destruct (upstream_incoming_view spm m w) as (El & Es & Ej).
  split; cbn [cu_world cu_tasks cu_drawn cu_acknowledged] in *; rewrite ?El, ?Es; auto.
  - intros r p. destruct Ej as [->| ->]; [apply Hr|]. intros ?%pool_message_requests. by apply Hr.
  - intros l j Hin. assert ((l, j) ∈ jb_buffer (tj_downstream_to_pool_job_id (job_ids w)) ∨
      ∃ r p, m = MSetCustomMiningJobSuccess r j ∧ tj_requests (job_ids w) !! r = Some p ∧
        l = dj_local_job_id (pc_downstream_job p)) as [H|(r & p & -> & Hrp & ->)].
    { destruct Ej as [Ej|Ej]; rewrite Ej in Hin; [by left|]. by apply pool_message_ids. }
    + destruct (Hi _ _ H) as (r & c & m' & ? & ?). exists r, c, m'. rewrite elem_of_app. eauto.
    + destruct (Hr _ _ Hrp) as (c & m' & ? & ? & ? & ->). exists r, c, m'.
      cbn [acknowledges]. rewrite elem_of_app, list_elem_of_singleton. split_and!; eauto.
Qed.

Lemma customs_ok_start_turn w ts1 ts2 d a c r w' :
  custom_turn c CsStart w = (r, w') →
  customs_ok (MkCustoms w (ts1 ++ (c, CsStart) :: ts2) d a) →
  customs_ok (MkCustoms w' (ts1 ++ left_over c r ++ ts2) (d ++ draws c CsStart r) a).
Proof.
  intros Ht [Hl Ho Hr Hi]. cbn [cu_world cu_tasks cu_drawn cu_acknowledged] in *.
  rewrite !holders_app, holders_cons in *. unfold custom_turn in Ht.
  destruct (poisoned (jw_up w)); injection Ht as <- <-; cbn [draws left_over app]; rewrite app_nil_r;
    split; cbn [cu_world cu_tasks cu_drawn cu_acknowledged];
    rewrite ?holders_app, ?holders_cons; auto.
Qed.
Lemma customs_ok_lock_turn w ts1 ts2 d a c r w' :
  custom_turn c CsLock w = (r, w') →
  customs_ok (MkCustoms w (ts1 ++ (c, CsLock) :: ts2) d a) →
  customs_ok (MkCustoms w' (ts1 ++ left_over c r ++ ts2) (d ++ draws c CsLock r) a).
Proof.
  intros Ht [Hl Ho Hr Hi]. cbn [cu_world cu_tasks cu_drawn cu_acknowledged] in *.
  rewrite !holders_app, holders_cons in *. unfold custom_turn in Ht.
  destruct (jw_custom_job_send_lock w) eqn:Hlock.
  { injection Ht as <- <-. cbn [draws left_over app]. rewrite app_nil_r.
    split; cbn [cu_world cu_tasks cu_drawn cu_acknowledged];
      rewrite ?holders_app, ?holders_cons, ?Hlock; auto. }
  destruct (poisoned (jw_up w)).
  { injection Ht as <- <-. cbn [draws left_over app]. rewrite app_nil_r.
    split; cbn [cu_world cu_tasks cu_drawn cu_acknowledged]; rewrite ?holders_app, ?Hlock; auto. }
  destruct (id_next _) as [id ids]. injection Ht as <- <-. cbn [draws left_over app].
  rewrite <- holders_app in Hl. apply nil_length_inv in Hl as Hnil.
  destruct Ho as (served & Hsent & Hsub). rewrite <- holders_app, Hnil, app_nil_r in Hsub.
  rewrite holders_app in Hnil. apply app_eq_nil in Hnil as [Hn1 Hn2].
  split; cbn [cu_world cu_tasks cu_drawn cu_acknowledged];
    rewrite ?holders_app, ?holders_cons, ?Hn1, ?Hn2; auto.
  - exists served. split; [done|]. by apply sublist_app.
  - intros r p H. destruct (Hr _ _ H) as (c' & m & ? & ?). exists c', m. rewrite elem_of_app. eauto.
  - intros l j H. destruct (Hi _ _ H) as (r & c' & m & ? & ? & ?). exists r, c', m.
    rewrite elem_of_app. eauto.
Qed.

(** The call that waits for the channel is the only one, and its draw is the last. *)
Lemma holder_alone w ts1 ts2 d a c id :
  customs_ok (MkCustoms w (ts1 ++ (c, CsChannel id) :: ts2) d a) →
  holders ts1 = [] ∧ holders ts2 = [] ∧ jw_custom_job_send_lock w = true ∧
  ∃ served, Forall2 is_job served (custom_sent w) ∧ served ++ [(id, c)] `sublist_of` d.
Proof.
  intros [Hl Ho _ _]. cbn [cu_world cu_tasks cu_drawn] in *.
  rewrite holders_app, holders_cons in *. rewrite length_app in Hl. cbn [length] in Hl.
  assert (holders ts1 = [] ∧ holders ts2 = []) as [Hn1 Hn2].
  { destruct (jw_custom_job_send_lock w); [|lia]. split; apply nil_length_inv; lia. }
  rewrite Hn1, Hn2 in *. split; [done|]. split; [done|]. split; [|done].
  by destruct (jw_custom_job_send_lock w).
Qed.

(** The holder's call is over: [new] is what it sent, with its registered request. *)
Lemma customs_ok_release w ts1 ts2 d a c id w1 new :
  customs_ok (MkCustoms w (ts1 ++ (c, CsChannel id) :: ts2) d a) →
  custom_sent w1 = custom_sent w ++ new →
  (new = [] ∨ ∃ m, new = [m] ∧ is_job (id, c) m) →
  (∀ r p, tj_requests (job_ids w1) !! r = Some p → tj_requests (job_ids w) !! r = Some p ∨
     new ≠ [] ∧ r = id ∧ p = pending_of c) →
  tj_downstream_to_pool_job_id (job_ids w1) = tj_downstream_to_pool_job_id (job_ids w) →
  customs_ok (MkCustoms (set_jw_send_lock false w1) (ts1 ++ ts2) d a).
Proof.
  intros H Es Hnew Ereq Eids. destruct (holder_alone _ _ _ _ _ _ _ H) as (Hn1 & Hn2 & _ & served & Hsent & Hsub).
  destruct H as [_ _ Hr Hi]. cbn [cu_world cu_tasks cu_drawn cu_acknowledged] in *.
  split; cbn [cu_world cu_tasks cu_drawn cu_acknowledged jw_custom_job_send_lock set_jw_send_lock];
    change (custom_sent (set_jw_send_lock false w1)) with (custom_sent w1);
    change (job_ids (set_jw_send_lock false w1)) with (job_ids w1);
    rewrite ?holders_app, ?Hn1, ?Hn2, ?Es, ?Eids.
  - done.
  - destruct Hnew as [->|(m & -> & Hm)].
    + exists served. rewrite !app_nil_r. split; [done|]. etrans; [|exact Hsub].
      apply sublist_inserts_r; reflexivity.
    + exists (served ++ [(id, c)]). rewrite !app_nil_r. split; [|done]. apply Forall2_app; [done|]. by constructor.
  - intros r p Hp. apply Ereq in Hp as [Hp|(Hne & -> & ->)].
    + destruct (Hr _ _ Hp) as (c' & m & ? & ? & ?). exists c', m. rewrite elem_of_app. eauto.
    + destruct Hnew as [->|(m & -> & Hm)]; [done|]. exists c, m.
      rewrite elem_of_app, list_elem_of_singleton. split; [|by eauto].
      eapply elem_of_sublist; [|exact Hsub]. rewrite elem_of_app, list_elem_of_singleton. by right.
  - intros l j Hin. destruct (Hi _ _ Hin) as (r & c' & m & ? & ? & ? & ?). exists r, c', m.
    rewrite elem_of_app. eauto.
Qed.

Lemma customs_ok_channel_turn w ts1 ts2 d a c id r w' :
  custom_turn c (CsChannel id) w = (r, w') →
  customs_ok (MkCustoms w (ts1 ++ (c, CsChannel id) :: ts2) d a) →
  customs_ok (MkCustoms w' (ts1 ++ left_over c r ++ ts2) (d ++ draws c (CsChannel id) r) a).
Proof.
  intros Ht H. cbn [draws]. rewrite app_nil_r. unfold custom_turn in Ht.
  destruct (poisoned (jw_up w)).
  { injection Ht as <- <-. eapply (customs_ok_release _ _ _ _ _ _ _ w []); eauto using app_nil_r. }
  destruct (ju_channel_id _) as [ch|]; [|by injection Ht as <- <-].
  pose proof (send_custom_job_view ch id c w) as Hs.
  destruct (send_custom_job ch id c w) as [o w1]. destruct Hs as (El & [(-> & Es & Ej)|(Hno & Es & Ej)]).
  - injection Ht as <- <-. eapply (customs_ok_release _ _ _ _ _ _ _ w1); [done|exact Es| | |by rewrite Ej].
    + right. eexists. split; [done|]. by exists ch.
    + intros r p. rewrite Ej. cbn. rewrite lookup_insert_Some. intros [[<- <-]|[_ ?]]; auto.
  - assert (customs_ok (MkCustoms (set_jw_send_lock false w1) (ts1 ++ ts2) d a)) as Hok.
    { eapply (customs_ok_release _ _ _ _ _ _ _ w1 []); [done|by rewrite app_nil_r|by left| |].
      - intros r' p. destruct Ej as [->| ->]; [auto|]. cbn.
        rewrite lookup_delete_Some, lookup_insert_Some. naive_solver.
      - by destruct Ej as [->| ->]. }
    destruct o as [[]|e|]; [done| |]; by injection Ht as <- <-.
Qed.

Lemma customs_ok_step s s' : customs_step s s' → customs_ok s → customs_ok s'.
Proof.
  intros [w ts d a c|s1 s2 Hturn|w ts d a spm m|w ts d a w' Hv] H.
  - destruct H as [Hl Ho Hr Hi]. cbn [cu_world cu_tasks cu_drawn cu_acknowledged] in *.
    assert (holders (ts ++ [(c, CsStart)]) = holders ts) as E
      by (rewrite holders_app, holders_cons; apply app_nil_r).
    split; cbn [cu_world cu_tasks cu_drawn cu_acknowledged]; rewrite ?E; auto.
  - destruct Hturn as [w ts1 ts2 d a c stage r w' Ht].
    destruct stage; [by eapply customs_ok_start_turn|by eapply customs_ok_lock_turn|
      by eapply customs_ok_channel_turn].
  - by apply customs_ok_pool.
  - unfold custom_view in Hv. injection Hv as El Ej Es. destruct H as [Hl Ho Hr Hi].
    cbn [cu_world cu_tasks cu_drawn cu_acknowledged] in *.
    split; cbn [cu_world cu_tasks cu_drawn cu_acknowledged]; rewrite ?El, ?Ej, ?Es; auto.
Qed.
Lemma customs_reach_ok w s : fresh_customs w → customs_reach w s → customs_ok s.
Proof.
  intros Hw Hs. eapply (rtc_ind_r (λ s, customs_ok s)); [by apply customs_ok_start| |exact Hs].
  intros s1 s2 _ Hstep H. by eapply customs_ok_step.
Qed.

(** ** The lock is never lost *)

(** The turn of the holder of the lock, once it waits for nothing: it is its last. *)
Lemma channel_turn_runs w c id :
  poisoned (jw_up w) = true ∨ ju_channel_id (guarded (jw_up w)) ≠ None →
  ∃ r w', custom_turn c (CsChannel id) w = (r, w') ∧ left_over c r = [] ∧
    jw_custom_job_send_lock w' = false.
Proof.
  intros H. unfold custom_turn. destruct (poisoned (jw_up w)); [by eexists _, _|].
  destruct H as [?|Hc]; [done|]. destruct (ju_channel_id _) as [ch|]; [|done].
  destruct (send_custom_job ch id c w) as [[[]|e|] w1]; by eexists _, _.
Qed.

Lemma holder_in ts : holders ts ≠ [] → ∃ ts1 c id ts2, ts = ts1 ++ (c, CsChannel id) :: ts2.
Proof.
  induction ts as [|[c stage] ts IH]; rewrite ?holders_cons; intros H; [done|].
  destruct stage as [| |id]; [| |by exists [], c, id, ts];
    destruct (IH H) as (ts1 & c' & id & ts2 & ->); by eexists (_ :: ts1), c', id, ts2.
Qed.

(** The turns a call still needs. *)
Definition stage_weight (stage : CustomStage) : nat :=
  match stage with CsStart => 3 | CsLock => 2 | CsChannel _ => 1 end.
Definition weight (ts : list (CustomJob * CustomStage)) : nat :=
  sum_list_with (λ t, stage_weight t.2) ts.
Lemma weight_app ts1 ts2 : weight (ts1 ++ ts2) = weight ts1 + weight ts2.
Proof. apply sum_list_with_app. Qed.

(** The turn of a call that is not waiting brings it nearer to its end. *)
Lemma custom_turn_weight c stage w r w' :
  custom_turn c stage w = (r, w') →
  weight (left_over c r) < stage_weight stage ∨ left_over c r = [(c, stage)] ∧ w' = w.
Proof.
  destruct stage as [| |id]; unfold custom_turn.
  - destruct (poisoned (jw_up w)); intros [= <- <-]; left; cbn; lia.
  - destruct (jw_custom_job_send_lock w); [intros [= <- <-]; by right|].
    destruct (poisoned (jw_up w)); [intros [= <- <-]; left; cbn; lia|].
    destruct (id_next _) as [id ids]. intros [= <- <-]. left. cbn. lia.
  - destruct (poisoned (jw_up w)); [intros [= <- <-]; left; cbn; lia|].
    destruct (ju_channel_id _) as [ch|]; [|intros [= <- <-]; by right].
    destruct (send_custom_job ch id c w) as [[[]|e|] w1]; intros [= <- <-]; left; cbn; lia.
Qed.

(** Turns only ever bring the calls nearer to their end; a turn that does not changes nothing. *)
Lemma call_turn_weight s s' :
  call_turn s s' → weight (cu_tasks s') < weight (cu_tasks s) ∨ s' = s.
Proof.
  intros [w ts1 ts2 d a c stage r w' Ht]. cbn [cu_tasks].
  destruct (custom_turn_weight _ _ _ _ _ Ht) as [H|[E ->]].
  - left. rewrite !weight_app. change (weight ((c, stage) :: ts2)) with (stage_weight stage + weight ts2).
    lia.
  - right. rewrite E. replace (draws c stage r) with (@nil (N * CustomJob)); [by rewrite app_nil_r|].
    by destruct r as [[]| |], stage.
Qed.
Lemma step_weight s s' :
  customs_step s s' → length (cu_tasks s') <= length (cu_tasks s) →
  weight (cu_tasks s') <= weight (cu_tasks s).
Proof.
  intros [w ts d a c|s1 s2 Hturn|w ts d a spm m|w ts d a w' Hv] Hlen; [|
    destruct (call_turn_weight _ _ Hturn) as [? | ->]; lia|done|done].
  cbn in Hlen. rewrite length_app in Hlen. cbn in Hlen. lia.
Qed.

(** What the calls wait for: the channel of the pool, or the end of the client. *)
Definition ready (w : JdWorld) : Prop :=
  poisoned (jw_up w) = true ∨ ju_channel_id (guarded (jw_up w)) ≠ None.
(** The turn of some call that is not waiting. *)
Definition can_run (s : Customs) : Prop :=
  ∃ s', call_turn s s' ∧ weight (cu_tasks s') < weight (cu_tasks s).

Lemma can_run_turn w ts1 ts2 d a c stage r w' :
  custom_turn c stage w = (r, w') → weight (left_over c r) < stage_weight stage →
  can_run (MkCustoms w (ts1 ++ (c, stage) :: ts2) d a).
Proof.
  intros Ht H. eexists. split; [by apply turn_of_call|]. cbn [cu_tasks]. rewrite !weight_app.
  change (weight ((c, stage) :: ts2)) with (stage_weight stage + weight ts2). lia.
Qed.

(** Once the channel is known, or the mutex poisoned, some call always can run: the holder of
    the lock, or any call when the lock is free. *)
Lemma waiting_call_runs s :
  customs_ok s → ready (cu_world s) → cu_tasks s ≠ [] → can_run s.
Proof.
  destruct s as [w [|[c stage] ts] d a]; [done|]. intros Hok Hr _. pose proof (co_lock _ Hok) as Hl.
  cbn [cu_world cu_tasks] in *. destruct (jw_custom_job_send_lock w) eqn:El.
  - destruct (holder_in ((c, stage) :: ts)) as (ts1 & c' & id & ts2 & ->); [by intros E; rewrite E in Hl|].
    destruct (channel_turn_runs w c' id Hr) as (r & w' & Ht & Hleft & _).
    apply (can_run_turn w ts1 ts2 d a c' _ r w' Ht). rewrite Hleft. cbn. lia.
  - destruct (custom_turn c stage w) as [r w'] eqn:Ht.
    apply (can_run_turn w [] ts d a c stage r w' Ht).
    destruct (custom_turn_weight _ _ _ _ _ Ht) as [?|[E ->]]; [done|]. exfalso.
    unfold custom_turn in Ht. rewrite El in Ht.
    destruct stage as [| |id]; [| |by rewrite holders_cons in Hl]; destruct (poisoned _);
      try (destruct (id_next _)); injection Ht as <- ; done.
Qed.

(** ** Endless runs *)

(** A run of the client; it is fair when a call that can run for ever gets a turn. *)
Definition customs_run (f : nat → Customs) : Prop := ∀ i, customs_step (f i) (f (S i)).
Definition fair (f : nat → Customs) : Prop :=
  ∀ i, ∃ j, i <= j ∧ (¬ can_run (f j) ∨ weight (cu_tasks (f (S j))) < weight (cu_tasks (f j))).

Lemma run_reach f w i :
  f 0 = customs_start w → customs_run f → customs_reach w (f i).
Proof.
  intros H0 Hrun. induction i as [|i IH]; [rewrite H0; constructor|].
  eapply rtc_r; [exact IH|apply Hrun].
Qed.
Lemma weight_run f n i j :
  customs_run f → (∀ k, n <= k → length (cu_tasks (f (S k))) <= length (cu_tasks (f k))) →
  n <= i <= j → weight (cu_tasks (f j)) <= weight (cu_tasks (f i)).
Proof.
  intros Hrun Hlen [Hn Hij]. induction Hij as [|j Hij IH]; [done|].
  etrans; [|exact IH]. apply step_weight; [apply Hrun|apply Hlen; lia].
Qed.

(** ** The theorems *)

(** C7: A miner's job is known under a pool identifier only when the pool gave that
    identifier to a custom job that really was sent for exactly this miner's job: however
    the calls, the pool's answers (late, repeated, reordered or invented) and the other
    tasks are interleaved, shares are never submitted under another job's identifier. *)
Theorem custom_jobs_correlated w s l j :
  fresh_customs w → customs_reach w s → get_job_id l (job_ids (cu_world s)) = Some j →
  ∃ r c m, (r, j) ∈ cu_acknowledged s ∧ (r, c) ∈ cu_drawn s ∧
    m ∈ custom_sent (cu_world s) ∧ is_job (r, c) m ∧
    dj_local_job_id (cj_downstream_job c) = l.
Proof.
  intros Hw Hs Hget. apply (co_ids s); [by eapply customs_reach_ok|]. by apply get_job_id_elem.
Qed.

(** The pool sees the custom jobs in the order in which their request identifiers were
    drawn, each at most once and made from the call that drew it; at most one call at a time
    holds the lock, and the lock is held only by a call that still waits. *)
Theorem custom_jobs_in_order w s :
  fresh_customs w → customs_reach w s →
  (∃ served, served `sublist_of` cu_drawn s ∧ Forall2 is_job served (custom_sent (cu_world s))) ∧
  length (holders (cu_tasks s)) = if jw_custom_job_send_lock (cu_world s) then 1 else 0.
Proof.
  intros Hw Hs. destruct (customs_reach_ok w s Hw Hs) as [Hl (served & Hsent & Hsub) _ _].
  split; [|done]. exists served. split; [|done]. etrans; [|exact Hsub]. apply sublist_inserts_r; reflexivity.
Qed.

(** C20: Custom jobs never wedge, on any schedule: in every run of the client that is fair to
    its calls (one that could run for ever gets a turn), from the moment that the channel is
    known or the mutex poisoned and no new calls are made, all calls finish, whether their
    sends succeed, fail or panic and whatever the pool and the other tasks do meanwhile, and
    the lock is free.  At every moment of such a run some waiting call can run, and a turn of
    a call that cannot changes nothing.  Without a channel the holder of the lock waits for
    it, and the others for the holder. *)
Theorem custom_jobs_never_wedge w f n :
  fresh_customs w → f 0 = customs_start w → customs_run f → fair f →
  (∀ i, n <= i → ready (cu_world (f i)) ∧ length (cu_tasks (f (S i))) <= length (cu_tasks (f i))) →
  (∃ i, n <= i ∧ cu_tasks (f i) = [] ∧ jw_custom_job_send_lock (cu_world (f i)) = false) ∧
  ∀ i, (ready (cu_world (f i)) → cu_tasks (f i) ≠ [] → can_run (f i)) ∧
       ∀ s', call_turn (f i) s' → weight (cu_tasks s') < weight (cu_tasks (f i)) ∨ s' = f i.
Proof.
  intros Hw H0 Hrun Hfair Hn.
  assert (∀ i, customs_ok (f i)) as Hok by (intros i; eapply customs_reach_ok, run_reach; eauto).
  split; [|intros i; split; [by apply waiting_call_runs|apply call_turn_weight]].
  assert (∀ m i, n <= i → weight (cu_tasks (f i)) < m → ∃ j, n <= j ∧ cu_tasks (f j) = []) as H.
  { induction m as [|m IH]; intros i Hi Hm; [lia|].
    destruct (Hfair i) as (j & Hij & [Hno|Hlt]).
    - exists j. split; [lia|]. destruct (cu_tasks (f j)) eqn:E; [done|]. exfalso. apply Hno.
      apply waiting_call_runs; [done|apply Hn; lia|by rewrite E].
    - apply (IH (S j)); [lia|].
      pose proof (weight_run f n i j Hrun ltac:(intros k Hk; by apply Hn) ltac:(lia)). lia. }
  destruct (H _ n (le_n _) (Nat.lt_succ_diag_r _)) as (j & Hj & E). exists j. split; [done|].
  split; [done|]. pose proof (co_lock _ (Hok j)) as Hl. rewrite E in Hl.
  by destruct (jw_custom_job_send_lock _).
Qed.
End system.

(** ** Witnesses *)

(** Two calls whose channel is open, and the pool's answers in reverse order. *)
Definition run_call (s : Customs) : Customs :=
  match cu_tasks s with
  | (c, stage) :: ts =>
      let '(r, w) := custom_turn c stage (cu_world s) in
      MkCustoms w (left_over c r ++ ts) (cu_drawn s ++ draws c stage r) (cu_acknowledged s)
  | [] => s
  end.
Definition run_pool (m : Mining) (s : Customs) : Customs :=
  MkCustoms (upstream_incoming (f32_of_N 6) m (cu_world s)).2 (cu_tasks s) (cu_drawn s)
    (cu_acknowledged s ++ acknowledges m).
Definition toy_calls : Customs :=
  MkCustoms toy_open_world [(toy_custom 41 11, CsStart); (toy_custom 42 12, CsStart)] [] [].
Definition toy_run : Customs :=
  run_pool (MSetCustomMiningJobSuccess 1 101) (run_pool (MSetCustomMiningJobSuccess 2 102)
    (run_call (run_call (run_call (run_call (run_call (run_call toy_calls))))))).

Lemma run_call_step s : cu_tasks s ≠ [] → customs_step s (run_call s).
Proof.
  destruct s as [w [|[c stage] ts] d a]; [done|]. intros _. unfold run_call.
  cbn [cu_tasks cu_world cu_drawn cu_acknowledged].
  destruct (custom_turn c stage w) as [r w'] eqn:Ht. apply step_turn.
  by apply (turn_of_call w [] ts d a).
Qed.
Lemma run_pool_step m s : customs_step s (run_pool m s).
Proof. destruct s. apply step_pool. Qed.
Lemma toy_calls_reach : customs_reach toy_open_world toy_calls.
Proof.
  eapply rtc_l; [apply (step_call _ [])|]. eapply rtc_l; [apply step_call|]. constructor.
Qed.
Lemma toy_run_reach : customs_reach toy_open_world toy_run.
Proof.
  unfold customs_reach. etrans; [apply toy_calls_reach|].
  do 6 (eapply rtc_l; [by apply run_call_step|]).
  do 2 (eapply rtc_l; [apply run_pool_step|]). constructor.
Qed.

Lemma custom_jobs_correlated_witness :
  get_job_id 12 (job_ids (cu_world toy_run)) = Some 102%N ∧
  ∃ r c m, (r, 102%N) ∈ cu_acknowledged toy_run ∧ (r, c) ∈ cu_drawn toy_run ∧
    m ∈ custom_sent (cu_world toy_run) ∧ is_job (r, c) m ∧
    dj_local_job_id (cj_downstream_job c) = 12%N.
Proof.
  split; [reflexivity|].
  apply (custom_jobs_correlated toy_open_world toy_run 12%N 102%N); [reflexivity| |reflexivity].
  apply toy_run_reach.
Defined.

Lemma custom_jobs_in_order_witness :
  length (custom_sent (cu_world toy_run)) = 2 ∧
  (∃ served, served `sublist_of` cu_drawn toy_run ∧
    Forall2 is_job served (custom_sent (cu_world toy_run))) ∧
  length (holders (cu_tasks toy_run)) = if jw_custom_job_send_lock (cu_world toy_run) then 1 else 0.
Proof.
  split; [reflexivity|].
  apply (custom_jobs_in_order toy_open_world toy_run); [reflexivity|apply toy_run_reach].
Defined.

(** The run of the two calls and the pool's answers, after which nothing happens. *)
Definition toy_schedule (i : nat) : Customs :=
  match i with
  | 0 => customs_start toy_open_world
  | 1 => MkCustoms toy_open_world [(toy_custom 41 11, CsStart)] [] []
  | S (S i) => Nat.iter (Nat.min i 6) run_call toy_calls
  end.

Lemma toy_schedule_end i : 8 <= i → toy_schedule i = Nat.iter 6 run_call toy_calls.
Proof. destruct i as [|[|i]]; [lia..|]. intros H. cbn [toy_schedule]. by rewrite Nat.min_r by lia. Qed.
Lemma toy_schedule_run : customs_run toy_schedule.
Proof.
  intros [|[|i]]; [apply (step_call _ [])|apply (step_call _ [_])|].
  destruct (decide (6 <= i)) as [H|H].
  { rewrite !toy_schedule_end by lia.
    destruct (Nat.iter 6 run_call toy_calls). by apply step_other. }
  cbn [toy_schedule]. rewrite !Nat.min_l by lia. apply run_call_step.
  do 6 (destruct i as [|i]; [done|]). lia.
Qed.
Lemma toy_schedule_fair : fair toy_schedule.
Proof.
  intros i. exists (i + 8). split; [lia|]. left. rewrite toy_schedule_end by lia.
  intros (s' & _ & H). vm_compute in H. lia.
Qed.
Lemma custom_jobs_never_wedge_witness :
  length (cu_tasks (toy_schedule 2)) = 2 ∧
  ∃ i, 2 <= i ∧ cu_tasks (toy_schedule i) = [] ∧
    jw_custom_job_send_lock (cu_world (toy_schedule i)) = false.
Proof.
  split; [reflexivity|].
  apply (custom_jobs_never_wedge toy_open_world toy_schedule 2);
    [reflexivity|reflexivity|apply toy_schedule_run|apply toy_schedule_fair|].
  intros i Hi. destruct (decide (8 <= i)) as [H|H].
  { rewrite !toy_schedule_end by lia. split; [right; vm_compute; discriminate|lia]. }
  destruct i as [|[|i]]; [lia..|].
  do 6 (destruct i as [|i]; [split; [right; vm_compute; discriminate|vm_compute; lia]|]). lia.
Defined.
