(* ===== verification/JobDeclaratorProps.v ===== *)
(** * What the job declarator promises

    Every custom job is made of one declaration, the server's token for it and a previous
    hash of the template provider; no declaration is used twice; the records stay bounded. *)

From S2P Require Import Prelude Str Bitcoin BitcoinModel F32 Sv1 Sv2 RskCommitment MergeState MergeMining ProxyState Effects JdData JdState JdUpstream JobDeclarator JdModel.

Section system.
Context `{B : !BitcoinLib} `{PL : !PoolLib}.
Implicit Types (w : JdWorld).

(** ** Every interleaving of the declarator's tasks

    Beside the world: the tasks of [on_set_new_prev_hash], the calls of [set_custom_jobs]
    made so far, what was declared, the server's acceptances and the previous hashes that
    were stored. *)
Record Declarator := MkDeclarator {
  ds_world : JdWorld;
  ds_tasks : list (TpSetNewPrevHash * PrevHashStage);
  ds_calls : list CustomJob;
  ds_declared : list LastDeclareJob;
  ds_accepted : list (N * bytes);
  ds_prev : list TpSetNewPrevHash
}.

(** What [declare_template] stores before it sends. *)
Definition declares (a : DeclareArgs) w : list LastDeclareJob :=
  if poisoned (jw_jd w) then []
  else match template_wtxids (da_tx_list a) with
  | Some tx_ids =>
      if length (da_token a) <=? 255
      then [last_declare (id_next (jd_req_ids (guarded (jw_jd w)))).1 tx_ids a] else []
  | None => []
  end.
Definition accepts (m : FromJds) : list (N * bytes) :=
  match m with JdsDeclareSuccess request_id token => [(request_id, token)] | _ => [] end.
Definition calls_of {E} (o : Outcome E JdLoop) : list CustomJob :=
  match o with Done (JdCalls c) => [c] | _ => [] end.
Definition stores (p : TpSetNewPrevHash) (stage : PrevHashStage) : list TpSetNewPrevHash :=
  match stage with PhStart => [p] | PhLoop => [] end.

(** What these theorems depend on. *)
Definition jd_view w :=
  let j := guarded (jw_jd w) in
  (poisoned (jw_jd w), jd_last_declare_mining_jobs_sent j, jd_last_set_new_prev_hash j,
   jd_set_new_prev_hash_counter j, jd_future_jobs j).

Inductive declarator_step : Declarator → Declarator → Prop :=
| ds_declare w ts cs ds acc ps a :
    declarator_step (MkDeclarator w ts cs ds acc ps)
      (MkDeclarator (declare_template a w).2 ts cs (ds ++ declares a w) acc ps)
| ds_server w ts cs ds acc ps m o w' :
    jds_incoming m w = (o, w') →
    declarator_step (MkDeclarator w ts cs ds acc ps)
      (MkDeclarator w' ts (cs ++ calls_of o) ds (acc ++ accepts m) ps)
| ds_spawn w ts cs ds acc ps p :
    declarator_step (MkDeclarator w ts cs ds acc ps)
      (MkDeclarator w (ts ++ [(p, PhStart)]) cs ds acc ps)
| ds_turn w ts1 ts2 cs ds acc ps p stage left calls w' :
    prev_hash_turn p stage w = (left, calls, w') →
    declarator_step (MkDeclarator w (ts1 ++ (p, stage) :: ts2) cs ds acc ps)
      (MkDeclarator w' (ts1 ++ left ++ ts2) (cs ++ calls) ds acc (ps ++ stores p stage))
| ds_other w ts cs ds acc ps w' :
    jd_view w' = jd_view w →
    declarator_step (MkDeclarator w ts cs ds acc ps) (MkDeclarator w' ts cs ds acc ps).

Definition fresh_declarator w : Prop := jd_view w = (false, ∅, None, 0%N, ∅).
Definition declarator_reach w : Declarator → Prop :=
  rtc declarator_step (MkDeclarator w [] [] [] [] []).

(** ** Declarations, whatever the token they carry *)
Definition key (d : LastDeclareJob) : LastDeclareJob :=
  MkLastDeclareJob (with_token [] (ld_declare_job d)) (ld_template d) (ld_coinbase_pool_output d)
    [] (ld_downstream_job d).
Abbreviation FutureJob :=
  (DeclareMiningJob * list bytes * NewTemplate * bytes * DownstreamJob)%type.
Definition future_key (f : FutureJob) : LastDeclareJob :=
  let '(job, _, template, pool_outs, downstream_job) := f in
  MkLastDeclareJob (with_token [] job) template pool_outs [] downstream_job.
(** The declarations that can still become custom jobs. *)
Definition live_keys (declared : gmap N LastDeclareJob) (future : gmap N FutureJob)
    : list LastDeclareJob :=
  map key (map_to_list declared).*2 ++ map future_key (map_to_list future).*2.

(** [c] is made of [d], the token the server accepted it with and a stored previous hash;
    a future template's previous hash names the template. *)
Definition made_from (accepted : list (N * bytes)) (prev : list TpSetNewPrevHash)
    (d : LastDeclareJob) (c : CustomJob) : Prop :=
  ∃ job token p,
    with_token [] job = ld_declare_job d ∧ (dm_request_id job, token) ∈ accepted ∧ p ∈ prev ∧
    (nt_future_template (ld_template d) = true → tp_template_id p = nt_template_id (ld_template d)) ∧
    c = custom_job_of job p (nt_merkle_path (ld_template d)) token (ld_template d)
          (ld_coinbase_pool_output d) (ld_downstream_job d).
Definition future_ok (accepted : list (N * bytes)) (id : N) (f : FutureJob) : Prop :=
  let '(job, merkle_path, template, _, _) := f in
  (dm_request_id job, dm_mining_job_token job) ∈ accepted ∧ nt_future_template template = true ∧
  nt_template_id template = id ∧ merkle_path = nt_merkle_path template.

Definition loops (ts : list (TpSetNewPrevHash * PrevHashStage)) : list TpSetNewPrevHash :=
  omap (λ t, match t.2 with PhLoop => Some t.1 | PhStart => None end) ts.

Record declarator_ok (s : Declarator) : Prop := {
  do_bound : size (jd_last_declare_mining_jobs_sent (guarded (jw_jd (ds_world s)))) <= 1000;
  do_last : ∀ p, jd_last_set_new_prev_hash (guarded (jw_jd (ds_world s))) = Some p → p ∈ ds_prev s;
  do_loops : ∀ p, p ∈ loops (ds_tasks s) → p ∈ ds_prev s;
  do_counter : poisoned (jw_jd (ds_world s)) = false →
    jd_set_new_prev_hash_counter (guarded (jw_jd (ds_world s))) =
      (N.of_nat (length (loops (ds_tasks s))) mod 256)%N;
  do_ids : ∀ r d, jd_last_declare_mining_jobs_sent (guarded (jw_jd (ds_world s))) !! r = Some d →
    dm_request_id (ld_declare_job d) = r;
  do_future : ∀ id f, jd_future_jobs (guarded (jw_jd (ds_world s))) !! id = Some f →
    future_ok (ds_accepted s) id f;
  do_uses : ∃ used, Forall2 (made_from (ds_accepted s) (ds_prev s)) used (ds_calls s) ∧
    used ++ live_keys (jd_last_declare_mining_jobs_sent (guarded (jw_jd (ds_world s))))
              (jd_future_jobs (guarded (jw_jd (ds_world s)))) ⊆+ map key (ds_declared s)
}.

(** ** What each operation does to the view *)

Ltac run_jd :=
  unfold lock_jd, with_lock, attempt, reports, set_flag, from_jd, gets, modify, fail, panic, mbind, M_bind, mret, M_ret.

Lemma send_jds_view m w : jd_view (send_jds m w).2 = jd_view w.
Proof. unfold send_jds. run_jd. by destruct (tx_open _). Qed.

Lemma declare_template_view a w :
  let w' := (declare_template a w).2 in
  let j := guarded (jw_jd w) in
  match declares a w with
  | [] => jd_view w' = jd_view w
  | d :: _ => poisoned (jw_jd w) = false ∧
      jd_view w' = (false, insert_declared (dm_request_id (ld_declare_job d)) d
                             (jd_last_declare_mining_jobs_sent j),
                    jd_last_set_new_prev_hash j, jd_set_new_prev_hash_counter j, jd_future_jobs j)
  end.
Proof.
  unfold declares, declare_template, update_last_declare_job_sent. run_jd.
  cbn [set_jw_flags jw_jd poisoned]. destruct (poisoned (jw_jd w)) eqn:Hp; [done|].
  destruct (template_wtxids _) as [ids|].
  2: { unfold jd_view. cbn. by rewrite Hp. }
  destruct (length (da_token a) <=? 255); cbn [negb].
  2: { unfold jd_view. cbn. by rewrite Hp. }
  cbn [jw_jd update_jd set_jw_jd set_jw_flags store poisoned guarded]. rewrite Hp. cbn [fst snd].
  rewrite send_jds_view. split; [done|]. unfold jd_view. cbn. by rewrite Hp.
Qed.

Lemma prev_hash_turn_view p stage w :
  let '(rest, calls, w') := prev_hash_turn p stage w in
  let j := guarded (jw_jd w) in
  let declared := jd_last_declare_mining_jobs_sent j in
  match stage with
  | PhStart =>
      if poisoned (jw_jd w) then rest = [] ∧ calls = [] ∧ w' = w
      else rest = [(p, PhLoop)] ∧ calls = [] ∧
        jd_view w' = (false, declared, Some p, ((jd_set_new_prev_hash_counter j + 1) mod 256)%N,
                      jd_future_jobs j)
  | PhLoop =>
      if poisoned (jw_jd w) then rest = [] ∧ calls = [] ∧ w' = w
      else if ((1 <? jd_set_new_prev_hash_counter j)%N
               && negb (bool_decide (jd_last_set_new_prev_hash j = Some p)))
      then rest = [] ∧ calls = [] ∧
        jd_view w' = (false, declared, jd_last_set_new_prev_hash j,
                      (less_one (jd_set_new_prev_hash_counter j) mod 256)%N, jd_future_jobs j)
      else match jd_future_jobs j !! tp_template_id p with
      | None => rest = [(p, PhLoop)] ∧ calls = [] ∧ w' = w
      | Some (job, merkle_path, template, pool_outs, downstream_job) =>
          rest = [] ∧
          calls = [custom_job_of job p merkle_path (dm_mining_job_token job) template pool_outs
                     downstream_job] ∧
          jd_view w' = (false, declared, jd_last_set_new_prev_hash j,
                        (less_one (jd_set_new_prev_hash_counter j) mod 256)%N, ∅)
      end
  end.
Proof.
  destruct stage; unfold prev_hash_turn, prev_hash_start, prev_hash_round; run_jd;
    destruct (poisoned (jw_jd w)) eqn:Hp; [done| |done|].
  { cbn. split; [done|]. split; [done|]. unfold jd_view. cbn. by rewrite Hp. }
  destruct (_ && _).
  { cbn. split; [done|]. split; [done|]. unfold jd_view. cbn. by rewrite Hp. }
  destruct (jd_future_jobs _ !! tp_template_id p) as [[[[[job mp] t] po] dj]|]; [|done].
  cbn. split; [done|]. split; [done|]. unfold jd_view. cbn. by rewrite Hp.
Qed.

Lemma jds_incoming_view m w :
  let '(o, w') := jds_incoming m w in
  let j := guarded (jw_jd w) in
  let declared := jd_last_declare_mining_jobs_sent j in
  (calls_of o = [] ∧ jd_view w' = jd_view w) ∨
  (poisoned (jw_jd w) = false ∧ ∃ r d, declared !! r = Some d ∧
    let view declared future := (false, declared, jd_last_set_new_prev_hash j,
                                 jd_set_new_prev_hash_counter j, future) in
    let t := ld_template d in
    (calls_of o = [] ∧ jd_view w' = view (delete r declared) (jd_future_jobs j) ∨
     ∃ token, m = JdsDeclareSuccess r token ∧
       (nt_future_template t = true ∧ calls_of o = [] ∧
        jd_view w' = view (delete r declared)
          (<[nt_template_id t := (with_token token (ld_declare_job d), nt_merkle_path t, t,
              ld_coinbase_pool_output d, ld_downstream_job d)]> (jd_future_jobs j)) ∨
        nt_future_template t = false ∧ jd_view w' = view (delete r declared) (jd_future_jobs j) ∧
        ∃ p, jd_last_set_new_prev_hash j = Some p ∧
          calls_of o = [custom_job_of (ld_declare_job d) p (nt_merkle_path t) token t
            (ld_coinbase_pool_output d) (ld_downstream_job d)]))).
Proof.
  destruct (poisoned (jw_jd w)) eqn:Hp.
  { destruct m; unfold jds_incoming, jd_down; run_jd; rewrite Hp; by left. }
  destruct m as [m|r token|r|r positions]; unfold jds_incoming, on_declare_success, on_declare_error, jd_down, take_last_declare_job_sent; run_jd; rewrite Hp.
  - left. split; [done|]. unfold jd_view. cbn. by rewrite Hp.
  - cbn [jw_jd update_jd set_jw_jd set_jw_flags store poisoned guarded]. rewrite Hp.
    destruct (jd_last_declare_mining_jobs_sent _ !! r) as [d|] eqn:Hd.
    2: { left. split; [done|]. unfold jd_view. cbn. rewrite Hp. by rewrite delete_id. }
    destruct (nt_future_template (ld_template d)) eqn:Hf;
      cbn [jw_jd update_jd set_jw_jd set_jw_flags store poisoned guarded]; rewrite Hp; cbn.
    + right. split; [done|]. exists r, d. split; [done|]. right. exists token. split; [done|]. left.
      split; [done|]. split; [done|]. unfold jd_view. cbn. by rewrite Hp.
    + destruct (jd_last_set_new_prev_hash _) as [p|] eqn:Hprev; (right; split; [done|]; exists r, d; split; [done|]).
      * right. exists token. split; [done|]. right. split; [done|]. split; [|by exists p].
        unfold jd_view. cbn. by rewrite Hp, Hprev.
      * left. split; [done|]. unfold jd_view. cbn. by rewrite Hp, Hprev.
  - cbv beta iota. rewrite Hp.
    destruct (jd_last_declare_mining_jobs_sent _ !! r) as [d|] eqn:Hd; cbn.
    2: { left. split; [done|]. unfold jd_view. cbn. rewrite Hp. by rewrite delete_id. }
    right. split; [done|]. exists r, d. split; [done|]. left. split; [done|]. unfold jd_view. cbn. by rewrite Hp.
  - unfold handle_provide_missing_transactions. run_jd.
    destruct (jd_last_declare_mining_jobs_sent _ !! r) as [d|]; [|by left].
    destruct (_ <=? _)%N; [|by left]. rewrite Hp.
    pose proof (send_jds_view (ProvideMissingSuccess r (omap (λ pos, ld_tx_list d !! N.to_nat pos) positions)) w) as Hv.
    destruct (send_jds _ w) as [[] w']; by left.
Qed.

(** ** The maps as lists of what they hold *)
Section values.
Context {X Y : Type} (f : X → Y).
Implicit Types (m : gmap N X).
Definition values m : list Y := map f (map_to_list m).*2.

Lemma values_delete m k x : m !! k = Some x → values m ≡ₚ f x :: values (delete k m).
Proof.
  intros H. unfold values. rewrite <- (map_to_list_delete m k x H). done.
Qed.
Lemma values_delete_sub m k : values (delete k m) ⊆+ values m.
Proof.
  destruct (m !! k) as [x|] eqn:E; [|by rewrite delete_id].
  rewrite (values_delete m k x E). by apply submseteq_cons.
Qed.
Lemma values_insert m k x : values (<[k := x]> m) ⊆+ f x :: values m.
Proof.
  rewrite (values_delete (<[k := x]> m) k x) by apply lookup_insert_eq.
  rewrite delete_insert_eq. apply submseteq_skip, values_delete_sub.
Qed.
End values.

(** One element more among the live ones, and among all. *)
Lemma submseteq_one_more {Y} (u a b f k : list Y) d :
  a ⊆+ d :: b → u ++ b ++ f ⊆+ k → u ++ a ++ f ⊆+ k ++ [d].
Proof.
  intros Ha Hk. trans (u ++ (d :: b) ++ f).
  { apply submseteq_app; [done|]. by apply submseteq_app. }
  cbn [app]. rewrite <- Permutation_middle, <- Permutation_cons_append. by apply submseteq_skip.
Qed.

Lemma live_keys_values declared future :
  live_keys declared future = values key declared ++ values future_key future.
Proof. done. Qed.

(** ** The bounded record of declarations *)
Lemma min_key_is_key m k : min_key m = Some k → is_Some (m !! k).
Proof.
  unfold min_key. intros H.
  assert (k ∈ (map_to_list m).*1) as Hin.
  { revert k H. induction (map_to_list m).*1 as [|k' l IH]; intros k H; [done|].
    cbn [foldr] in H. destruct (foldr _ _ l) as [a|] eqn:E.
    - injection H as <-. destruct (N.min_spec k' a) as [[_ ->]|[_ ->]]; [by left|].
      right. by apply IH.
    - injection H as <-. by left. }
  apply list_elem_of_fmap in Hin as ([k' v] & -> & Hin). apply elem_of_map_to_list in Hin.
  by eexists.
Qed.
Lemma min_key_least m k k' : min_key m = Some k → is_Some (m !! k') → (k <= k')%N.
Proof.
  unfold min_key. intros H [v Hv]. apply elem_of_map_to_list in Hv.
  apply (list_elem_of_fmap_2 fst) in Hv. cbn in Hv. revert k H Hv.
  induction (map_to_list m).*1 as [|k1 l IH]; intros k H Hin; [by apply elem_of_nil in Hin|].
  cbn [foldr] in H. apply elem_of_cons in Hin as [->|Hin].
  - destruct (foldr _ _ l); injection H as <-; lia.
  - destruct (foldr _ _ l) as [a|] eqn:E; injection H as <-.
    + specialize (IH _ eq_refl Hin). lia.
    + destruct l as [|k2 l]; [by apply elem_of_nil in Hin|]. cbn in E. by destruct (foldr _ _ l).
Qed.
Lemma insert_declared_size r d m : size m <= 1000 → size (insert_declared r d m) <= 1000.
Proof.
  unfold insert_declared. intros H. destruct (Nat.ltb_spec (size m) 1000).
  { rewrite map_size_insert. destruct (m !! r); cbn; lia. }
  destruct (min_key m) as [k|] eqn:E; [|done]. apply min_key_is_key in E as Hk.
  rewrite map_size_insert, map_size_delete. destruct Hk as [v Hv]. rewrite Hv.
  destruct (delete k m !! r); cbn; lia.
Qed.
Lemma insert_declared_values r d m : values key (insert_declared r d m) ⊆+ key d :: values key m.
Proof.
  unfold insert_declared. destruct (_ <? _); [apply values_insert|].
  destruct (min_key m) as [k|].
  - etrans; [apply values_insert|]. apply submseteq_skip, values_delete_sub.
  - by apply submseteq_cons.
Qed.
Lemma insert_declared_lookup r d m r' d' :
  insert_declared r d m !! r' = Some d' → r' = r ∧ d' = d ∨ m !! r' = Some d'.
Proof.
  unfold insert_declared. destruct (_ <? _); [|destruct (min_key m) as [k|]; [|by right]];
    rewrite lookup_insert_Some; [naive_solver|]. rewrite lookup_delete_Some. naive_solver.
Qed.

(** ** The invariant is kept *)
Lemma made_from_weaken acc acc' ps ps' d c :
  acc ⊆ acc' → ps ⊆ ps' → made_from acc ps d c → made_from acc' ps' d c.
Proof.
  intros Ha Hp (job & token & p & ? & ? & ? & ? & ?). exists job, token, p. split_and!; eauto.
Qed.
Lemma future_ok_weaken acc acc' id f : acc ⊆ acc' → future_ok acc id f → future_ok acc' id f.
Proof.
  intros Ha. destruct f as [[[[job mp] t] po] dj]. intros (? & ? & ? & ?). split_and!; eauto.
Qed.
Lemma loops_app ts1 ts2 : loops (ts1 ++ ts2) = loops ts1 ++ loops ts2.
Proof. apply omap_app. Qed.
Lemma view_fields w' b m l c f :
  jd_view w' = (b, m, l, c, f) →
  poisoned (jw_jd w') = b ∧ jd_last_declare_mining_jobs_sent (guarded (jw_jd w')) = m ∧
  jd_last_set_new_prev_hash (guarded (jw_jd w')) = l ∧
  jd_set_new_prev_hash_counter (guarded (jw_jd w')) = c ∧ jd_future_jobs (guarded (jw_jd w')) = f.
Proof. unfold jd_view. by intros [= -> -> -> -> ->]. Qed.

Lemma declarator_ok_other w ts cs ds acc ps w' :
  jd_view w' = jd_view w → declarator_ok (MkDeclarator w ts cs ds acc ps) →
  declarator_ok (MkDeclarator w' ts cs ds acc ps).
Proof.
  intros Hv [Hb Hl Hlo Hc Hi Hf Hu]. apply view_fields in Hv as (Ep & Em & El & Ec & Ef).
  split; cbn [ds_world ds_tasks ds_calls ds_declared ds_accepted ds_prev] in *;
    rewrite ?Ep, ?Em, ?El, ?Ec, ?Ef; auto.
Qed.

Lemma declarator_ok_declare w ts cs ds acc ps a :
  declarator_ok (MkDeclarator w ts cs ds acc ps) →
  declarator_ok (MkDeclarator (declare_template a w).2 ts cs (ds ++ declares a w) acc ps).
Proof.
  intros H. pose proof (declare_template_view a w) as Hv.
  assert (declares a w = [] ∨ ∃ d, declares a w = [d]) as [E|[d E]].
  { unfold declares. repeat case_match; eauto. }
  { rewrite E in *. rewrite app_nil_r. by eapply declarator_ok_other. }
  rewrite E in *. cbn [snd] in Hv. destruct Hv as [Hp Hv].
  apply view_fields in Hv as (Ep & Em & El & Ec & Ef). destruct H as [Hb Hl Hlo Hc Hi Hf (used & Hu & Hsub)].
  split; cbn [ds_world ds_tasks ds_calls ds_declared ds_accepted ds_prev] in *;
    rewrite ?Ep, ?Em, ?El, ?Ec, ?Ef; auto.
  - by apply insert_declared_size.
  - intros r d' [[-> ->]|Hd']%insert_declared_lookup; [done|by apply Hi].
  - exists used. split; [done|]. rewrite live_keys_values in *. rewrite map_app.
    eapply submseteq_one_more; [apply insert_declared_values|done].
Qed.

Lemma declarator_ok_server w ts cs ds acc ps m o w' :
  jds_incoming m w = (o, w') → declarator_ok (MkDeclarator w ts cs ds acc ps) →
  declarator_ok (MkDeclarator w' ts (cs ++ calls_of o) ds (acc ++ accepts m) ps).
Proof.
  intros Hm H. pose proof (jds_incoming_view m w) as Hv. rewrite Hm in Hv.
  assert (acc ⊆ acc ++ accepts m) as Hacc by (intros x; rewrite elem_of_app; auto).
  assert (declarator_ok (MkDeclarator w ts cs ds (acc ++ accepts m) ps)) as H'.
  { destruct H as [Hb Hl Hlo Hc Hi Hf (used & Hu & Hsub)].
    split; cbn [ds_world ds_tasks ds_calls ds_declared ds_accepted ds_prev] in *; auto.
    - intros id f Hid. eapply future_ok_weaken; eauto.
    - exists used. split; [|done]. eapply Forall2_impl; [done|]. intros d c. by apply made_from_weaken. }
  destruct Hv as [[-> Hv]|(Hp & r & d & Hd & Hv)].
  { rewrite app_nil_r. by eapply declarator_ok_other. }
  clear H Hm. destruct H' as [Hb Hl Hlo Hc Hi Hf (used & Hu & Hsub)].
  cbn [ds_world ds_tasks ds_calls ds_declared ds_accepted ds_prev] in *.
  pose proof (values_delete key _ _ _ Hd) as Hval. rewrite live_keys_values in Hsub.
  assert (∀ r' d', delete r (jd_last_declare_mining_jobs_sent (guarded (jw_jd w))) !! r' = Some d' →
    dm_request_id (ld_declare_job d') = r') as Hi'.
  { intros r' d' [_ ?]%lookup_delete_Some. by apply Hi. }
  assert (size (delete r (jd_last_declare_mining_jobs_sent (guarded (jw_jd w)))) ≤ 1000) as Hb'.
  { rewrite map_size_delete. destruct (_ !! r); cbn; lia. }
  destruct Hv as [[Ecs Hv]|(token & -> & [(Hfut & Ecs & Hv)|(Hfut & Hv & p & Hprev & Ecs)])];
    rewrite Ecs; rewrite ?app_nil_r; apply view_fields in Hv as (Ep & Em & El & Ec & Ef);
    split; cbn [ds_world ds_tasks ds_calls ds_declared ds_accepted ds_prev] in *;
    rewrite ?Ep, ?Em, ?El, ?Ec, ?Ef, ?live_keys_values; auto.
  - exists used. split; [done|]. etrans; [|exact Hsub]. apply submseteq_app; [done|].
    apply submseteq_app; [|done]. apply values_delete_sub.
  - intros id f. rewrite lookup_insert_Some. intros [[<- <-]|[_ ?]]; [|by apply Hf].
    split_and!; auto. cbn [with_token dm_request_id dm_mining_job_token].
    rewrite (Hi _ _ Hd). apply elem_of_app. right. by apply list_elem_of_singleton.
  - exists used. split; [done|]. etrans; [|exact Hsub]. apply submseteq_app; [done|].
    trans (values key (delete r (jd_last_declare_mining_jobs_sent (guarded (jw_jd w)))) ++
           key d :: values future_key (jd_future_jobs (guarded (jw_jd w)))).
    { apply submseteq_app; [done|]. apply (values_insert future_key). }
    by rewrite <- Permutation_middle, Hval.
  - exists (used ++ [key d]). split.
    + apply Forall2_app; [done|]. constructor; [|done].
      exists (ld_declare_job d), token, p. rewrite (Hi _ _ Hd). split; [done|].
      split; [apply elem_of_app; right; by apply list_elem_of_singleton|].
      split; [by apply Hl|]. split; [cbn; by rewrite Hfut|done].
    + etrans; [|exact Hsub]. by rewrite Hval, <- (assoc_L (++)).
Qed.

Lemma loops_start ts1 ts2 p : loops (ts1 ++ (p, PhStart) :: ts2) = loops (ts1 ++ ts2).
Proof. by rewrite !loops_app. Qed.
Lemma loops_loop ts1 ts2 p : loops (ts1 ++ (p, PhLoop) :: ts2) ≡ₚ p :: loops (ts1 ++ ts2).
Proof. rewrite !loops_app. change (loops ((p, PhLoop) :: ts2)) with (p :: loops ts2). by rewrite <- Permutation_middle. Qed.
Lemma counter_less_one n : (less_one (N.of_nat (S n) mod 256) mod 256 = N.of_nat n mod 256)%N.
Proof.
  unfold less_one. rewrite N.Div0.add_mod_idemp_l.
  replace (N.of_nat (S n) + 255)%N with (N.of_nat n + 1 * 256)%N by lia. apply N.Div0.mod_add.
Qed.

Lemma declarator_ok_start w ts1 ts2 cs ds acc ps p rest calls w' :
  prev_hash_turn p PhStart w = (rest, calls, w') →
  declarator_ok (MkDeclarator w (ts1 ++ (p, PhStart) :: ts2) cs ds acc ps) →
  declarator_ok (MkDeclarator w' (ts1 ++ rest ++ ts2) (cs ++ calls) ds acc (ps ++ [p])).
Proof.
  intros Ht [Hb Hl Hlo Hc Hi Hf (used & Hu & Hsub)].
  cbn [ds_world ds_tasks ds_calls ds_declared ds_accepted ds_prev] in *.
  pose proof (prev_hash_turn_view p PhStart w) as Hv. rewrite Ht in Hv. clear Ht.
  assert (ps ⊆ ps ++ [p]) as Hps by (intros x; rewrite elem_of_app; auto).
  assert (Forall2 (made_from acc (ps ++ [p])) used cs) as Hu'.
  { eapply Forall2_impl; [done|]. intros d c. by apply made_from_weaken. }
  destruct (poisoned (jw_jd w)) eqn:Hp.
  - destruct Hv as (-> & -> & ->). rewrite app_nil_r. rewrite loops_start in *.
    split; cbn [ds_world ds_tasks ds_calls ds_declared ds_accepted ds_prev app]; eauto.
  - destruct Hv as (-> & -> & Hv). rewrite app_nil_r. rewrite loops_start in *.
    apply view_fields in Hv as (Ep & Em & El & Ec & Ef).
    split; cbn [ds_world ds_tasks ds_calls ds_declared ds_accepted ds_prev app];
      rewrite ?Ep, ?Em, ?El, ?Ec, ?Ef; auto.
    + intros q [= <-]. apply elem_of_app. right. by apply list_elem_of_singleton.
    + intros q. rewrite loops_loop, elem_of_cons. intros [->|Hq]; [|by apply Hps, Hlo].
      apply elem_of_app. right. by apply list_elem_of_singleton.
    + intros _. rewrite loops_loop, Hc by done. cbn [length].
      rewrite N.Div0.add_mod_idemp_l. f_equal. lia.
    + by exists used.
Qed.

Lemma declarator_ok_loop w ts1 ts2 cs ds acc ps p rest calls w' :
  prev_hash_turn p PhLoop w = (rest, calls, w') →
  declarator_ok (MkDeclarator w (ts1 ++ (p, PhLoop) :: ts2) cs ds acc ps) →
  declarator_ok (MkDeclarator w' (ts1 ++ rest ++ ts2) (cs ++ calls) ds acc ps).
Proof.
  intros Ht [Hb Hl Hlo Hc Hi Hf (used & Hu & Hsub)].
  cbn [ds_world ds_tasks ds_calls ds_declared ds_accepted ds_prev] in *.
  pose proof (prev_hash_turn_view p PhLoop w) as Hv. rewrite Ht in Hv. clear Ht.
  rewrite loops_loop in Hc. cbn [length] in Hc.
  assert (∀ q, q ∈ loops (ts1 ++ ts2) → q ∈ ps) as Hlo'.
  { intros q Hq. apply Hlo. rewrite loops_loop. by right. }
  assert (p ∈ ps) as Hpin by (apply Hlo; rewrite loops_loop; by left).
  destruct (poisoned (jw_jd w)) eqn:Hp.
  { destruct Hv as (-> & -> & ->). rewrite app_nil_r.
    split; cbn [ds_world ds_tasks ds_calls ds_declared ds_accepted ds_prev app]; eauto.
    by rewrite Hp. }
  specialize (Hc eq_refl). cbv zeta in Hv. destruct (_ && _) in Hv.
  { destruct Hv as (-> & -> & Hv). apply view_fields in Hv as (Ep & Em & El & Ec & Ef).
    rewrite Hc, counter_less_one in Ec. rewrite app_nil_r.
    split; cbn [ds_world ds_tasks ds_calls ds_declared ds_accepted ds_prev app];
      rewrite ?Ep, ?Em, ?El, ?Ec, ?Ef; eauto. }
  destruct (jd_future_jobs _ !! tp_template_id p) as [[[[[job mp] t] po] dj]|] eqn:Hfut.
  2: { destruct Hv as (-> & -> & ->). rewrite app_nil_r.
    split; cbn [ds_world ds_tasks ds_calls ds_declared ds_accepted ds_prev app]; eauto.
    intros _. by rewrite loops_loop. }
  destruct Hv as (-> & -> & Hv). apply view_fields in Hv as (Ep & Em & El & Ec & Ef).
  rewrite Hc, counter_less_one in Ec.
  split; cbn [ds_world ds_tasks ds_calls ds_declared ds_accepted ds_prev app];
    rewrite ?Ep, ?Em, ?El, ?Ec, ?Ef; eauto.
  { intros id f. by rewrite lookup_empty. }
  destruct (Hf _ _ Hfut) as (Hacc & Hnt & Hid & ->).
  exists (used ++ [future_key (job, nt_merkle_path t, t, po, dj)]). split.
  + apply Forall2_app; [done|]. constructor; [|done]. exists job, (dm_mining_job_token job), p.
    by split_and!.
  + etrans; [|exact Hsub]. rewrite !live_keys_values, <- (assoc_L (++)).
    apply submseteq_app; [done|].
    rewrite (values_delete future_key _ _ _ Hfut). cbn [values]. rewrite <- Permutation_middle.
    apply submseteq_skip. unfold values at 2. rewrite map_to_list_empty. rewrite app_nil_r.
    by apply submseteq_inserts_r.
Qed.
Lemma declarator_ok_step s s' : declarator_step s s' → declarator_ok s → declarator_ok s'.
Proof.
  intros [w ts cs ds acc ps a|w ts cs ds acc ps m o w' Hm|w ts cs ds acc ps p
    |w ts1 ts2 cs ds acc ps p stage rest calls w' Ht|w ts cs ds acc ps w' Hv] H.
  - by apply declarator_ok_declare.
  - by eapply declarator_ok_server.
  - destruct H as [Hb Hl Hlo Hc Hi Hf Hu].
    assert (loops (ts ++ [(p, PhStart)]) = loops ts) as E by (rewrite loops_start; by rewrite app_nil_r).
    split; cbn [ds_world ds_tasks ds_calls ds_declared ds_accepted ds_prev] in *; rewrite ?E; auto.
  - destruct stage; [by eapply declarator_ok_start|]. cbn [stores]. rewrite app_nil_r.
    by eapply declarator_ok_loop.
  - by eapply declarator_ok_other.
Qed.
Lemma declarator_reach_ok w s : fresh_declarator w → declarator_reach w s → declarator_ok s.
Proof.
  intros Hw Hs. eapply (rtc_ind_r (λ s, declarator_ok s)); [|intros s1 s2 _ Hstep H; by eapply declarator_ok_step|exact Hs].
  apply view_fields in Hw as (Ep & Em & El & Ec & Ef).
  split; cbn [ds_world ds_tasks ds_calls ds_declared ds_accepted ds_prev]; rewrite ?Em, ?El, ?Ec, ?Ef.
  - rewrite map_size_empty. lia.
  - done.
  - intros p Hp. by apply elem_of_nil in Hp.
  - done.
  - intros r d. by rewrite lookup_empty.
  - intros id f. by rewrite lookup_empty.
  - exists []. split; [constructor|]. unfold live_keys. rewrite !map_to_list_empty. done.
Qed.

(** ** The theorems *)

(** C8: Whatever the interleaving of declarations, server messages (late, repeated, unknown or
    reordered) and previous-hash tasks, the custom jobs sent so far come from distinct
    declarations: each is made of that declaration's own template, coinbase, pool outputs and
    miner job, of a token with which the server accepted exactly this declaration, and of a
    previous hash the template provider announced, for the template itself when the template
    was a future one. *)
Theorem declarations_used_once w s :
  fresh_declarator w → declarator_reach w s →
  ∃ used, Forall2 (made_from (ds_accepted s) (ds_prev s)) used (ds_calls s) ∧
    used ⊆+ map key (ds_declared s).
Proof.
  intros Hw Hs. destruct (do_uses s) as (used & Hu & Hsub); [by eapply declarator_reach_ok|].
  exists used. split; [done|]. etrans; [|exact Hsub]. by apply submseteq_inserts_r.
Qed.

(** At most 1000 declarations wait for an answer; storing one always keeps it, and at the
    bound loses only the one with the smallest request identifier. *)
Theorem declared_bounded r d m :
  size m <= 1000 →
  let m' := insert_declared r d m in
  size m' <= 1000 ∧ m' !! r = Some d ∧
  ∀ k e, k ≠ r → m !! k = Some e →
    m' !! k = Some e ∨ size m = 1000 ∧ ∀ k', is_Some (m !! k') → (k <= k')%N.
Proof.
  intros Hm. split; [by apply insert_declared_size|].
  unfold insert_declared. destruct (Nat.ltb_spec (size m) 1000) as [Hlt|Hge].
  - split; [by rewrite lookup_insert_eq|]. intros k e Hne Hk. left. by rewrite lookup_insert_ne.
  - assert (size m = 1000) as Hsz by lia. destruct (min_key m) as [k0|] eqn:E.
    + split; [by rewrite lookup_insert_eq|]. intros k e Hne Hk. rewrite lookup_insert_ne by done.
      destruct (decide (k = k0)) as [->|Hk0]; [|left; by rewrite lookup_delete_ne].
      right. split; [done|]. intros k'. by apply min_key_least.
    + exfalso. unfold min_key in E. destruct (map_to_list m) as [|x l] eqn:El.
      * apply map_to_list_empty_iff in El. subst. rewrite map_size_empty in Hsz. lia.
      * cbn in E. by destruct (foldr _ _ _).
Qed.

(** The counter of [on_set_new_prev_hash] is the number of its tasks that still look for
    a future job, so a task that a newer previous hash has superseded gives up at its next
    turn, without a custom job, as long as another task is still looking. *)
Theorem superseded_task_gives_up w s ts1 ts2 p :
  fresh_declarator w → declarator_reach w s → poisoned (jw_jd (ds_world s)) = false →
  ds_tasks s = ts1 ++ (p, PhLoop) :: ts2 → 1 < length (loops (ds_tasks s)) < 256 →
  jd_last_set_new_prev_hash (guarded (jw_jd (ds_world s))) ≠ Some p →
  (prev_hash_turn p PhLoop (ds_world s)).1 = ([], []).
Proof.
  intros Hw Hs Hp Hts Hlen Hlast. pose proof (do_counter s (declarator_reach_ok w s Hw Hs) Hp) as Hc.
  rewrite N.mod_small in Hc by lia.
  pose proof (prev_hash_turn_view p PhLoop (ds_world s)) as Hv.
  destruct (prev_hash_turn p PhLoop (ds_world s)) as [[rest calls] w']. rewrite Hp in Hv. cbv zeta in Hv.
  rewrite Hc, bool_decide_eq_false_2 in Hv by done.
  destruct (N.ltb_spec 1 (N.of_nat (length (loops (ds_tasks s))))) as [_|]; [|lia].
  cbn [negb andb] in Hv. by destruct Hv as (-> & -> & _).
Qed.
End system.

(** ** Witnesses *)
Abbreviation toy_step := (declarator_step (B := bitcoin_model) (PL := toy_pool)).

Definition toy_args (id : N) (future : bool) : DeclareArgs :=
  MkDeclareArgs (toy_template id future) [Byte.x07] [] [] [] (toy_job_of (10 + id)).

(** The rest of a run, one operation at a time; a declaration waits for the gate, which the
    pool's answer, or the template receiver, opens again. *)
Definition run_declare (a : DeclareArgs) (s : Declarator) : Declarator :=
  if is_custom_job_set (jw_flags (ds_world s))
  then MkDeclarator (declare_template a (ds_world s)).2 (ds_tasks s) (ds_calls s)
    (ds_declared s ++ declares a (ds_world s)) (ds_accepted s) (ds_prev s)
  else s.
Definition run_release (s : Declarator) : Declarator :=
  MkDeclarator (set_jw_flags (set_custom_job_set true) (ds_world s)) (ds_tasks s) (ds_calls s)
    (ds_declared s) (ds_accepted s) (ds_prev s).
Definition run_server (m : FromJds) (s : Declarator) : Declarator :=
  let r := jds_incoming m (ds_world s) in
  MkDeclarator r.2 (ds_tasks s) (ds_calls s ++ calls_of r.1) (ds_declared s)
    (ds_accepted s ++ accepts m) (ds_prev s).
Definition run_spawn (p : TpSetNewPrevHash) (s : Declarator) : Declarator :=
  MkDeclarator (ds_world s) (ds_tasks s ++ [(p, PhStart)]) (ds_calls s) (ds_declared s)
    (ds_accepted s) (ds_prev s).
(** The turn of the task at position [i]. *)
Definition run_turn (i : nat) (s : Declarator) : Declarator :=
  match ds_tasks s !! i with
  | Some (p, stage) =>
      let '(rest, calls, w) := prev_hash_turn p stage (ds_world s) in
      MkDeclarator w (take i (ds_tasks s) ++ rest ++ drop (S i) (ds_tasks s)) (ds_calls s ++ calls)
        (ds_declared s) (ds_accepted s) (ds_prev s ++ stores p stage)
  | None => s
  end.
Inductive DeclaratorOp :=
| OpDeclare (a : DeclareArgs) | OpRelease | OpServer (m : FromJds) | OpSpawn (p : TpSetNewPrevHash) | OpTurn (i : nat).
Definition run_op (s : Declarator) (op : DeclaratorOp) : Declarator :=
  match op with
  | OpDeclare a => run_declare a s
  | OpRelease => run_release s
  | OpServer m => run_server m s
  | OpSpawn p => run_spawn p s
  | OpTurn i => run_turn i s
  end.
Definition toy_declarator_run (ops : list DeclaratorOp) : Declarator :=
  fold_left run_op ops (MkDeclarator toy_open_world [] [] [] [] []).

Lemma run_op_steps s op : rtc toy_step s (run_op s op).
Proof.
  destruct s as [w ts cs ds acc ps]. destruct op as [a| |m|p|i].
  - cbn. unfold run_declare. cbn. destruct (is_custom_job_set _); [apply rtc_once, ds_declare|constructor].
  - by apply rtc_once, ds_other.
  - apply rtc_once. cbn. apply ds_server. apply surjective_pairing.
  - apply rtc_once, ds_spawn.
  - cbn. unfold run_turn. cbn [ds_tasks ds_world]. destruct (ts !! i) as [[p stage]|] eqn:E; [|constructor].
    destruct (prev_hash_turn p stage w) as [[rest calls] w'] eqn:Ht. apply rtc_once.
    rewrite <- (take_drop_middle ts i _ E) at 1. by apply ds_turn.
Qed.
Lemma toy_run_steps ops : declarator_reach toy_open_world (toy_declarator_run ops).
Proof.
  unfold declarator_reach, toy_declarator_run.
  generalize (MkDeclarator (B := bitcoin_model) (PL := toy_pool) toy_open_world [] [] [] [] []).
  induction ops as [|op ops IH]; intros s; [constructor|].
  cbn [fold_left]. etrans; [apply run_op_steps|]. apply IH.
Qed.

(** A future template, its acceptance, its previous hash; then a template for that hash. *)
Definition toy_ops : list DeclaratorOp :=
  [OpDeclare (toy_args 1 true); OpServer (JdsDeclareSuccess 1 [Byte.x09]);
   OpSpawn (toy_prev_hash 1); OpTurn 0; OpTurn 0; OpRelease;
   OpDeclare (toy_args 2 false); OpServer (JdsDeclareSuccess 2 [Byte.x0a])].

Lemma declarations_used_once_witness :
  length (ds_calls (toy_declarator_run toy_ops)) = 2 ∧
  ∃ used, Forall2 (made_from (ds_accepted (toy_declarator_run toy_ops)) (ds_prev (toy_declarator_run toy_ops)))
            used (ds_calls (toy_declarator_run toy_ops)) ∧
    used ⊆+ map key (ds_declared (toy_declarator_run toy_ops)).
Proof.
  split; [reflexivity|].
  apply (declarations_used_once toy_open_world (toy_declarator_run toy_ops)); [reflexivity|].
  apply toy_run_steps.
Defined.

Lemma declared_bounded_witness :
  let d := last_declare 3 [] (toy_args 3 false) in
  size (insert_declared 3 d ∅) <= 1000 ∧ insert_declared 3 d ∅ !! 3%N = Some d.
Proof.
  intros d. destruct (declared_bounded 3 d ∅) as (H1 & H2 & _); [rewrite map_size_empty; lia|].
  by split.
Defined.

(** Two previous hashes before any declaration is accepted. *)
Definition toy_superseded : Declarator :=
  toy_declarator_run [OpSpawn (toy_prev_hash 1); OpTurn 0; OpSpawn (toy_prev_hash 2); OpTurn 1].
Lemma superseded_task_gives_up_witness :
  (prev_hash_turn (toy_prev_hash 1) PhLoop (ds_world toy_superseded)).1 = ([], []).
Proof.
  apply (superseded_task_gives_up toy_open_world toy_superseded [] [(toy_prev_hash 2, PhLoop)]);
    [reflexivity|apply toy_run_steps|reflexivity|reflexivity
    |split; apply Nat.ltb_lt; reflexivity|discriminate].
Defined.

(** ** What goes wrong *)

(** A template that was declared for the current previous hash, and accepted only after the
    next one arrived, becomes a custom job on the next one: the template and the previous hash
    of the custom job do not belong together. *)
Theorem late_acceptance_mixes_prev_hashes :
  let late := toy_declarator_run
    [OpSpawn (toy_prev_hash 1); OpTurn 0; OpDeclare (toy_args 1 false);
     OpSpawn (toy_prev_hash 2); OpTurn 1; OpServer (JdsDeclareSuccess 1 [Byte.x09])] in
  map (λ c, (cj_template_id c, tp_template_id (cj_set_new_prev_hash c))) (ds_calls late) =
    [(1, 2)]%N.
Proof. reflexivity. Qed.
