(* ===== verification/MiningDownstreamProps.v ===== *)
(** * What the miners' side promises

    Shares leave under the identifier of their own job, or for the stated reasons not at all; templates become jobs with their
    merge-mining binding; a found block is reported to the template provider, the declarator
    and the pool; the channel is opened once and for all. *)

From S2P Require Import Prelude Str Bitcoin BitcoinModel F32 Sv1 Sv2 RskCommitment MergeState MergeInvariant MergeMining MergeService ProxyState Effects JdData JdState JdUpstream JobDeclarator MiningDownstream JdModel JdUpstreamProps.

(** ** Coinbase outputs *)
Section outputs.
Context `{B : !BitcoinLib} `{!BitcoinLaws B} `{PL : !PoolLib}.
Context (serialize_nonempty : ∀ o, serialize_txout o ≠ []).

Lemma decode_pool_loop_encoded fuel outs :
  length (concat (map serialize_txout outs)) <= fuel →
  decode_pool_loop fuel (concat (map serialize_txout outs)) = Ok outs.
Proof using All.
  revert fuel. induction outs as [|o outs IH]; intros fuel Hf; [by destruct fuel|].
  cbn [map concat] in *. pose proof (serialize_nonempty o) as Hne.
  destruct fuel as [|fuel].
  { rewrite length_app in Hf. destruct (serialize_txout o); [done|cbn in Hf; lia]. }
  unfold decode_pool_loop; fold decode_pool_loop.
  destruct (serialize_txout o ++ _) as [|b l] eqn:E; [by apply app_eq_nil in E as [? _]|].
  rewrite <- E, decode_serialize_txout. rewrite IH; [done|].
  rewrite <- E, length_app in Hf. destruct (serialize_txout o); [done|cbn in Hf; lia].
Qed.
Lemma decode_pool_loop_canonical fuel bs outs :
  decode_pool_loop fuel bs = Ok outs → bs = concat (map serialize_txout outs).
Proof using All.
  revert bs outs. induction fuel as [|fuel IH]; intros [|b bs] outs H; cbn in H; try done;
    try (by injection H as <-).
  destruct (txout_consensus_decode (b :: bs)) as [[o rest]|] eqn:E; [|done].
  destruct (decode_pool_loop fuel rest) as [outs'|] eqn:E'; [|done]. injection H as <-.
  apply decode_txout_canonical in E. rewrite E. cbn. f_equal. by apply IH.
Qed.

(** [decode_pool_coinbase_outputs] reads back exactly the outputs that were encoded, and
    accepts nothing but encodings of outputs: the number that is checked against the limit and
    handed to the job creator is the number of outputs of the pool. *)
Theorem pool_outputs_roundtrip bs outs :
  decode_pool_coinbase_outputs bs = Ok outs ↔ bs = concat (map serialize_txout outs).
Proof using All.
  split; [apply decode_pool_loop_canonical|]. intros ->. by apply decode_pool_loop_encoded.
Qed.
End outputs.

Section node.
Context `{B : !BitcoinLib} `{PL : !PoolLib}.
Implicit Types (w : JdWorld).

(** ** Shares *)

Lemma get_job_id_poll_eq l w :
  get_job_id_poll l w =
    if poisoned (jw_up w) then (Failed JdClientDownstreamMutexCorrupted, w)
    else (Done (get_job_id l (job_ids w)), w).
Proof. unfold get_job_id_poll, lock_up, with_lock. by destruct (poisoned _). Qed.

(** What the node has sent to the pool. *)
Definition up_sent w : list Mining := tx_sent (ju_sender (guarded (jw_up w))).

(** C10: A turn of the task that relays a share, in every case.  While the pool has given no
    identifier to the share's job nothing is sent, and the task goes on exactly until twenty
    seconds have passed.  Once it has, the share is sent in that turn, exactly once and with
    every other field as the miner's share has it, under an identifier which the pool gave to
    a custom job declared for exactly the share's own job, and the task ends.  Only if the
    connection to the pool is gone is it not sent: that is reported to the proxy.  A poisoned
    upstream ends the task with nothing sent. *)
Theorem share_leaves_under_its_job w0 s elapsed share :
  fresh_customs w0 → customs_reach w0 s →
  let w := cu_world s in
  let '(o, w') := relay_share_poll elapsed share w in
  match poisoned (jw_up w), get_job_id (se_job_id share) (job_ids w) with
  | true, _ => o = Done true ∧ w' = w
  | false, None => o = Done (RELAY_TIMEOUT <=? elapsed)%N ∧ w' = w
  | false, Some job_id =>
      o = Done true ∧
      (∃ r c m, (r, job_id) ∈ cu_acknowledged s ∧ (r, c) ∈ cu_drawn s ∧ m ∈ custom_sent w ∧
        is_job (r, c) m ∧ dj_local_job_id (cj_downstream_job c) = se_job_id share) ∧
      if tx_open (ju_sender (guarded (jw_up w)))
      then up_sent w' = up_sent w ++ [MSubmitSharesExtended (with_job_id job_id share)] ∧
           jw_reports w' = jw_reports w
      else up_sent w' = up_sent w ∧
           jw_reports w' = jw_reports w ++ [UpdateUpstream JDCMiningUpstream]
  end.
Proof.
  intros Hw Hs w. unfold relay_share_poll, attempt, mbind, M_bind. rewrite get_job_id_poll_eq.
  destruct (poisoned (jw_up w)) eqn:Hp; [done|].
  destruct (get_job_id (se_job_id share) (job_ids w)) as [job_id|] eqn:Hid; [|done].
  assert (∃ r c m, (r, job_id) ∈ cu_acknowledged s ∧ (r, c) ∈ cu_drawn s ∧ m ∈ custom_sent w ∧
    is_job (r, c) m ∧ dj_local_job_id (cj_downstream_job c) = se_job_id share) as Hfrom.
  { apply (co_ids s); [by eapply customs_reach_ok|]. by apply get_job_id_elem. }
  rewrite send_up_eq, Hp. destruct (tx_open _); done.
Qed.

(** ** What a share leads to *)
Definition down_sent w : list Mining := tx_sent (dmn_sender (guarded (jw_down w))).

(** The tasks and the answers a verdict on a share of a pooled miner leads to. *)
Definition verdict_tasks (withhold : bool) (v : PoolOnNewShare) : list MinerTask :=
  match v with
  | PoolSendSubmitShareUpstream (PoolExtended share) _ => [RelayShare share]
  | PoolShareMeetBitcoinTarget (PoolExtended share) (Some template_id) coinbase extranonce =>
      [SendSolution (MkSubmitSolution template_id (se_version share) (se_ntime share)
         (se_nonce share) coinbase);
       DeclareSolution (with_extranonce extranonce share)] ++
      (if withhold then [] else [RelayShare share])
  | _ => []
  end.
Definition verdict_answers (v : PoolOnNewShare) : list Mining :=
  match v with PoolSendErrorDownstream e => [MSubmitSharesError e] | _ => [] end.
(** The verdicts an extended channel of a template gives, within the fields' sizes. *)
Definition verdict_ok (v : PoolOnNewShare) : Prop :=
  match v with
  | PoolSendErrorDownstream _ | PoolShareMeetDownstreamTarget => True
  | PoolSendSubmitShareUpstream (PoolExtended _) (Some _) => True
  | PoolShareMeetBitcoinTarget (PoolExtended _) (Some _) coinbase extranonce =>
      b064k_fits coinbase = true ∧ length extranonce <= 32
  | _ => False
  end.

(** C11: A miner's share leads to exactly what its verdict asks for: an answer when it misses
    the miner's target, nothing when it only meets it, the relay under the pool's identifier
    when it meets the pool's, and for a block also the solution for the template provider and
    the one for the job declarator, with the full extranonce; withheld blocks are not relayed.
    A share of an unknown job is dropped, and any other error is reported. *)
Theorem share_verdict_effects w m channel verdict channel' :
  poisoned (jw_down w) = false → tx_open (dmn_sender (guarded (jw_down w))) = true →
  dmn_status (guarded (jw_down w)) = ChannelOpened channel →
  pool_on_submit_shares_extended m channel = (verdict, channel') →
  match verdict with Ok v => verdict_ok v | Err _ => True end →
  let '(o, w') := miner_incoming (MSubmitSharesExtended m) w in
  o = Done tt ∧
  dmn_status (guarded (jw_down w')) = ChannelOpened channel' ∧
  match verdict with
  | Ok v =>
      jw_spawned w' = jw_spawned w ++ verdict_tasks (dmn_withhold (guarded (jw_down w))) v ∧
      down_sent w' = down_sent w ++ verdict_answers v ∧ jw_reports w' = jw_reports w
  | Err e =>
      jw_spawned w' = jw_spawned w ∧ down_sent w' = down_sent w ∧
      jw_reports w' = jw_reports w ++
        match e with
        | ShareDoNotMatchAnyJob => []
        | _ => [UpdateDownstream JdClientMiningDownstream]
        end
  end.
Proof.
  intros Hp Ho Hs Hv Hok.
  unfold miner_incoming, next, handle_from_miner, handle_submit_shares_extended, attempt, lock_down_node,
    with_lock, put_status, node_status, from_down, gets, modify, reports, fail, panic, mbind, M_bind, mret, M_ret.
  rewrite Hp, Hs. cbn [get_channel]. rewrite Hv. cbn [put_channel is_solo_miner negb andb].
  destruct verdict as [v|e].
  2: { unfold down_sent. destruct e; cbn; rewrite ?app_nil_r; done. }
  destruct v as [code|[share|] [t|]| |[share|] [t|] coinbase extranonce|]; try done; cbn in Hok.
  - cbn. unfold send_down, lock_down_node, with_lock, from_down, gets, modify, mbind, M_bind. cbn.
    rewrite Hp. cbn. rewrite Ho. unfold down_sent. cbn. by rewrite app_nil_r.
  - unfold down_sent. cbn. by rewrite app_nil_r.
  - unfold block_found, spawn, modify, mbind, M_bind, mret, M_ret. destruct Hok as [-> Hlen].
    apply Nat.leb_le in Hlen. cbn [negb]. rewrite Hlen. cbn [negb andb].
    destruct (dmn_withhold _); unfold down_sent; cbn; rewrite ?app_nil_r, <- ?(assoc_L (++)); done.
  - unfold down_sent. cbn. by rewrite !app_nil_r.
Qed.

(** ** Templates *)
Definition announcements (merge : option MergeMining) : list (N * option N) :=
  match merge with Some m => cs_job_announcements (guarded (co_context (mm_core m))) | None => [] end.
Definition merge_usable (merge : option MergeMining) : Prop :=
  match merge with Some m => poisoned (co_context (mm_core m)) = false | None => True end.
Lemma service_found env merge :
  merge_usable merge →
  poisoned (co_context (mm_core (found_service env merge))) = false ∧
  cs_job_announcements (guarded (co_context (mm_core (found_service env merge)))) = announcements merge.
Proof.
  destruct merge as [m|]; [done|]. intros _. cbn [found_service announcements].
  unfold new. by rewrite context_ensure_observer.
Qed.

Lemma context_woken env m : co_context (mm_core (wake_worker env m)) = co_context (mm_core m).
Proof.
  unfold wake_worker. pose proof (context_ensure_observer env m) as H.
  destruct (ensure_observer env m) as [ready m']. cbn in H. rewrite <- H.
  destruct ready; [|done]. cbn. by repeat case_match.
Qed.

(** Binding or announcing a job appends its announcement. *)
Lemma bind_downstream_job_announces env gen job w :
  merge_usable (jw_merge w) →
  ∃ m b, bind_downstream_job env gen job w = (Done tt, set_jw_merge (Some m) w) ∧
    announcements (Some m) =
      push_bounded MAX_JOB_ANNOUNCEMENTS (announcements (jw_merge w)) (dj_local_job_id job, b) ∧
    (b ≠ None → ∃ g t, gen = Some g ∧
       cs_templates (guarded (co_context (mm_core (found_service env (jw_merge w))))) !! g = Some t ∧
       is_rsk_payload (dp_payload (td_desired t)) = true).
Proof.
  intros Hu. destruct (service_found env _ Hu) as [Hp Ha].
  unfold bind_downstream_job, with_merge, mbind, M_bind, mret, M_ret.
  set (m0 := found_service env (jw_merge w)) in *.
  destruct gen as [g|].
  2: { exists (announce_unbound_job_ m0 (dj_local_job_id job)), None. split; [done|].
       unfold announce_unbound_job_, update_context, lock. rewrite Hp. cbn -[push_bounded MAX_JOB_ANNOUNCEMENTS]. by rewrite Ha. }
  cbv beta. fold m0. clearbody m0. unfold bind_job_generation, lock. rewrite Hp.
  destruct (create_job_binding_cases (co_next_binding_id (mm_core m0)) (guarded (co_context (mm_core m0)))
    (dj_local_job_id job) g (dj_coinbase_tx_prefix job) (dj_coinbase_tx_suffix job))
    as [(n' & -> & _)|(t & Ht & Hrsk & _ & ->)].
  - eexists _, None. split; [reflexivity|].
    unfold announce_unbound_job_, update_context, lock. rewrite Hp. cbn -[push_bounded MAX_JOB_ANNOUNCEMENTS]. rewrite Hp. cbn -[push_bounded MAX_JOB_ANNOUNCEMENTS]. by rewrite Ha.
  - eexists _, (Some _). split; [reflexivity|]. split; [|by intros _; exists g, t].
    cbn [announcements]. rewrite context_woken. unfold update_context, lock. rewrite Hp.
    cbn -[push_bounded MAX_JOB_ANNOUNCEMENTS insert_job]. f_equal. rewrite <- Ha.
    match goal with |- context [insert_job ?s ?job] =>
      destruct (insert_job_fields s job) as (_ & -> & _) end. done.
Qed.

Lemma send_all_sends messages w :
  poisoned (jw_down w) = false → tx_open (dmn_sender (guarded (jw_down w))) = true →
  ∃ w', send_all messages w = (Done tt, w') ∧ down_sent w' = down_sent w ++ messages ∧
    jw_merge w' = jw_merge w ∧ jw_flags w' = jw_flags w.
Proof.
  revert w. induction messages as [|m l IH]; intros w Hp Ho.
  { exists w. by rewrite app_nil_r. }
  cbn [send_all]. unfold attempt, send_down, lock_down_node, with_lock, from_down, gets, modify, mbind, M_bind.
  rewrite Hp, Ho. set (w1 := update_down _ w).
  destruct (IH w1) as (w' & -> & Hs & Hm & Hf); [done|done|].
  exists w'. split; [done|]. rewrite Hs, Hm, Hf. split; [|done].
  unfold down_sent. subst w1. cbn. by rewrite <- (assoc_L (++)).
Qed.

Lemma channel_on_new_template_done outs template w messages w' :
  channel_on_new_template outs template w = (Done messages, w') →
  poisoned (jw_down w') = poisoned (jw_down w) ∧
  tx_open (dmn_sender (guarded (jw_down w'))) = tx_open (dmn_sender (guarded (jw_down w))) ∧
  down_sent w' = down_sent w ∧ jw_merge w' = jw_merge w.
Proof.
  intros H. apply with_lock_done in H. apply bind_done in H as (st & w1 & [= <- <-] & H).
  destruct (get_channel _) as [ch|]; [|done].
  destruct (pool_on_new_template template _) as [[ms|e] ch'];
    apply bind_done in H as (? & w2 & [= _ <-] & H); [|done]. by injection H as _ <-.
Qed.

(** When merge mining is on, a template's job is announced to the merge-mining service,
    bound or unbound, before the job goes to the miners: the announcement is the newest one
    and names exactly the job that is sent, and it is bound only if the template itself
    carried an RSK commitment; then the channel's messages leave in order, and the template
    is marked as handled. *)
Theorem job_announced_then_sent env template pool_output gen w j w' :
  enabled (je_api_secret env) = true → merge_usable (jw_merge w) →
  poisoned (jw_down w) = false → tx_open (dmn_sender (guarded (jw_down w))) = true →
  on_new_template env template pool_output gen w = (Done (Some j), w') →
  ∃ messages b m, jw_merge w' = Some m ∧
    announcements (Some m) =
      push_bounded MAX_JOB_ANNOUNCEMENTS (announcements (jw_merge w)) (dj_local_job_id j, b) ∧
    (b ≠ None → ∃ g t, gen = Some g ∧
       cs_templates (guarded (co_context (mm_core (found_service env (jw_merge w))))) !! g = Some t ∧
       is_rsk_payload (dp_payload (td_desired t)) = true) ∧
    down_sent w' = down_sent w ++ messages ∧ head (omap extended_job messages) = Some j ∧
    is_new_template_handled (jw_flags w') = true.
Proof.
  intros He Hu Hp Ho H. unfold on_new_template in H.
  apply bind_done in H as (st & w1 & H1 & H). apply with_lock_done in H1. injection H1 as <- <-.
  destruct (negb _); [by apply bind_done in H as (? & ? & _ & [=])|].
  apply bind_done in H as (outs & w1 & H1 & H).
  assert (w1 = w) as -> by (destruct (decode_pool_coinbase_outputs _); by injection H1). clear H1.
  apply bind_done in H as (u & w1 & H1 & H).
  assert (w1 = w) as -> by (destruct (validate_final_coinbase_output_count _ _); by injection H1). clear H1.
  apply bind_done in H as (messages & w1 & H1 & H). apply channel_on_new_template_done in H1 as (Hp1 & Ho1 & Hs1 & Hm1).
  rewrite Hp in Hp1. rewrite Ho in Ho1. rewrite He in H. rewrite <- Hm1 in *.
  apply bind_done in H as ([] & w2 & H2 & H).
  assert (∃ m b, w2 = set_jw_merge (Some m) w1 ∧ head (omap extended_job messages) = Some j ∧
    announcements (Some m) =
      push_bounded MAX_JOB_ANNOUNCEMENTS (announcements (jw_merge w1)) (dj_local_job_id j, b) ∧
    (b ≠ None → ∃ g t, gen = Some g ∧
       cs_templates (guarded (co_context (mm_core (found_service env (jw_merge w1))))) !! g = Some t ∧
       is_rsk_payload (dp_payload (td_desired t)) = true)) as (m & b & -> & Hj & Ha & Hb).
  { apply bind_done in H as (? & w3 & _ & H). apply bind_done in H as (? & w4 & _ & [= Hj _]).
    rewrite Hj in H2. destruct (bind_downstream_job_announces env gen j w1 Hu) as (m & b & E & Ha & Hb).
    rewrite E in H2. injection H2 as <-. by exists m, b. }
  destruct (send_all_sends messages (set_jw_merge (Some m) w1)) as (w3 & E & Hs & Hm & _); [done|done|].
  rewrite (bind_run _ _ _ _ _ E) in H. cbn in H. injection H as _ <-.
  exists messages, b, m. split; [done|]. split; [done|]. split; [done|].
  split; [|done]. rewrite <- Hs1. exact Hs.
Qed.

(** ** The miners' side among the custom jobs

    Everything the miners' side does is a step of another task in the sense of
    [customs_step]: what was proved of the custom jobs holds with it running. *)
Definition harmless (m : Mining) : Prop :=
  match m with MSetCustomMiningJob _ => False | _ => True end.
Lemma framed_push_up m :
  harmless m → framed (modify (update_up (λ u, set_ju_sender (sender_push m (ju_sender u)) u))).
Proof.
  intros Hm w. unfold same_customs, custom_view, custom_sent. cbn. rewrite omap_app. cbn.
  by destruct m; rewrite ?app_nil_r.
Qed.
Lemma framed_send_up m : harmless m → framed (send_up m).
Proof. intros Hm. unfold send_up, from_up. framed. by apply framed_push_up. Qed.
Lemma framed_take_channel_factory_poll : framed take_channel_factory_poll.
Proof. unfold take_channel_factory_poll, from_up. framed. Qed.
Lemma framed_set_channel_factory_turn : framed set_channel_factory_turn.
Proof. unfold set_channel_factory_turn, from_down. framed. Qed.
Lemma framed_with_merge {A} env (f : MergeMining → A * MergeMining) : framed (with_merge env f).
Proof. intros w. unfold with_merge. by destruct (f _). Qed.
Lemma framed_send_all messages : framed (send_all messages).
Proof. induction messages as [|m l IH]; cbn [send_all]; framed. Qed.
Lemma framed_on_new_template env template pool_output gen :
  framed (on_new_template env template pool_output gen).
Proof.
  unfold on_new_template, channel_on_new_template, bind_downstream_job, put_status, node_status, from_down, set_flag.
  framed; first [apply framed_with_merge|apply framed_send_all].
Qed.
Lemma framed_on_set_new_prev_hash p : framed (on_set_new_prev_hash p).
Proof. unfold on_set_new_prev_hash, put_status, node_status, from_down. framed. Qed.
Lemma framed_relay_share_poll elapsed share : framed (relay_share_poll elapsed share).
Proof.
  unfold relay_share_poll, get_job_id_poll, from_up, reports. framed. by apply framed_push_up.
Qed.

(** What [match_send_to] relays is never a custom job. *)
Inductive benign (incoming : Mining) : SendTo → Prop :=
| benign_same : harmless incoming → benign incoming RelaySameMessageToRemote
| benign_share share : benign incoming (RelayNewMessage (MSubmitSharesExtended share))
| benign_respond m : benign incoming (Respond m)
| benign_multiple ms : benign incoming (Multiple (map Respond ms))
| benign_none : benign incoming SendNone.

Lemma relay_upstream_benign m w st w' :
  harmless m → relay_upstream w = (Done st, w') → benign m st.
Proof.
  unfold relay_upstream, node_status, from_down, gets, mbind, M_bind. intros Hm.
  destruct (get_upstream _); [|done]. intros [= <- _]. by constructor.
Qed.
Lemma handle_from_miner_benign m w st w' : handle_from_miner m w = (Done st, w') → benign m st.
Proof.
  intros H. apply with_lock_done in H. destruct m as [m| |m| | | | |m| | |[]]; try done.
  - apply bind_done in H as (s & w1 & _ & H). destruct (negb _); [by eapply relay_upstream_benign|].
    apply bind_done in H as (? & w2 & _ & H). destruct (pool_factory_new _ _ _ _ _ _); [|done].
    apply bind_done in H as (? & w3 & _ & H). destruct (get_channel _); [|done].
    destruct (pool_new_extended_channel _ _ _ _) as [ms ch]. apply bind_done in H as (? & w4 & _ & H).
    destruct ms; [|done]. injection H as <- _. constructor.
  - apply bind_done in H as (s & w1 & _ & H). apply bind_done in H as (withhold & w2 & _ & H).
    destruct (get_channel _); [|done]. destruct (pool_on_submit_shares_extended m _) as [[v|e] ch];
      apply bind_done in H as (? & w3 & _ & H); [|done].
    destruct v as [code|[share|] [t|]| |[share|] [t|] coinbase extranonce|]; try done;
      try (destruct (negb _)); try (injection H as <- _; constructor); try done.
    all: unfold block_found in H; destruct (negb (b064k_fits coinbase)); try done;
      apply bind_done in H as (? & w4 & _ & H); apply bind_done in H as (? & w5 & _ & H);
      destruct (_ && _); injection H as <- _; constructor.
  - injection H as <- _. constructor.
  - injection H as <- _. constructor.
  - apply bind_done in H as (s & w1 & _ & H). destruct (negb _); [by eapply relay_upstream_benign|done].
Qed.

Lemma framed_handle_from_miner m : framed (handle_from_miner m).
Proof.
  unfold handle_from_miner, handle_open_extended_mining_channel, handle_submit_shares_extended,
    handle_update_channel, relay_upstream, block_found, spawn, put_status, node_status, from_down. framed.
Qed.
(** A message of the miners follows a relation when its parts do. *)
Lemma follows_miner_incoming R `{!WorldOrder R} :
  (∀ m, harmless m → follows R (send_up m)) → (∀ m, follows R (send_down m)) →
  (∀ t, follows R (spawn t)) → (∀ u, follows R (reports u)) →
  (∀ m, follows R (handle_from_miner m)) → ∀ m, follows R (miner_incoming m).
Proof.
  intros Hup Hdown Hspawn Hrep Hh incoming.
  assert (∀ st, benign incoming st → follows R (match_send_to st (Some incoming))) as Hsend.
  { intros st [Hm|share|m|ms|]; cbn [match_send_to]; [by apply Hup|apply Hspawn|apply Hdown| |by apply follows_ret].
    induction ms as [|m ms IH]; cbn [map]; [by apply follows_ret|].
    apply follows_bind; [done|apply follows_attempt; [done|apply Hdown]|]. intros a.
    apply follows_bind; [done| |done]. destruct a; [by apply follows_ret|apply Hrep]. }
  unfold miner_incoming. apply follows_bind; [done| |intros []; [by apply follows_ret|apply Hrep]].
  apply follows_attempt; [done|]. intros w. unfold next, attempt, mbind, M_bind.
  pose proof (Hh incoming w) as Hf. pose proof (handle_from_miner_benign incoming w) as Hb.
  destruct (handle_from_miner incoming w) as [[st|e|] w1]; cbn [snd] in Hf.
  - etrans; [exact Hf|]. apply Hsend. by eapply Hb.
  - destruct e as [|[]| | | | |]; done.
  - done.
Qed.
Lemma framed_miner_incoming m : framed (miner_incoming m).
Proof.
  apply follows_miner_incoming; try typeclasses eauto;
    auto using framed_send_up, framed_send_down, framed_handle_from_miner.
  - intros t. unfold spawn. framed.
  - intros u. unfold reports. framed.
Qed.

(** ** The states of the channel *)
Definition status w : DownstreamMiningNodeStatus := dmn_status (guarded (jw_down w)).
(** A node stays pooled or solo, and an open channel stays open. *)
Definition status_le (s s' : DownstreamMiningNodeStatus) : Prop :=
  is_solo_miner s' = is_solo_miner s ∧ (have_channel s = true → have_channel s' = true).
Definition status_moves w w' : Prop := status_le (status w) (status w').
#[export] Instance status_moves_order : WorldOrder status_moves.
Proof.
  split; [|by split..]. split; [by split|]. intros w1 w2 w3 [E1 H1] [E2 H2].
  split; [by rewrite E2|auto].
Qed.

Lemma put_channel_le ch s : status_le s (put_channel ch s).
Proof. by destruct s. Qed.
Lemma set_channel_le ch s : status_le s (set_channel ch s).2.
Proof. by destruct s. Qed.

(** After the status was read, a new one may be stored when it is above it. *)
Lemma moves_put_at {A} s (k : unit → JM A) w :
  status_le (status w) s → (∀ w1, status w1 = s → status_moves w1 (k tt w1).2) →
  status_moves w ((put_status s ≫= k) w).2.
Proof.
  intros Hs Hk. unfold put_status, modify, mbind, M_bind. etrans; [|by apply Hk]. done.
Qed.
Lemma moves_put {A} s (k : unit → JM A) w :
  status_le (status w) s → (∀ u, follows status_moves (k u)) → status_moves w ((put_status s ≫= k) w).2.
Proof. intros Hs Hk. apply moves_put_at; [done|]. intros w1 _. apply Hk. Qed.
Lemma moves_status {A} (k : DownstreamMiningNodeStatus → JM A) :
  (∀ w, status_moves w (k (status w) w).2) → follows status_moves (node_status ≫= k).
Proof. intros H w. apply H. Qed.

Ltac moves := follows ltac:(done).

Lemma moves_update_channel f w : status_moves w (update_down (update_channel f) w).
Proof.
  unfold status_moves, status, update_channel. cbn. destruct (dmn_status (guarded (jw_down w))) eqn:E; cbn; rewrite ?E; by split.
Qed.
Lemma moves_upstream_incoming spm m : follows status_moves (upstream_incoming spm m).
Proof.
  intros w. unfold upstream_incoming.
  assert (follows status_moves (handle_from_pool spm m)) as Hh.
  { unfold handle_from_pool, handle_open_extended_mining_channel_success,
      handle_set_custom_mining_job_success, handle_set_custom_mining_job_error, handle_set_target,
      relay_downstream, update_requests, from_up, from_down, set_flag.
    follows ltac:(first [apply moves_update_channel|done]). }
  assert (follows status_moves (send_down m)) as Hs by (unfold send_down, from_down; moves).
  specialize (Hh w). destruct (handle_from_pool spm m w) as [[[]|e|] w1]; try done.
  specialize (Hs w1). etrans; [exact Hh|]. by destruct (send_down m w1) as [[] w2].
Qed.
Lemma moves_set_channel_factory_turn : follows status_moves set_channel_factory_turn.
Proof.
  unfold set_channel_factory_turn, take_channel_factory_poll, from_up, from_down.
  follows ltac:(first [done|apply set_channel_le]).
Qed.
Lemma moves_handle_submit m : follows status_moves (handle_submit_shares_extended m).
Proof.
  unfold handle_submit_shares_extended. apply moves_status. intros w. unfold mbind, M_bind at 1, from_down, gets.
  destruct (get_channel (status w)) as [ch|]; [|done].
  destruct (pool_on_submit_shares_extended m ch) as [v ch']. apply moves_put; [apply put_channel_le|].
  intros _. unfold block_found, spawn. moves.
Qed.
Lemma moves_handle_open m : follows status_moves (handle_open_extended_mining_channel m).
Proof.
  unfold handle_open_extended_mining_channel, relay_upstream. apply moves_status. intros w.
  destruct (negb _); [apply moves_status; intros w'; by destruct (get_upstream _)|].
  unfold mbind at 1, M_bind at 1, from_down, gets.
  destruct (pool_factory_new _ _ _ _ _ _) as [f|e]; [|done].
  set (s1 := (set_channel f (status w)).2). assert (status_le (status w) s1) as Hle by apply set_channel_le.
  apply moves_put_at; [done|]. intros w1 Hw1.
  destruct (get_channel s1) as [ch|]; [|done]. destruct (pool_new_extended_channel _ _ _ _) as [ms ch'].
  apply moves_put; [rewrite Hw1; apply put_channel_le|]. intros _. moves.
Qed.
Lemma moves_handle_from_miner m : follows status_moves (handle_from_miner m).
Proof.
  unfold handle_from_miner. apply follows_lock_down; [typeclasses eauto|].
  destruct m as [m| |m| | | | |m| | |[]]; try (moves; done).
  - apply moves_handle_open.
  - apply moves_handle_submit.
Qed.
Lemma moves_miner_incoming m : follows status_moves (miner_incoming m).
Proof.
  apply follows_miner_incoming; [typeclasses eauto|..].
  - intros m' _. unfold send_up, from_up. moves.
  - intros m'. unfold send_down, from_down. moves.
  - intros t. unfold spawn. moves.
  - intros u. unfold reports. moves.
  - apply moves_handle_from_miner.
Qed.
Lemma moves_on_new_template env template pool_output gen :
  follows status_moves (on_new_template env template pool_output gen).
Proof.
  assert (∀ A (f : MergeMining → A * MergeMining), follows status_moves (with_merge env f)) as Hm.
  { intros A f w. unfold with_merge. by destruct (f _). }
  assert (∀ ms, follows status_moves (send_all ms)) as Hs.
  { intros ms. induction ms as [|m ms IH]; cbn [send_all]; moves. }
  assert (∀ outs, follows status_moves (channel_on_new_template outs template)) as Hc.
  { intros outs. unfold channel_on_new_template. apply follows_lock_down; [typeclasses eauto|].
    apply moves_status. intros w. destruct (get_channel _); [|done].
    destruct (pool_on_new_template _ _) as [ms ch]. apply moves_put; [apply put_channel_le|]. intros _. moves. }
  unfold on_new_template, bind_downstream_job, set_flag.
  apply follows_bind; [typeclasses eauto|unfold node_status, from_down; moves|]. intros st.
  destruct (negb _); [moves|]. do 2 (apply follows_bind; [typeclasses eauto|moves|]; intro).
  apply follows_bind; [typeclasses eauto|apply Hc|]. intros ms. moves; first [apply Hm|apply Hs].
Qed.
Lemma moves_on_set_new_prev_hash p : follows status_moves (on_set_new_prev_hash p).
Proof.
  unfold on_set_new_prev_hash. apply follows_bind; [typeclasses eauto|unfold node_status, from_down; moves|]. intros st.
  destruct (negb _); [moves|]. apply follows_bind; [typeclasses eauto| |].
  - apply follows_lock_down; [typeclasses eauto|]. apply moves_status. intros w.
    destruct (get_channel _); [|done]. destruct (on_new_prev_hash_from_tp p _) as [id ch].
    apply moves_put; [apply put_channel_le|]. intros _. moves.
  - intros id. unfold send_down, node_status, from_down. moves.
Qed.

(** Everything that reaches the node. *)
Inductive node_step : JdWorld → JdWorld → Prop :=
| node_miner m w : node_step w (miner_incoming m w).2
| node_pool spm m w : node_step w (upstream_incoming spm m w).2
| node_factory w : node_step w (set_channel_factory_turn w).2
| node_template env template pool_output gen w :
    node_step w (on_new_template env template pool_output gen w).2
| node_prev_hash p w : node_step w (on_set_new_prev_hash p w).2.

(** The state of the miners' node is typed by two facts that every message, task and
    template keeps: a node that mines with the pool never becomes a solo one, nor the
    reverse, and a channel that was opened stays open; so a share or a template that once
    found the channel always finds it. *)
Theorem channel_stays_open w w' :
  rtc node_step w w' →
  is_solo_miner (status w') = is_solo_miner (status w) ∧
  (have_channel (status w) = true → get_channel (status w') ≠ None).
Proof.
  intros H. assert (status_moves w w') as [Hs Ho].
  { induction H as [w|w1 w2 w3 Hstep _ IH]; [done|]. etrans; [|exact IH]. destruct Hstep.
    - apply moves_miner_incoming.
    - apply moves_upstream_incoming.
    - apply moves_set_channel_factory_turn.
    - apply moves_on_new_template.
    - apply moves_on_set_new_prev_hash. }
  split; [done|]. intros Hh. specialize (Ho Hh). by destruct (status w').
Qed.
End node.
(** ** Witnesses *)
Lemma toy_outputs_nonempty : ∀ o, serialize_txout (BitcoinLib := bitcoin_model) o ≠ [].
Proof. intros o. cbn. discriminate. Qed.

Lemma pool_outputs_roundtrip_witness :
  let outs := [make_output 5 [Byte.x51]; make_output 6 []] in
  decode_pool_coinbase_outputs (B := bitcoin_model)
    (concat (map (serialize_txout (BitcoinLib := bitcoin_model)) outs)) = Ok outs.
Proof. intros outs. by apply (pool_outputs_roundtrip toy_outputs_nonempty). Defined.

Definition toy_share (job : N) : SubmitSharesExtended := MkSubmitSharesExtended 5 0 job 1 2 3 [].

(** The pool knows job 12 as 102. *)
Lemma share_leaves_under_its_job_witness :
  let w := cu_world toy_run in
  let '(o, w') := relay_share_poll 7 (toy_share 12) w in
  o = Done true ∧
  up_sent w' = up_sent w ++ [MSubmitSharesExtended (with_job_id 102 (toy_share 12))].
Proof.
  assert (poisoned (jw_up (cu_world toy_run)) = false) as Hp by (vm_compute; reflexivity).
  assert (get_job_id (se_job_id (toy_share 12)) (job_ids (cu_world toy_run)) = Some 102%N) as Hid
    by (vm_compute; reflexivity).
  assert (tx_open (ju_sender (guarded (jw_up (cu_world toy_run)))) = true) as Ho
    by (vm_compute; reflexivity).
  pose proof (share_leaves_under_its_job toy_open_world toy_run 7 (toy_share 12) eq_refl
    toy_run_reach) as H. cbv zeta in H |- *. rewrite Hp, Hid, Ho in H. clear Hp Hid Ho.
  destruct (relay_share_poll 7 (toy_share 12) (cu_world toy_run)) as [o w'].
  split; [exact (proj1 H)|exact (proj1 (proj2 (proj2 H)))].
Defined.

Lemma share_verdict_effects_witness :
  let '(o, w') := miner_incoming (MSubmitSharesExtended (toy_share 12)) toy_open_world in
  o = Done tt ∧ jw_spawned w' = [RelayShare (toy_share 12)].
Proof.
  pose proof (share_verdict_effects toy_open_world (toy_share 12) toy_factory
    (Ok (PoolSendSubmitShareUpstream (PoolExtended (toy_share 12)) (Some 1%N))) toy_factory
    eq_refl eq_refl eq_refl eq_refl I) as H.
  destruct (miner_incoming _ _) as [o w']. destruct H as (Ho & _ & Hs & _). by split.
Defined.

Definition toy_env : JdEnv :=
  MkJdEnv (Some [Byte.x01]) (MkObserverEnv true true 0 true 0).
Lemma toy_template_handled :
  (on_new_template toy_env (toy_template 3 false) [] None toy_open_world).1 =
    Done (Some (MkDownstreamJob 1 [] [])).
Proof. reflexivity. Qed.
Lemma job_announced_then_sent_witness :
  let w' := (on_new_template toy_env (toy_template 3 false) [] None toy_open_world).2 in
  ∃ m b, jw_merge w' = Some m ∧
    announcements (Some m) = push_bounded MAX_JOB_ANNOUNCEMENTS [] (1%N, b).
Proof.
  destruct (job_announced_then_sent toy_env (toy_template 3 false) [] None toy_open_world
    (MkDownstreamJob 1 [] []) (on_new_template toy_env (toy_template 3 false) [] None toy_open_world).2
    eq_refl I eq_refl eq_refl) as (ms & b & m & Hm & Ha & _).
  - rewrite <- toy_template_handled. apply surjective_pairing.
  - by exists m, b.
Defined.

Lemma channel_stays_open_witness :
  have_channel (status toy_open_world) = true ∧
  get_channel (status (on_set_new_prev_hash (toy_prev_hash 1)
    (miner_incoming (MSubmitSharesExtended (toy_share 12)) toy_open_world).2).2) ≠ None.
Proof.
  split; [reflexivity|].
  apply (channel_stays_open toy_open_world); [|reflexivity].
  eapply rtc_l; [apply node_miner|]. eapply rtc_l; [apply node_prev_hash|]. constructor.
Defined.
