(* ===== verification/TemplateReceiverProps.v ===== *)
(** * What the template receiver promises

    One branch is taken for every template; what is declared is coherent and no token is used
    twice; a previous hash never waits.  One answer of the template provider stops it. *)

From S2P Require Import Prelude Str Bitcoin BitcoinModel F32 Sv1 Sv2 RskCommitment MergeState MergeMining ProxyState Effects JdData JdState JdUpstream JobDeclarator MiningDownstream MinerTag TemplateReceiver JdModel.

(** On every template exactly one decision is taken, so the [unreachable!] of the code is
    never reached: it is published after the last one, unless a previous hash arrived since
    and the last template was not a future one; then a future template is published in place
    of the last one, whose declaration is given up, and any other is skipped.  RSK is prepared
    exactly for the templates that are published. *)
Theorem template_decision_table last_is_future future new_phash :
  let '(wait, next, discard) := template_decisions last_is_future future new_phash in
  let skipped := negb last_is_future && negb future && new_phash in
  wait = last_is_future || negb new_phash ∧
  (wait = false → next = skipped ∧ discard = true ∧ (next = false → future = true)) ∧
  will_publish_template wait next discard = negb skipped.
Proof. by destruct last_is_future, future, new_phash. Qed.

(** The capacity asked from the template provider is the token's, with 100 bytes more
    exactly when merge mining is on and they still fit in 32 bits; only then is the RSK output
    ever added, and never with more than the bytes that were asked for. *)
Theorem reserved_capacity_is_advertised base enabled :
  (base <= u32_max)%N →
  let '(advertised, reserved) := coinbase_capacity_with_merge_mining base enabled in
  (advertised <= u32_max)%N ∧
  advertised = (base + match reserved with Some n => N.of_nat n | None => 0 end)%N ∧
  (is_Some reserved ↔ enabled = true ∧ (base + 100 <= u32_max)%N).
Proof.
  intros Hb. unfold coinbase_capacity_with_merge_mining, RESERVED_COINBASE_OUTPUT_BYTES, checked_add.
  destruct enabled; cbn [negb].
  - destruct (N.leb_spec (base + 100) u32_max) as [H|H].
    + split; [done|]. split; [done|]. split; [done|]. intros _. by eexists.
    + split; [done|]. split; [by rewrite N.add_0_r|]. split; [by intros []|intros [_ ?]; lia].
  - split; [done|]. split; [by rewrite N.add_0_r|]. split; [by intros []|by intros []].
Qed.
Lemma reserved_capacity_is_advertised_witness :
  (1 <= u32_max)%N ∧ let '(advertised, _) := coinbase_capacity_with_merge_mining 1 true in advertised = 101%N.
Proof.
  split; [done|]. pose proof (reserved_capacity_is_advertised 1 true ltac:(done)) as H.
  destruct H as (_ & H & _). exact H.
Defined.

Section system.
Context `{B : !BitcoinLib} `{PL : !PoolLib}.
Implicit Types (w : TrWorld) (l : TrLocals).

(** ** Every run of the receiver's task *)
Record Receiver := MkReceiver {
  rs_world : TrWorld;
  rs_stage : TrStage;
  rs_locals : TrLocals;
  rs_taken : list AllocateMiningJobTokenSuccess   (** the tokens it was given *)
}.
Definition takes l l' : list AllocateMiningJobTokenSuccess :=
  match tl_last_token l, tl_last_token l' with
  | None, Some (Some token) => [token]
  | _, _ => []
  end.
(** What the receiver's theorems depend on; other tasks may change the rest. *)
Definition rx_view w : list TrTask * option NewTemplate * bool :=
  (tw_tasks w, tr_new_template_message (guarded (tw_rx w)),
   is_new_template_handled (jw_flags (tw_client w))).

Inductive receiver_step : Receiver → Receiver → Prop :=
| rx_turn w stage l taken env name jd received stage' l' w' :
    tr_turn env name jd stage received l w = (Done (TrStay stage' l'), w') →
    receiver_step (MkReceiver w stage l taken) (MkReceiver w' stage' l' (taken ++ takes l l'))
| rx_other w stage l taken w' :
    rx_view w' = rx_view w →
    receiver_step (MkReceiver w stage l taken) (MkReceiver w' stage l taken).

(** ** Operations that leave the view alone *)
Definition still {A} (m : TM A) : Prop := ∀ w, rx_view (m w).2 = rx_view w.

Lemma still_bind {A X} (m : TM A) (k : A → TM X) : still m → (∀ a, still (k a)) → still (m ≫= k).
Proof.
  intros Hm Hk w. unfold mbind, M_bind. specialize (Hm w).
  destruct (m w) as [[a|e|] w']; [|done|done]. cbn [snd] in Hm. by rewrite Hk.
Qed.
Lemma still_try {A} (m : TM A) : still m → still (try_tm m).
Proof. intros Hm w. unfold try_tm. specialize (Hm w). by destruct (m w) as [[] w']. Qed.
Lemma still_lock {A} (m : TM A) : still m → still (lock_rx m).
Proof.
  intros Hm w. unfold lock_rx, with_lock. destruct (poisoned _); [done|].
  specialize (Hm w). by destruct (m w) as [[] w'].
Qed.
(** Clients whose flag for handled templates is the same. *)
Definition same_handled (c c' : JdWorld) : Prop :=
  is_new_template_handled (jw_flags c') = is_new_template_handled (jw_flags c).
#[local] Instance same_handled_order : WorldOrder same_handled.
Proof.
  split; [|done..]. split; [done|]. intros c1 c2 c3. unfold same_handled. congruence.
Qed.
Lemma still_client {A} (m : JM A) : follows same_handled m → still (in_client m).
Proof.
  intros Hm w. unfold in_client. specialize (Hm (tw_client w)).
  destruct (m (tw_client w)) as [o c]. cbn [snd] in *. unfold rx_view. cbn. by rewrite Hm.
Qed.

Ltac still :=
  repeat first
    [ assumption | by intros w | apply still_bind; [|intro] | apply still_try | apply still_lock
    | apply still_client; follows ltac:(reflexivity) | case_match ].

Lemma still_tp_send m : still (tp_send m).
Proof. unfold tp_send, tr_report, reports, from_rx. still. Qed.
Lemma still_with_merge {A} env (f : MergeMining → A * MergeMining) : still (in_client (with_merge env f)).
Proof. apply still_client. intros c. unfold with_merge. by destruct (f _). Qed.
Lemma still_prepare_rsk env reserved l m : still (prepare_rsk env reserved l m).
Proof.
  unfold prepare_rsk. apply still_bind; [apply still_with_merge|]. intros [[[]|] t]; [|by intros w..].
  apply still_bind; [apply still_with_merge|]. intros [g|]; [|by intros w].
  apply still_bind; [|intros []; [by intros w|apply still_bind; [apply still_with_merge|by intros [] w]]].
  unfold preview, preview_template_job, from_down. still.
Qed.
Lemma still_advertise l token : still (advertise l token).
Proof.
  unfold advertise, from_rx, send_max_coinbase_size. destruct (tl_coinbase_output_max_additional_size_sent l); [by intros w|].
  apply still_bind; [by intros w|]. intros b. destruct (coinbase_capacity_with_merge_mining _ b).
  apply still_bind; [apply still_tp_send|]. by intros [] w.
Qed.

(** ** Coherence *)

(** A job the client built from a template with the outputs of a token. *)
Definition job_from (t : NewTemplate) (pool_output : bytes) (j : DownstreamJob) : Prop :=
  ∃ env gen c c', on_new_template env t pool_output gen c = (Done (Some j), c').
Definition declares_of (tasks : list TrTask) : list DeclareArgs :=
  omap (λ t, match t with DeclareTask a => Some a | _ => None end) tasks.
(** A declaration made with a token. *)
Definition declared_with (a : DeclareArgs) (token : AllocateMiningJobTokenSuccess) : Prop :=
  da_token a = tk_mining_job_token token ∧ da_coinbase_pool_output a = tk_coinbase_output token ∧
  job_from (da_template a) (tk_coinbase_output token) (da_downstream_job a).

(** The template under way: stored, asked for, and its job built with the current token. *)
Definition under_way (message : option NewTemplate) l : Prop :=
  ∀ id, tl_pending_tx_data_template_id l = Some id →
  ∃ t token, message = Some t ∧ current_token l = Some token ∧
    ∀ j, tl_pending_downstream_job l = Some j → job_from t (tk_coinbase_output token) j.
Definition tokens_used (tasks : list TrTask) l (taken : list AllocateMiningJobTokenSuccess) : Prop :=
  ∃ used, Forall2 declared_with (declares_of tasks) used ∧
    used ++ option_list (current_token l) `sublist_of` taken.

Record receiver_ok (s : Receiver) : Prop := {
  ro_handled : is_new_template_handled (jw_flags (tw_client (rs_world s))) = true;
  ro_stage : match rs_stage s with
             | TrWaitHandled _ => False
             | TrToken _ => tl_last_token (rs_locals s) = None
             | _ => True
             end;
  ro_under_way : under_way (tr_new_template_message (guarded (tw_rx (rs_world s)))) (rs_locals s);
  ro_tokens : tokens_used (tw_tasks (rs_world s)) (rs_locals s) (rs_taken s)
}.

(** A state by its view. *)
Lemma receiver_ok_view w w' stage l taken :
  rx_view w' = rx_view w → receiver_ok (MkReceiver w stage l taken) →
  receiver_ok (MkReceiver w' stage l taken).
Proof.
  unfold rx_view. intros [= Et Em Ef] [Hh Hs Hu Ht].
  split; cbn [rs_world rs_stage rs_locals rs_taken] in *; by rewrite ?Et, ?Em, ?Ef.
Qed.

(** Local variables that only lose the template under way, or change what is not of interest. *)
Lemma receiver_ok_locals w stage stage' l l' taken :
  receiver_ok (MkReceiver w stage l taken) →
  match stage' with TrTop | TrReceive => True | _ => False end →
  current_token l' = current_token l →
  (tl_pending_tx_data_template_id l' = None ∨
   tl_pending_tx_data_template_id l' = tl_pending_tx_data_template_id l ∧
   tl_pending_downstream_job l' = tl_pending_downstream_job l) →
  receiver_ok (MkReceiver w stage' l' taken).
Proof.
  intros [Hh Hs Hu Ht] Hst Ec Hp. split; cbn [rs_world rs_stage rs_locals rs_taken] in *.
  - done.
  - by destruct stage'.
  - intros id Hid. destruct Hp as [Hp|[Hp Hj]]; [by rewrite Hp in Hid|].
    rewrite Ec, Hj. apply (Hu id). by rewrite <- Hp.
  - unfold tokens_used. by rewrite Ec.
Qed.
Lemma receiver_ok_forget w stage l taken :
  receiver_ok (MkReceiver w stage l taken) →
  receiver_ok (MkReceiver w TrTop (forget_template l) taken).
Proof.
  intros [Hh Hs Hu (used & Hd & Hsub)]. split; cbn [rs_world rs_stage rs_locals rs_taken] in *; [done|done| |].
  - by intros id.
  - exists used. split; [done|]. etrans; [|exact Hsub]. cbn. apply sublist_app; [done|apply sublist_nil_l].
Qed.
Lemma takes_same l l' : tl_last_token l ≠ None → takes l l' = [].
Proof. unfold takes. by destruct (tl_last_token l). Qed.
Lemma takes_eq l l' : tl_last_token l' = tl_last_token l → takes l l' = [].
Proof. unfold takes. intros ->. by destruct (tl_last_token l) as [[|]|]. Qed.
Lemma takes_none l l' : tl_last_token l' = None → takes l l' = [].
Proof. unfold takes. intros ->. by destruct (tl_last_token l). Qed.

(** A computation that is still keeps the state. *)
Lemma still_done {A} (m : TM A) w a w' : still m → m w = (Done a, w') → rx_view w' = rx_view w.
Proof. intros Hm H. specialize (Hm w). by rewrite H in Hm. Qed.
Lemma try_done {A} (m : TM A) w r w' : try_tm m w = (Done r, w') →
  match r with Ok a => m w = (Done a, w') | Err e => m w = (Failed e, w') end.
Proof. unfold try_tm. destruct (m w) as [[a|e|] w1]; intros [= <- <-]; done. Qed.
Lemma down_and_end_never u w stage l w' : down_and_end u w ≠ (Done (TrStay stage l), w').
Proof. intros H. by apply bind_done in H as (? & ? & _ & [=]). Qed.

(** *** Tokens *)
Lemma still_get_last_token stage : still (in_client (get_last_token_turn stage)).
Proof.
  apply still_client. unfold get_last_token_turn, pop_token, from_jd. follows ltac:(reflexivity).
Qed.
Lemma token_turn_ok w stage stage0 l taken stage' l' w' :
  tl_last_token l = None → receiver_ok (MkReceiver w stage0 l taken) →
  token_turn stage l w = (Done (TrStay stage' l'), w') →
  receiver_ok (MkReceiver w' stage' l' (taken ++ takes l l')).
Proof.
  intros Hl [Hh Hs Hu (used & Hd & Hsub)] H. cbn [rs_world rs_stage rs_locals rs_taken] in *.
  assert (tl_pending_tx_data_template_id l = None) as Hp.
  { destruct (tl_pending_tx_data_template_id l) as [id|] eqn:E; [|done].
    destruct (Hu id E) as (t & token & _ & Hc & _). unfold current_token in Hc. by rewrite Hl in Hc. }
  assert (current_token l = None) as Hc by (unfold current_token; by rewrite Hl).
  unfold token_turn in H. apply bind_done in H as (turn & w1 & H1 & H).
  apply (still_done _ _ _ _ (still_try _ (still_get_last_token stage))) in H1. unfold rx_view in H1.
  injection H1 as Et Em Ef.
  destruct turn as [[r allocations]|e].
  2: { injection H as <- <- <-. unfold takes. cbn [set_tl_last_token tl_last_token]. rewrite Hl, app_nil_r.
       split; cbn [rs_world rs_stage rs_locals rs_taken]; rewrite ?Et, ?Em, ?Ef; try done.
       - intros id Hid. cbn in Hid. by rewrite Hp in Hid.
       - exists used. by rewrite Hc in Hsub. }
  apply bind_done in H as ([] & w2 & H2 & H).
  assert (tr_new_template_message (guarded (tw_rx w2)) = tr_new_template_message (guarded (tw_rx w)) ∧
    is_new_template_handled (jw_flags (tw_client w2)) = true ∧
    declares_of (tw_tasks w2) = declares_of (tw_tasks w)) as (Em2 & Ef2 & Ed).
  { destruct allocations as [n|]; injection H2 as <-; cbn; rewrite ?Et, ?Em, ?Ef; split_and!; try done.
    unfold declares_of. rewrite omap_app. cbn. by rewrite app_nil_r. }
  destruct r as [stage1|token]; injection H as <- <- <-; unfold takes; cbn [set_tl_last_token tl_last_token];
    rewrite Hl, ?app_nil_r; split; cbn [rs_world rs_stage rs_locals rs_taken]; rewrite ?Em2; try done.
  - exists used. by rewrite Ed.
  - intros id Hid. cbn in Hid. by rewrite Hp in Hid.
  - exists used. rewrite Ed. split; [done|]. cbn. rewrite Hc, app_nil_r in Hsub. by apply sublist_app.
Qed.

(** *** Templates *)
Lemma on_new_template_handled env t pool_output gen c job c' :
  on_new_template env t pool_output gen c = (Done job, c') →
  is_new_template_handled (jw_flags c') = true.
Proof.
  intros H. unfold on_new_template in H. apply bind_done in H as (st & w1 & _ & H).
  destruct (negb _); [by apply bind_done in H as ([] & w2 & [= <-] & [= _ <-])|].
  do 5 (apply bind_done in H as (? & ? & _ & H)).
  by apply bind_done in H as ([] & w2 & [= <-] & [= _ <-]).
Qed.
(** Tasks and template of the receiver. *)
Definition rx_rest w := (tw_tasks w, tr_new_template_message (guarded (tw_rx w))).
Lemma rest_client {A} (m : JM A) w a w' : in_client m w = (Done a, w') → rx_rest w' = rx_rest w.
Proof. unfold in_client. destruct (m (tw_client w)) as [o c]. by intros [= _ <-]. Qed.
Lemma rest_still {A} (m : TM A) w a w' : still m → m w = (Done a, w') → rx_rest w' = rx_rest w.
Proof. intros Hm H. apply (still_done _ _ _ _ Hm) in H. unfold rx_view in H. unfold rx_rest. by injection H as -> -> _. Qed.
Lemma rest_if {A} (b : bool) (m : JM A) (a : A) w r w' :
  (if b then in_client m else mret a) w = (Done r, w') → rx_rest w' = rx_rest w.
Proof. destruct b; [apply rest_client|by intros [= _ <-]]. Qed.

Lemma publish_template_ok env new_phash discard w stage0 l m taken stage' l' w' :
  receiver_ok (MkReceiver w stage0 l taken) → tl_pending_downstream_job l = None →
  publish_template env new_phash discard l m w = (Done (TrStay stage' l'), w') →
  receiver_ok (MkReceiver w' stage' l' (taken ++ takes l l')) ∧ tl_last_token l' = tl_last_token l.
Proof.
  intros [_ _ _ (used & Hd & Hsub)] Hnojob H. cbn [rs_world rs_stage rs_locals rs_taken] in *.
  unfold publish_template in H.
  apply bind_done in H as ([] & w1 & H1 & H). apply rest_if in H1.
  apply bind_done in H as ([] & w2 & H2 & H). apply rest_if in H2.
  apply bind_done in H as ([] & w3 & H3 & H). apply rest_client in H3.
  apply bind_done in H as ([] & w4 & H4 & H). apply (rest_still _ _ _ _ (still_tp_send _)) in H4.
  apply bind_done in H as (stored & w5 & H5 & H). apply try_done in H5.
  destruct stored as [[]|e]; [|by apply down_and_end_never in H].
  apply with_lock_done in H5. injection H5 as <-.
  assert (tw_tasks w4 = tw_tasks w) as Et.
  { unfold rx_rest in *. congruence. }
  change (current_token (set_tl_pending_tx (Some (nt_template_id m)) l)) with (current_token l) in H.
  destruct (current_token l) as [token|] eqn:Hc; [|done].
  assert (takes l l' = []) as Ht.
  { apply takes_same. intros E. unfold current_token in Hc. by rewrite E in Hc. }
  rewrite Ht, app_nil_r. clear Ht.
  apply bind_done in H as (job & w6 & H6 & H). pose proof (rest_client _ _ _ _ H6) as Hr6.
  unfold rx_rest in Hr6. cbn in Hr6. injection Hr6 as Et6 Em6. rewrite Et in Et6.
  assert (∀ l1, current_token l1 = Some token → tokens_used (tw_tasks w6) l1 taken) as Htok.
  { intros l1 E. exists used. by rewrite Et6, E. }
  unfold in_client in H6. destruct (attempt _ _) as [o c] eqn:E6. injection H6 as -> <-.
  unfold attempt in E6.
  set (l1 := set_tl_pending_tx _ l) in *.
  destruct (on_new_template env m _ _ _) as [[j|e|] c1] eqn:Eon; [| |done]; injection E6 as <- <-.
  - injection H as <- <- <-. split; [|done]. split; cbn [rs_world rs_stage rs_locals rs_taken]; [|done| |by apply Htok].
    + by eapply on_new_template_handled.
    + intros id Hid. exists m, token. rewrite Em6. split; [done|]. split; [done|].
      intros j' [= ->]. by do 4 eexists.
  - apply bind_done in H as ([] & w7 & [= <-] & H). apply bind_done in H as ([] & w8 & [= <-] & H).
    injection H as <- <- <-. split; [|done].
    split; cbn [rs_world rs_stage rs_locals rs_taken]; [done|done| |by apply Htok].
    intros id Hid. exists m, token. cbn. split; [done|]. split; [done|].
    intros j Hj. cbn in Hj. by rewrite Hnojob in Hj.
Qed.

Lemma new_template_ok env name w stage0 l m taken stage' l' w' :
  receiver_ok (MkReceiver w stage0 l taken) →
  new_template env name l m w = (Done (TrStay stage' l'), w') →
  receiver_ok (MkReceiver w' stage' l' (taken ++ takes l l')).
Proof.
  intros Hok H. unfold new_template in H.
  apply bind_done in H as (f & w1 & [= <- <-] & H).
  destruct (negb _) eqn:Hready.
  { injection H as <- <- <-. rewrite takes_eq, app_nil_r by done.
    eapply receiver_ok_locals; [done|done|done|by right]. }
  destruct (tag_new_template m name) as [[[]|e] m1]; [|by apply down_and_end_never in H].
  apply negb_false_iff, andb_true_iff in Hready as [_ Hnone%bool_decide_eq_true].
  apply bind_done in H as (last & w1 & H1 & H).
  assert (receiver_ok (MkReceiver w1 stage0 l taken)) as Hok1.
  { eapply receiver_ok_view; [|exact Hok]. eapply still_done; [|exact H1]. by apply still_try, still_lock. }
  clear H1 Hok. destruct last as [last|e]; [|by apply down_and_end_never in H].
  destruct (template_decisions _ _ _) as [[wait next] discard] eqn:Ed.
  apply bind_done in H as ([m2 l2] & w2 & H2 & H).
  assert (receiver_ok (MkReceiver w2 stage0 l2 taken) ∧ tl_last_token l2 = tl_last_token l ∧
    (will_publish_template wait next discard = true → tl_pending_downstream_job l2 = None)) as (Hok2 & El & Hj).
  { assert (∀ g, receiver_ok (MkReceiver w1 stage0 (set_tl_pending_job None g l) taken)) as Hok2.
    { intros g. destruct Hok1 as [Hh Hs _ Ht]. split; [done| |by intros id; cbn; rewrite Hnone|done].
      by destruct stage0. }
    destruct (will_publish_template wait next discard); [|by injection H2 as <- <- <-].
    cbn [tl_merge_mining_reserved_bytes set_tl_pending_job] in H2.
    destruct (tl_merge_mining_reserved_bytes l) as [reserved|]; [|by injection H2 as <- <- <-].
    apply bind_done in H2 as ([m3 g] & w3 & H3 & [= <- <- <-]). split; [|done].
    eapply receiver_ok_view; [|apply (Hok2 g)]. eapply still_done; [apply still_prepare_rsk|exact H3]. }
  assert (∀ l3, takes l2 l3 = takes l l3) as Etakes by (intros l3; unfold takes; by rewrite El).
  destruct wait; [|destruct next; [|destruct discard; [|done]]].
  - rewrite <- Etakes. eapply publish_template_ok; [exact Hok2|by apply Hj|exact H].
  - injection H as <- <- <-. rewrite takes_eq, app_nil_r by done.
    eapply receiver_ok_locals; [done|done|done|by right].
  - rewrite <- Etakes. eapply publish_template_ok; [exact Hok2|by apply Hj|exact H].
Qed.

(** *** The other messages *)
Lemma still_on_set_new_prev_hash p : still (in_client (attempt (on_set_new_prev_hash p))).
Proof.
  apply still_client. unfold on_set_new_prev_hash, send_down, put_status, node_status, from_down.
  follows ltac:(reflexivity).
Qed.
Lemma set_new_prev_hash_ok env jd w stage0 l m taken stage' l' w' :
  receiver_ok (MkReceiver w stage0 l taken) →
  set_new_prev_hash env jd l m w = (Done (TrStay stage' l'), w') →
  receiver_ok (MkReceiver w' stage' l' (taken ++ takes l l')) ∧ stage' = TrTop.
Proof.
  intros Hok H. unfold set_new_prev_hash in H.
  apply bind_done in H as ([] & w1 & H1 & H).
  assert (rx_view w1 = rx_view w) as V1.
  { destruct (_ && _); [|by injection H1 as <-]. eapply still_done; [apply still_with_merge|exact H1]. }
  apply bind_done in H as (started & w2 & H2 & H).
  assert (rx_rest w2 = (tw_tasks w2, (rx_rest w1).2) ∧ (rx_view w2).2 = (rx_view w1).2 ∧
    declares_of (tw_tasks w2) = declares_of (tw_tasks w1)) as (V2 & F2 & D2).
  { destruct jd; [|by injection H2 as _ <-]. apply try_done in H2. destruct started as [[]|e].
    - apply bind_done in H2 as ([] & w3 & H3 & [= <-]).
      assert (rx_view w3 = rx_view w1) as V3.
      { eapply still_done; [|exact H3]. apply still_client. follows ltac:(reflexivity). }
      unfold rx_view in V3. injection V3 as Et Em Ef. unfold rx_rest, rx_view, declares_of. cbn.
      rewrite Em, Ef, Et, omap_app. cbn. by rewrite app_nil_r.
    - by apply down_and_end_never in H. }
  destruct started as [u|e]; [|by apply down_and_end_never in H].
  apply bind_done in H as (sent & w3 & H3 & H). apply (still_done _ _ _ _ (still_on_set_new_prev_hash m)) in H3.
  destruct sent as [u'|e]; [|by apply down_and_end_never in H]. injection H as <- <- <-. split; [|done].
  assert (takes l l = []) as -> by (unfold takes; by destruct (tl_last_token l) as [[|]|]).
  rewrite app_nil_r. apply (receiver_ok_view w2); [done|].
  unfold rx_view in *. cbn in F2. unfold rx_rest in V2. injection V1 as Et1 Em1 Ef1. injection V2 as Em2.
  destruct Hok as [Hh Hs Hu (used & Hd & Hsub)]. split; cbn [rs_world rs_stage rs_locals rs_taken] in *.
  - congruence.
  - done.
  - by rewrite Em2, Em1.
  - exists used. by rewrite D2, Et1.
Qed.

(** A declaration is spawned for the template under way, with the current token. *)
Lemma receiver_ok_declared w stage0 l taken template token job tx_list excess id :
  receiver_ok (MkReceiver w stage0 l taken) →
  tl_pending_tx_data_template_id l = Some id →
  tr_new_template_message (guarded (tw_rx w)) = Some template →
  current_token l = Some token → tl_pending_downstream_job l = Some job →
  receiver_ok (MkReceiver
    (MkTrWorld (tw_client w) (tw_rx w) (tw_tasks w ++
       [DeclareTask (MkDeclareArgs template (tk_mining_job_token token) tx_list excess
          (tk_coinbase_output token) job)]))
    TrTop (forget_template l) taken).
Proof.
  intros [Hh Hs Hu (used & Hd & Hsub)] Hid Hm Hc Hj.
  split; cbn [rs_world rs_stage rs_locals rs_taken tw_client tw_rx tw_tasks] in *; [done|done|by intros ?|].
  destruct (Hu id Hid) as (t & token' & Hm' & Hc' & Hfrom).
  assert (t = template) as -> by congruence. assert (token' = token) as -> by congruence.
  exists (used ++ [token]). unfold declares_of. rewrite omap_app. split.
  - apply Forall2_app; [done|]. cbn. constructor; [|done]. split_and!; [done|done|]. by apply Hfrom.
  - cbn. rewrite app_nil_r. rewrite Hc in Hsub. exact Hsub.
Qed.

Lemma takes_forget l : takes l (forget_template l) = [].
Proof. by apply takes_none. Qed.

Lemma transaction_data_ok env jd w stage0 l id excess txs taken stage' l' w' :
  receiver_ok (MkReceiver w stage0 l taken) →
  transaction_data env jd l id excess txs w = (Done (TrStay stage' l'), w') →
  receiver_ok (MkReceiver w' stage' l' (taken ++ takes l l')).
Proof.
  intros Hok H. unfold transaction_data in H.
  destruct (bool_decide _) eqn:Hid; cbn [negb] in H.
  2: { injection H as <- <- <-. rewrite takes_eq, app_nil_r by done. eapply receiver_ok_locals; [done|done|done|by right]. }
  apply bool_decide_eq_true in Hid.
  apply bind_done in H as (message & w1 & H1 & H).
  assert (rx_view w1 = rx_view w) as V1.
  { eapply still_done; [|exact H1]. by apply still_try, still_lock. }
  apply try_done in H1. pose proof (receiver_ok_view _ _ _ _ _ V1 Hok) as Hok1. clear Hok V1.
  assert (∀ w2, (tr_report (UpdateTp TpDown) ≫= λ _, mret (TrStay TrTop (forget_template l))) w1 =
    (Done (TrStay stage' l'), w2) → receiver_ok (MkReceiver w2 stage' l' (taken ++ takes l l'))) as Hdown.
  { intros w2 Hw. apply bind_done in Hw as ([] & w3 & H3 & [= <- <- <-]).
    rewrite takes_forget, app_nil_r. eapply receiver_ok_forget, receiver_ok_view; [|exact Hok1].
    eapply still_done; [|exact H3]. apply still_client. unfold reports. follows ltac:(reflexivity). }
  destruct message as [[template|]|e]; [|by apply Hdown|by apply Hdown]. clear Hdown.
  apply with_lock_done in H1. injection H1 as Hm ->.
  destruct (negb _).
  { injection H as <- <- <-. rewrite takes_forget, app_nil_r. by eapply receiver_ok_forget. }
  apply bind_done in H as (mm & w2 & [= <- <-] & H). apply bind_done in H as ([] & w2 & H2 & H).
  assert (rx_view w2 = rx_view w1) as V2.
  { destruct (if tr_merge_mining_enabled _ then _ else _); [|by injection H2 as <-].
    eapply still_done; [apply still_with_merge|exact H2]. }
  pose proof (receiver_ok_view _ _ _ _ _ V2 Hok1) as Hok2. clear Hok1 H2.
  assert (tr_new_template_message (guarded (tw_rx w2)) = Some template) as Hm2.
  { unfold rx_view in V2. injection V2 as _ -> _. exact Hm. }
  destruct (current_token l) as [token|] eqn:Hc; [|done].
  apply bind_done in H as ([] & w3 & H3 & [= <- <- <-]). rewrite takes_forget, app_nil_r.
  destruct jd; [|injection H3 as <-; by eapply receiver_ok_forget].
  destruct (tl_pending_downstream_job l) as [job|] eqn:Hj; injection H3 as <-; [|by eapply receiver_ok_forget].
  by eapply receiver_ok_declared.
Qed.

Lemma receiver_ok_stay w stage0 stage l taken :
  receiver_ok (MkReceiver w stage0 l taken) →
  match stage with TrTop | TrReceive => True | _ => False end →
  receiver_ok (MkReceiver w stage l (taken ++ takes l l)).
Proof.
  intros Hok Hst. rewrite takes_eq, app_nil_r by done. eapply receiver_ok_locals; [done|done|done|by right].
Qed.

Lemma wait_handled_ok env jd w stage0 l m taken stage' l' w' :
  receiver_ok (MkReceiver w stage0 l taken) →
  wait_handled env jd l m w = (Done (TrStay stage' l'), w') →
  receiver_ok (MkReceiver w' stage' l' (taken ++ takes l l')).
Proof.
  intros Hok H. unfold wait_handled in H. apply bind_done in H as (f & w1 & [= <- <-] & H).
  pose proof (ro_handled _ Hok) as Hh. cbn [rs_world] in Hh. rewrite Hh in H.
  by eapply set_new_prev_hash_ok in H as [? _].
Qed.

Lemma tp_message_ok env name jd w l m taken stage' l' w' :
  receiver_ok (MkReceiver w TrReceive l taken) →
  tp_message env name jd l m w = (Done (TrStay stage' l'), w') →
  receiver_ok (MkReceiver w' stage' l' (taken ++ takes l l')).
Proof.
  intros Hok H. destruct m as [m|m|id excess txs|id code]; cbn [tp_message] in H.
  - by eapply new_template_ok.
  - apply bind_done in H as ([] & w1 & H1 & H). eapply wait_handled_ok; [|exact H].
    eapply receiver_ok_view; [|exact Hok]. eapply still_done; [|exact H1].
    apply still_client. unfold set_flag. follows ltac:(reflexivity).
  - by eapply transaction_data_ok.
  - unfold transaction_data_error in H. destruct (bool_decide (code = _)); [|injection H as <- <- <-; by eapply receiver_ok_stay].
    destruct (bool_decide _); injection H as <- <- <-; [|by eapply receiver_ok_stay].
    rewrite takes_forget, app_nil_r. by eapply receiver_ok_forget.
Qed.

Lemma loop_top_ok env name w l taken stage' l' w' :
  receiver_ok (MkReceiver w TrTop l taken) →
  loop_top env name l w = (Done (TrStay stage' l'), w') →
  receiver_ok (MkReceiver w' stage' l' (taken ++ takes l l')).
Proof.
  intros Hok H. unfold loop_top in H. destruct (tl_last_token l) as [[token|]|] eqn:Hl; [|done|].
  - apply bind_done in H as (l1 & w1 & H1 & H).
    assert (receiver_ok (MkReceiver w1 TrTop l1 taken) ∧ tl_last_token l1 = tl_last_token l) as [Hok1 El].
    { pose proof (still_done _ _ _ _ (still_advertise l token) H1) as V1.
      assert (l1 = l ∨ ∃ r, l1 = set_tl_size_sent r l) as Hl1.
      { unfold advertise in H1. destruct (tl_coinbase_output_max_additional_size_sent l); [by injection H1 as <-; left|].
        apply bind_done in H1 as (b & w2 & _ & H1). destruct (coinbase_capacity_with_merge_mining _ b) as [s r].
        apply bind_done in H1 as ([] & w3 & _ & [= <- _]). by right; exists r. }
      split; [|by destruct Hl1 as [->|[r ->]]]. apply (receiver_ok_view w); [done|].
      destruct Hl1 as [->|[r ->]]; [done|]. eapply receiver_ok_locals; [done|done|done|by right]. }
    assert (∀ l3, takes l1 l3 = takes l l3) as Etakes by (intros l3; unfold takes; by rewrite El).
    rewrite <- Etakes. apply bind_done in H as (f & w2 & [= <- <-] & H).
    match goal with H : match ?o with Some _ => _ | None => _ end _ = _ |- _ => destruct o as [pending|] end.
    + apply (new_template_ok _ _ _ TrTop (set_tl_pending_new_template None l1) _ taken) in H; [exact H|].
      eapply receiver_ok_locals; [done|done|done|by right].
    + injection H as <- <- <-. by eapply receiver_ok_stay.
  - unfold take_token in H. apply bind_done in H as (jd & w1 & H1 & H).
    assert (receiver_ok (MkReceiver w1 TrTop l taken)) as Hok1.
    { eapply receiver_ok_view; [|exact Hok]. eapply still_done; [|exact H1]. by apply still_try, still_lock. }
    destruct jd as [[]|e]; [by eapply token_turn_ok| |by apply down_and_end_never in H].
    apply bind_done in H as (out & w2 & [= <- <-] & [= <- <- <-]).
    unfold takes. rewrite Hl. cbn [set_tl_last_token tl_last_token].
    destruct Hok1 as [Hh _ Hu (used & Hd & Hsub)]. split; cbn [rs_world rs_stage rs_locals rs_taken] in *; [done|done| |].
    + intros id Hid. destruct (Hu id Hid) as (t & token & _ & Hc & _). unfold current_token in Hc. by rewrite Hl in Hc.
    + exists used. split; [done|]. apply sublist_app; [|done]. unfold current_token in Hsub. rewrite Hl in Hsub.
      by rewrite app_nil_r in Hsub.
Qed.

Lemma receiver_ok_step s s' : receiver_step s s' → receiver_ok s → receiver_ok s'.
Proof.
  intros [w stage l taken env name jd received stage' l' w' H|w stage l taken w' Hv] Hok.
  2: { by eapply receiver_ok_view. }
  destruct stage as [|stage| |m]; cbn [tr_turn] in H.
  - by eapply loop_top_ok.
  - eapply token_turn_ok; [|exact Hok|exact H]. apply (ro_stage _ Hok).
  - unfold tp_received in H. destruct received; [by eapply tp_message_ok|by apply down_and_end_never in H].
  - by eapply wait_handled_ok.
Qed.

(** The task when it starts. *)
Definition receiver_start w : Receiver := MkReceiver w TrTop tr_locals_start [].
Definition fresh_receiver w : Prop := rx_view w = ([], None, true).
Lemma receiver_reach_ok w s : fresh_receiver w → rtc receiver_step (receiver_start w) s → receiver_ok s.
Proof.
  unfold fresh_receiver, rx_view. intros [= Et Em Ef] Hs.
  eapply (rtc_ind_r (λ s, receiver_ok s)); [|intros s1 s2 _ Hstep H; by eapply receiver_ok_step|exact Hs].
  split; cbn [receiver_start rs_world rs_stage rs_locals rs_taken]; [done|done|by intros id|].
  exists []. rewrite Et. split; [constructor|apply sublist_nil_l].
Qed.

(** ** The theorems *)

(** C9: Every declaration is coherent, and no token is used twice: the declarations the
    receiver spawned so far, in order, match a subsequence of the tokens it was given; each
    carries its token, that token's pool outputs, and a miner's job that was built from the
    very template it declares with these very outputs.  Templates and transaction data may
    arrive in any order, for any template. *)
Theorem declarations_coherent w s :
  fresh_receiver w → rtc receiver_step (receiver_start w) s →
  ∃ used, Forall2 declared_with (declares_of (tw_tasks (rs_world s))) used ∧
    used `sublist_of` rs_taken s.
Proof.
  intros Hw Hs. destruct (ro_tokens _ (receiver_reach_ok w s Hw Hs)) as (used & Hd & Hsub).
  exists used. split; [done|]. etrans; [|exact Hsub]. apply sublist_inserts_r. reflexivity.
Qed.

(** A previous hash never waits for a template: whenever the receiver's task waits, the
    last template is marked as handled, whatever became of it, so the loop on
    [IS_NEW_TEMPLATE_HANDLED] ends at its first test. *)
Theorem prev_hash_never_waits w s env jd m :
  fresh_receiver w → rtc receiver_step (receiver_start w) s →
  is_new_template_handled (jw_flags (tw_client (rs_world s))) = true ∧
  (∀ m', rs_stage s ≠ TrWaitHandled m') ∧
  wait_handled env jd (rs_locals s) m (rs_world s) =
    set_new_prev_hash env jd (rs_locals s) m (rs_world s).
Proof.
  intros Hw Hs. destruct (receiver_reach_ok w s Hw Hs) as [Hh Hst _ _]. split; [done|].
  split; [intros m' E; by rewrite E in Hst|].
  unfold wait_handled, flags, gets, mbind, M_bind. by rewrite Hh.
Qed.
(** ** A template that is never settled *)

(** The messages that settle the request for the transactions of [id]. *)
Definition settles (id : N) (m : FromTp) : bool :=
  match m with
  | TpTransactionData id' _ _ => (id' =? id)%N
  | TpTransactionDataError id' code => (id' =? id)%N && bool_decide (code = STALE_TEMPLATE_ID)
  | _ => false
  end.
(** Steps without such a message. *)
Inductive unsettled_step (id : N) : Receiver → Receiver → Prop :=
| us_turn w stage l taken env name jd received stage' l' w' :
    tr_turn env name jd stage received l w = (Done (TrStay stage' l'), w') →
    (∀ m, received = Some m → settles id m = false) →
    unsettled_step id (MkReceiver w stage l taken) (MkReceiver w' stage' l' (taken ++ takes l l'))
| us_other w stage l taken w' :
    rx_view w' = rx_view w →
    unsettled_step id (MkReceiver w stage l taken) (MkReceiver w' stage l taken).
(** What is declared and the template that was published last. *)
Definition published w : list DeclareArgs * option NewTemplate :=
  (declares_of (tw_tasks w), tr_new_template_message (guarded (tw_rx w))).

Lemma published_view w w' : rx_view w' = rx_view w → published w' = published w.
Proof. unfold rx_view, published. by intros [= -> -> _]. Qed.
Lemma published_token_turn stage l w stage' l' w' :
  token_turn stage l w = (Done (TrStay stage' l'), w') →
  published w' = published w ∧ tl_pending_tx_data_template_id l' = tl_pending_tx_data_template_id l.
Proof.
  intros H. unfold token_turn in H. apply bind_done in H as (turn & w1 & H1 & H).
  apply (still_done _ _ _ _ (still_try _ (still_get_last_token stage))), published_view in H1. rewrite <- H1.
  destruct turn as [[r allocations]|e]; [|by injection H as <- <- <-].
  apply bind_done in H as ([] & w2 & H2 & H).
  assert (published w2 = published w1) as <-.
  { destruct allocations as [n|]; injection H2 as <-; [|done]. unfold published, declares_of. cbn.
    rewrite omap_app. cbn. by rewrite app_nil_r. }
  by destruct r; injection H as <- <- <-.
Qed.
Lemma published_set_new_prev_hash env jd l m w stage' l' w' :
  set_new_prev_hash env jd l m w = (Done (TrStay stage' l'), w') →
  published w' = published w ∧ l' = l.
Proof.
  intros H. unfold set_new_prev_hash in H. apply bind_done in H as ([] & w1 & H1 & H).
  assert (published w1 = published w) as <-.
  { apply published_view. destruct (_ && _); [|by injection H1 as <-].
    eapply still_done; [apply still_with_merge|exact H1]. }
  apply bind_done in H as (started & w2 & H2 & H).
  destruct started as [u|e]; [|by apply down_and_end_never in H].
  assert (published w2 = published w1) as <-.
  { destruct jd; [|by injection H2 as _ <-]. apply try_done, bind_done in H2 as ([] & w3 & H3 & [= _ <-]).
    assert (published w3 = published w1) as <-.
    { apply published_view. eapply still_done; [|exact H3]. apply still_client. follows ltac:(reflexivity). }
    unfold published, declares_of. cbn. rewrite omap_app. cbn. by rewrite app_nil_r. }
  apply bind_done in H as (sent & w3 & H3 & H).
  apply (still_done _ _ _ _ (still_on_set_new_prev_hash m)), published_view in H3. rewrite <- H3.
  destruct sent as [u'|e]; [|by apply down_and_end_never in H]. by injection H as <- <- <-.
Qed.

Lemma unsettled_loop_top id env name l w stage' l' w' :
  tl_pending_tx_data_template_id l = Some id →
  loop_top env name l w = (Done (TrStay stage' l'), w') →
  published w' = published w ∧ tl_pending_tx_data_template_id l' = Some id.
Proof.
  intros Hid H. unfold loop_top in H. destruct (tl_last_token l) as [[token|]|] eqn:Hl; [|done|].
  - apply bind_done in H as (l1 & w1 & H1 & H).
    pose proof (still_done _ _ _ _ (still_advertise l token) H1) as <-%published_view.
    assert (tl_pending_tx_data_template_id l1 = Some id) as Hid1.
    { unfold advertise in H1. destruct (tl_coinbase_output_max_additional_size_sent l); [by injection H1 as <-|].
      apply bind_done in H1 as (b & w2 & _ & H1). destruct (coinbase_capacity_with_merge_mining _ b) as [s r].
      by apply bind_done in H1 as ([] & w3 & _ & [= <- _]). }
    apply bind_done in H as (f & w2 & [= <- <-] & H). rewrite Hid1 in H.
    rewrite bool_decide_eq_false_2, andb_false_r in H by done. by injection H as <- <- <-.
  - unfold take_token in H. apply bind_done in H as (jd & w1 & H1 & H).
    assert (published w1 = published w) as <-.
    { apply published_view. eapply still_done; [|exact H1]. by apply still_try, still_lock. }
    destruct jd as [[]|e]; [| |by apply down_and_end_never in H].
    + apply published_token_turn in H as [-> ->]. done.
    + by apply bind_done in H as (out & w2 & [= <- <-] & [= <- <- <-]).
Qed.
Lemma unsettled_message id env name jd l m w stage' l' w' :
  tl_pending_tx_data_template_id l = Some id → settles id m = false →
  is_new_template_handled (jw_flags (tw_client w)) = true →
  tp_message env name jd l m w = (Done (TrStay stage' l'), w') →
  published w' = published w ∧ tl_pending_tx_data_template_id l' = Some id.
Proof.
  intros Hid Hm Hh H. destruct m as [m|m|id' excess txs|id' code]; cbn [tp_message settles] in *.
  - unfold new_template in H. apply bind_done in H as (f & w1 & [= <- <-] & H).
    rewrite Hid, bool_decide_eq_false_2, andb_false_r in H by done. by injection H as <- <- <-.
  - apply bind_done in H as ([] & w1 & [= <-] & H). unfold wait_handled in H.
    apply bind_done in H as (f & w2 & [= <- <-] & H). cbn in H. rewrite Hh in H.
    by apply published_set_new_prev_hash in H as [-> ->].
  - unfold transaction_data in H. apply N.eqb_neq in Hm.
    rewrite bool_decide_eq_false_2 in H by congruence. by injection H as <- <- <-.
  - unfold transaction_data_error in H. destruct (bool_decide (code = _)); [|by injection H as <- <- <-].
    rewrite andb_true_r in Hm. apply N.eqb_neq in Hm.
    rewrite bool_decide_eq_false_2 in H by congruence. by injection H as <- <- <-.
Qed.
Lemma unsettled_run id s s' :
  receiver_ok s → tl_pending_tx_data_template_id (rs_locals s) = Some id → rtc (unsettled_step id) s s' →
  published (rs_world s') = published (rs_world s) ∧
  tl_pending_tx_data_template_id (rs_locals s') = Some id.
Proof.
  intros Hok Hid H. induction H as [s|s1 s2 s3 Hstep _ IH]; [done|].
  assert (receiver_ok s2 ∧ published (rs_world s2) = published (rs_world s1) ∧
    tl_pending_tx_data_template_id (rs_locals s2) = Some id) as (Hok2 & Hp2 & Hid2).
  { destruct Hstep as [w stage l taken env name jd received stage' l' w' H Hset|w stage l taken w' Hv].
    2: { split; [by eapply receiver_ok_view|]. split; [by apply published_view|done]. }
    split; [by eapply receiver_ok_step; [eapply rx_turn|]|]. cbn [rs_world rs_locals] in *.
    pose proof (ro_handled _ Hok) as Hh. cbn in Hh. destruct stage as [|stage| |m]; cbn [tr_turn] in H.
    - by eapply unsettled_loop_top.
    - apply published_token_turn in H as [-> ->]. done.
    - unfold tp_received in H. destruct received as [m|]; [|by apply down_and_end_never in H].
      eapply unsettled_message; eauto.
    - by destruct (ro_stage _ Hok). }
  destruct (IH Hok2 Hid2) as [-> ?]. by rewrite Hp2.
Qed.

(** An answer of the template provider stops the receiver for good.  When it says that the
    template whose transactions were asked for is not found ([template-id-not-found], or any
    error but [stale-template-id]), the receiver ignores the answer and keeps waiting for the
    transactions; from then on, whatever new templates, previous hashes and other messages
    arrive, no template is published or declared any more, unless transactions or a stale
    error arrive for the lost template after all. *)
Theorem not_found_stops_receiver w0 s id code env name jd s' :
  fresh_receiver w0 → rtc receiver_step (receiver_start w0) s →
  rs_stage s = TrReceive → tl_pending_tx_data_template_id (rs_locals s) = Some id →
  code ≠ STALE_TEMPLATE_ID →
  tr_turn env name jd TrReceive (Some (TpTransactionDataError id code)) (rs_locals s) (rs_world s) =
    (Done (TrStay TrTop (rs_locals s)), rs_world s) ∧
  (rtc (unsettled_step id) (MkReceiver (rs_world s) TrTop (rs_locals s) (rs_taken s)) s' →
   published (rs_world s') = published (rs_world s) ∧
   tl_pending_tx_data_template_id (rs_locals s') = Some id).
Proof.
  intros Hw Hs Hst Hid Hcode. split.
  - cbn. unfold transaction_data_error. by rewrite bool_decide_eq_false_2.
  - intros Hrun. pose proof (receiver_reach_ok w0 s Hw Hs) as Hok. destruct s as [w stage l taken].
    cbn [rs_stage rs_world rs_locals rs_taken] in *.
    eapply (unsettled_run id (MkReceiver w TrTop l taken)); [|done|done].
    eapply receiver_ok_locals; [exact Hok|done|done|by right].
Qed.
End system.

(** ** Witnesses *)

(** Two tokens are left; the receiver runs without a service. *)
Definition toy_token (n : N) : AllocateMiningJobTokenSuccess := MkToken n [byte_of_N n] 10 [] true.
Definition toy_receiver_client : JdWorld :=
  update_jd (set_jd_allocated_tokens [toy_token 1; toy_token 2]) toy_open_world.
Definition toy_receiver_world : TrWorld :=
  MkTrWorld toy_receiver_client
    (new_mutex (MkTemplateRx (MkSender true []) true None [] false false)) [].
Definition toy_receiver_env : JdEnv := MkJdEnv None (MkObserverEnv true true 0 true 0).

(** A turn with what arrives, where the task goes on. *)
Definition toy_turn (s : Receiver) (received : option FromTp) : Receiver :=
  let '(MkReceiver w stage l taken) := s in
  match tr_turn toy_receiver_env None true stage received l w with
  | (Done (TrStay stage' l'), w') => MkReceiver w' stage' l' (taken ++ takes l l')
  | _ => s
  end.
Definition toy_receiver_run (received : list (option FromTp)) : Receiver :=
  fold_left toy_turn received (receiver_start toy_receiver_world).
Lemma toy_turn_steps s received : rtc receiver_step s (toy_turn s received).
Proof.
  destruct s as [w stage l taken]. unfold toy_turn.
  destruct (tr_turn _ _ _ _ _ _ _) as [[[stage' l'| |]| |] w'] eqn:E; try constructor.
  apply rtc_once. by eapply rx_turn.
Qed.
Lemma toy_receiver_reach received :
  rtc receiver_step (receiver_start toy_receiver_world) (toy_receiver_run received).
Proof.
  unfold toy_receiver_run. generalize (receiver_start toy_receiver_world).
  induction received as [|r received IH]; intros s; [constructor|].
  cbn [fold_left]. etrans; [apply toy_turn_steps|]. apply IH.
Qed.

(** A template with its transactions, then a second one. *)
Definition toy_first : list (option FromTp) :=
  [None; None; Some (TpNewTemplate (toy_template 3 false))].
Definition toy_two_templates : list (option FromTp) :=
  toy_first ++ [None; Some (TpTransactionData 3 [] []); None; None;
    Some (TpNewTemplate (toy_template 4 false)); None; Some (TpTransactionData 4 [] [])].

Lemma declarations_coherent_witness :
  map da_token (declares_of (tw_tasks (rs_world (toy_receiver_run toy_two_templates)))) =
    [[Byte.x02]; [Byte.x01]] ∧
  ∃ used, Forall2 declared_with (declares_of (tw_tasks (rs_world (toy_receiver_run toy_two_templates)))) used ∧
    used `sublist_of` rs_taken (toy_receiver_run toy_two_templates).
Proof.
  split; [reflexivity|].
  apply (declarations_coherent toy_receiver_world); [reflexivity|apply toy_receiver_reach].
Defined.

Lemma prev_hash_never_waits_witness :
  is_new_template_handled (jw_flags (tw_client (rs_world (toy_receiver_run toy_first)))) = true.
Proof.
  apply (prev_hash_never_waits toy_receiver_world (toy_receiver_run toy_first) toy_receiver_env
    true (toy_prev_hash 3)); [reflexivity|apply toy_receiver_reach].
Defined.

Definition NOT_FOUND : str := lit "template-id-not-found".
Lemma not_found_stops_receiver_witness :
  let s := toy_receiver_run (toy_first ++ [None]) in
  tr_turn toy_receiver_env None true TrReceive (Some (TpTransactionDataError 3 NOT_FOUND))
    (rs_locals s) (rs_world s) = (Done (TrStay TrTop (rs_locals s)), rs_world s).
Proof.
  apply (not_found_stops_receiver toy_receiver_world (toy_receiver_run (toy_first ++ [None])) 3
    NOT_FOUND toy_receiver_env None true (toy_receiver_run (toy_first ++ [None])));
    [reflexivity|apply toy_receiver_reach|reflexivity|reflexivity|].
  intros H. by apply (f_equal length) in H.
Defined.
