(* ===== verification/JdParts.v ===== *)
(** * The parts of the job declaration client

    What the three other parts do when the client starts them: [JobDeclarator::new] with the
    start of its reader ([jd_client/job_declarator/mod.rs]), [DownstreamMiningNode::start]
    ([jd_client/mining_downstream/mod.rs]) and [Upstream::parse_incoming]
    ([jd_client/mining_upstream/upstream.rs]); the fourth, [TemplateRx::connect], is
    [SetupConnection.template_connect].  [jd_parts_start] answers [initialize_jd] with them, so
    that the start of the client can be followed down to the tasks of each part
    ([jd_stop_aborts_handed_tasks]), and gives the world in which the handlers of the parts begin
    ([jd_start_is_fresh]). *)

From S2P Require Import Prelude Str Bitcoin BitcoinModel F32 Sv1 Sv2 Net RskCommitment MergeState MergeMining ProxyState Effects TaskManager TaskList SetupConnection JdData JdClient JdState JdUpstream JobDeclarator MiningDownstream TemplateReceiver JdModel JdUpstreamProps JobDeclaratorProps TemplateReceiverProps.
From Stdlib Require Import Permutation.

(** ** Definitions *)
Definition JD_MIN_EXTRANONCE_SIZE : N := 6.

(** The handles of the parts and of their tasks, in the order they are spawned. *)
Record JdHandles := MkJdHandles {
  jh_jds_reader : N;
  jh_declarator : N;
  jh_channel_factory : N;
  jh_miner_loop : N;
  jh_downstream : N;
  jh_pool_loop : N;
  jh_upstream : N;
  jh_template_receiver : N
}.

(** What the declaration server answers: whether it takes the connection, the handshake and
    the setup message, and its answer to that. *)
Record DeclaratorConnect := MkDeclaratorConnect {
  dc_stream : bool;
  dc_initiator : bool;
  dc_handshake : bool;
  dc_host : str;
  dc_port : N;
  dc_draw : str;
  dc_token : str;
  dc_sent : bool;
  dc_reply : SetupReply
}.

Section parts.
Context `{B : !BitcoinLib} `{PL : !PoolLib} `{BL : !BinaryLib}.
Context (set_async_job_nogotiation : SetupConnection → SetupConnection).

(** The objects of the parts, and the declarator's tokens asked for. *)
Definition jd_objects (up miner : Sender Mining) (solution : Sender SubmitSolution)
    (jds : Sender ToJds) (merge : option MergeMining) : JdWorld :=
  MkJdWorld jd_flags_start (new_mutex (jd_upstream_new JD_MIN_EXTRANONCE_SIZE up)) false
    (new_mutex (downstream_mining_node_new miner true solution false [] true))
    (new_mutex (job_declarator_new jds JD_MIN_EXTRANONCE_SIZE)) merge [] [].

(** [JobDeclarator::new], on the object it makes; the reader is handed to the manager with
    [add_allocate_tokens]. *)
Definition declarator_start (c : DeclaratorConnect) (reader : N) (w : JdWorld)
    : Outcome unit unit * JdWorld * TaskList (Task := DeclaratorTask) :=
  if negb (dc_stream c) then (Failed tt, w, initialize_list)
  else if negb (dc_initiator c) then (Failed tt, w, initialize_list)
  else if negb (dc_handshake c) then (Failed tt, w, initialize_list)
  else match jd_setup_connection_message set_async_job_nogotiation (dc_host c) (dc_port c)
               (dc_draw c) (dc_token c) with
  | None => (Panicked, w, initialize_list)
  | Some _ =>
      if negb (jd_setup (dc_sent c) (dc_reply c)) then (Failed tt, w, initialize_list)
      else
        let '(abortable, t) := list_get_aborter initialize_list in
        if negb abortable then (Failed tt, w, t)
        else match allocate_tokens 2 w with
        | (Panicked, w) => (Panicked, w, list_drop declarator_handle t)
        | (_, w) =>
            if poisoned (jw_jd w) then (Failed tt, w, list_drop declarator_handle t)
            else match list_add declarator_handle (AllocateTokens reader) t with
            | (true, t) => (Done tt, w, t)
            | (false, t) => (Failed tt, w, list_drop declarator_handle t)
            end
        end
  end.

(** [DownstreamMiningNode::start]: [set_channel_factory] fails only for a poisoned mutex. *)
Definition mining_node_start (channel_factory miner_loop : N) (w : JdWorld)
    : bool * TaskList (Task := MiningNodeTask) :=
  let '(abortable, t) := list_get_aborter initialize_list in
  if negb abortable then (false, t)
  else match lock (jw_down w) with
  | None => (false, list_drop mining_node_handle t)
  | Some _ =>
      match list_add mining_node_handle (SetChannelFactory channel_factory) t with
      | (false, t) => (false, list_drop mining_node_handle t)
      | (true, t) =>
          match list_add mining_node_handle (MiningNodeMainTask miner_loop) t with
          | (false, t) => (false, list_drop mining_node_handle t)
          | (true, t) => (true, t)
          end
      end
  end.

(** [Upstream::parse_incoming], up to its loop. *)
Definition jd_upstream_start (pool_loop : N) : bool * TaskList (Task := JdUpstreamTask) :=
  let '(abortable, t) := list_get_aborter initialize_list in
  if negb abortable then (false, t)
  else match list_add jd_upstream_handle (JdUpstreamMainTask pool_loop) t with
  | (false, t) => (false, list_drop jd_upstream_handle t)
  | (true, t) => (true, t)
  end.

(** [TemplateRx::connect], the object *)
Definition template_rx_new (sender : Sender ToTp) (encoded_outputs : bytes) (enabled : bool)
    : TemplateRx :=
  MkTemplateRx sender true None encoded_outputs enabled false.

(** *** The client with its parts *)

(** What the outside decides: the addresses and answers, and whether the upstream can be locked
    once the miners' side runs. *)
Record JdEnvironment := MkJdEnvironment {
  jv_pool_address : Mutex (option SocketAddr);
  jv_declarator : DeclaratorConnect;
  jv_upstream_lock : bool;
  jv_template : TemplateConnect;
  jv_handles : JdHandles
}.

(** The tasks the parts spawn and hand to no manager, under a number that tells them apart: the
    declaration of a template ([template_receiver/mod.rs]), the relay of a share, the solution
    for the template receiver and the one for the declarator ([mining_downstream/mod.rs]). *)
Inductive DetachedTask :=
  | Declaration (task : N)
  | ShareRelay (task : N)
  | SolutionToTemplate (task : N)
  | SolutionToDeclarator (task : N).
#[local] Instance detached_task_eq : EqDecision DetachedTask.
Proof. solve_decision. Defined.

Record JdParts := MkJdParts {
  jp_world : JdWorld;
  jp_tp : TpWorld;
  jp_client : TaskList (Task := JdTask);
  jp_declarator : TaskList (Task := DeclaratorTask);
  jp_downstream : TaskList (Task := MiningNodeTask);
  jp_upstream : TaskList (Task := JdUpstreamTask);
  jp_template : TaskList (Task := TemplateTask);
  jp_detached : list DetachedTask
}.

(** Whether the client gets as far as the declarator, and as far as the address of the template
    provider. *)
Definition jd_addresses (e : JdEnvironment) (tp : TpWorld) : option str :=
  match lock (tw_tp_address tp), lock (jv_pool_address e) with
  | Some (Some tp_address), Some (Some _) => fst <$> split_tp_address tp_address
  | _, _ => None
  end.

(** The handle of a part that started. *)
Definition handle_of {A} (handle : N) (o : Outcome unit A) : Outcome unit N :=
  match o with Done _ => Done handle | Failed e => Failed e | Panicked => Panicked end.

(** Every handle a manager drops ends the part it belongs to, with the tasks of that part's
    manager; a detached task runs on, whatever is dropped. *)
Definition drop_parts (h : JdHandles) (p : JdParts) : JdParts :=
  let dropped (handle : N) := bool_decide (handle ∈ tl_aborted (jp_client p)) in
  MkJdParts (jp_world p) (jp_tp p) (jp_client p)
    (if dropped (jh_declarator h) then list_drop declarator_handle (jp_declarator p)
     else jp_declarator p)
    (if dropped (jh_downstream h) then list_drop mining_node_handle (jp_downstream p)
     else jp_downstream p)
    (if dropped (jh_upstream h) then list_drop jd_upstream_handle (jp_upstream p)
     else jp_upstream p)
    (if dropped (jh_template_receiver h) then list_drop template_handle (jp_template p)
     else jp_template p)
    (jp_detached p).

(** [start], with the parts: a part is started when those before it were. *)
Definition jd_parts_start (e : JdEnvironment) (w : JdWorld) (tp : TpWorld) : JdStart * JdParts :=
  let h := jv_handles e in
  let '(declarator, w, declarator_tasks) :=
    match jd_addresses e tp with
    | Some _ => declarator_start (jv_declarator e) (jh_jds_reader h) w
    | None => (Failed tt, w, initialize_list)
    end in
  let '(downstream, downstream_tasks) :=
    match declarator with
    | Done _ => mining_node_start (jh_channel_factory h) (jh_miner_loop h) w
    | _ => (false, initialize_list)
    end in
  let '(upstream, upstream_tasks) :=
    if downstream && jv_upstream_lock e then jd_upstream_start (jh_pool_loop h)
    else (false, initialize_list) in
  let '(template, template_tasks) :=
    match jd_addresses e tp ≫= parse_ip with
    | Some _ => if upstream then template_connect (jv_template e) else (Failed tt, initialize_list)
    | None => (Failed tt, initialize_list)
    end in
  let i := MkJdStartUp (jv_pool_address e) (handle_of (jh_declarator h) declarator)
    (if downstream then Some (jh_downstream h) else None) (jv_upstream_lock e)
    (if upstream then Some (jh_upstream h) else None)
    (handle_of (jh_template_receiver h) template) in
  let '(r, tp, client) := jd_client_start i tp in
  (r, drop_parts h (MkJdParts w tp client declarator_tasks downstream_tasks upstream_tasks
        template_tasks [])).

(** *** While the client runs *)

(** The declarator's manager is handed a task with [add_allocate_tokens]: the wait for a future
    job of a new previous hash ([on_set_new_prev_hash]), or the request for the tokens that
    [get_last_token] found to be running out. *)
Definition hand_allocate_tokens (task : N) (p : JdParts) : JdParts :=
  MkJdParts (jp_world p) (jp_tp p) (jp_client p)
    (list_add declarator_handle (AllocateTokens task) (jp_declarator p)).2
    (jp_downstream p) (jp_upstream p) (jp_template p) (jp_detached p).
Definition prev_hash_spawns (task : N) (p : JdParts) : JdParts := hand_allocate_tokens task p.
Definition last_token_spawns (task : N) (p : JdParts) : JdParts := hand_allocate_tokens task p.

Definition with_detached (f : list DetachedTask → list DetachedTask) (p : JdParts) : JdParts :=
  MkJdParts (jp_world p) (jp_tp p) (jp_client p) (jp_declarator p) (jp_downstream p)
    (jp_upstream p) (jp_template p) (f (jp_detached p)).

(** The spawns whose handle is dropped at once, which detaches the task: the template receiver's
    declaration of a template, [match_send_to]'s relay, and the two of a share that solves a
    block. *)
Definition declaration_spawns (task : N) : JdParts → JdParts :=
  with_detached (λ l, l ++ [Declaration task]).
Definition share_relay_spawns (task : N) : JdParts → JdParts :=
  with_detached (λ l, l ++ [ShareRelay task]).
Definition solution_spawns (task : N) : JdParts → JdParts :=
  with_detached (λ l, l ++ [SolutionToTemplate task]).
Definition jd_solution_spawns (task : N) : JdParts → JdParts :=
  with_detached (λ l, l ++ [SolutionToDeclarator task]).
Definition detached_spawns (t : DetachedTask) : JdParts → JdParts :=
  match t with
  | Declaration task => declaration_spawns task
  | ShareRelay task => share_relay_spawns task
  | SolutionToTemplate task => solution_spawns task
  | SolutionToDeclarator task => jd_solution_spawns task
  end.

(** The managers take handles, the parts spawn tasks, and a detached task ends by itself. *)
Inductive JdPartsEvent :=
  | JpKeep
  | JpPrevHash (task : N)
  | JpTokens (task : N)
  | JpDetached (t : DetachedTask)
  | JpEnded (t : DetachedTask).
Definition jd_parts_event (ev : JdPartsEvent) (p : JdParts) : JdParts :=
  match ev with
  | JpKeep =>
      MkJdParts (jp_world p) (jp_tp p) (list_keep_turn (jp_client p))
        (list_keep_turn (jp_declarator p)) (list_keep_turn (jp_downstream p))
        (list_keep_turn (jp_upstream p)) (list_keep_turn (jp_template p)) (jp_detached p)
  | JpPrevHash task => prev_hash_spawns task p
  | JpTokens task => last_token_spawns task p
  | JpDetached t => detached_spawns t p
  | JpEnded t => with_detached (filter (.≠ t)) p
  end.
Definition jd_parts_run (events : list JdPartsEvent) (p : JdParts) : JdParts :=
  fold_left (λ p ev, jd_parts_event ev p) events p.

(** The client's handle is dropped. *)
Definition jd_parts_drop (h : JdHandles) (p : JdParts) : JdParts :=
  drop_parts h (MkJdParts (jp_world p) (jp_tp p) (list_drop jd_handle (jp_client p))
    (jp_declarator p) (jp_downstream p) (jp_upstream p) (jp_template p) (jp_detached p)).

(** The tasks the declarator's manager was handed; a detached task that no event ended since it
    was spawned. *)
Definition handed_tasks (events : list JdPartsEvent) : list N :=
  omap (λ ev, match ev with JpPrevHash task | JpTokens task => Some task | _ => None end) events.
Definition unfinished (events : list JdPartsEvent) (t : DetachedTask) : Prop :=
  ∃ before after, events = before ++ JpDetached t :: after ∧ JpEnded t ∉ after.

(** ** What the parts hold *)

(** A manager without tasks; one that was handed [tasks] in this order and dropped none. *)
Definition idle {T : Type} (t : TaskList (Task := T)) : Prop := tl_receiver t = [] ∧ tl_tasks t = [].
Definition keeps {T : Type} (tasks : list T) (t : TaskList (Task := T)) : Prop :=
  tl_running t = true ∧ tl_aborted t = [] ∧ tl_tasks t ++ tl_receiver t = tasks.

Lemma drop_idle {T} (handle : T → N) t :
  idle t → idle (list_drop handle t) ∧ tl_aborted (list_drop handle t) = tl_aborted t.
Proof. intros [H1 H2]. split; [done|]. cbn. rewrite H1, H2. apply app_nil_r. Qed.
Lemma drop_keeps {T} (handle : T → N) tasks t :
  keeps tasks t → idle (list_drop handle t) ∧ tl_aborted (list_drop handle t) ≡ₚ handle <$> tasks.
Proof.
  intros (_ & Ha & <-). split; [done|]. cbn. rewrite Ha, fmap_app. cbn. apply Permutation_app_comm.
Qed.
Lemma keep_keeps {T} tasks (t : TaskList (Task := T)) : keeps tasks t → keeps tasks (list_keep_turn t).
Proof.
  intros (Hr & Ha & Ht). unfold list_keep_turn. destruct (tl_receiver t) as [|task rest] eqn:E.
  - split_and!; [done..|]. by rewrite E.
  - split_and!; [done..|]. cbn. by rewrite <- app_assoc, <- Ht.
Qed.
Lemma add_keeps {T} (handle : T → N) tasks task t :
  keeps tasks t → keeps (tasks ++ [task]) (list_add handle task t).2.
Proof.
  intros (Hr & Ha & Ht). destruct (list_add_running handle task t Hr) as (t' & -> & Hr' & Ha' & Ht').
  split_and!; cbn [snd]; [done|by rewrite Ha'|]. by rewrite Ht', <- Ht, app_assoc.
Qed.

(** A part starts with all of its tasks or without any. *)
Lemma declarator_start_tasks c reader w :
  let '(o, _, t) := declarator_start c reader w in
  match o with
  | Done _ => keeps [AllocateTokens reader] t
  | _ => idle t ∧ tl_aborted t = []
  end.
Proof.
  unfold declarator_start. destruct (dc_stream c), (dc_initiator c), (dc_handshake c); cbn -[allocate_tokens]; try done.
  destruct (jd_setup_connection_message _ _ _ _ _); [|done].
  destruct (jd_setup _ _); cbn -[allocate_tokens]; [|done]. destruct (allocate_tokens 2 w) as [[?|?|] w'];
    [destruct (poisoned (jw_jd w'))..|]; done.
Qed.
Lemma mining_node_start_tasks factory loop w :
  let '(ok, t) := mining_node_start factory loop w in
  if ok : bool then keeps [SetChannelFactory factory; MiningNodeMainTask loop] t
  else idle t ∧ tl_aborted t = [].
Proof. unfold mining_node_start. cbn. by destruct (lock (jw_down w)). Qed.
Lemma template_connect_tasks i :
  let '(o, t) := template_connect i in
  match o with
  | Done _ => ∃ main_task, tc_main_task i = Some main_task ∧
      keeps [OnNewSolution (tc_on_new_solution i); TemplateMainTask main_task] t
  | _ => idle t
  end.
Proof.
  destruct i as [stream initiator handshake sent reply solution main]. cbn.
  destruct stream, initiator, handshake, sent, reply, main as [m|]; cbn; try done; by exists m.
Qed.

(** Every part that was started and every address that is known: the client starts. *)
Lemma jd_client_starts i tp tp_address ip port pool a b c d :
  lock (tw_tp_address tp) = Some (Some tp_address) → lock (jb_pool_address i) = Some (Some pool) →
  split_tp_address tp_address = Some (ip, port) → is_Some (parse_ip ip) →
  jb_declarator i = Done a → jb_downstream i = Some b → jb_upstream_lock i = true →
  jb_upstream i = Some c → jb_template_receiver i = Done d →
  jd_client_start i tp = (JdStarts, set_tw_flags jd_flags_start tp,
    MkTaskList [JobDeclaratorTask a; MiningDowntreamTask b; MiningUpstreamTask c;
      TemplateReceiverTask d] [] false true []).
Proof.
  intros Ht Hp Hs [x Hx] Ha Hb Hl Hc Hd. unfold jd_client_start, initialize_jd. cbn.
  rewrite Ht, Hs, Hp. unfold start_parts_of_jd. rewrite Ha. cbn. rewrite Hb. cbn. rewrite Hl, Hc. cbn.
  unfold connect_template_receiver. by rewrite Hx, Hd.
Qed.

(** What is left when the client does not start: the first [k] parts were started, and all of
    their tasks are aborted; the others have none. *)
Definition parts_idle (p : JdParts) : Prop :=
  idle (jp_client p) ∧ idle (jp_declarator p) ∧ idle (jp_downstream p) ∧ idle (jp_upstream p) ∧
  idle (jp_template p).
Definition parts_aborted (h : JdHandles) (k : nat) (p : JdParts) : Prop :=
  tl_aborted (jp_client p) = take k [jh_declarator h; jh_downstream h; jh_upstream h] ∧
  tl_aborted (jp_declarator p) ≡ₚ (if 0 <? k then [jh_jds_reader h] else []) ∧
  tl_aborted (jp_downstream p) ≡ₚ
    (if 1 <? k then [jh_channel_factory h; jh_miner_loop h] else []) ∧
  tl_aborted (jp_upstream p) ≡ₚ (if 2 <? k then [jh_pool_loop h] else []).

(** What the managers hold while the client runs. *)
Definition parts_keep (e : JdEnvironment) (main_task : N) (more : list N) (p : JdParts) : Prop :=
  let h := jv_handles e in
  keeps [JobDeclaratorTask (jh_declarator h); MiningDowntreamTask (jh_downstream h);
         MiningUpstreamTask (jh_upstream h); TemplateReceiverTask (jh_template_receiver h)]
    (jp_client p) ∧
  keeps (AllocateTokens <$> jh_jds_reader h :: more) (jp_declarator p) ∧
  keeps [SetChannelFactory (jh_channel_factory h); MiningNodeMainTask (jh_miner_loop h)]
    (jp_downstream p) ∧
  keeps [JdUpstreamMainTask (jh_pool_loop h)] (jp_upstream p) ∧
  keeps [OnNewSolution (tc_on_new_solution (jv_template e)); TemplateMainTask main_task]
    (jp_template p).

Lemma parts_event_keep e main_task ev more p :
  parts_keep e main_task more p →
  parts_keep e main_task (more ++ handed_tasks [ev]) (jd_parts_event ev p).
Proof.
  assert (Hadd : ∀ task, parts_keep e main_task more p →
    parts_keep e main_task (more ++ [task]) (hand_allocate_tokens task p)).
  { intros task (H1 & H2 & H3 & H4 & H5). split_and!; try done. rewrite app_comm_cons, fmap_app.
    by apply add_keeps. }
  destruct ev as [|task|task|[]|t]; cbn; rewrite ?app_nil_r; [|by apply Hadd..|done|done|done|done|done].
  intros (H1 & H2 & H3 & H4 & H5). split_and!; by apply keep_keeps.
Qed.
Lemma parts_run_keep e main_task events more p :
  parts_keep e main_task more p →
  parts_keep e main_task (more ++ handed_tasks events) (jd_parts_run events p).
Proof.
  revert more p. induction events as [|ev events IH]; intros more p H.
  - cbn. by rewrite app_nil_r.
  - apply (parts_event_keep _ _ ev), IH in H. rewrite <- app_assoc in H.
    unfold handed_tasks in *. by rewrite <- omap_app in H.
Qed.

(** What is detached: what was, and what was spawned since, less what ended. *)
Lemma detached_spawned t p : jp_detached (detached_spawns t p) = jp_detached p ++ [t].
Proof. by destruct t. Qed.
Lemma parts_run_app l l' p : jd_parts_run (l ++ l') p = jd_parts_run l' (jd_parts_run l p).
Proof. apply fold_left_app. Qed.
Lemma unfinished_snoc events ev t :
  unfinished (events ++ [ev]) t ↔ ev = JpDetached t ∨ unfinished events t ∧ ev ≠ JpEnded t.
Proof.
  split.
  - intros (before & after & E & Ha). destruct after as [|x after _] using rev_ind.
    + apply app_inj_tail in E as [_ ->]. by left.
    + rewrite app_comm_cons, app_assoc in E. apply app_inj_tail in E as [-> ->].
      right. rewrite elem_of_app, list_elem_of_singleton in Ha. split; [|naive_solver].
      exists before, after. naive_solver.
  - intros [->|[(before & after & -> & Ha) He]].
    + exists events, []. by split; [|apply not_elem_of_nil].
    + exists before, (after ++ [ev]). rewrite <- app_assoc. split; [done|].
      rewrite elem_of_app, list_elem_of_singleton. naive_solver.
Qed.
Lemma run_detached events p t :
  jp_detached p = [] → t ∈ jp_detached (jd_parts_run events p) ↔ unfinished events t.
Proof.
  intros H0. induction events as [|ev events IH] using rev_ind.
  - cbn. rewrite H0, elem_of_nil. split; [done|]. intros (before & ? & ? & _). by destruct before.
  - rewrite parts_run_app, unfinished_snoc, <- IH. cbn [jd_parts_run fold_left].
    destruct ev as [|task|task|t'|t']; cbn [jd_parts_event].
    4: rewrite detached_spawned, elem_of_app, list_elem_of_singleton.
    5: cbn; rewrite list_elem_of_filter.
    all: cbn; naive_solver.
Qed.

(** A part whose handle is dropped if it was started. *)
Definition part_is {T} (started : bool) (tasks : list T) (t : TaskList (Task := T)) : Prop :=
  if started then keeps tasks t else idle t ∧ tl_aborted t = [].
Lemma drop_part {T} (handle : T → N) (b started : bool) tasks t :
  part_is started tasks t → (started = true → b = true) →
  idle (if b then list_drop handle t else t) ∧
  tl_aborted (if b then list_drop handle t else t) ≡ₚ (if started then handle <$> tasks else []).
Proof.
  intros Ht Hb. destruct started; cbn in Ht.
  - rewrite Hb by done. by apply drop_keeps.
  - destruct Ht as [Hi Ha]. destruct b; [|by rewrite Ha].
    destruct (drop_idle handle t Hi) as [H1 H2]. by rewrite H2, Ha.
Qed.
Lemma drop_if_idle {T} (handle : T → N) (b : bool) t :
  idle t → idle (if b then list_drop handle t else t).
Proof. by destruct b. Qed.
Lemma dropped_started h k q x :
  tl_aborted (jp_client q) = take k [jh_declarator h; jh_downstream h; jh_upstream h] →
  ∀ j, [jh_declarator h; jh_downstream h; jh_upstream h] !! j = Some x →
  (j <? k) = true → bool_decide (x ∈ tl_aborted (jp_client q)) = true.
Proof.
  intros Ha j Hj Hk. apply bool_decide_eq_true. rewrite Ha. apply list_elem_of_lookup. exists j.
  rewrite lookup_take_Some. apply Nat.ltb_lt in Hk. done.
Qed.

Lemma failed_parts h k q :
  k <= 3 → idle (jp_client q) →
  tl_aborted (jp_client q) = take k [jh_declarator h; jh_downstream h; jh_upstream h] →
  part_is (0 <? k) [AllocateTokens (jh_jds_reader h)] (jp_declarator q) →
  part_is (1 <? k) [SetChannelFactory (jh_channel_factory h); MiningNodeMainTask (jh_miner_loop h)]
    (jp_downstream q) →
  part_is (2 <? k) [JdUpstreamMainTask (jh_pool_loop h)] (jp_upstream q) →
  idle (jp_template q) →
  parts_idle (drop_parts h q) ∧ parts_aborted h k (drop_parts h q).
Proof.
  intros Hk Hc Ha H1 H2 H3 H4.
  apply (drop_part declarator_handle (bool_decide (jh_declarator h ∈ tl_aborted (jp_client q))))
    in H1 as [I1 A1]; [|by eapply (dropped_started h k q _ Ha 0)].
  apply (drop_part mining_node_handle (bool_decide (jh_downstream h ∈ tl_aborted (jp_client q))))
    in H2 as [I2 A2]; [|by eapply (dropped_started h k q _ Ha 1)].
  apply (drop_part jd_upstream_handle (bool_decide (jh_upstream h ∈ tl_aborted (jp_client q))))
    in H3 as [I3 A3]; [|by eapply (dropped_started h k q _ Ha 2)].
  split; [|done]. do 4 (split; [done|]). by apply drop_if_idle.
Qed.

Lemma started_known e tp i :
  jb_pool_address i = jv_pool_address e →
  started_handles i tp =
    match jd_addresses e tp, jb_declarator i with
    | Some _, Done a =>
        a :: match jb_downstream i with
             | Some b => b :: if jb_upstream_lock i then option_list (jb_upstream i) else []
             | None => []
             end
    | _, _ => []
    end.
Proof.
  intros Hi. unfold started_handles, addresses_known, jd_addresses. rewrite Hi.
  destruct (lock (tw_tp_address tp)) as [[a|]|], (lock (jv_pool_address e)) as [[p|]|]; try done.
  by destruct (split_tp_address a) as [[]|], (jb_declarator i).
Qed.

(** The client does not start: the answers say how far it came. *)
Lemma client_fails i tp h k :
  started_handles i tp = take k [jh_declarator h; jh_downstream h; jh_upstream h] →
  (∀ d, jb_template_receiver i ≠ Done d) →
  let '(r, _, t) := jd_client_start i tp in
  r ≠ JdStarts ∧ idle t ∧ tl_aborted t = take k [jh_declarator h; jh_downstream h; jh_upstream h].
Proof.
  intros Hs Ht. pose proof (jd_start_all_or_nothing i tp) as H.
  destruct (jd_client_start i tp) as [[r tp'] t]. destruct r.
  - destruct H as (? & ? & ? & d & _ & Hd & _). by destruct (Ht d).
  - destruct H as (_ & H1 & H2 & ->). done.
  - destruct H as (_ & H1 & H2 & ->). done.
Qed.


Definition start_kept e (x : JdStart * JdParts) : Prop :=
  let '(r, p) := x in
  match r with
  | JdStarts => ∃ main_task, tc_main_task (jv_template e) = Some main_task ∧
      parts_keep e main_task [] p
  | _ => parts_idle p ∧ ∃ k, k <= 3 ∧ parts_aborted (jv_handles e) k p
  end.
Lemma start_fails k e w i tp dt nt ut tt :
  let h := jv_handles e in
  k <= 3 → started_handles i tp = take k [jh_declarator h; jh_downstream h; jh_upstream h] →
  (∀ d, jb_template_receiver i ≠ Done d) →
  part_is (0 <? k) [AllocateTokens (jh_jds_reader h)] dt →
  part_is (1 <? k) [SetChannelFactory (jh_channel_factory h); MiningNodeMainTask (jh_miner_loop h)] nt →
  part_is (2 <? k) [JdUpstreamMainTask (jh_pool_loop h)] ut → idle tt →
  start_kept e (let '(r, tp, client) := jd_client_start i tp in
    (r, drop_parts h (MkJdParts w tp client dt nt ut tt []))).
Proof.
  intros h Hk Hs Ht H1 H2 H3 H4. pose proof (client_fails i tp h k Hs Ht) as H.
  destruct (jd_client_start i tp) as [[r tp'] t]. destruct H as (Hr & Hi & Ha).
  destruct (failed_parts h k (MkJdParts w tp' t dt nt ut tt [])) as [I A]; [done..|].
  destruct r; [done|..]; (split; [done|]; by exists k).
Qed.

Ltac part_fails e k :=
  cbn [andb mbind option_bind]; cbv beta iota zeta;
  apply (start_fails k); [lia|rewrite (started_known e) by done; cbn [jb_declarator jb_downstream
    jb_upstream_lock jb_upstream handle_of]|..]; try done.
Lemma jd_parts_start_kept e w tp : start_kept e (jd_parts_start e w tp).
Proof.
  unfold jd_parts_start. set (h := jv_handles e).
  destruct (jd_addresses e tp) as [ip|] eqn:Ea.
  2: { part_fails e 0. by rewrite Ea. }
  pose proof (declarator_start_tasks (jv_declarator e) (jh_jds_reader h) w) as Hd.
  destruct (declarator_start _ _ w) as [[o w1] dt].
  destruct o as [[]|[]|].
  2-3: cbn [mbind option_bind]; destruct (parse_ip ip); part_fails e 0; by rewrite Ea.
  pose proof (mining_node_start_tasks (jh_channel_factory h) (jh_miner_loop h) w1) as Hn.
  destruct (mining_node_start _ _ w1) as [[] nt].
  2: { cbn [mbind option_bind]; destruct (parse_ip ip); part_fails e 1; by rewrite Ea. }
  destruct (jv_upstream_lock e) eqn:El.
  2: { cbn [mbind option_bind]; destruct (parse_ip ip); part_fails e 2; by rewrite Ea. }
  cbn [mbind option_bind andb]. change (jd_upstream_start (jh_pool_loop h)) with
    (true, MkTaskList [JdUpstreamMainTask (jh_pool_loop h)] [] false true []).
  destruct (parse_ip ip) eqn:Ei.
  2: { part_fails e 3; by rewrite Ea. }
  pose proof (template_connect_tasks (jv_template e)) as Ht.
  destruct (template_connect (jv_template e)) as [[[]|[]|] tt].
  2-3: part_fails e 3; by rewrite Ea.
  destruct Ht as (main_task & Hm & Ht). cbv beta iota zeta. cbn [handle_of].
  unfold jd_addresses in Ea. destruct (lock (tw_tp_address tp)) as [[a|]|] eqn:E1; [|done..].
  destruct (lock (jv_pool_address e)) as [[pool|]|] eqn:E2; [|done..].
  destruct (split_tp_address a) as [[ip' port]|] eqn:E3; [|done]. injection Ea as <-.
  erewrite (jd_client_starts _ tp a ip' port pool) by done.
  exists main_task. split; [done|]. unfold drop_parts. cbn.
  rewrite !bool_decide_false by (by intros ?%elem_of_nil). by split_and!.
Qed.

Lemma jd_parts_start_detached e w tp : jp_detached (jd_parts_start e w tp).2 = [].
Proof.
  unfold jd_parts_start.
  repeat match goal with |- context [let '(_, _) := ?x in _] => destruct x end. done.
Qed.

(** C34: Dropping the client's handle aborts what its managers were handed and nothing else.
    When the client does not start, the parts that were started before the failure are exactly
    those whose handles are aborted, every task of theirs is aborted, and no manager keeps
    anything nor has any part detached a task (the retry of the template provider's address,
    which is the client's own, is in [JdClient]).  Once it has started, and whatever its parts spawned
    since, dropping the handle aborts the four parts and every task handed to their managers,
    those of previous hashes and token requests included, each once; the tasks that are left
    running are exactly the detached ones (declarations, share relays, solutions) that have not
    ended by themselves. *)
Theorem jd_stop_aborts_handed_tasks e w tp events :
  let '(r, p) := jd_parts_start e w tp in
  let h := jv_handles e in
  match r with
  | JdStarts =>
      let p' := jd_parts_drop h (jd_parts_run events p) in
      parts_idle p' ∧
      tl_aborted (jp_client p') ≡ₚ
        [jh_declarator h; jh_downstream h; jh_upstream h; jh_template_receiver h] ∧
      tl_aborted (jp_declarator p') ≡ₚ jh_jds_reader h :: handed_tasks events ∧
      tl_aborted (jp_downstream p') ≡ₚ [jh_channel_factory h; jh_miner_loop h] ∧
      tl_aborted (jp_upstream p') ≡ₚ [jh_pool_loop h] ∧
      (∃ main_task, tc_main_task (jv_template e) = Some main_task ∧
        tl_aborted (jp_template p') ≡ₚ [tc_on_new_solution (jv_template e); main_task]) ∧
      ∀ t, t ∈ jp_detached p' ↔ unfinished events t
  | _ => parts_idle p ∧ jp_detached p = [] ∧ ∃ k, k <= 3 ∧ parts_aborted h k p
  end.
Proof.
  pose proof (jd_parts_start_kept e w tp) as H. pose proof (jd_parts_start_detached e w tp) as H0.
  destruct (jd_parts_start e w tp) as [r p].
  cbn zeta. destruct r; [|by destruct H..]. destruct H as (main_task & Hm & H).
  pose proof (λ t, run_detached events p t H0) as Hdet. clear H0.
  apply (parts_run_keep e main_task events) in H. cbn [app] in H.
  revert H Hdet. generalize (jd_parts_run events p). clear p. intros p (Hc & Hd & Hn & Hu & Ht) Hdet.
  destruct (drop_keeps jd_handle _ _ Hc) as [Ic Ac]. cbn in Ac.
  unfold jd_parts_drop, drop_parts. cbn -[list_drop].
  rewrite !bool_decide_true by (rewrite Ac; set_solver).
  destruct (drop_keeps declarator_handle _ _ Hd) as [Id Ad], (drop_keeps mining_node_handle _ _ Hn)
    as [In An], (drop_keeps jd_upstream_handle _ _ Hu) as [Iu Au],
    (drop_keeps template_handle _ _ Ht) as [It At].
  split; [done|]. split; [done|]. split.
  { rewrite Ad, <- list_fmap_compose. cbn. by rewrite list_fmap_id. }
  split; [done|]. split; [done|]. split; [by exists main_task|done].
Qed.

Lemma jd_parts_start_world e w tp :
  (jd_parts_start e w tp).1 = JdStarts →
  jp_world (jd_parts_start e w tp).2 = (allocate_tokens 2 w).2.
Proof.
  unfold jd_parts_start.
  destruct (match jd_addresses e tp with Some _ => declarator_start _ _ w | None => _ end)
    as [[o w1] dt] eqn:Ed.
  destruct (match o with Done _ => mining_node_start _ _ w1 | _ => _ end) as [down nt].
  destruct (if down && jv_upstream_lock e then _ else _) as [up ut].
  destruct (match jd_addresses e tp ≫= parse_ip with Some _ => _ | None => _ end) as [o2 tt].
  cbn zeta. set (i := MkJdStartUp _ _ _ _ _ _). pose proof (jd_start_all_or_nothing i tp) as H.
  destruct (jd_client_start i tp) as [[r tp'] t]. cbn [fst snd drop_parts jp_world]. intros ->.
  destruct H as (a & b & c & d & H & _). rewrite (started_known e) in H by done. subst i. cbn in H.
  destruct (jd_addresses e tp); [|done]. destruct o as [[]| |]; [|done..]. clear -Ed.
  unfold declarator_start in Ed.
  destruct (dc_stream _), (dc_initiator _), (dc_handshake _); cbn -[allocate_tokens] in Ed; try done.
  destruct (jd_setup_connection_message _ _ _ _ _); [|done]. destruct (jd_setup _ _); [|done].
  cbn -[allocate_tokens] in Ed. destruct (allocate_tokens 2 w) as [[?|?|] w2]; [..|done];
    (destruct (poisoned (jw_jd w2)); [done|]; by injection Ed).
Qed.

(** The client starts in the world the parts' theorems begin with, and with two tokens asked
    for; a declaration server that has gone since it answered does not keep it from starting,
    it is only reported, once for each token. *)
Theorem jd_start_is_fresh e up miner solution jds merge tp sender outputs enabled :
  let '(r, p) := jd_parts_start e (jd_objects up miner solution jds merge) tp in
  let w := jp_world p in
  tx_sent up = [] → tx_sent jds = [] → r = JdStarts →
  fresh_customs w ∧ fresh_declarator w ∧
  fresh_receiver (MkTrWorld w (new_mutex (template_rx_new sender outputs enabled)) []) ∧
  let '(id1, ids) := id_next id_new in
  let '(id2, _) := id_next ids in
  if tx_open jds
  then tx_sent (jd_sender (guarded (jw_jd w))) = [AllocateMiningJobToken id1; AllocateMiningJobToken id2] ∧
       jw_reports w = []
  else tx_sent (jd_sender (guarded (jw_jd w))) = [] ∧
       jw_reports w = [UpdateJd JdDown; UpdateJd JdDown].
Proof.
  pose proof (jd_parts_start_world e (jd_objects up miner solution jds merge) tp) as H.
  destruct (jd_parts_start _ _ _) as [r p]. cbn zeta. intros Hup Hjds Hr. cbn in H. specialize (H Hr).
  rewrite H. clear -Hup Hjds. destruct jds as [opened sent]. cbn in Hjds. subst sent.
  unfold fresh_customs, fresh_declarator, fresh_receiver, custom_view, jd_view, rx_view.
  unfold allocate_tokens, attempt, lock_jd, with_lock, send_jds, from_jd, gets, modify, mbind, M_bind.
  cbn. destruct (id_next id_new) as [id1 ids]. cbn. destruct opened.
  all: cbn; destruct (id_next ids) as [id2 ids2]; cbn; unfold custom_sent; cbn; by rewrite Hup.
Qed.
End parts.

(** ** Witnesses *)

(** A client whose parts all answer. *)
Definition example_jd_handles : JdHandles := MkJdHandles 1 2 3 4 5 6 7 8.
Definition example_jd_environment : JdEnvironment :=
  MkJdEnvironment (new_mutex (Some (MkSocketAddr (V4 []) 1)))
    (MkDeclaratorConnect true true true (lit "10.0.0.1") 2000 (replicate 16 97%N) (lit "token")
       true ReplySuccess)
    true (MkTemplateConnect true true true true ReplySuccess 9 (Some 10%N)) example_jd_handles.
Definition example_jd_parts : JdStart * JdParts :=
  jd_parts_start id example_jd_environment
    (jd_objects (MkSender true []) (MkSender true []) (MkSender true []) (MkSender false []) None)
    (tp_new (Some (lit "127.0.0.1:8442"))).
Lemma jd_start_is_fresh_witness :
  example_jd_parts.1 = JdStarts ∧
  jw_reports (jp_world example_jd_parts.2) = [UpdateJd JdDown; UpdateJd JdDown].
Proof.
  split; [vm_compute; reflexivity|].
  refine (proj2 (proj2 (proj2 (proj2 (jd_start_is_fresh id example_jd_environment
    (MkSender true []) (MkSender true []) (MkSender true []) (MkSender false []) None
    (tp_new (Some (lit "127.0.0.1:8442"))) (MkSender true []) [] true eq_refl eq_refl _))))).
  vm_compute. reflexivity.
Defined.
Lemma jd_stop_aborts_handed_tasks_witness :
  let events := [JpPrevHash 11; JpDetached (Declaration 13); JpKeep; JpTokens 12;
    JpDetached (ShareRelay 14); JpEnded (Declaration 13)] in
  let p' := jd_parts_drop example_jd_handles (jd_parts_run events example_jd_parts.2) in
  tl_aborted (jp_declarator p') ≡ₚ [1; 11; 12]%N ∧
  (∀ t, t ∈ jp_detached p' ↔ unfinished events t) ∧ jp_detached p' = [ShareRelay 14].
Proof.
  pose proof (jd_stop_aborts_handed_tasks id example_jd_environment
    (jd_objects (MkSender true []) (MkSender true []) (MkSender true []) (MkSender false []) None)
    (tp_new (Some (lit "127.0.0.1:8442")))
    [JpPrevHash 11; JpDetached (Declaration 13); JpKeep; JpTokens 12;
     JpDetached (ShareRelay 14); JpEnded (Declaration 13)]) as (_ & _ & H1 & _ & _ & _ & H2).
  split; [exact H1|]. split; [exact H2|]. vm_compute. reflexivity.
Defined.
