(* ===== verification/ShareAccounter.v ===== *)
(** * The share accounting relay

    [share_accounter/mod.rs]: two tasks relay the messages of the mining protocol between
    the client and the pool.  Shares that go up are remembered under their job, and the
    pool's [ShareOk], which names a job only, becomes the success message of the share that
    is remembered.  The map is shared by both tasks, so a turn of a task is what it does
    between two points where it waits: the receipt of a message, and its relay. *)

From S2P Require Import Prelude Str Bitcoin F32 Sv1 Sv2 ProxyState Effects JdData.

(** ** Data *)
Record ShareSentUp := MkShareSentUp {
  sh_channel_id : N;
  sh_sequence_number : N
}.

(** [PoolExtMessages], as far as the relay tells them apart. *)
Inductive PoolExtMessages :=
| ExtMining (m : Mining)
| ExtShareOk (ref_job_id : N)
| ExtShareAccounting
| ExtOther.

Record SubmitSuccess := MkSubmitSuccess {
  sc_channel_id : N;
  sc_last_sequence_number : N;
  sc_new_submits_accepted_count : N;
  sc_new_shares_sum : N
}.
(** What the relay sends to the client. *)
Inductive ToClient :=
| ClientSuccess (m : SubmitSuccess)
| ClientMining (m : Mining).

(** What both tasks share, and the ends of their channels. *)
Record AccounterWorld := MkAccounterWorld {
  aw_shares_sent_up : gmap N ShareSentUp;
  aw_up : Sender PoolExtMessages;
  aw_down : Sender ToClient;
  aw_reports : list ProxyUpdate
}.
Definition set_aw_shares_sent_up v w := MkAccounterWorld v (aw_up w) (aw_down w) (aw_reports w).
Definition set_aw_up v w := MkAccounterWorld (aw_shares_sent_up w) v (aw_down w) (aw_reports w).
Definition set_aw_down v w := MkAccounterWorld (aw_shares_sent_up w) (aw_up w) v (aw_reports w).
Definition aw_report (u : ProxyUpdate) w := MkAccounterWorld (aw_shares_sent_up w) (aw_up w)
  (aw_down w) (aw_reports w ++ [u]).

(** ** [relay_up] *)
Inductive UpStage := UpReceive | UpSend (msg : PoolExtMessages) | UpEnds.

(** A message from the client, or the end of its channel. *)
Definition up_receive (received : option Mining) (w : AccounterWorld) : UpStage * AccounterWorld :=
  match received with
  | None => (UpEnds, w)
  | Some msg =>
      let w :=
        match msg with
        | MSubmitSharesExtended m =>
            set_aw_shares_sent_up
              (<[se_job_id m := MkShareSentUp (se_channel_id m) (se_sequence_number m)]>
                (aw_shares_sent_up w)) w
        | _ => w
        end in
      (UpSend (ExtMining msg), w)
  end.
Definition up_send (msg : PoolExtMessages) (w : AccounterWorld) : UpStage * AccounterWorld :=
  if tx_open (aw_up w) then (UpReceive, set_aw_up (sender_push msg (aw_up w)) w)
  else (UpEnds, w).
Definition relay_up (stage : UpStage) (received : option Mining) (w : AccounterWorld)
    : UpStage * AccounterWorld :=
  match stage with
  | UpReceive => up_receive received w
  | UpSend msg => up_send msg w
  | UpEnds => (UpEnds, w)
  end.

(** ** [relay_down] *)
Inductive DownStage := DownReceive | DownSend (msg : ToClient) | DownEnds.

(** The job of a [ShareOk]: the upper half of [ref_job_id]. *)
Definition job_id_of (ref_job_id : N) : N :=
  let job_id_bytes := le_bytes 8 ref_job_id in
  le_value (take 4 (drop 4 job_id_bytes)).
Definition success_of (share_sent_up : ShareSentUp) : SubmitSuccess :=
  MkSubmitSuccess (sh_channel_id share_sent_up) (sh_sequence_number share_sent_up) 1 1.

Definition down_receive (received : option PoolExtMessages) (w : AccounterWorld)
    : DownStage * AccounterWorld :=
  match received with
  | None => (DownEnds, w)
  | Some (ExtShareOk ref_job_id) =>
      let job_id := job_id_of ref_job_id in
      match aw_shares_sent_up w !! job_id with
      | Some share_sent_up =>
          (DownSend (ClientSuccess (success_of share_sent_up)),
           set_aw_shares_sent_up (delete job_id (aw_shares_sent_up w)) w)
      | None => (DownEnds, aw_report (UpdatePool PoolDown) w)
      end
  | Some ExtShareAccounting => (DownReceive, w)
  | Some (ExtMining msg) => (DownSend (ClientMining msg), w)
  | Some ExtOther => (DownEnds, aw_report (UpdatePool PoolDown) w)
  end.
Definition down_send (msg : ToClient) (w : AccounterWorld) : DownStage * AccounterWorld :=
  if tx_open (aw_down w) then (DownReceive, set_aw_down (sender_push msg (aw_down w)) w)
  else (DownEnds, aw_report (UpdateShareAccounter ShareAccounterDown) w).
Definition relay_down (stage : DownStage) (received : option PoolExtMessages)
    (w : AccounterWorld) : DownStage * AccounterWorld :=
  match stage with
  | DownReceive => down_receive received w
  | DownSend msg => down_send msg w
  | DownEnds => (DownEnds, w)
  end.

(** [start], before the tasks. *)
Definition accounter_start (up : Sender PoolExtMessages) (down : Sender ToClient)
    : AccounterWorld := MkAccounterWorld ∅ up down [].

(** ** Both tasks together *)

(** What was received, in the order in which the tasks received it. *)
Inductive Received := FromClient (m : Mining) | FromPool (m : PoolExtMessages).
Record Accounter := MkAccounter {
  ac_world : AccounterWorld;
  ac_up : UpStage;
  ac_down : DownStage;
  ac_log : list Received
}.
Definition accounter_new up down : Accounter :=
  MkAccounter (accounter_start up down) UpReceive DownReceive [].
Definition logged {A} (f : A → Received) (waits : bool) (received : option A) : list Received :=
  match received with Some m => if waits then [f m] else [] | None => [] end.

Inductive accounter_step : Accounter → Accounter → Prop :=
| as_up w up down log received up' w' :
    relay_up up received w = (up', w') →
    accounter_step (MkAccounter w up down log)
      (MkAccounter w' up' down
        (log ++ logged FromClient (match up with UpReceive => true | _ => false end) received))
| as_down w up down log received down' w' :
    relay_down down received w = (down', w') →
    accounter_step (MkAccounter w up down log)
      (MkAccounter w' up down'
        (log ++ logged FromPool (match down with DownReceive => true | _ => false end) received))
| as_closed w up down log w' :   (** a receiver goes away *)
    aw_shares_sent_up w' = aw_shares_sent_up w → tx_sent (aw_up w') = tx_sent (aw_up w) →
    tx_sent (aw_down w') = tx_sent (aw_down w) →
    accounter_step (MkAccounter w up down log) (MkAccounter w' up down log).

(** ** What the relay is to do, from what it received *)

(** The share of a job that waits for an acknowledgement: the newest one, unless the job was
    acknowledged after it. *)
Definition unacknowledged (job_id : N) (log : list Received) : option ShareSentUp :=
  fold_left (λ waiting e,
    match e with
    | FromClient (MSubmitSharesExtended m) =>
        if (se_job_id m =? job_id)%N
        then Some (MkShareSentUp (se_channel_id m) (se_sequence_number m)) else waiting
    | FromPool (ExtShareOk ref_job_id) =>
        if (job_id_of ref_job_id =? job_id)%N then None else waiting
    | _ => waiting
    end) log None.
(** What a message asks to be sent to the client, after [before] was received. *)
Definition answer (before : list Received) (e : Received) : list ToClient :=
  match e with
  | FromPool (ExtMining msg) => [ClientMining msg]
  | FromPool (ExtShareOk ref_job_id) =>
      match unacknowledged (job_id_of ref_job_id) before with
      | Some share => [ClientSuccess (success_of share)]
      | None => []
      end
  | _ => []
  end.
Definition answers (log : list Received) : list ToClient :=
  concat (imap (λ i e, answer (take i log) e) log).
Definition relayed_up (log : list Received) : list PoolExtMessages :=
  omap (λ e, match e with FromClient m => Some (ExtMining m) | _ => None end) log.

(** What is on its way: the message a task is about to send. *)
Definition sending_up (stage : UpStage) : list PoolExtMessages :=
  match stage with UpSend msg => [msg] | _ => [] end.
Definition sending_down (stage : DownStage) : list ToClient :=
  match stage with DownSend msg => [msg] | _ => [] end.

(** The shares received, and those acknowledged. *)
Definition shares_received (log : list Received) : list (N * ShareSentUp) :=
  omap (λ e, match e with
    | FromClient (MSubmitSharesExtended m) =>
        Some (se_job_id m, MkShareSentUp (se_channel_id m) (se_sequence_number m))
    | _ => None
    end) log.
Definition successes (msgs : list ToClient) : list SubmitSuccess :=
  omap (λ m, match m with ClientSuccess s => Some s | _ => None end) msgs.
