(* ===== verification/ShareAccounterProps.v ===== *)
(** * What the share accounting relay promises

    However its two tasks interleave, the relay sends what its specification computes from
    the messages it received; every share is acknowledged at most once.  A second share of a
    job before the acknowledgement of the first stops it. *)

From S2P Require Import Prelude Str Bitcoin F32 Sv1 Sv2 ProxyState Effects JdData ShareAccounter.

(** The job of a [ShareOk] is the upper half of its reference. *)
(** The job of a [ShareOk] is the upper half of its reference. *)
Lemma le_bytes_drop k n x : drop k (le_bytes (k + n) x) = le_bytes n (x / 256 ^ N.of_nat k).
Proof.
  revert x. induction k as [|k IH]; intros x; [by rewrite N.div_1_r|].
  cbn [Nat.add le_bytes drop]. rewrite IH, Nat2N.inj_succ, N.pow_succ_r', N.Div0.div_div. done.
Qed.
Lemma job_id_of_shift ref_job_id :
  (ref_job_id < 2 ^ 64)%N → job_id_of ref_job_id = (ref_job_id / 2 ^ 32)%N.
Proof.
  intros H. unfold job_id_of, le_value. rewrite (le_bytes_drop 4 4), take_ge by by rewrite length_le_bytes.
  change (reverse (le_bytes 4 ?x)) with (be_bytes 4 x).
  change (256 ^ N.of_nat 4)%N with (2 ^ 32)%N. apply be_value_be_bytes.
  apply N.Div0.div_lt_upper_bound. exact H.
Qed.

#[local] Arguments job_id_of : simpl never.

(** ** The specification, message by message *)
Lemma unacknowledged_snoc j log e :
  unacknowledged j (log ++ [e]) =
    match e with
    | FromClient (MSubmitSharesExtended m) =>
        if (se_job_id m =? j)%N then Some (MkShareSentUp (se_channel_id m) (se_sequence_number m))
        else unacknowledged j log
    | FromPool (ExtShareOk r) => if (job_id_of r =? j)%N then None else unacknowledged j log
    | _ => unacknowledged j log
    end.
Proof. unfold unacknowledged. by rewrite fold_left_app. Qed.
Lemma answers_snoc log e : answers (log ++ [e]) = answers log ++ answer log e.
Proof.
  unfold answers. rewrite imap_app, concat_app. f_equal.
  - f_equal. apply imap_ext. intros i x Hi. rewrite take_app_le; [done|].
    apply lookup_lt_Some in Hi. lia.
  - cbn. rewrite Nat.add_0_r, app_nil_r, take_app_length. done.
Qed.
Lemma relayed_up_snoc log e :
  relayed_up (log ++ [e]) = relayed_up log ++
    match e with FromClient m => [ExtMining m] | _ => [] end.
Proof. unfold relayed_up. rewrite omap_app. cbn. by destruct e. Qed.
Lemma shares_received_snoc log e :
  shares_received (log ++ [e]) = shares_received log ++ shares_received [e].
Proof. apply omap_app. Qed.
Lemma successes_app l l' : successes (l ++ l') = successes l ++ successes l'.
Proof. apply omap_app. Qed.

(** ** The invariant *)
Record accounter_ok (s : Accounter) : Prop := {
  ao_shares : ∀ j, aw_shares_sent_up (ac_world s) !! j = unacknowledged j (ac_log s);
  ao_up : ∃ lost, tx_sent (aw_up (ac_world s)) ++ sending_up (ac_up s) ++ lost =
    relayed_up (ac_log s) ∧ (ac_up s ≠ UpEnds → lost = []);
  ao_down : ∃ lost, tx_sent (aw_down (ac_world s)) ++ sending_down (ac_down s) ++ lost =
    answers (ac_log s) ∧ (ac_down s ≠ DownEnds → lost = []);
  ao_once : ∃ acknowledged : list (N * ShareSentUp),
    successes (answers (ac_log s)) = map (λ p, success_of p.2) acknowledged ∧
    map_to_list (aw_shares_sent_up (ac_world s)) ++ acknowledged ⊆+ shares_received (ac_log s)
}.

Lemma accounter_new_ok open_up open_down :
  accounter_ok (accounter_new (MkSender open_up []) (MkSender open_down [])).
Proof.
  split; cbn.
  - intros j. apply lookup_empty.
  - by exists [].
  - by exists [].
  - exists []. split; [done|]. rewrite map_to_list_empty. done.
Qed.

(** A message from the client. *)
Lemma up_receive_ok w down log m :
  accounter_ok (MkAccounter w UpReceive down log) →
  accounter_ok (MkAccounter (up_receive (Some m) w).2 (UpSend (ExtMining m)) down
    (log ++ [FromClient m])).
Proof.
  intros [Hsh (lu & Hup & Hlu) (ld & Hdown & Hld) (ack & Hack & Hsub)]. cbn [ac_world ac_up ac_down ac_log] in *.
  assert (answers (log ++ [FromClient m]) = answers log) as Ea by (rewrite answers_snoc; apply app_nil_r).
  split; cbn [ac_world ac_up ac_down ac_log]; rewrite ?Ea.
  - intros j. rewrite unacknowledged_snoc. destruct m; cbn; try apply Hsh.
    destruct (N.eqb_spec (se_job_id m) j) as [->|H]; [by rewrite lookup_insert_eq|].
    by rewrite lookup_insert_ne.
  - exists []. rewrite relayed_up_snoc, <- Hup, (Hlu ltac:(done)). cbn. rewrite !app_nil_r.
    by destruct m.
  - exists ld. by destruct m.
  - exists ack. split; [done|]. rewrite shares_received_snoc. destruct m; cbn; try by rewrite app_nil_r.
    rewrite <- insert_delete_eq, map_to_list_insert by apply lookup_delete_eq.
    etrans; [|apply submseteq_app; [exact Hsub|reflexivity]].
    rewrite <- Permutation_cons_append. cbn. apply submseteq_skip, submseteq_app; [|done].
    apply map_to_list_submseteq, delete_subseteq.
Qed.

(** A message from the pool. *)
Lemma down_receive_ok w up log m down' w' :
  accounter_ok (MkAccounter w up DownReceive log) →
  down_receive (Some m) w = (down', w') →
  accounter_ok (MkAccounter w' up down' (log ++ [FromPool m])).
Proof.
  intros [Hsh (lu & Hup & Hlu) (ld & Hdown & Hld) (ack & Hack & Hsub)] H. cbn [ac_world ac_up ac_down ac_log] in *.
  assert (relayed_up (log ++ [FromPool m]) = relayed_up log) as Er by (rewrite relayed_up_snoc; apply app_nil_r).
  assert (shares_received (log ++ [FromPool m]) = shares_received log) as Es
    by (rewrite shares_received_snoc; apply app_nil_r).
  rewrite (Hld ltac:(done)) in Hdown. cbn in Hdown. rewrite app_nil_r in Hdown.
  destruct m as [m|r| |]; cbn in H.
  - injection H as <- <-. split; cbn [ac_world ac_up ac_down ac_log]; rewrite ?Er, ?Es, ?answers_snoc.
    + intros j. rewrite unacknowledged_snoc. apply Hsh.
    + by exists lu.
    + exists []. by rewrite Hdown.
    + exists ack. split; [|done]. by rewrite successes_app, Hack, app_nil_r.
  - destruct (aw_shares_sent_up w !! job_id_of r) as [sh|] eqn:Hr; injection H as <- <-;
      split; cbn [ac_world ac_up ac_down ac_log]; rewrite ?Er, ?Es, ?answers_snoc; cbn [answer]; rewrite <- ?Hsh, ?Hr.
    + intros j. rewrite unacknowledged_snoc. cbn. destruct (N.eqb_spec (job_id_of r) j) as [<-|Hj].
      * by rewrite lookup_delete_eq.
      * by rewrite lookup_delete_ne.
    + by exists lu.
    + exists []. cbn. by rewrite Hdown.
    + exists (ack ++ [(job_id_of r, sh)]). split.
      * rewrite successes_app, Hack, map_app. done.
      * etrans; [|exact Hsub]. cbn. rewrite <- (insert_delete_id _ _ _ Hr) at 2.
        rewrite map_to_list_insert by apply lookup_delete_eq. rewrite Permutation_app_comm. cbn.
        rewrite <- Permutation_cons_append. cbn. apply submseteq_skip. by rewrite Permutation_app_comm.
    + intros j. rewrite unacknowledged_snoc. cbn. destruct (N.eqb_spec (job_id_of r) j) as [<-|Hj]; [done|apply Hsh].
    + by exists lu.
    + exists []. cbn. by rewrite !app_nil_r.
    + exists ack. split; [|done]. by rewrite app_nil_r.
  - injection H as <- <-. split; cbn [ac_world ac_up ac_down ac_log]; rewrite ?Er, ?Es, ?answers_snoc; cbn [answer]; rewrite ?app_nil_r.
    + intros j. rewrite unacknowledged_snoc. apply Hsh.
    + by exists lu.
    + exists []. cbn. by rewrite app_nil_r.
    + by exists ack.
  - injection H as <- <-. split; cbn [ac_world ac_up ac_down ac_log]; rewrite ?Er, ?Es, ?answers_snoc; cbn [answer]; rewrite ?app_nil_r.
    + intros j. rewrite unacknowledged_snoc. apply Hsh.
    + by exists lu.
    + exists []. cbn. by rewrite app_nil_r.
    + by exists ack.
Qed.

Lemma accounter_ok_step s s' : accounter_step s s' → accounter_ok s → accounter_ok s'.
Proof.
  intros [w up down log received up' w' H|w up down log received down' w' H|w up down log w' Hs Hu Hd] Hok.
  - destruct up as [|msg|]; cbn in H.
    + destruct received as [m|]; cbn.
      * pose proof (up_receive_ok w down log m Hok) as Hok'. cbn in H. destruct m; by injection H as <- <-.
      * injection H as <- <-. rewrite app_nil_r.
        destruct Hok as [Hsh (lu & Hup & Hlu) Hdown Honce]. split; cbn in *; [done| |done|done].
        exists []. rewrite (Hlu ltac:(done)) in Hup. by rewrite Hup.
    + replace (log ++ _) with log by (destruct received; by rewrite app_nil_r).
      destruct Hok as [Hsh (lu & Hup & Hlu) Hdown Honce]. cbn in *. unfold up_send in H.
      destruct (tx_open (aw_up w)); injection H as <- <-; split; cbn; try done.
      * exists []. rewrite (Hlu ltac:(done)) in Hup. by rewrite app_nil_r, Hup.
      * exists (msg :: lu). by rewrite Hup.
    + injection H as <- <-. replace (log ++ _) with log by (destruct received; by rewrite app_nil_r). done.
  - destruct down as [|msg|]; cbn in H.
    + destruct received as [m|]; cbn; [by eapply down_receive_ok|].
      injection H as <- <-. rewrite app_nil_r.
      destruct Hok as [Hsh Hup (ld & Hdown & Hld) Honce]. split; cbn in *; [done|done| |done].
      exists []. rewrite (Hld ltac:(done)) in Hdown. by rewrite Hdown.
    + replace (log ++ _) with log by (destruct received; by rewrite app_nil_r).
      destruct Hok as [Hsh Hup (ld & Hdown & Hld) Honce]. cbn in *. unfold down_send in H.
      destruct (tx_open (aw_down w)); injection H as <- <-; split; cbn; try done.
      * exists []. rewrite (Hld ltac:(done)) in Hdown. by rewrite app_nil_r, Hdown.
      * exists (msg :: ld). by rewrite Hdown.
    + injection H as <- <-. replace (log ++ _) with log by (destruct received; by rewrite app_nil_r). done.
  - destruct Hok as [Hsh Hup Hdown Honce]. split; cbn in *; rewrite ?Hs, ?Hu, ?Hd; done.
Qed.

Definition accounter_reach (s : Accounter) : Prop :=
  ∃ open_up open_down,
    rtc accounter_step (accounter_new (MkSender open_up []) (MkSender open_down [])) s.
Lemma accounter_reach_ok s : accounter_reach s → accounter_ok s.
Proof.
  intros (u & d & H). eapply (rtc_ind_r (λ s, accounter_ok s)); [apply accounter_new_ok| |exact H].
  intros s1 s2 _ Hstep Hok. by eapply accounter_ok_step.
Qed.

(** ** The theorems *)

(** C30: The relay refines its specification: however its tasks interleave and whenever its
    receivers go away, what it sent up is a prefix of the client's messages, in order; what it
    sent down is a prefix of what the pool's messages ask for, in order, where a [ShareOk]
    asks for the success of the newest share of its job that was not acknowledged; while a
    task runs, nothing but the message it is sending is missing. *)
Theorem relay_refines_log s :
  accounter_reach s →
  tx_sent (aw_up (ac_world s)) `prefix_of` relayed_up (ac_log s) ∧
  tx_sent (aw_down (ac_world s)) `prefix_of` answers (ac_log s) ∧
  (ac_up s ≠ UpEnds →
   tx_sent (aw_up (ac_world s)) ++ sending_up (ac_up s) = relayed_up (ac_log s)) ∧
  (ac_down s ≠ DownEnds →
   tx_sent (aw_down (ac_world s)) ++ sending_down (ac_down s) = answers (ac_log s)).
Proof.
  intros [_ (lu & Hu & Hlu) (ld & Hd & Hld) _]%accounter_reach_ok.
  split_and!; [by eexists|by eexists|intros H|intros H].
  - by rewrite <- Hu, (Hlu H), app_nil_r.
  - by rewrite <- Hd, (Hld H), app_nil_r.
Qed.

(** Every share is acknowledged at most once, and nothing else is: the successes sent to
    the client are, in order, those of distinct shares that the client sent. *)
Theorem shares_acknowledged_once s :
  accounter_reach s →
  ∃ acknowledged : list (N * ShareSentUp),
    successes (tx_sent (aw_down (ac_world s))) = map (λ p, success_of p.2) acknowledged ∧
    acknowledged ⊆+ shares_received (ac_log s).
Proof.
  intros [_ _ (ld & Hd & _) (ack & Hack & Hsub)]%accounter_reach_ok.
  rewrite <- Hd, successes_app in Hack.
  set (sent := successes (tx_sent _)) in *. exists (take (length sent) ack). split.
  - rewrite <- firstn_map, <- Hack. by rewrite take_app_length.
  - etrans; [|exact Hsub]. apply submseteq_inserts_l, sublist_submseteq, sublist_take.
Qed.

(** Two shares of one job must not be on their way together: when the second is sent before
    the first is acknowledged, the acknowledgement of the first is given to the second, the
    first is never acknowledged, and the acknowledgement of the second ends the relay and
    reports that the pool is down. *)
Theorem second_share_stops_relay w m1 m2 ref_job_id :
  aw_shares_sent_up w = ∅ → se_job_id m1 = se_job_id m2 → job_id_of ref_job_id = se_job_id m1 →
  let w1 := (up_receive (Some (MSubmitSharesExtended m1)) w).2 in
  let w2 := (up_receive (Some (MSubmitSharesExtended m2)) w1).2 in
  let '(stage3, w3) := down_receive (Some (ExtShareOk ref_job_id)) w2 in
  stage3 = DownSend (ClientSuccess (MkSubmitSuccess (se_channel_id m2) (se_sequence_number m2) 1 1)) ∧
  aw_shares_sent_up w3 = ∅ ∧
  down_receive (Some (ExtShareOk ref_job_id)) w3 =
    (DownEnds, aw_report (UpdatePool PoolDown) w3).
Proof.
  intros Hw Hj Hr. cbn. rewrite Hr, <- Hj, Hw, insert_insert_eq, insert_empty, lookup_singleton_eq. cbn.
  rewrite delete_singleton_eq. split; [done|]. split; [done|]. by rewrite lookup_empty.
Qed.

(** ** Witnesses *)
Definition toy_share_up (job sequence_number : N) : Mining :=
  MSubmitSharesExtended (MkSubmitSharesExtended 5 sequence_number job 1 2 3 []).
Definition toy_accounter_step (s : Accounter) (e : Received) : Accounter :=
  let '(MkAccounter w up down log) := s in
  match e with
  | FromClient m =>
      let '(up', w') := relay_up up (Some m) w in
      MkAccounter w' up' down
        (log ++ logged FromClient (match up with UpReceive => true | _ => false end) (Some m))
  | FromPool m =>
      let '(down', w') := relay_down down (Some m) w in
      MkAccounter w' up down'
        (log ++ logged FromPool (match down with DownReceive => true | _ => false end) (Some m))
  end.
(** Every message takes two turns: its receipt and its relay. *)
Definition toy_accounter_run (es : list Received) : Accounter :=
  fold_left (λ s e, toy_accounter_step (toy_accounter_step s e) e) es
    (accounter_new (MkSender true []) (MkSender true [])).
Lemma toy_accounter_steps s e : accounter_step s (toy_accounter_step s e).
Proof.
  destruct s as [w up down log]. destruct e as [m|m]; unfold toy_accounter_step.
  - destruct (relay_up up (Some m) w) as [up' w'] eqn:E. by apply as_up.
  - destruct (relay_down down (Some m) w) as [down' w'] eqn:E. by apply as_down.
Qed.
Lemma toy_accounter_reach es : accounter_reach (toy_accounter_run es).
Proof.
  exists true, true. unfold toy_accounter_run. generalize (accounter_new (MkSender true []) (MkSender true [])).
  induction es as [|e es IH]; intros s; [constructor|]. cbn [fold_left].
  do 2 (eapply rtc_l; [apply toy_accounter_steps|]). apply IH.
Qed.

(** Shares of the jobs 7 and 8, acknowledged in the other order. *)
Definition toy_accounted : list Received :=
  [FromClient (toy_share_up 7 1); FromClient (toy_share_up 8 2);
   FromPool (ExtShareOk (8 * 2 ^ 32 + 3)); FromPool (ExtShareOk (7 * 2 ^ 32 + 3))].
Lemma relay_refines_log_witness :
  tx_sent (aw_down (ac_world (toy_accounter_run toy_accounted))) =
    [ClientSuccess (MkSubmitSuccess 5 2 1 1); ClientSuccess (MkSubmitSuccess 5 1 1 1)] ∧
  tx_sent (aw_down (ac_world (toy_accounter_run toy_accounted))) `prefix_of`
    answers (ac_log (toy_accounter_run toy_accounted)).
Proof.
  split; [reflexivity|].
  apply (relay_refines_log (toy_accounter_run toy_accounted)), toy_accounter_reach.
Defined.
Lemma shares_acknowledged_once_witness :
  length (successes (tx_sent (aw_down (ac_world (toy_accounter_run toy_accounted))))) = 2 ∧
  ∃ acknowledged : list (N * ShareSentUp),
    successes (tx_sent (aw_down (ac_world (toy_accounter_run toy_accounted)))) =
      map (λ p, success_of p.2) acknowledged ∧
    acknowledged ⊆+ shares_received (ac_log (toy_accounter_run toy_accounted)).
Proof.
  split; [reflexivity|].
  apply (shares_acknowledged_once (toy_accounter_run toy_accounted)), toy_accounter_reach.
Defined.
Definition toy_two_shares : SubmitSharesExtended * SubmitSharesExtended :=
  (MkSubmitSharesExtended 5 1 7 1 2 3 [], MkSubmitSharesExtended 5 2 7 1 2 3 []).
Lemma second_share_stops_relay_witness :
  let w := accounter_start (MkSender true []) (MkSender true []) in
  let w1 := (up_receive (Some (MSubmitSharesExtended toy_two_shares.1)) w).2 in
  let w2 := (up_receive (Some (MSubmitSharesExtended toy_two_shares.2)) w1).2 in
  (down_receive (Some (ExtShareOk (7 * 2 ^ 32 + 3))) w2).1 =
    DownSend (ClientSuccess (MkSubmitSuccess 5 2 1 1)).
Proof.
  intros w w1 w2.
  pose proof (second_share_stops_relay w toy_two_shares.1 toy_two_shares.2 (7 * 2 ^ 32 + 3)
    eq_refl eq_refl eq_refl) as H.
  cbv zeta in H. fold w1 w2 in H. destruct (down_receive _ w2) as [stage3 w3]. apply H.
Defined.
