(* ===== verification/Monitor.v ===== *)
(** * Worker summaries

    [monitor/mod.rs] and [monitor/worker_summary.rs]: the dispatcher that counts the sessions
    and the shares of every worker and sends summaries to the dashboard.  Instants are
    nanoseconds; the identifier of the proxy is drawn once and is an input. *)

From stdpp Require Import sorting.
From S2P Require Import Prelude Str Bitcoin F32 Sv1 ShareLimits Effects Downstream.

(** ** Data *)
Record WorkerSummaryKey := MkWorkerSummaryKey { wk_token : str; wk_worker_name : str }.
#[export] Instance worker_summary_key_eq_dec : EqDecision WorkerSummaryKey.
Proof. solve_decision. Defined.
#[export] Instance worker_summary_key_countable : Countable WorkerSummaryKey :=
  inj_countable' (λ k, (wk_token k, wk_worker_name k)) (λ p, MkWorkerSummaryKey p.1 p.2)
    ltac:(by intros []).

Record ValidShareSample := MkValidShareSample { vs_difficulty : f64; vs_recorded_at : N }.
Record WorkerSummaryAccumulator := MkAccumulator {
  wa_active_session_count : N;
  wa_total_valid_shares : N;
  wa_total_invalid_shares : N;
  wa_disconnected_at : option N;
  wa_zero_hashrate_since : option N;
  wa_valid_shares_window : list ValidShareSample
}.
Definition accumulator_default : WorkerSummaryAccumulator := MkAccumulator 0 0 0 None None [].
Record WorkerSummaryDispatcherState := MkDispatcher {
  ds_started : bool;
  ds_session_keys : gmap N WorkerSummaryKey;
  ds_workers : gmap WorkerSummaryKey WorkerSummaryAccumulator
}.
Definition dispatcher_default : WorkerSummaryDispatcherState := MkDispatcher false ∅ ∅.
Definition set_ds_started v s := MkDispatcher v (ds_session_keys s) (ds_workers s).
Definition set_ds_session_keys v s := MkDispatcher (ds_started s) v (ds_workers s).
Definition set_ds_workers v s := MkDispatcher (ds_started s) (ds_session_keys s) v.

Record WorkerSummary := MkWorkerSummary {
  ws_worker_name : str;
  ws_proxy_id : Z;
  ws_hashrate : f64;
  ws_valid_shares : N;
  ws_invalid_shares : N
}.

Definition WORKER_HASHRATE_WINDOW : N := 300000000000.
Definition ZERO_HASHRATE_CONNECTED_TIMEOUT : N := 600000000000.
Definition WORKER_SUMMARY_RETENTION : N := 300000000000.
Definition WORKER_SUMMARIES_PER_REQUEST : nat := 256.

(** ** [WorkerSummaryAccumulator] *)
Definition is_connected (w : WorkerSummaryAccumulator) : bool :=
  (0 <? wa_active_session_count w)%N.
Definition mark_connected (now : N) (w : WorkerSummaryAccumulator) : WorkerSummaryAccumulator :=
  MkAccumulator (saturating_add usize_max (wa_active_session_count w) 1)
    (wa_total_valid_shares w) (wa_total_invalid_shares w) None
    (match wa_valid_shares_window w, wa_zero_hashrate_since w with
     | [], None => Some now
     | _, since => since
     end)
    (wa_valid_shares_window w).
Definition mark_disconnected (now : N) (w : WorkerSummaryAccumulator)
    : WorkerSummaryAccumulator :=
  let active_session_count := (wa_active_session_count w - 1)%N in
  if (active_session_count =? 0)%N
  then MkAccumulator active_session_count (wa_total_valid_shares w) (wa_total_invalid_shares w)
         (Some now) None (wa_valid_shares_window w)
  else MkAccumulator active_session_count (wa_total_valid_shares w) (wa_total_invalid_shares w)
         (wa_disconnected_at w) (wa_zero_hashrate_since w) (wa_valid_shares_window w).

(** The loop of [prune_valid_shares]. *)
Fixpoint prune_loop (now : N) (zero_hashrate_started_at : option N)
    (window : list ValidShareSample) : option N * list ValidShareSample :=
  match window with
  | [] => (zero_hashrate_started_at, [])
  | front :: rest =>
      if (now - vs_recorded_at front <=? WORKER_HASHRATE_WINDOW)%N
      then (zero_hashrate_started_at, window)
      else prune_loop now (Some (vs_recorded_at front + WORKER_HASHRATE_WINDOW)%N) rest
  end.
Definition prune_valid_shares (now : N) (w : WorkerSummaryAccumulator)
    : WorkerSummaryAccumulator :=
  let '(zero_hashrate_started_at, window) := prune_loop now None (wa_valid_shares_window w) in
  MkAccumulator (wa_active_session_count w) (wa_total_valid_shares w)
    (wa_total_invalid_shares w) (wa_disconnected_at w)
    (match window, zero_hashrate_started_at with
     | [], Some started_at => Some started_at
     | [], None => wa_zero_hashrate_since w
     | _, _ => None
     end)
    window.
Definition counts_for_hashrate (difficulty : f32) : bool :=
  is_finite difficulty && f32_ltb (f32_of_N 0) difficulty.
Definition record_valid_share (now : N) (difficulty : f32) (w : WorkerSummaryAccumulator)
    : WorkerSummaryAccumulator :=
  let w := MkAccumulator (wa_active_session_count w)
    (saturating_add u64_max (wa_total_valid_shares w) 1) (wa_total_invalid_shares w)
    (wa_disconnected_at w) (wa_zero_hashrate_since w) (wa_valid_shares_window w) in
  let w := prune_valid_shares now w in
  if counts_for_hashrate difficulty
  then MkAccumulator (wa_active_session_count w) (wa_total_valid_shares w)
         (wa_total_invalid_shares w) (wa_disconnected_at w) None
         (wa_valid_shares_window w ++ [MkValidShareSample (f64_of_f32 difficulty) now])
  else w.
Definition record_invalid_share (w : WorkerSummaryAccumulator) : WorkerSummaryAccumulator :=
  MkAccumulator (wa_active_session_count w) (wa_total_valid_shares w)
    (saturating_add u64_max (wa_total_invalid_shares w) 1) (wa_disconnected_at w)
    (wa_zero_hashrate_since w) (wa_valid_shares_window w).
(** The sum of the empty window is a zero, whose sign is left open. *)
Definition hashrate (w : WorkerSummaryAccumulator) : f64 :=
  let total_difficulty :=
    fold_left f64_add (map vs_difficulty (wa_valid_shares_window w)) (f64_of_N 0) in
  f64_div (f64_mul total_difficulty (f64_pow2 32)) (f64_of_N 300).
Definition should_evict (now : N) (w : WorkerSummaryAccumulator) : bool :=
  negb (is_connected w) &&
  match wa_disconnected_at w with
  | Some at_ => (WORKER_SUMMARY_RETENTION <=? now - at_)%N
  | None => false
  end.
Definition should_force_disconnect_zero_hashrate (now : N) (w : WorkerSummaryAccumulator)
    : bool :=
  is_connected w && bool_decide (wa_valid_shares_window w = []) &&
  match wa_zero_hashrate_since w with
  | Some at_ => (ZERO_HASHRATE_CONNECTED_TIMEOUT <=? now - at_)%N
  | None => false
  end.
Definition force_disconnected (now : N) (w : WorkerSummaryAccumulator)
    : WorkerSummaryAccumulator :=
  MkAccumulator 0 (wa_total_valid_shares w) (wa_total_invalid_shares w) (Some now) None
    (wa_valid_shares_window w).

(** ** [WorkerSummaryDispatcherState] *)

(** [self.workers.entry(key).or_default()] and a change of the entry. *)
Definition entry_or_default (f : WorkerSummaryAccumulator → WorkerSummaryAccumulator)
    (key : WorkerSummaryKey) (s : WorkerSummaryDispatcherState) : WorkerSummaryDispatcherState :=
  set_ds_workers
    (<[key := f (default accumulator_default (ds_workers s !! key))]> (ds_workers s)) s.
Definition mark_worker_disconnected (key : WorkerSummaryKey) (now : N)
    (s : WorkerSummaryDispatcherState) : WorkerSummaryDispatcherState :=
  set_ds_workers (alter (mark_disconnected now) key (ds_workers s)) s.

Definition worker_connected (connection_id : N) (key : WorkerSummaryKey) (now : N)
    (s : WorkerSummaryDispatcherState) : WorkerSummaryDispatcherState :=
  let existing := ds_session_keys s !! connection_id in
  let s := set_ds_session_keys (<[connection_id := key]> (ds_session_keys s)) s in
  match existing with
  | Some existing_key =>
      if bool_decide (existing_key = key) then s
      else entry_or_default (mark_connected now) key (mark_worker_disconnected existing_key now s)
  | None => entry_or_default (mark_connected now) key s
  end.
Definition worker_disconnected (connection_id now : N) (s : WorkerSummaryDispatcherState)
    : WorkerSummaryDispatcherState :=
  match ds_session_keys s !! connection_id with
  | None => s
  | Some key =>
      mark_worker_disconnected key now
        (set_ds_session_keys (delete connection_id (ds_session_keys s)) s)
  end.

Definition connected_key_for_share (connection_id : N) (worker_name token : str) (now : N)
    (s : WorkerSummaryDispatcherState) : WorkerSummaryKey * WorkerSummaryDispatcherState :=
  let key := MkWorkerSummaryKey token worker_name in
  let connect s :=
    entry_or_default (mark_connected now) key
      (set_ds_session_keys (<[connection_id := key]> (ds_session_keys s)) s) in
  match ds_session_keys s !! connection_id with
  | Some existing_key =>
      if bool_decide (wk_token existing_key = wk_token key) then (existing_key, s)
      else (key, connect (mark_worker_disconnected existing_key now s))
  | None => (key, connect s)
  end.
Definition record_share (connection_id : N) (worker_name token : str) (difficulty : option f32)
    (now : N) (s : WorkerSummaryDispatcherState) : WorkerSummaryDispatcherState :=
  let '(key, s) := connected_key_for_share connection_id worker_name token now s in
  entry_or_default
    (match difficulty with
     | Some difficulty => record_valid_share now difficulty
     | None => record_invalid_share
     end) key s.

(** *** Snapshots *)
Definition retain_workers (now : N) (workers : gmap WorkerSummaryKey WorkerSummaryAccumulator)
    : gmap WorkerSummaryKey WorkerSummaryAccumulator :=
  omap (λ worker,
    let worker := prune_valid_shares now worker in
    if should_evict now worker then None else Some worker) workers.
Definition expire_stale_zero_hashrate_sessions (now : N) (s : WorkerSummaryDispatcherState)
    : WorkerSummaryDispatcherState :=
  let expired := filter (λ p, should_force_disconnect_zero_hashrate now p.2 = true)
                   (map_to_list (ds_workers s)) in
  let workers := (λ worker,
    if should_force_disconnect_zero_hashrate now worker then force_disconnected now worker
    else worker) <$> ds_workers s in
  MkDispatcher (ds_started s)
    (filter (λ p, p.2 ∉ expired.*1) (ds_session_keys s)) workers.

Definition summary_of (proxy_id : Z) (p : WorkerSummaryKey * WorkerSummaryAccumulator)
    : WorkerSummary :=
  MkWorkerSummary (wk_worker_name p.1) proxy_id (hashrate p.2) (wa_total_valid_shares p.2)
    (wa_total_invalid_shares p.2).

(** [str::cmp] compares bytes, which is comparing characters. *)
Fixpoint str_leb (a b : str) : bool :=
  match a, b with
  | [], _ => true
  | _ :: _, [] => false
  | x :: a, y :: b => if (x =? y)%N then str_leb a b else (x <? y)%N
  end.
Definition name_le (a b : WorkerSummary) : Prop :=
  str_leb (ws_worker_name a) (ws_worker_name b) = true.
#[export] Instance name_le_dec : RelDecision name_le := λ a b, decide (_ = true).

(** The entries in the order in which the map is iterated, grouped by token and sorted. *)
Definition push_summary (token : str) (summary : WorkerSummary)
    (summaries_by_token : gmap str (list WorkerSummary)) : gmap str (list WorkerSummary) :=
  <[token := default [] (summaries_by_token !! token) ++ [summary]]> summaries_by_token.
Definition summarize (proxy_id : Z) (entries : list (WorkerSummaryKey * WorkerSummaryAccumulator))
    : gmap str (list WorkerSummary) :=
  merge_sort name_le <$>
    fold_left (λ summaries_by_token p,
      if is_connected p.2 then push_summary (wk_token p.1) (summary_of proxy_id p) summaries_by_token
      else summaries_by_token) entries ∅.
Definition snapshot_connected_worker_summaries (proxy_id : Z) (now : N)
    (s : WorkerSummaryDispatcherState)
    : gmap str (list WorkerSummary) * WorkerSummaryDispatcherState :=
  let s := set_ds_workers (retain_workers now (ds_workers s)) s in
  let s := expire_stale_zero_hashrate_sessions now s in
  (summarize proxy_id (map_to_list (ds_workers s)), s).

(** ** [MonitorAPI] *)

(** [ensure_worker_summary_dispatcher]: whether a call goes on, and whether the task is
    spawned; without a runtime nothing happens. *)
Definition ensure_worker_summary_dispatcher (runtime : bool)
    (dispatcher : Mutex WorkerSummaryDispatcherState)
    : bool * bool * Mutex WorkerSummaryDispatcherState :=
  if negb runtime then (false, false, dispatcher)
  else match lock dispatcher with
  | None => (false, false, dispatcher)
  | Some state =>
      if ds_started state then (true, false, dispatcher)
      else (true, true, store dispatcher (set_ds_started true state))
  end.
(** The calls of the miners' tasks. *)
Inductive MonitorCall :=
| CallEvent (event : MonitorEvent)
| CallDisconnected (connection_id : N).
Definition monitor_change (call : MonitorCall) (now : N)
    : WorkerSummaryDispatcherState → WorkerSummaryDispatcherState :=
  match call with
  | CallEvent (WorkerConnected connection_id worker_name token) =>
      worker_connected connection_id (MkWorkerSummaryKey token worker_name) now
  | CallEvent (RecordShare connection_id worker_name token difficulty) =>
      record_share connection_id worker_name token difficulty now
  | CallDisconnected connection_id => worker_disconnected connection_id now
  end.
Definition monitor_call (runtime : bool) (call : MonitorCall) (now : N)
    (dispatcher : Mutex WorkerSummaryDispatcherState)
    : bool * Mutex WorkerSummaryDispatcherState :=
  let '(goes_on, spawns, dispatcher) := ensure_worker_summary_dispatcher runtime dispatcher in
  if negb goes_on then (spawns, dispatcher)
  else match lock dispatcher with
  | None => (spawns, dispatcher)
  | Some state => (spawns, store dispatcher (monitor_change call now state))
  end.

(** A turn of the dispatcher's task: the requests it makes; [None] when it ends. *)
Fixpoint chunks {A} (fuel n : nat) (l : list A) : list (list A) :=
  match fuel, l with
  | S fuel, _ :: _ => take n l :: chunks fuel n (drop n l)
  | _, _ => []
  end.
Definition requests (summaries_by_token : gmap str (list WorkerSummary))
    : list (str * list WorkerSummary) :=
  concat (map (λ p, map (pair p.1) (chunks (length p.2) WORKER_SUMMARIES_PER_REQUEST p.2))
    (map_to_list summaries_by_token)).
Definition dispatch_turn (proxy_id : Z) (now : N)
    (dispatcher : Mutex WorkerSummaryDispatcherState)
    : option (list (str * list WorkerSummary)) * Mutex WorkerSummaryDispatcherState :=
  match lock dispatcher with
  | None => (None, dispatcher)
  | Some state =>
      let '(summaries_by_token, state) :=
        snapshot_connected_worker_summaries proxy_id now state in
      (Some (requests summaries_by_token), store dispatcher state)
  end.
