(* ===== verification/MonitorProps.v ===== *)
(** * What the worker summaries promise

    Sessions are counted exactly, the window of a worker holds the shares of the last five
    minutes, workers that left or fell silent go, and a snapshot does not depend on the order
    in which the map is iterated. *)

From stdpp Require Import sorting.
From S2P Require Import Prelude Str Bitcoin F32 Sv1 ShareLimits Effects Downstream Monitor.

(** ** Counting sessions *)
Definition sessions_of (key : WorkerSummaryKey) (m : gmap N WorkerSummaryKey) : nat :=
  size (filter (λ p, p.2 = key) m).

Lemma sessions_insert key id k m :
  m !! id = None →
  sessions_of key (<[id := k]> m) = sessions_of key m + (if bool_decide (k = key) then 1 else 0).
Proof.
  intros H. unfold sessions_of. case_bool_decide as Hk.
  - rewrite map_filter_insert_True by done. rewrite map_size_insert_None; [lia|].
    apply map_lookup_filter_None_2. by left.
  - rewrite map_filter_insert_False by done. rewrite delete_id by done. lia.
Qed.
Lemma sessions_delete key id k m :
  m !! id = Some k →
  sessions_of key m = sessions_of key (delete id m) + (if bool_decide (k = key) then 1 else 0).
Proof.
  intros H. rewrite <- (sessions_insert key id k) by apply lookup_delete_eq.
  by rewrite insert_delete_id.
Qed.
Lemma sessions_move key id k k' m :
  m !! id = Some k →
  sessions_of key (<[id := k']> m) + (if bool_decide (k = key) then 1 else 0) =
    sessions_of key m + (if bool_decide (k' = key) then 1 else 0).
Proof.
  intros H. rewrite <- insert_delete_eq, sessions_insert by apply lookup_delete_eq.
  rewrite (sessions_delete key id k m H). lia.
Qed.
Lemma sessions_elem key id m : m !! id = Some key → 0 < sessions_of key m.
Proof. intros H. rewrite (sessions_delete key id key m H), bool_decide_eq_true_2 by done. lia. Qed.

(** Connection identifiers have 32 bits. *)
Lemma size_bounded {A} (m : gmap N A) (n : N) :
  (∀ k, is_Some (m !! k) → (k < n)%N) → (N.of_nat (size m) <= n)%N.
Proof.
  intros H. rewrite <- length_map_to_list, <- (length_map fst).
  assert (length (map fst (map_to_list m)) <= N.to_nat n) as Hle; [|lia].
  rewrite <- (length_map N.to_nat), <- (length_seq (N.to_nat n) 0). apply submseteq_length, NoDup_submseteq.
  - apply NoDup_fmap; [apply _|]. apply NoDup_fst_map_to_list.
  - intros i (k & -> & Hk)%list_elem_of_fmap. apply list_elem_of_fmap in Hk as ([k' a] & -> & Hk).
    apply elem_of_map_to_list in Hk. apply elem_of_seq. pose proof (H k' ltac:(by eexists)). cbn. lia.
Qed.
Lemma sessions_bounded key (m : gmap N WorkerSummaryKey) :
  (∀ k, is_Some (m !! k) → (k <= u32_max)%N) → (N.of_nat (sessions_of key m) <= u32_max + 1)%N.
Proof.
  intros H. apply size_bounded. intros k [v Hv]. apply map_lookup_filter_Some in Hv as [Hv _].
  pose proof (H k ltac:(by eexists)). lia.
Qed.

(** ** Samples and the window *)
Implicit Types (w : WorkerSummaryAccumulator) (l : list ValidShareSample).
Definition recent (now : N) (s : ValidShareSample) : Prop :=
  (now - vs_recorded_at s <= WORKER_HASHRATE_WINDOW)%N.
Definition expired (now : N) (s : ValidShareSample) : Prop :=
  (vs_recorded_at s + WORKER_HASHRATE_WINDOW <= now)%N.
Definition in_order : list ValidShareSample → Prop :=
  StronglySorted (λ a b, (vs_recorded_at a <= vs_recorded_at b)%N).

Lemma expired_later now now' l : (now <= now')%N → Forall (expired now) l → Forall (expired now') l.
Proof. intros H Hl. eapply Forall_impl; [exact Hl|]. unfold expired. intros s Hs. lia. Qed.

(** The loop drops exactly the samples that left the window. *)
Lemma prune_loop_spec now since l :
  in_order l →
  ∃ dropped, l = dropped ++ (prune_loop now since l).2 ∧
    Forall (expired now) dropped ∧ Forall (recent now) (prune_loop now since l).2 ∧
    ((prune_loop now since l).1 = None → since = None ∧ dropped = []).
Proof.
  intros Hl. revert since. induction Hl as [|x l Hl IH Hx]; intros since; cbn [prune_loop].
  { exists []. cbn. split_and!; done. }
  destruct (N.leb_spec (now - vs_recorded_at x) WORKER_HASHRATE_WINDOW) as [Hr|Hr].
  - exists []. cbn [fst snd]. split_and!; try done. constructor; [exact Hr|].
    eapply Forall_impl; [exact Hx|]. intros y Hy. unfold recent. cbn in Hy. lia.
  - destruct (IH (Some (vs_recorded_at x + WORKER_HASHRATE_WINDOW)%N)) as (d & E & Hd & Hk & Hs).
    exists (x :: d). split_and!; [by rewrite E at 1| |done|].
    + constructor; [|done]. unfold expired. lia.
    + intros Hn. by destruct (Hs Hn).
Qed.
Lemma prune_window now w : wa_valid_shares_window (prune_valid_shares now w) =
  (prune_loop now None (wa_valid_shares_window w)).2.
Proof. unfold prune_valid_shares. by destruct (prune_loop _ _ _). Qed.
Lemma prune_spec now w :
  in_order (wa_valid_shares_window w) →
  ∃ dropped, wa_valid_shares_window w = dropped ++ wa_valid_shares_window (prune_valid_shares now w) ∧
    Forall (expired now) dropped ∧ Forall (recent now) (wa_valid_shares_window (prune_valid_shares now w)).
Proof.
  intros H. rewrite prune_window. destruct (prune_loop_spec now None _ H) as (d & ? & ? & ? & _). eauto.
Qed.
Lemma prune_same now w :
  wa_active_session_count (prune_valid_shares now w) = wa_active_session_count w ∧
  wa_disconnected_at (prune_valid_shares now w) = wa_disconnected_at w ∧
  is_connected (prune_valid_shares now w) = is_connected w.
Proof. unfold prune_valid_shares, is_connected. by destruct (prune_loop _ _ _). Qed.

(** A worker's entry: a connected one is not marked as disconnected, and when its window is
    empty it is known since when; any other one left after its last sample. *)
Definition zero_known w : Prop := wa_valid_shares_window w = [] → wa_zero_hashrate_since w ≠ None.
Definition entry_ok (now : N) (samples : list ValidShareSample) w : Prop :=
  if is_connected w then wa_disconnected_at w = None ∧ zero_known w
  else ∃ at_, wa_disconnected_at w = Some at_ ∧ (at_ <= now)%N ∧
         Forall (λ s, (vs_recorded_at s <= at_)%N) samples.

Lemma prune_zero_known now w :
  in_order (wa_valid_shares_window w) → zero_known w → zero_known (prune_valid_shares now w).
Proof.
  intros Ho Hz. unfold zero_known, prune_valid_shares in *.
  pose proof (prune_loop_spec now None _ Ho) as (d & E & _ & _ & Hs).
  destruct (prune_loop _ _ _) as [[at_|] [|s l]]; cbn in *; try done.
  intros _. apply Hz. destruct (Hs eq_refl) as [_ ->]. done.
Qed.
(** ** What holds for one worker

    [n] sessions, the samples so far, and the entry. *)
Record key_ok (now : N) (n : nat) (samples : list ValidShareSample)
    (entry : option WorkerSummaryAccumulator) : Prop := {
  ko_sessions : wa_active_session_count (default accumulator_default entry) = N.of_nat n;
  ko_entry : ∀ w, entry = Some w → entry_ok now samples w;
  ko_window : ∃ dropped,
    samples = dropped ++ wa_valid_shares_window (default accumulator_default entry) ∧
    Forall (expired now) dropped;
  ko_order : in_order samples;
  ko_past : Forall (λ s, (vs_recorded_at s <= now)%N) samples
}.

Lemma in_order_window now n samples entry :
  key_ok now n samples entry →
  in_order (wa_valid_shares_window (default accumulator_default entry)).
Proof.
  intros [_ _ (d & E & _) Ho _]. unfold in_order in *. rewrite E in Ho.
  by apply StronglySorted_app_1_r in Ho.
Qed.
Lemma connected_iff now n samples entry :
  key_ok now n samples entry → is_connected (default accumulator_default entry) = (0 <? n).
Proof.
  intros H. unfold is_connected. rewrite (ko_sessions _ _ _ _ H).
  destruct (Nat.ltb_spec 0 n), (N.ltb_spec 0 (N.of_nat n)); lia.
Qed.

Lemma key_ok_later now now' n samples entry :
  (now <= now')%N → key_ok now n samples entry → key_ok now' n samples entry.
Proof.
  intros H [Hs He (d & E & Hd) Ho Hp]. split; [done| | |done|].
  - intros w ->. specialize (He w eq_refl). unfold entry_ok in *. destruct (is_connected w); [done|].
    destruct He as (at_ & ? & ? & ?). exists at_. split_and!; [done|lia|done].
  - exists d. split; [done|]. by eapply expired_later.
  - eapply Forall_impl; [exact Hp|]. intros s Hle. cbn in *. lia.
Qed.

Lemma key_ok_connected now n samples entry :
  (N.of_nat n < usize_max)%N → key_ok now n samples entry →
  key_ok now (S n) samples (Some (mark_connected now (default accumulator_default entry))).
Proof.
  intros Hn [Hs He Hw Ho Hp]. set (w := default accumulator_default entry) in *.
  split; [|..|done|done]; cbn.
  - rewrite Hs. unfold saturating_add. lia.
  - intros w' [= <-]. unfold entry_ok, is_connected. cbn. rewrite Hs. unfold saturating_add.
    destruct (N.ltb_spec 0 (N.min usize_max (N.of_nat n + 1))); [|lia]. split; [done|].
    unfold zero_known. cbn. intros ->. by destruct (wa_zero_hashrate_since w).
  - exact Hw.
Qed.

Lemma key_ok_disconnected now n samples entry :
  key_ok now (S n) samples entry →
  key_ok now n samples (mark_disconnected now <$> entry).
Proof.
  intros Hok. pose proof (connected_iff _ _ _ _ Hok) as Hc. destruct Hok as [Hs He Hw Ho Hp].
  destruct entry as [w|]; [|cbn in Hs; lia]. cbn [default from_option id] in *.
  specialize (He w eq_refl). unfold entry_ok in He. cbn in Hc. rewrite Hc in He. destruct He as [Hd Hz].
  assert (wa_active_session_count w - 1 = N.of_nat n)%N as En by (rewrite Hs; lia).
  unfold mark_disconnected. cbn [fmap option_fmap option_map default from_option id]. rewrite En.
  destruct (N.eqb_spec (N.of_nat n) 0) as [H0|H0]; (split; [done| |exact Hw|done|done]); cbn;
    intros w' [= <-]; unfold entry_ok, is_connected; cbn.
  - rewrite H0. cbn. exists now. split_and!; [done|lia|done].
  - destruct (N.ltb_spec 0 (N.of_nat n)); [done|lia].
Qed.

Lemma key_ok_invalid now n samples entry :
  0 < n → key_ok now n samples entry →
  key_ok now n samples (Some (record_invalid_share (default accumulator_default entry))).
Proof.
  intros Hn Hok. pose proof (connected_iff _ _ _ _ Hok) as Hc. destruct Hok as [Hs He Hw Ho Hp].
  split; [done| |exact Hw|done|done]. intros w' [= <-].
  destruct entry as [w|]; [|cbn in Hs; lia]. specialize (He w eq_refl). cbn in *. unfold entry_ok in *.
  change (is_connected (record_invalid_share w)) with (is_connected w).
  destruct (is_connected w); [done|]. destruct (Nat.ltb_spec 0 n); [done|lia].
Qed.

(** A valid share, with the sample it adds. *)
Definition sampled (now : N) (difficulty : f32) : list ValidShareSample :=
  if counts_for_hashrate difficulty then [MkValidShareSample (f64_of_f32 difficulty) now] else [].
Lemma key_ok_valid now n samples difficulty w :
  0 < n → key_ok now n samples (Some w) →
  key_ok now n (samples ++ sampled now difficulty) (Some (record_valid_share now difficulty w)).
Proof.
  intros Hn Hok. pose proof (connected_iff _ _ _ _ Hok) as Hc. pose proof (in_order_window _ _ _ _ Hok) as Hio.
  destruct Hok as [Hs He (d & E & Hd) Ho Hp]. cbn [default from_option id] in *.
  assert (is_connected w = true) as Hcw by (rewrite Hc; by apply Nat.ltb_lt).
  specialize (He w eq_refl). unfold entry_ok in He. rewrite Hcw in He. destruct He as [Hda Hz].
  unfold record_valid_share. set (w1 := MkAccumulator _ (saturating_add _ _ _) _ _ _ _).
  destruct (prune_same now w1) as (Ea & Ed & Ec). destruct (prune_spec now w1 Hio) as (d2 & E2 & Hd2 & _).
  assert (zero_known (prune_valid_shares now w1)) as Hz1 by (by apply prune_zero_known).
  assert (is_connected w1 = true) as Hc1 by exact Hcw.
  unfold sampled. destruct (counts_for_hashrate difficulty); split; cbn [default from_option id wa_active_session_count wa_valid_shares_window].
  - by rewrite Ea.
  - intros w' [= <-]. unfold entry_ok, is_connected. cbn [wa_active_session_count wa_disconnected_at].
    rewrite Ea, Ed. change (0 <? _)%N with (is_connected w1). rewrite Hc1. split; [done|].
    unfold zero_known. cbn. intros [_ [=]]%app_eq_nil.
  - exists (d ++ d2). split; [|by apply Forall_app]. rewrite E. cbn [w1 wa_valid_shares_window] in E2. rewrite E2 at 1.
    by rewrite <- !app_assoc.
  - apply StronglySorted_app_2; [|done|repeat constructor]. intros x y Hx ->%list_elem_of_singleton.
    rewrite Forall_forall in Hp. apply Hp. exact Hx.
  - apply Forall_app. split; [done|]. constructor; [|done]. cbn. lia.
  - by rewrite Ea.
  - intros w' [= <-]. unfold entry_ok. rewrite Ec, Hc1, Ed. done.
  - exists (d ++ d2). rewrite app_nil_r. split; [|by apply Forall_app]. rewrite E. cbn [w1 wa_valid_shares_window] in E2. rewrite E2 at 1.
    by rewrite <- !app_assoc.
  - by rewrite app_nil_r.
  - by rewrite app_nil_r.
Qed.

(** *** A snapshot *)
Definition retained (now : N) w : option WorkerSummaryAccumulator :=
  let w := prune_valid_shares now w in if should_evict now w then None else Some w.
Lemma key_ok_retained now n samples entry :
  key_ok now n samples entry → key_ok now n samples (entry ≫= retained now).
Proof.
  intros Hok. destruct entry as [w|]; [|done]. pose proof (connected_iff _ _ _ _ Hok) as Hc.
  pose proof (in_order_window _ _ _ _ Hok) as Hio. destruct Hok as [Hs He (d & E & Hd) Ho Hp].
  specialize (He w eq_refl). cbn [default from_option id] in *.
  destruct (prune_same now w) as (Ea & Ed & Ec). destruct (prune_spec now w Hio) as (d2 & E2 & Hd2 & _).
  cbn. unfold retained, should_evict. rewrite Ec, Ed. unfold entry_ok in He.
  destruct (is_connected w) eqn:Hcw; cbn [negb andb].
  - destruct He as [Hda Hz]. split; cbn [default from_option id]; [by rewrite Ea| |exists (d ++ d2)|done|done].
    + intros w' [= <-]. unfold entry_ok. rewrite Ec, Ed. split; [done|]. by apply prune_zero_known.
    + rewrite E at 1. rewrite E2 at 1. rewrite <- app_assoc. split; [done|]. by apply Forall_app.
  - destruct He as (at_ & Hat & Hle & Hall). rewrite Hat. destruct (Nat.ltb_spec 0 n); [done|].
    assert (n = 0) as -> by lia.
    destruct (N.leb_spec WORKER_SUMMARY_RETENTION (now - at_)) as [Hev|Hev].
    + split; cbn [default from_option id]; [done|done| |done|done]. exists samples. rewrite app_nil_r. split; [done|].
      eapply Forall_impl; [exact Hall|]. intros s Hs'. unfold expired. cbn in Hs'.
      unfold WORKER_SUMMARY_RETENTION in Hev. unfold WORKER_HASHRATE_WINDOW. lia.
    + split; cbn [default from_option id]; [by rewrite Ea| |exists (d ++ d2)|done|done].
      * intros w' [= <-]. unfold entry_ok. rewrite Ec, Ed. eauto.
      * rewrite E at 1. rewrite E2 at 1. rewrite <- app_assoc. split; [done|]. by apply Forall_app.
Qed.
Definition aged (now : N) w : WorkerSummaryAccumulator :=
  if should_force_disconnect_zero_hashrate now w then force_disconnected now w else w.
Definition falls_silent (now : N) (entry : option WorkerSummaryAccumulator) : bool :=
  match entry with Some w => should_force_disconnect_zero_hashrate now w | None => false end.
Lemma key_ok_aged now n samples entry :
  key_ok now n samples entry →
  key_ok now (if falls_silent now entry then 0 else n) samples (aged now <$> entry).
Proof.
  intros Hok. destruct entry as [w|]; [|done]. cbn. unfold aged.
  destruct (should_force_disconnect_zero_hashrate now w); [|done].
  destruct Hok as [Hs He Hw Ho Hp]. split; [done| |exact Hw|done|done].
  intros w' [= <-]. unfold entry_ok, is_connected. cbn. exists now. split_and!; [done|lia|done].
Qed.
(** ** Every run of the dispatcher

    [mr_samples] records the shares that count, under the worker they were counted for. *)
Record MonitorRun := MkMonitorRun {
  mr_state : WorkerSummaryDispatcherState;
  mr_now : N;
  mr_samples : list (WorkerSummaryKey * ValidShareSample)
}.
Definition call_id (call : MonitorCall) : N :=
  match call with
  | CallEvent (WorkerConnected id _ _) | CallEvent (RecordShare id _ _ _) | CallDisconnected id => id
  end.
Definition counted (call : MonitorCall) (now : N) (s : WorkerSummaryDispatcherState)
    : list (WorkerSummaryKey * ValidShareSample) :=
  match call with
  | CallEvent (RecordShare id name token (Some d)) =>
      map (pair (connected_key_for_share id name token now s).1) (sampled now d)
  | _ => []
  end.
Definition snapshot_state (now : N) (s : WorkerSummaryDispatcherState) :=
  (snapshot_connected_worker_summaries 0 now s).2.

Inductive monitor_step : MonitorRun → MonitorRun → Prop :=
| ms_call s t samples call now :
    (t <= now)%N → (call_id call <= u32_max)%N →
    monitor_step (MkMonitorRun s t samples)
      (MkMonitorRun (monitor_change call now s) now (samples ++ counted call now s))
| ms_snapshot s t samples now :
    (t <= now)%N →
    monitor_step (MkMonitorRun s t samples) (MkMonitorRun (snapshot_state now s) now samples).
Definition monitor_reach (r : MonitorRun) : Prop :=
  rtc monitor_step (MkMonitorRun dispatcher_default 0 []) r.

Definition samples_of (key : WorkerSummaryKey) (l : list (WorkerSummaryKey * ValidShareSample))
    : list ValidShareSample := map snd (filter (λ p, p.1 = key) l).
Lemma samples_app key xs ys : samples_of key (xs ++ ys) = samples_of key xs ++ samples_of key ys.
Proof. unfold samples_of. by rewrite filter_app, map_app. Qed.
Lemma samples_pair key k l :
  samples_of key (map (pair k) l) = if bool_decide (k = key) then l else [].
Proof.
  unfold samples_of. induction l as [|x l IH]; [by case_bool_decide|]. cbn [map].
  rewrite filter_cons. cbn. case_bool_decide as H; (destruct (decide (k = key)); [|done]); try done.
  cbn. by rewrite IH.
Qed.

(** The state, for every worker. *)
Definition state_ok (now : N) (samples : list (WorkerSummaryKey * ValidShareSample))
    (s : WorkerSummaryDispatcherState) : Prop :=
  (∀ id, is_Some (ds_session_keys s !! id) → (id <= u32_max)%N) ∧
  ∀ key, key_ok now (sessions_of key (ds_session_keys s)) (samples_of key samples) (ds_workers s !! key).

Lemma state_ok_later now now' samples s :
  (now <= now')%N → state_ok now samples s → state_ok now' samples s.
Proof. intros H [Hi Hk]. split; [done|]. intros key. by eapply key_ok_later. Qed.
Lemma few_sessions now samples s key :
  state_ok now samples s → (N.of_nat (sessions_of key (ds_session_keys s)) < usize_max)%N.
Proof.
  intros [Hi _]. pose proof (sessions_bounded key _ Hi) as H.
  eapply N.le_lt_trans; [exact H|]. reflexivity.
Qed.

Lemma lookup_entry f k key s :
  ds_workers (entry_or_default f k s) !! key =
    if bool_decide (k = key) then Some (f (default accumulator_default (ds_workers s !! key)))
    else ds_workers s !! key.
Proof.
  cbn. case_bool_decide as H; [subst; apply lookup_insert_eq|by apply lookup_insert_ne].
Qed.
Lemma lookup_disconnected k now key s :
  ds_workers (mark_worker_disconnected k now s) !! key =
    if bool_decide (k = key) then mark_disconnected now <$> (ds_workers s !! key)
    else ds_workers s !! key.
Proof.
  cbn. case_bool_decide as H; [subst; apply lookup_alter_eq|by apply lookup_alter_ne].
Qed.

(** A new session. *)
Lemma state_ok_connect now samples s id key :
  (id <= u32_max)%N → ds_session_keys s !! id = None → state_ok now samples s →
  state_ok now samples (entry_or_default (mark_connected now) key
    (set_ds_session_keys (<[id := key]> (ds_session_keys s)) s)).
Proof.
  intros Hid Hnone Hok. destruct Hok as [Hi Hk] eqn:E. split.
  - intros i. cbn. destruct (decide (i = id)) as [->|Hne]; [done|]. rewrite lookup_insert_ne by done. apply Hi.
  - intros k. rewrite lookup_entry. cbn [entry_or_default set_ds_workers set_ds_session_keys ds_session_keys ds_workers].
    rewrite sessions_insert by done. case_bool_decide as H; [subst key|by rewrite Nat.add_0_r].
    rewrite Nat.add_1_r. apply key_ok_connected; [by eapply few_sessions|apply Hk].
Qed.
(** The end of a session. *)
Lemma state_ok_disconnect now samples s id key :
  ds_session_keys s !! id = Some key → state_ok now samples s →
  state_ok now samples (mark_worker_disconnected key now
    (set_ds_session_keys (delete id (ds_session_keys s)) s)).
Proof.
  intros Hs [Hi Hk]. split.
  - intros i. cbn. destruct (decide (i = id)) as [->|Hne]; [by rewrite lookup_delete_eq; intros []|].
    rewrite lookup_delete_ne by done. apply Hi.
  - intros k. rewrite lookup_disconnected. cbn [mark_worker_disconnected set_ds_workers set_ds_session_keys ds_session_keys ds_workers].
    specialize (Hk k). rewrite (sessions_delete k id key _ Hs) in Hk.
    case_bool_decide as H; [|by rewrite Nat.add_0_r in Hk].
    rewrite Nat.add_1_r in Hk. by apply key_ok_disconnected.
Qed.
(** A session that moves to another worker is an end and a beginning. *)
Lemma move_session s id key key' now :
  ds_session_keys s !! id = Some key →
  entry_or_default (mark_connected now) key' (mark_worker_disconnected key now
    (set_ds_session_keys (<[id := key']> (ds_session_keys s)) s)) =
  let s1 := mark_worker_disconnected key now (set_ds_session_keys (delete id (ds_session_keys s)) s) in
  entry_or_default (mark_connected now) key' (set_ds_session_keys (<[id := key']> (ds_session_keys s1)) s1).
Proof.
  intros H. unfold entry_or_default, mark_worker_disconnected, set_ds_workers, set_ds_session_keys. cbn.
  by rewrite insert_delete_eq.
Qed.
Lemma state_ok_move now samples s id key key' :
  ds_session_keys s !! id = Some key → state_ok now samples s →
  state_ok now samples (entry_or_default (mark_connected now) key' (mark_worker_disconnected key now
    (set_ds_session_keys (<[id := key']> (ds_session_keys s)) s))).
Proof.
  intros Hs Hok. rewrite move_session by done. apply state_ok_connect.
  - destruct Hok as [Hi _]. apply Hi. by eexists.
  - apply lookup_delete_eq.
  - by apply state_ok_disconnect.
Qed.

Lemma state_ok_connected now samples s id key :
  (id <= u32_max)%N → state_ok now samples s → state_ok now samples (worker_connected id key now s).
Proof.
  intros Hid Hok. unfold worker_connected. destruct (ds_session_keys s !! id) as [k|] eqn:E.
  - case_bool_decide as H; [|by apply state_ok_move].
    subst k. by rewrite insert_id by done.
  - by apply state_ok_connect.
Qed.
Lemma state_ok_left now samples s id :
  state_ok now samples s → state_ok now samples (worker_disconnected id now s).
Proof.
  intros Hok. unfold worker_disconnected. destruct (ds_session_keys s !! id) as [k|] eqn:E; [|done].
  by apply state_ok_disconnect.
Qed.
Lemma state_ok_share_key now samples s id name token :
  (id <= u32_max)%N → state_ok now samples s →
  let '(key, s') := connected_key_for_share id name token now s in
  state_ok now samples s' ∧ 0 < sessions_of key (ds_session_keys s').
Proof.
  intros Hid Hok. unfold connected_key_for_share. destruct (ds_session_keys s !! id) as [k|] eqn:E.
  - case_bool_decide as H; [by split; [|eapply sessions_elem]|].
    split; [exact (state_ok_move now samples s id k _ E Hok)|].
    eapply sessions_elem. cbn. apply lookup_insert_eq.
  - split; [by apply state_ok_connect|]. eapply sessions_elem. cbn. apply lookup_insert_eq.
Qed.
Lemma state_ok_share now samples s id name token difficulty :
  (id <= u32_max)%N → state_ok now samples s →
  state_ok now (samples ++ counted (CallEvent (RecordShare id name token difficulty)) now s)
    (record_share id name token difficulty now s).
Proof.
  intros Hid Hok. pose proof (state_ok_share_key now samples s id name token Hid Hok) as Hs.
  unfold record_share, counted. destruct (connected_key_for_share id name token now s) as [key s'].
  destruct Hs as [[Hi Hk] Hn]. cbn [fst]. split; [exact Hi|]. intros k. specialize (Hk k).
  rewrite lookup_entry. change (ds_session_keys (entry_or_default _ key s')) with (ds_session_keys s').
  rewrite samples_app. destruct difficulty as [d|].
  - rewrite samples_pair. case_bool_decide as H; [subst k|by rewrite app_nil_r].
    destruct (ds_workers s' !! key) as [w|] eqn:E; [by apply key_ok_valid|].
    pose proof (ko_sessions _ _ _ _ Hk) as Hz. cbn in Hz. lia.
  - cbn [samples_of map filter list_filter]. rewrite app_nil_r.
    case_bool_decide as H; [subst k|done]. by apply key_ok_invalid.
Qed.
(** *** Snapshots *)
Definition expired_keys (now : N) (workers : gmap WorkerSummaryKey WorkerSummaryAccumulator)
    : list WorkerSummaryKey :=
  (filter (λ p, should_force_disconnect_zero_hashrate now p.2 = true) (map_to_list workers)).*1.
Lemma elem_of_expired now workers key :
  key ∈ expired_keys now workers ↔ falls_silent now (workers !! key) = true.
Proof.
  unfold expired_keys, falls_silent. rewrite list_elem_of_fmap. split.
  - intros ([k w] & -> & [Hf Hw]%list_elem_of_filter). apply elem_of_map_to_list in Hw. cbn. by rewrite Hw.
  - destruct (workers !! key) as [w|] eqn:E; [|done]. intros H. exists (key, w). split; [done|].
    apply list_elem_of_filter. split; [done|]. by apply elem_of_map_to_list.
Qed.
Lemma sessions_filtered key (dropped : list WorkerSummaryKey) (m : gmap N WorkerSummaryKey) :
  sessions_of key (filter (λ p, p.2 ∉ dropped) m) =
    if decide (key ∈ dropped) then 0 else sessions_of key m.
Proof.
  unfold sessions_of. rewrite map_filter_filter. case_decide as H.
  - apply map_size_empty_iff, map_empty. intros i. apply map_lookup_filter_None_2. right.
    intros k Hk. cbn. intros [? ?]. by subst.
  - f_equal. apply map_filter_ext. intros i k Hk. cbn. split; [by intros []|]. by intros ->.
Qed.
Lemma lookup_retained now workers key :
  retain_workers now workers !! key = workers !! key ≫= retained now.
Proof. unfold retain_workers. by rewrite lookup_omap. Qed.
Lemma lookup_snapshot now s key :
  ds_workers (snapshot_state now s) !! key = aged now <$> (ds_workers s !! key ≫= retained now).
Proof.
  unfold snapshot_state, snapshot_connected_worker_summaries, expire_stale_zero_hashrate_sessions. cbn [snd ds_workers set_ds_workers].
  by rewrite lookup_fmap, lookup_retained.
Qed.
Lemma sessions_snapshot now s key :
  sessions_of key (ds_session_keys (snapshot_state now s)) =
    if falls_silent now (ds_workers s !! key ≫= retained now) then 0
    else sessions_of key (ds_session_keys s).
Proof.
  unfold snapshot_state, snapshot_connected_worker_summaries, expire_stale_zero_hashrate_sessions. cbn [snd ds_workers ds_session_keys set_ds_workers].
  change (filter _ (map_to_list _)).*1 with (expired_keys now (retain_workers now (ds_workers s))).
  rewrite sessions_filtered. case_decide as H; rewrite elem_of_expired, lookup_retained in H.
  - by rewrite H.
  - by destruct (falls_silent _ _).
Qed.
Lemma state_ok_snapshot now samples s : state_ok now samples s → state_ok now samples (snapshot_state now s).
Proof.
  intros [Hi Hk]. split.
  - intros id [k H]. unfold snapshot_state, snapshot_connected_worker_summaries, expire_stale_zero_hashrate_sessions in H.
    cbn [snd ds_session_keys set_ds_workers] in H. apply map_lookup_filter_Some in H as [H _]. apply Hi. by eexists.
  - intros key. rewrite lookup_snapshot, sessions_snapshot. apply key_ok_aged, key_ok_retained, Hk.
Qed.

Lemma state_ok_step r r' :
  monitor_step r r' → state_ok (mr_now r) (mr_samples r) (mr_state r) →
  state_ok (mr_now r') (mr_samples r') (mr_state r').
Proof.
  intros [s t samples call now Ht Hid|s t samples now Ht] Hok; cbn [mr_now mr_samples mr_state] in *.
  - apply (state_ok_later _ now) in Hok; [|done]. destruct call as [[id name token d|id name token]|id]; cbn [call_id] in Hid.
    + by apply state_ok_share.
    + cbn [counted]. rewrite app_nil_r. by apply state_ok_connected.
    + cbn [counted]. rewrite app_nil_r. by apply state_ok_left.
  - by apply state_ok_snapshot, (state_ok_later t).
Qed.
Lemma monitor_reach_ok r : monitor_reach r → state_ok (mr_now r) (mr_samples r) (mr_state r).
Proof.
  intros H. eapply (rtc_ind_r (λ r, state_ok (mr_now r) (mr_samples r) (mr_state r))); [| |exact H].
  - split; [intros id; cbn; rewrite lookup_empty; by intros []|]. intros key. cbn. rewrite lookup_empty.
    split; cbn; [|done| |constructor|constructor].
    + unfold sessions_of. rewrite map_filter_empty, map_size_empty. done.
    + by exists [].
  - intros r1 r2 _ Hstep Hok. by eapply state_ok_step.
Qed.

(** ** The theorems *)

(** C31: Sessions are counted exactly: whatever workers connect, change their names or tokens,
    send shares, leave and are expired, the number of sessions of every worker is the number
    of connections registered under it, so it never drifts and never sticks. *)
Theorem sessions_counted r key :
  monitor_reach r →
  wa_active_session_count (default accumulator_default (ds_workers (mr_state r) !! key)) =
    N.of_nat (sessions_of key (ds_session_keys (mr_state r))).
Proof. intros [_ Hk]%monitor_reach_ok. apply (ko_sessions _ _ _ _ (Hk key)). Qed.

(** C32: The hash rate of a summary is that of the last five minutes: after a snapshot, the
    window of a worker holds, in order, exactly the shares that were counted for it and were
    recorded in the last 300 seconds; all others are older. *)
Theorem window_is_five_minutes r now key w :
  monitor_reach r → (mr_now r <= now)%N →
  ds_workers (snapshot_state now (mr_state r)) !! key = Some w →
  ∃ older, samples_of key (mr_samples r) = older ++ wa_valid_shares_window w ∧
    Forall (expired now) older ∧ Forall (recent now) (wa_valid_shares_window w).
Proof.
  intros Hr Ht Hw. pose proof (state_ok_later _ _ _ _ Ht (monitor_reach_ok r Hr)) as Hok.
  pose proof (proj2 (state_ok_snapshot _ _ _ Hok) key) as [_ _ (d & E & Hd) _ _].
  rewrite Hw in E. cbn in E. exists d. split; [done|]. split; [done|].
  destruct Hok as [_ Hk]. specialize (Hk key). pose proof (in_order_window _ _ _ _ Hk) as Ho.
  rewrite lookup_snapshot in Hw. destruct (ds_workers (mr_state r) !! key) as [w0|]; [|done].
  cbn in Hw, Ho. unfold retained in Hw. destruct (should_evict _ _); [done|]. injection Hw as <-.
  destruct (prune_spec now w0 Ho) as (_ & _ & _ & Hrec). unfold aged.
  by destruct (should_force_disconnect_zero_hashrate _ _).
Qed.

(** Nothing lingers after a snapshot: a worker that still counts as connected sent a share
    that counts in the last five minutes, or its hash rate is zero for less than ten minutes;
    any other worker that is still known left less than five minutes ago. *)
Theorem snapshot_settles r now key w :
  monitor_reach r → (mr_now r <= now)%N →
  ds_workers (snapshot_state now (mr_state r)) !! key = Some w →
  if is_connected w
  then wa_valid_shares_window w ≠ [] ∨
    ∃ since, wa_zero_hashrate_since w = Some since ∧ (now - since < ZERO_HASHRATE_CONNECTED_TIMEOUT)%N
  else ∃ at_, wa_disconnected_at w = Some at_ ∧ (now - at_ < WORKER_SUMMARY_RETENTION)%N.
Proof.
  intros Hr Ht Hw. pose proof (state_ok_later _ _ _ _ Ht (monitor_reach_ok r Hr)) as [_ Hk].
  pose proof (key_ok_retained _ _ _ _ (Hk key)) as Hret. rewrite lookup_snapshot in Hw.
  destruct (ds_workers (mr_state r) !! key) as [w0|]; [|done]. cbn in *. unfold retained in *.
  destruct (should_evict now _) eqn:Hev; [done|]. injection Hw as <-.
  pose proof (ko_entry _ _ _ _ Hret _ eq_refl) as He. set (w1 := prune_valid_shares now w0) in *.
  unfold aged, should_force_disconnect_zero_hashrate, should_evict, entry_ok in *.
  destruct (is_connected w1) eqn:Hc; cbn [negb andb] in *.
  - destruct He as [_ Hz]. case_bool_decide as Hwin; cbn [andb].
    + specialize (Hz Hwin). destruct (wa_zero_hashrate_since w1) as [at_|] eqn:Hat; [|done].
      destruct (N.leb_spec ZERO_HASHRATE_CONNECTED_TIMEOUT (now - at_)) as [H|H].
      * exists now. split; [done|]. unfold WORKER_SUMMARY_RETENTION. lia.
      * rewrite Hc. right. exists at_. split; [done|]. exact H.
    + rewrite Hc. by left.
  - rewrite Hc. destruct He as (at_ & Hat & _). rewrite Hat in Hev. exists at_. split; [done|].
    by apply N.leb_gt.
Qed.
(** ** The order of the summaries *)
Lemma str_leb_total a b : str_leb a b = true ∨ str_leb b a = true.
Proof.
  revert b. induction a as [|x a IH]; intros [|y b]; cbn; auto.
  rewrite (N.eqb_sym y x). destruct (N.eqb_spec x y) as [->|H]; [apply IH|].
  destruct (N.ltb_spec x y), (N.ltb_spec y x); auto; lia.
Qed.
Lemma str_leb_trans a b c : str_leb a b = true → str_leb b c = true → str_leb a c = true.
Proof.
  revert b c. induction a as [|x a IH]; intros [|y b] [|z c]; cbn; try done.
  destruct (N.eqb_spec x y) as [->|H]; destruct (N.eqb_spec y z) as [->|H']; try done.
  - by apply IH.
  - intros Hx%N.ltb_lt _. destruct (N.eqb_spec x z); [lia|]. by apply N.ltb_lt.
  - intros Hx%N.ltb_lt Hy%N.ltb_lt. destruct (N.eqb_spec x z); [lia|]. apply N.ltb_lt. lia.
Qed.
Lemma str_leb_antisym a b : str_leb a b = true → str_leb b a = true → a = b.
Proof.
  revert b. induction a as [|x a IH]; intros [|y b]; cbn; try done.
  rewrite (N.eqb_sym y x). destruct (N.eqb_spec x y) as [->|H].
  - intros H1 H2. f_equal. by apply IH.
  - intros H1%N.ltb_lt H2%N.ltb_lt. lia.
Qed.
#[export] Instance name_le_total : Total name_le.
Proof. intros a b. apply str_leb_total. Qed.
#[export] Instance name_le_trans : Transitive name_le.
Proof. intros a b c. apply str_leb_trans. Qed.

Definition worker_entry : Type := WorkerSummaryKey * WorkerSummaryAccumulator.
Definition in_group (token : str) (p : worker_entry) : Prop :=
  is_connected p.2 = true ∧ wk_token p.1 = token.
#[local] Instance in_group_dec token p : Decision (in_group token p).
Proof. apply _. Defined.
(** The summaries of the connected workers of a token. *)
Definition group (proxy_id : Z) (token : str) (entries : list worker_entry) : list WorkerSummary :=
  map (summary_of proxy_id) (filter (in_group token) entries).

Lemma grouped_fold proxy_id token entries m :
  fold_left (λ summaries_by_token p,
    if is_connected p.2 then push_summary (wk_token p.1) (summary_of proxy_id p) summaries_by_token
    else summaries_by_token) entries m !! token =
  match group proxy_id token entries with
  | [] => m !! token
  | g => Some (default [] (m !! token) ++ g)
  end.
Proof.
  revert m. induction entries as [|p entries IH]; intros m; [done|]. cbn [fold_left]. rewrite IH.
  unfold group. rewrite filter_cons. destruct (decide (in_group token p)) as [[Hc Ht]|Hn].
  - rewrite Hc. unfold push_summary. rewrite <- Ht, lookup_insert_eq. cbn [map].
    destruct (map _ _); cbn; [done|]. by rewrite <- app_assoc.
  - destruct (is_connected p.2) eqn:Hc; [|done]. unfold push_summary.
    assert (wk_token p.1 ≠ token) as Ht by (intros ?; by apply Hn). by rewrite lookup_insert_ne.
Qed.
Lemma summarize_lookup proxy_id entries token :
  summarize proxy_id entries !! token =
    match group proxy_id token entries with [] => None | g => Some (merge_sort name_le g) end.
Proof.
  unfold summarize. rewrite lookup_fmap, grouped_fold, lookup_empty. by destruct (group _ _ _).
Qed.
Lemma group_names proxy_id token entries a b :
  NoDup entries.*1 → a ∈ group proxy_id token entries → b ∈ group proxy_id token entries →
  ws_worker_name a = ws_worker_name b → a = b.
Proof.
  intros Hnd (p & -> & [[Hp1 Hp2] Hp]%list_elem_of_filter)%list_elem_of_fmap
    (q & -> & [[Hq1 Hq2] Hq]%list_elem_of_filter)%list_elem_of_fmap. cbn. intros Hname.
  destruct p as [[tp np] wp], q as [[tq nq] wq]. cbn in *. subst.
  assert (Some wp = Some wq) as [= ->]; [|done].
  by rewrite <- (elem_of_list_to_map_1 (M := gmap _) entries _ wp Hnd Hp),
    <- (elem_of_list_to_map_1 (M := gmap _) entries _ wq Hnd Hq).
Qed.

(** A snapshot does not depend on the order in which the map of workers is iterated: for
    every token, the summaries are those of its connected workers, each once, sorted by name;
    tokens without a connected worker have none. *)
Theorem summaries_deterministic proxy_id entries entries' :
  NoDup entries.*1 → entries' ≡ₚ entries →
  summarize proxy_id entries' = summarize proxy_id entries ∧
  ∀ token, match summarize proxy_id entries !! token with
    | Some l => l ≠ [] ∧ StronglySorted name_le l ∧ l ≡ₚ group proxy_id token entries
    | None => group proxy_id token entries = []
    end.
Proof.
  intros Hnd Hp. split.
  - apply map_eq. intros token. rewrite !summarize_lookup.
    assert (group proxy_id token entries' ≡ₚ group proxy_id token entries) as Hg by (unfold group; by rewrite Hp).
    destruct (group _ _ entries') as [|a g'] eqn:E'.
    { by apply Permutation_nil_l in Hg as <-. }
    destruct (group _ _ entries) as [|b g] eqn:E; [by apply Permutation_nil_r in Hg|]. f_equal.
    apply (StronglySorted_unique_strong name_le); [|apply StronglySorted_merge_sort; apply _..|].
    + intros x y. rewrite !merge_sort_Permutation, Hg, <- E. intros Hx Hy Hxy Hyx.
      eapply group_names; [done..|]. by apply str_leb_antisym.
    + by rewrite !merge_sort_Permutation.
  - intros token. rewrite summarize_lookup. destruct (group _ _ entries) as [|a g] eqn:E; [done|].
    split_and!; [|apply StronglySorted_merge_sort; apply _|by rewrite merge_sort_Permutation].
    intros H. pose proof (merge_sort_Permutation name_le (a :: g)) as H'. rewrite H in H'.
    by apply Permutation_nil_l in H'.
Qed.

(** ** Requests *)
Lemma chunks_concat {A} fuel n (xs : list A) :
  0 < n → length xs <= fuel → concat (chunks fuel n xs) = xs ∧
    Forall (λ c, 0 < length c <= n) (chunks fuel n xs).
Proof.
  intros Hn. revert xs. induction fuel as [|fuel IH]; intros [|x xs] Hf; cbn in *; try done; [lia|].
  destruct n as [|n]; [lia|]. destruct (IH (drop (S n) (x :: xs))) as [Hc Hb].
  { rewrite length_drop. cbn. lia. }
  cbn in Hc, Hb |- *. rewrite Hc, take_drop. split; [done|]. constructor; [|done].
  cbn. rewrite length_take. lia.
Qed.

(** The requests of a turn carry every summary once, under its token, in order, and none is
    empty or larger than 256. *)
Theorem requests_complete (summaries : gmap str (list WorkerSummary)) token (l : list WorkerSummary) :
  summaries !! token = Some l →
  concat (map snd (filter (λ r, r.1 = token) (requests summaries))) = l ∧
  Forall (λ r : str * list WorkerSummary, 0 < length r.2 <= WORKER_SUMMARIES_PER_REQUEST)
    (requests summaries).
Proof.
  intros Hl. unfold requests. split.
  - assert (∀ ps : list (str * list WorkerSummary), NoDup ps.*1 → (token, l) ∈ ps →
      concat (map snd (filter (λ r : str * list WorkerSummary, r.1 = token)
        (concat (map (λ p, map (pair p.1) (chunks (length p.2) WORKER_SUMMARIES_PER_REQUEST p.2)) ps)))) = l) as H.
    2: { apply H; [apply NoDup_fst_map_to_list|]. by apply elem_of_map_to_list. }
    assert (∀ (t : str) (cs : list (list WorkerSummary)),
      map snd (filter (λ r : str * list WorkerSummary, r.1 = token) (map (pair t) cs)) =
        if decide (t = token) then cs else []) as Hpair.
    { intros t cs. induction cs as [|c cs IH]; cbn [map]; [by case_decide|]. rewrite filter_cons. cbn [fst].
      destruct (decide (t = token)); cbn; [by rewrite IH|done]. }
    intros ps. induction ps as [|[t l'] ps IH]; intros Hnd Hin; [by apply elem_of_nil in Hin|].
    cbn in Hnd. apply NoDup_cons in Hnd as [Hnot Hnd]. cbn [map concat]. rewrite filter_app, map_app, concat_app, Hpair.
    cbn [fst snd]. destruct (chunks_concat (length l') WORKER_SUMMARIES_PER_REQUEST l') as [Hc _]; [unfold WORKER_SUMMARIES_PER_REQUEST; lia|done|].
    apply elem_of_cons in Hin as [[= <- <-]|Hin].
    + rewrite decide_True by done. rewrite Hc. rewrite <- (app_nil_r l) at 2. f_equal.
      clear IH Hnd. induction ps as [|[t' l2] ps IH]; [done|]. cbn in Hnot. apply not_elem_of_cons in Hnot as [Hne Hnot].
      cbn [map concat]. rewrite filter_app, map_app, concat_app, Hpair. cbn [fst snd].
      rewrite decide_False by congruence. by apply IH.
    + rewrite decide_False; [by apply IH|]. intros ->. apply Hnot. apply list_elem_of_fmap. by exists (token, l).
  - apply Forall_concat, Forall_map, Forall_forall. intros [t l'] _. cbn. apply Forall_map.
    destruct (chunks_concat (length l') WORKER_SUMMARIES_PER_REQUEST l') as [_ H]; [unfold WORKER_SUMMARIES_PER_REQUEST; lia|done|].
    exact H.
Qed.
(** ** Witnesses *)
Inductive ToyMonitorOp := ToyCall (call : MonitorCall) | ToySnapshot.
Definition toy_monitor_step (r : MonitorRun) (op : ToyMonitorOp * N) : MonitorRun :=
  let '(MkMonitorRun s t samples) := r in
  let now := (t + op.2 * 1000000000)%N in
  match op.1 with
  | ToyCall call =>
      MkMonitorRun (monitor_change call now s) now (samples ++ counted call now s)
  | ToySnapshot => MkMonitorRun (snapshot_state now s) now samples
  end.
(** Operations with the seconds that pass before them. *)
Definition toy_monitor_run (ops : list (ToyMonitorOp * N)) : MonitorRun :=
  fold_left toy_monitor_step ops (MkMonitorRun dispatcher_default 0 []).
Definition toy_op_ok (op : ToyMonitorOp * N) : Prop :=
  match op.1 with ToyCall call => (call_id call <= u32_max)%N | ToySnapshot => True end.
Lemma toy_monitor_reach ops : Forall toy_op_ok ops → monitor_reach (toy_monitor_run ops).
Proof.
  unfold monitor_reach, toy_monitor_run. generalize (MkMonitorRun dispatcher_default 0 []).
  intros r H. revert r. induction H as [|[op dt] ops Hop _ IH]; intros r; [constructor|]. cbn [fold_left].
  etrans; [|apply IH]. apply rtc_once. destruct r as [s t samples], op as [call|]; cbn.
  - apply ms_call; [lia|exact Hop].
  - apply ms_snapshot. lia.
Qed.

Definition toy_worker : WorkerSummaryKey := MkWorkerSummaryKey (lit "t") (lit "w").
Definition toy_connect (id : N) : ToyMonitorOp :=
  ToyCall (CallEvent (WorkerConnected id (lit "w") (lit "t"))).
Definition toy_valid_share (id : N) : ToyMonitorOp :=
  ToyCall (CallEvent (RecordShare id (lit "w") (lit "t") (Some (f32_of_N 4)))).
Definition toy_leave (id : N) : ToyMonitorOp := ToyCall (CallDisconnected id).

(** Two sessions of one worker, shares 200 seconds apart, one session ends. *)
Definition toy_sessions : list (ToyMonitorOp * N) :=
  [(toy_connect 1, 0%N); (toy_connect 2, 0%N); (toy_valid_share 1, 0%N); (toy_valid_share 2, 200%N);
   (toy_leave 1, 0%N)].
Lemma sessions_counted_witness :
  wa_active_session_count (default accumulator_default
    (ds_workers (mr_state (toy_monitor_run toy_sessions)) !! toy_worker)) = 1%N ∧
  sessions_of toy_worker (ds_session_keys (mr_state (toy_monitor_run toy_sessions))) = 1.
Proof.
  split; [reflexivity|]. apply Nat2N.inj.
  rewrite <- (sessions_counted (toy_monitor_run toy_sessions) toy_worker); [reflexivity|].
  apply toy_monitor_reach. by repeat constructor.
Defined.
Definition toy_after : option WorkerSummaryAccumulator :=
  ds_workers (snapshot_state 350000000000 (mr_state (toy_monitor_run toy_sessions))) !! toy_worker.
Lemma window_is_five_minutes_witness :
  ∃ w, toy_after = Some w ∧ length (wa_valid_shares_window w) = 1 ∧
    Forall (recent 350000000000) (wa_valid_shares_window w).
Proof.
  destruct toy_after as [w|] eqn:E; [|vm_compute in E; discriminate]. exists w.
  split; [reflexivity|]. split; [vm_compute in E; by injection E as <-|].
  destruct (window_is_five_minutes (toy_monitor_run toy_sessions) 350000000000 toy_worker w)
    as (_ & _ & _ & H); [|done|exact E|exact H].
  apply toy_monitor_reach. by repeat constructor.
Defined.
Lemma snapshot_settles_witness :
  ∃ w, toy_after = Some w ∧ is_connected w = true ∧
    (wa_valid_shares_window w ≠ [] ∨
     ∃ since, wa_zero_hashrate_since w = Some since ∧
       (350000000000 - since < ZERO_HASHRATE_CONNECTED_TIMEOUT)%N).
Proof.
  destruct toy_after as [w|] eqn:E; [|vm_compute in E; discriminate]. exists w.
  assert (is_connected w = true) as Hc by (vm_compute in E; by injection E as <-).
  split; [reflexivity|]. split; [exact Hc|].
  pose proof (snapshot_settles (toy_monitor_run toy_sessions) 350000000000 toy_worker w) as H.
  rewrite Hc in H. apply H; [|done|exact E]. apply toy_monitor_reach. by repeat constructor.
Defined.
Lemma summaries_deterministic_witness :
  let a := (MkWorkerSummaryKey (lit "t") (lit "b"), mark_connected 0 accumulator_default) in
  let b := (MkWorkerSummaryKey (lit "t") (lit "a"), mark_connected 0 accumulator_default) in
  summarize 7 [a; b] = summarize 7 [b; a] ∧
  map ws_worker_name <$> (summarize 7 [a; b] !! lit "t") = Some [lit "a"; lit "b"].
Proof.
  intros a b. split; [|reflexivity]. apply (summaries_deterministic 7 [b; a] [a; b]).
  - apply (bool_decide_unpack _). reflexivity.
  - apply perm_swap.
Defined.
Lemma requests_complete_witness :
  let l := repeat (MkWorkerSummary [] 7 (f64_of_N 0) 1 0) 300 in
  map (λ r, length r.2) (requests {[ lit "t" := l ]}) = [256; 44] ∧
  concat (map snd (filter (λ r, r.1 = lit "t") (requests {[ lit "t" := l ]}))) = l.
Proof.
  intros l. split; [reflexivity|]. apply (requests_complete {[ lit "t" := l ]} (lit "t") l).
  apply lookup_singleton_eq.
Defined.

(** ** What goes wrong *)

(** The time without shares is not only counted while a worker is connected: a snapshot
    that empties the window of a worker that left stamps the beginning of the time again, and
    a return does not clear it.  A worker that came back 311 seconds ago, and never left
    since, is expired as if it had been connected for ten minutes without a share. *)
Theorem returning_worker_expires_early :
  let before := toy_monitor_run
    [(toy_connect 1, 0); (toy_valid_share 1, 0); (toy_leave 1, 299); (ToySnapshot, 2);
     (toy_connect 1, 289); (ToySnapshot, 11)]%N in
  let now := (901 * 1000000000)%N in
  mr_now before = (601 * 1000000000)%N ∧
  ds_session_keys (mr_state before) = {[ 1%N := toy_worker ]} ∧
  wa_disconnected_at <$> ds_workers (mr_state before) !! toy_worker = Some None ∧
  ds_session_keys (snapshot_state now (mr_state before)) = ∅ ∧
  is_connected <$> ds_workers (snapshot_state now (mr_state before)) !! toy_worker = Some false ∧
  (now - 590 * 1000000000 < ZERO_HASHRATE_CONNECTED_TIMEOUT)%N.
Proof. vm_compute. split_and!; reflexivity. Qed.
