(* ===== verification/NodeRpc.v ===== *)
(** * The RPC client of the Bitcoin node

    [api/bitcoin_rpc.rs]: the requests to the node and the reading of its answers.  The node,
    the network between, and the crates that read JSON and transactions are the class
    [NodeLib]; the text of errors is left out. *)

From S2P Require Import Prelude Str Bitcoin Sv1.

Abbreviation Txid := bytes (only parsing).

Record BitcoindRpc := MkBitcoindRpc { br_url : str; br_user : str; br_pwd : str }.
Record PrioTx := MkPrioTx {
  pt_txid : Txid;
  pt_fee_delta : Z;
  pt_in_mempool : bool;
  pt_modified_fee : option Z
}.
Inductive BitcoindRpcError :=
| RpcInvalidTransaction | RpcRejected | RpcTimeout | RpcOther | RpcInvalidResponse
| RpcPrioritize.
Definition status_code (e : BitcoindRpcError) : N :=
  match e with
  | RpcInvalidTransaction | RpcRejected => 400
  | RpcTimeout => 504
  | RpcOther | RpcInvalidResponse | RpcPrioritize => 502
  end.

(** [RpcResponse], as [serde] reads it. *)
Record RpcResponse := MkRpcResponse { rr_result : option Json; rr_error : option Json }.
(** An error of [reqwest], and which conversion it gets. *)
Inductive ReqwestError := ReqwestTimeout | ReqwestOther.
Definition from_reqwest_error (e : ReqwestError) : BitcoindRpcError :=
  match e with ReqwestTimeout => RpcTimeout | ReqwestOther => RpcOther end.

(** What lies outside: [NetWorld] is the node, mempool.space and the network.  A request is
    answered with a status and a text. *)
Class NodeLib `{B : BitcoinLib} := {
  NetWorld : Type;
  rpc_post : BitcoindRpc → Json → NetWorld → result (N * str) ReqwestError * NetWorld;
  http_get : str → NetWorld → result (N * str) ReqwestError * NetWorld;
  (** [serde_json::from_str] to an [RpcResponse], and to the accelerations *)
  rpc_response_from_str : str → option RpcResponse;
  accelerations_from_str : str → option (list (Txid * Z));
  (** [Txid]: [parse] and [to_string]; [deserialize_hex] and [serialize_hex] *)
  parse_txid : str → option Txid;
  txid_to_string : Txid → str;
  deserialize_hex : str → option Transaction;
  serialize_hex : Transaction → str
}.

Definition is_success (status : N) : bool := (200 <=? status)%N && (status <? 300)%N.
(** [Value::get] and [Value::as_bool] *)
Definition json_get (key : str) (v : Json) : option Json :=
  match v with
  | JObject fields =>
      match list_find (λ f : str * Json, f.1 = key) fields with
      | Some (_, f) => Some f.2
      | None => None
      end
  | _ => None
  end.
Definition as_bool (v : Json) : option bool :=
  match v with JBool b => Some b | _ => None end.
Fixpoint str_contains (p s : str) : bool :=
  str_starts_with p s || match s with [] => false | _ :: s => str_contains p s end.

Section rpc.
Context `{B : !BitcoinLib} `{NL : !NodeLib}.

(** ** Answers *)
Definition rpc_decode (status : N) (text : str) : result RpcResponse BitcoindRpcError :=
  match rpc_response_from_str text with
  | Some r => Ok r
  | None => if is_success status then Err RpcInvalidResponse else Err RpcOther
  end.
Definition from_response (status : N) (text : str) : result (option Json) BitcoindRpcError :=
  match rpc_decode status text with
  | Err e => Err e
  | Ok resp =>
      if negb (is_success status) then Err RpcOther
      else match rr_error resp with
      | Some _ => Err RpcRejected
      | None => Ok (rr_result resp)
      end
  end.
Definition is_already_in_mempool_error (error : Json) : bool :=
  match json_get (lit "message") error with
  | Some message =>
      match as_str message with
      | Some message =>
          let message := to_ascii_lowercase message in
          str_contains (lit "already in mempool") message
          || str_contains (lit "txn-already-in-mempool") message
      | None => false
      end
  | None => false
  end.
Definition txid_from_sendrawtransaction_response (transaction : Transaction) (status : N)
    (text : str) : result Txid BitcoindRpcError :=
  match rpc_decode status text with
  | Err e => Err e
  | Ok resp =>
      match rr_error resp with
      | Some error =>
          if is_already_in_mempool_error error then Ok (compute_txid transaction)
          else Err RpcRejected
      | None =>
          if negb (is_success status) then Err RpcOther
          else match rr_result resp ≫= as_str with
          | None => Err RpcInvalidResponse
          | Some text =>
              match parse_txid text with
              | Some txid => Ok txid
              | None => Err RpcInvalidResponse
              end
          end
      end
  end.

(** ** Requests *)
Definition request_body (method : str) (params : list Json) : Json :=
  JObject [(lit "jsonrpc", JString (lit "1.0")); (lit "id", JString (lit "dmnd-client"));
    (lit "method", JString method); (lit "params", JArray params)].
Definition send_request (rpc : BitcoindRpc) (method : str) (params : list Json) (w : NetWorld)
    : result (N * str) BitcoindRpcError * NetWorld :=
  match rpc_post rpc (request_body method params) w with
  | (Ok answer, w) => (Ok answer, w)
  | (Err e, w) => (Err (from_reqwest_error e), w)
  end.

Definition submit_transaction (rpc : BitcoindRpc) (transaction : Transaction) (w : NetWorld)
    : result str BitcoindRpcError * NetWorld :=
  match send_request rpc (lit "sendrawtransaction") [JString (serialize_hex transaction)] w with
  | (Err e, w) => (Err e, w)
  | (Ok (status, text), w) =>
      match txid_from_sendrawtransaction_response transaction status text with
      | Err e => (Err e, w)
      | Ok txid =>
          if bool_decide (txid = compute_txid transaction)
          then (Ok (txid_to_string txid), w) else (Err RpcInvalidResponse, w)
      end
  end.

(** One entry of the listing. *)
Definition prio_tx_of (entry : str * Json) : result PrioTx BitcoindRpcError :=
  let '(txid, priority) := entry in
  match parse_txid txid with
  | None => Err RpcInvalidResponse
  | Some parsed_txid =>
      match json_get (lit "fee_delta") priority ≫= as_i64 with
      | None => Err RpcInvalidResponse
      | Some fee_delta =>
          match json_get (lit "in_mempool") priority ≫= as_bool with
          | None => Err RpcInvalidResponse
          | Some in_mempool =>
              match json_get (lit "modified_fee") priority with
              | None => Ok (MkPrioTx parsed_txid fee_delta in_mempool None)
              | Some modified_fee =>
                  match as_i64 modified_fee with
                  | Some fee => Ok (MkPrioTx parsed_txid fee_delta in_mempool (Some fee))
                  | None => Err RpcInvalidResponse
                  end
              end
          end
      end
  end.
(** [collect] to a result of a map: the first error, or all entries, later ones winning. *)
Fixpoint collect_prio_txs (entries : list (str * Json)) (collected : gmap Txid PrioTx)
    : result (gmap Txid PrioTx) BitcoindRpcError :=
  match entries with
  | [] => Ok collected
  | entry :: entries =>
      match prio_tx_of entry with
      | Err e => Err e
      | Ok tx => collect_prio_txs entries (<[pt_txid tx := tx]> collected)
      end
  end.
Definition get_prioritised_transactions (rpc : BitcoindRpc) (w : NetWorld)
    : result (gmap Txid PrioTx) BitcoindRpcError * NetWorld :=
  match send_request rpc (lit "getprioritisedtransactions") [] w with
  | (Err e, w) => (Err e, w)
  | (Ok (status, text), w) =>
      match from_response status text with
      | Err e => (Err e, w)
      | Ok (Some (JObject transactions)) => (collect_prio_txs transactions ∅, w)
      | Ok _ => (Err RpcInvalidResponse, w)
      end
  end.

Definition prioritise_transaction (rpc : BitcoindRpc) (txid : Txid) (fee_delta : Z)
    (w : NetWorld) : result unit BitcoindRpcError * NetWorld :=
  match send_request rpc (lit "prioritisetransaction")
          [JString (txid_to_string txid); JInt 0; JInt fee_delta] w with
  | (Err e, w) => (Err e, w)
  | (Ok (status, text), w) =>
      match from_response status text with
      | Err _ => (Err RpcPrioritize, w)
      | Ok result =>
          match result ≫= as_bool with
          | Some true => (Ok tt, w)
          | _ => (Err RpcPrioritize, w)
          end
      end
  end.

(** ** Transactions of mempool.space *)
Inductive FetchMempoolSpaceTransactionError :=
| FetchRequest (e : ReqwestError + N)   (** no answer, or the status of an error *)
| FetchDecode
| FetchTxidMismatch (requested received : Txid).
(** [error_for_status] *)
Definition is_error_status (status : N) : bool := (400 <=? status)%N && (status <? 600)%N.
Definition fetch_mempool_space_transaction_from (api_base_url : str) (txid : Txid)
    (w : NetWorld) : result Transaction FetchMempoolSpaceTransactionError * NetWorld :=
  match http_get (api_base_url ++ lit "/tx/" ++ txid_to_string txid ++ lit "/hex") w with
  | (Err e, w) => (Err (FetchRequest (inl e)), w)
  | (Ok (status, transaction_hex), w) =>
      if is_error_status status then (Err (FetchRequest (inr status)), w)
      else match deserialize_hex (trim transaction_hex) with
      | None => (Err FetchDecode, w)
      | Some transaction =>
          if bool_decide (compute_txid transaction = txid) then (Ok transaction, w)
          else (Err (FetchTxidMismatch txid (compute_txid transaction)), w)
      end
  end.
Definition MEMPOOL_SPACE_API_BASE_URL : str := lit "https://mempool.space/api".
Definition fetch_mempool_space_transaction : Txid → NetWorld → _ :=
  fetch_mempool_space_transaction_from MEMPOOL_SPACE_API_BASE_URL.
(** [None] is an error of the request or of the JSON. *)
Definition fetch_mempool_space_accelerations (w : NetWorld)
    : option (gmap Txid Z) * NetWorld :=
  match http_get (lit "https://mempool.space/api/v1/services/accelerator/accelerations") w with
  | (Err _, w) => (None, w)
  | (Ok (status, text), w) =>
      if is_error_status status then (None, w)
      else match accelerations_from_str text with
      | None => (None, w)
      | Some accelerations =>
          (Some (fold_left (λ m p, <[p.1 := p.2]> m) accelerations ∅), w)
      end
  end.
End rpc.
