(* ===== verification/TxPriority.v ===== *)
(** * Transaction prioritisation

    [prioritized_transactions.rs], the tasks of [api/mod.rs] and the handlers of
    [api/routes.rs] that move fee deltas at the node.  All of them hold
    [PRIORITIZED_TRANSACTIONS_POLL_LOCK] while they work, so each is one change of the shared
    stores and the outside.  A store is a mutex around single operations that cannot panic,
    so it is never poisoned.  The order in which a [HashMap] is iterated is an input. *)

From S2P Require Import Prelude Str Bitcoin Sv1 NodeRpc.

(** ** [TransactionStore] *)
Abbreviation TransactionStore T := (gmap Txid T) (only parsing).
Section store.
Context {T : Type}.
Definition store_new : TransactionStore T := ∅.
Definition store_record (txid : Txid) (value : T) (s : TransactionStore T) : TransactionStore T :=
  <[txid := value]> s.
Definition store_get (txid : Txid) (s : TransactionStore T) : option T := s !! txid.
Definition store_update_existing (txid : Txid) (value : T) (s : TransactionStore T)
    : bool * TransactionStore T :=
  match s !! txid with
  | None => (false, s)
  | Some _ => (true, <[txid := value]> s)
  end.
Definition store_snapshot (s : TransactionStore T) : gmap Txid T := s.
Definition store_snapshot_txids (s : TransactionStore T) : gset Txid := dom s.
Definition store_clear (s : TransactionStore T) : TransactionStore T := ∅.
Definition store_remove (txid : Txid) (s : TransactionStore T) : TransactionStore T :=
  delete txid s.
End store.

(** [i64] arithmetic *)
Definition wrap_i64 (z : Z) : Z :=
  (z + 9223372036854775808) mod 18446744073709551616 - 9223372036854775808.
Definition checked_neg (z : Z) : option Z := if (z =? i64_min)%Z then None else Some (- z)%Z.

(** ** Responses of the HTTP API *)

(** [APIResponse], whose message is kept as what it is about. *)
Inductive ApiMessage :=
| MsgNotEnabled | MsgUnauthorized | MsgPreviouslyRejected (txid : Txid)
| MsgRpc (e : BitcoindRpcError)
| MsgStatsFailed | MsgPoolUnavailable
| MsgHandoffClosed | MsgHandoffFull (max_capacity : N)
| MsgOverloaded (active_downstreams max_active_downstreams : N)
| MsgProxyDown (states : str) | MsgUnknownState.
Record APIResponse (T : Type) := MkAPIResponse {
  ar_success : bool;
  ar_message : option ApiMessage;
  ar_data : option T
}.
Arguments MkAPIResponse {T} _ _ _.
Arguments ar_success {T} _.
Arguments ar_message {T} _.
Arguments ar_data {T} _.
Definition api_success {T} (data : option T) : APIResponse T := MkAPIResponse true None data.
Definition api_error {T} (message : option ApiMessage) : APIResponse T :=
  MkAPIResponse false message None.

Section prio.
Context `{B : !BitcoinLib} `{NL : !NodeLib}.

(** The three stores, and the outside. *)
Record PrioWorld := MkPrioWorld {
  pw_manually_prioritized : TransactionStore Z;
  pw_mempool_space_accelerated : TransactionStore Z;
  pw_bad : TransactionStore Z;
  pw_net : NetWorld
}.
Definition set_pw_manual v s :=
  MkPrioWorld v (pw_mempool_space_accelerated s) (pw_bad s) (pw_net s).
Definition set_pw_accelerated v s :=
  MkPrioWorld (pw_manually_prioritized s) v (pw_bad s) (pw_net s).
Definition set_pw_bad v s :=
  MkPrioWorld (pw_manually_prioritized s) (pw_mempool_space_accelerated s) v (pw_net s).
Definition set_pw_net v s :=
  MkPrioWorld (pw_manually_prioritized s) (pw_mempool_space_accelerated s) (pw_bad s) v.
Definition on_net {A} (f : NetWorld → A * NetWorld) (s : PrioWorld) : A * PrioWorld :=
  let '(a, w) := f (pw_net s) in (a, set_pw_net w s).
(** Both stores of deltas. *)
Definition update_both (txid : Txid) (value : Z) (s : PrioWorld) : PrioWorld :=
  MkPrioWorld (store_update_existing txid value (pw_manually_prioritized s)).2
    (store_update_existing txid value (pw_mempool_space_accelerated s)).2 (pw_bad s) (pw_net s).

(** ** The reset at start-up *)
Fixpoint reset_adjust (rpc : BitcoindRpc) (txid : Txid) (adjustments : list Z) (w : NetWorld)
    : bool * NetWorld :=
  match adjustments with
  | [] => (true, w)
  | adjustment :: adjustments =>
      match prioritise_transaction rpc txid adjustment w with
      | (Err _, w) => (false, w)
      | (Ok _, w) => reset_adjust rpc txid adjustments w
      end
  end.
Definition reset_adjustments (fee_delta : Z) : list Z :=
  match checked_neg fee_delta with
  | Some adjustment => [adjustment]
  | None => [i64_max; 1%Z]
  end.
Fixpoint reset_loop (rpc : BitcoindRpc) (transactions : list PrioTx) (reset_count : N)
    (w : NetWorld) : N * NetWorld :=
  match transactions with
  | [] => (reset_count, w)
  | tx :: transactions =>
      if (pt_fee_delta tx =? 0)%Z then reset_loop rpc transactions reset_count w
      else match reset_adjust rpc (pt_txid tx) (reset_adjustments (pt_fee_delta tx)) w with
      | (false, w) => reset_loop rpc transactions reset_count w
      | (true, w) => reset_loop rpc transactions (reset_count + 1) w
      end
  end.
Definition reset_node_fee_deltas (into_values : gmap Txid PrioTx → list PrioTx)
    (rpc : BitcoindRpc) (w : NetWorld) : result N BitcoindRpcError * NetWorld :=
  match get_prioritised_transactions rpc w with
  | (Err e, w) => (Err e, w)
  | (Ok transactions, w) =>
      let '(reset_count, w) := reset_loop rpc (into_values transactions) 0 w in
      (Ok reset_count, w)
  end.
(** The caller logs the answer and goes on. *)
Definition reset_node_fee_deltas_at_startup (into_values : gmap Txid PrioTx → list PrioTx)
    (config : option BitcoindRpc) (w : NetWorld) : bool * NetWorld :=
  match config with
  | None => (true, w)
  | Some rpc =>
      match reset_node_fee_deltas into_values rpc w with
      | (Ok _, w) => (true, w)
      | (Err _, w) => (false, w)
      end
  end.

(** ** A turn of [poll_node_prioritized_transactions] *)
Definition remove_unlisted (transactions : gmap Txid PrioTx) (store : TransactionStore Z)
    : TransactionStore Z :=
  fold_left (λ store txid,
    match transactions !! txid with Some _ => store | None => store_remove txid store end)
    (elements (store_snapshot_txids store)) store.
(** Restoring a transaction that bitcoind refused. *)
Definition reject_transaction (rpc : BitcoindRpc) (tx : PrioTx) (s : PrioWorld) : PrioWorld :=
  let s := set_pw_bad (store_record (pt_txid tx) (pt_fee_delta tx) (pw_bad s)) s in
  match on_net (prioritise_transaction rpc (pt_txid tx) (wrap_i64 (- pt_fee_delta tx))) s with
  | (Err _, s) => s
  | (Ok _, s) => update_both (pt_txid tx) 0 s
  end.
Definition reconcile_transaction (rpc : BitcoindRpc) (api_base_url : str) (s : PrioWorld)
    (tx : PrioTx) : PrioWorld :=
  match store_get (pt_txid tx) (pw_bad s) with
  | Some _ => s
  | None =>
      let s := update_both (pt_txid tx) (pt_fee_delta tx) s in
      if (pt_fee_delta tx <=? 0)%Z || pt_in_mempool tx then s
      else match on_net (fetch_mempool_space_transaction_from api_base_url (pt_txid tx)) s with
      | (Err _, s) => s
      | (Ok fetched_transaction, s) =>
          match on_net (submit_transaction rpc fetched_transaction) s with
          | (Ok _, s) => s
          | (Err _, s) => reject_transaction rpc tx s
          end
      end
  end.
Definition reconcile_node_prioritized_transactions
    (into_values : gmap Txid PrioTx → list PrioTx) (rpc : BitcoindRpc) (api_base_url : str)
    (s : PrioWorld) : PrioWorld :=
  match on_net (get_prioritised_transactions rpc) s with
  | (Err _, s) => s
  | (Ok transactions, s) =>
      let s := set_pw_manual (remove_unlisted transactions (pw_manually_prioritized s)) s in
      let s := set_pw_accelerated
                 (remove_unlisted transactions (pw_mempool_space_accelerated s)) s in
      fold_left (reconcile_transaction rpc api_base_url) (into_values transactions) s
  end.

(** ** A turn of [poll_mempool_space_accelerations] *)
Definition adjust_acceleration (rpc : BitcoindRpc) (cached_txids : gmap Txid Z)
    (txid : Txid) (fee_delta : Z) (s : PrioWorld) : PrioWorld :=
  let fee_delta_adjustment := wrap_i64 (fee_delta - default 0%Z (cached_txids !! txid)) in
  if (fee_delta_adjustment =? 0)%Z then s
  else match on_net (prioritise_transaction rpc txid fee_delta_adjustment) s with
  | (Err _, s) => s
  | (Ok _, s) =>
      set_pw_accelerated (store_record txid fee_delta (pw_mempool_space_accelerated s)) s
  end.
Definition submit_accelerated (rpc : BitcoindRpc) (txid : Txid) (s : PrioWorld) : PrioWorld :=
  match on_net (fetch_mempool_space_transaction txid) s with
  | (Err _, s) => s
  | (Ok transaction, s) => (on_net (submit_transaction rpc transaction) s).2
  end.
Definition poll_acceleration (rpc : BitcoindRpc) (cached_txids : gmap Txid Z) (s : PrioWorld)
    (acceleration : Txid * Z) : PrioWorld :=
  let '(txid, fee_delta) := acceleration in
  let s := adjust_acceleration rpc cached_txids txid fee_delta s in
  match cached_txids !! txid with
  | Some _ => s
  | None => submit_accelerated rpc txid s
  end.
Definition poll_mempool_space_accelerations (iter : gmap Txid Z → list (Txid * Z))
    (rpc : BitcoindRpc) (s : PrioWorld) : PrioWorld :=
  match on_net fetch_mempool_space_accelerations s with
  | (None, s) => s
  | (Some accelerations, s) =>
      let cached_txids := store_snapshot (pw_mempool_space_accelerated s) in
      fold_left (poll_acceleration rpc cached_txids) (iter accelerations) s
  end.

(** A turn of [clear_bad_transactions_periodically]. *)
Definition clear_bad_transactions (s : PrioWorld) : PrioWorld :=
  set_pw_bad (store_clear (pw_bad s)) s.

(** ** Handlers *)
Record PrioritizingTxs := MkPrioritizingTxs { px_rpc : BitcoindRpc; px_api_tx_token : str }.
(** [authorization] is the header, if it is present and text. *)
Definition is_authorized_for_tx_prioritization (authorization : option str)
    (expected_token : str) : bool :=
  match authorization ≫= strip_prefix (lit "Bearer ") with
  | Some token => bool_decide (token = expected_token)
  | None => false
  end.

Definition prioritize_transaction (prioritizing_txs : option PrioritizingTxs)
    (authorization : option str) (txid : Txid) (fee_delta : Z) (s : PrioWorld)
    : (N * APIResponse str) * PrioWorld :=
  if (fee_delta =? 0)%Z then ((200%N, api_success None), s)
  else match prioritizing_txs with
  | None => ((503%N, api_error (Some MsgNotEnabled)), s)
  | Some px =>
      if negb (is_authorized_for_tx_prioritization authorization (px_api_tx_token px))
      then ((401%N, api_error (Some MsgUnauthorized)), s)
      else match store_get txid (pw_bad s) with
      | Some _ => ((400%N, api_error (Some (MsgPreviouslyRejected txid))), s)
      | None =>
          match on_net (prioritise_transaction (px_rpc px) txid fee_delta) s with
          | (Ok _, s) =>
              let current_fee_delta := default 0%Z (store_get txid (pw_manually_prioritized s)) in
              let fee_delta := wrap_i64 (current_fee_delta + fee_delta) in
              ((200%N, api_success (Some (txid_to_string txid))),
               set_pw_manual (store_record txid fee_delta (pw_manually_prioritized s)) s)
          | (Err e, s) => ((status_code e, api_error (Some (MsgRpc e))), s)
          end
      end
  end.

(** The loop of [restore_tx_priority_from_stores] over the deltas of the stores, read one
    after the other. *)
Fixpoint restore_loop (rpc : BitcoindRpc) (txid : Txid) (stores : list (TransactionStore Z))
    (w : NetWorld) : result unit BitcoindRpcError * NetWorld :=
  match stores with
  | [] => (Ok tt, w)
  | store :: stores =>
      match store_get txid store with
      | None => restore_loop rpc txid stores w
      | Some fee_delta =>
          match checked_neg fee_delta with
          | None => (Err RpcPrioritize, w)
          | Some fee_delta_adjustment =>
              match prioritise_transaction rpc txid fee_delta_adjustment w with
              | (Err e, w) => (Err e, w)
              | (Ok _, w) => restore_loop rpc txid stores w
              end
          end
      end
  end.
Definition restore_tx_priority_from_stores (rpc : BitcoindRpc) (txid : Txid) (s : PrioWorld)
    : result unit BitcoindRpcError * PrioWorld :=
  match on_net (restore_loop rpc txid
          [pw_manually_prioritized s; pw_mempool_space_accelerated s]) s with
  | (Err e, s) => (Err e, s)
  | (Ok _, s) =>
      (Ok tt, set_pw_manual (store_remove txid (pw_manually_prioritized s))
        (set_pw_accelerated (store_remove txid (pw_mempool_space_accelerated s)) s))
  end.
Definition restore_tx_priority (prioritizing_txs : option PrioritizingTxs)
    (authorization : option str) (txid : Txid) (s : PrioWorld)
    : (N * APIResponse str) * PrioWorld :=
  match prioritizing_txs with
  | None => ((503%N, api_error (Some MsgNotEnabled)), s)
  | Some px =>
      if negb (is_authorized_for_tx_prioritization authorization (px_api_tx_token px))
      then ((401%N, api_error (Some MsgUnauthorized)), s)
      else match restore_tx_priority_from_stores (px_rpc px) txid s with
      | (Ok _, s) => ((200%N, api_success (Some (txid_to_string txid))), s)
      | (Err e, s) => ((status_code e, api_error (Some (MsgRpc e))), s)
      end
  end.

Record CategorizedPrioritizedTransactions := MkCategorized {
  ct_mempool_space : gmap str PrioTx;
  ct_manually_prioritized : gmap str PrioTx;
  ct_unknown : gmap str PrioTx
}.
Definition categorize_one (mempool_space_txids manually_prioritized_txids : gset Txid)
    (c : CategorizedPrioritizedTransactions) (entry : Txid * PrioTx)
    : CategorizedPrioritizedTransactions :=
  let '(txid, tx) := entry in
  let key := txid_to_string txid in
  if bool_decide (txid ∈ mempool_space_txids)
  then MkCategorized (<[key := tx]> (ct_mempool_space c)) (ct_manually_prioritized c) (ct_unknown c)
  else if bool_decide (txid ∈ manually_prioritized_txids)
  then MkCategorized (ct_mempool_space c) (<[key := tx]> (ct_manually_prioritized c)) (ct_unknown c)
  else MkCategorized (ct_mempool_space c) (ct_manually_prioritized c) (<[key := tx]> (ct_unknown c)).
Definition categorize_prioritized_transactions (transactions : gmap Txid PrioTx)
    (mempool_space_txids manually_prioritized_txids : gset Txid)
    : CategorizedPrioritizedTransactions :=
  fold_left (categorize_one mempool_space_txids manually_prioritized_txids)
    (map_to_list transactions) (MkCategorized ∅ ∅ ∅).
Definition get_prioritized_transactions (prioritizing_txs : option PrioritizingTxs)
    (authorization : option str) (s : PrioWorld)
    : (N * APIResponse CategorizedPrioritizedTransactions) * PrioWorld :=
  match prioritizing_txs with
  | None => ((503%N, api_error (Some MsgNotEnabled)), s)
  | Some px =>
      if negb (is_authorized_for_tx_prioritization authorization (px_api_tx_token px))
      then ((401%N, api_error (Some MsgUnauthorized)), s)
      else match on_net (get_prioritised_transactions (px_rpc px)) s with
      | (Err e, s) => ((status_code e, api_error (Some (MsgRpc e))), s)
      | (Ok transactions, s) =>
          ((200%N, api_success (Some (categorize_prioritized_transactions transactions
             (store_snapshot_txids (pw_mempool_space_accelerated s))
             (store_snapshot_txids (pw_manually_prioritized s))))), s)
      end
  end.
End prio.
