(* ===== verification/TxPriorityProps.v ===== *)
(** * Properties of transaction prioritisation

    What the stores say about the node, under the documented behaviour of the node
    ([NodeLaws]). *)

From S2P Require Import Prelude Str Bitcoin Sv1 BitcoinModel NodeRpc TxPriority.

Definition in_i64 (z : Z) : Prop := (i64_min <= z <= i64_max)%Z.
Definition clamp_i64 (z : Z) : Z := Z.max i64_min (Z.min i64_max z).

(** A request the node executed: its answer is a success whose result is [true]. *)
Definition answers_true `{NodeLib} (status : N) (text : str) : bool :=
  is_success status &&
  match rpc_response_from_str text with
  | Some (MkRpcResponse (Some (JBool true)) None) => true
  | _ => false
  end.

(** The node.  [node_delta] is the fee delta the node holds for a transaction; the node adds
    to it, saturating, when it answers [prioritisetransaction] with [true] and leaves it alone
    when it answers otherwise; it lists all deltas that are not zero; other requests do not
    change them.  About a request that got no answer nothing is known, and [net_lost] tells
    that there was one. *)
Class NodeLaws `{NL : NodeLib} := {
  node_delta : NetWorld → Txid → Z;
  net_lost : NetWorld → bool;
  node_delta_range w t : in_i64 (node_delta w t);
  lost_stays rpc body w : net_lost w = true → net_lost (rpc_post rpc body w).2 = true;
  no_answer_lost rpc body w e w' : rpc_post rpc body w = (Err e, w') → net_lost w' = true;
  get_keeps_lost url w : net_lost (http_get url w).2 = net_lost w;
  get_keeps_deltas url w t : node_delta (http_get url w).2 t = node_delta w t;
  node_prioritises rpc txid d w status text w' t :
    rpc_post rpc (request_body (lit "prioritisetransaction")
      [JString (txid_to_string txid); JInt 0; JInt d]) w = (Ok (status, text), w') →
    node_delta w' t =
      if bool_decide (t = txid) && answers_true status text
      then clamp_i64 (node_delta w t + d) else node_delta w t;
  node_lists rpc w status text w' fields t :
    rpc_post rpc (request_body (lit "getprioritisedtransactions") []) w = (Ok (status, text), w') →
    node_delta w' t = node_delta w t ∧
    (rpc_response_from_str text = Some (MkRpcResponse (Some (JObject fields)) None) →
     (node_delta w t ≠ 0%Z → ∃ k p, (k, p) ∈ fields ∧ parse_txid k = Some t) ∧
     ∀ k p, (k, p) ∈ fields → parse_txid k = Some t →
       json_get (lit "fee_delta") p = Some (JInt (node_delta w t)));
  node_submits rpc hex w status text w' t :
    rpc_post rpc (request_body (lit "sendrawtransaction") [JString hex]) w = (Ok (status, text), w') →
    node_delta w' t = node_delta w t
}.

Lemma wrap_i64_id z : in_i64 z → wrap_i64 z = z.
Proof. unfold wrap_i64, in_i64, i64_min, i64_max. intros H. rewrite Z.mod_small; lia. Qed.
Lemma clamp_i64_id z : in_i64 z → clamp_i64 z = z.
Proof. unfold clamp_i64, in_i64. lia. Qed.
Lemma checked_neg_Some z z' : checked_neg z = Some z' ↔ z ≠ i64_min ∧ z' = (- z)%Z.
Proof. unfold checked_neg. destruct (Z.eqb_spec z i64_min); naive_solver. Qed.

Section net.
Context `{B : !BitcoinLib} `{NL : !NodeLib} `{LW : !NodeLaws}.

(** A computation on the outside that sends no delta: it keeps what was lost, and the deltas
    unless something is lost. *)
Definition quiet (w w' : NetWorld) : Prop :=
  (net_lost w = true → net_lost w' = true) ∧
  (net_lost w' = false → ∀ t, node_delta w' t = node_delta w t).
Lemma quiet_refl w : quiet w w.
Proof. split; eauto. Qed.
Lemma quiet_trans w1 w2 w3 : quiet w1 w2 → quiet w2 w3 → quiet w1 w3.
Proof.
  intros [H1 H1'] [H2 H2']. split; [eauto|]. intros Hl t.
  destruct (net_lost w2) eqn:E; [by rewrite H2 in Hl|]. by rewrite H2', H1'.
Qed.

Lemma send_request_spec rpc method params w r w' :
  send_request rpc method params w = (r, w') →
  (net_lost w = true → net_lost w' = true) ∧
  match r with
  | Ok a => rpc_post rpc (request_body method params) w = (Ok a, w')
  | Err _ => net_lost w' = true
  end.
Proof.
  unfold send_request. pose proof (lost_stays rpc (request_body method params) w) as Hl.
  destruct (rpc_post _ _ w) as [[a|e] w1] eqn:E; intros [= <- <-]; [done|].
  split; [done|]. by eapply no_answer_lost.
Qed.

Lemma prioritise_spec rpc txid d w r w' :
  prioritise_transaction rpc txid d w = (r, w') →
  (net_lost w = true → net_lost w' = true) ∧
  (net_lost w' = false → ∀ t, node_delta w' t =
     match r with
     | Ok _ => if bool_decide (t = txid) then clamp_i64 (node_delta w t + d) else node_delta w t
     | Err _ => node_delta w t
     end).
Proof.
  unfold prioritise_transaction. destruct (send_request _ _ _ w) as [[[status text]|e] w1] eqn:Hs.
  2: { intros [= <- <-]. apply send_request_spec in Hs as [Hl Hlost]. split; [done|congruence]. }
  apply send_request_spec in Hs as [Hl Hpost]. intros H.
  assert (w1 = w') as ->.
  { repeat case_match; by simplify_eq. }
  split; [done|]. intros _ t. rewrite (node_prioritises _ _ _ _ _ _ _ t Hpost).
  unfold answers_true, from_response, rpc_decode in *.
  destruct (rpc_response_from_str text) as [[result error]|].
  2: { destruct (is_success status); simplify_eq; cbn; by rewrite andb_false_r. }
  cbn in H. destruct (is_success status); cbn in *.
  2: { simplify_eq. by rewrite andb_false_r. }
  destruct error as [e|]; cbn in *.
  { simplify_eq. destruct result as [[]|]; cbn; try destruct b; by rewrite ?andb_false_r. }
  destruct result as [[| [] | | | | |]|]; cbn in *; simplify_eq; by rewrite ?andb_false_r, ?andb_true_r.
Qed.

Lemma submit_quiet rpc tx w r w' : submit_transaction rpc tx w = (r, w') → quiet w w'.
Proof.
  unfold submit_transaction. destruct (send_request _ _ _ w) as [[[status text]|e] w1] eqn:Hs;
    apply send_request_spec in Hs as [Hl Hpost]; intros H.
  - assert (w1 = w') as -> by (repeat case_match; by simplify_eq).
    split; [done|]. intros _ t. by eapply node_submits.
  - simplify_eq. split; [done|congruence].
Qed.
Lemma get_quiet url w r w' : http_get url w = (r, w') → quiet w w'.
Proof.
  intros H. pose proof (get_keeps_lost url w) as Hl. pose proof (get_keeps_deltas url w) as Hd.
  rewrite H in Hl, Hd. cbn in *. split; [congruence|done].
Qed.
Lemma fetch_quiet url txid w r w' :
  fetch_mempool_space_transaction_from url txid w = (r, w') → quiet w w'.
Proof.
  unfold fetch_mempool_space_transaction_from. destruct (http_get _ w) as [[[status text]|e] w1] eqn:Hs;
    apply get_quiet in Hs; intros H; [|by simplify_eq].
  assert (w1 = w') as -> by (repeat case_match; by simplify_eq). done.
Qed.
Lemma accelerations_quiet w r w' :
  fetch_mempool_space_accelerations w = (r, w') → quiet w w'.
Proof.
  unfold fetch_mempool_space_accelerations. destruct (http_get _ w) as [[[status text]|e] w1] eqn:Hs;
    apply get_quiet in Hs; intros H; [|by simplify_eq].
  assert (w1 = w') as -> by (repeat case_match; by simplify_eq). done.
Qed.

Lemma prio_tx_of_spec k p tx :
  prio_tx_of (k, p) = Ok tx →
  parse_txid k = Some (pt_txid tx) ∧ json_get (lit "fee_delta") p ≫= as_i64 = Some (pt_fee_delta tx).
Proof. unfold prio_tx_of. intros H. repeat case_match; simplify_eq; done. Qed.

Lemma collect_prio_txs_spec entries : ∀ acc m,
  collect_prio_txs entries acc = Ok m →
  (∀ t tx, m !! t = Some tx → acc !! t = Some tx ∨
     ∃ k p, (k, p) ∈ entries ∧ prio_tx_of (k, p) = Ok tx ∧ pt_txid tx = t) ∧
  (∀ t, is_Some (acc !! t) ∨ (∃ k p, (k, p) ∈ entries ∧ parse_txid k = Some t) → is_Some (m !! t)).
Proof.
  induction entries as [|[k p] entries IH]; intros acc m; cbn [collect_prio_txs].
  { intros [= ->]. split; [eauto|]. intros t [H|(k & p & H%elem_of_nil & _)]; done. }
  destruct (prio_tx_of (k, p)) as [tx|e] eqn:Htx; [|done]. intros H.
  destruct (IH _ _ H) as [Hm Hs]. split.
  - intros t tx' Ht. destruct (Hm t tx' Ht) as [Hin|(k' & p' & Hin & Hok)].
    + apply lookup_insert_Some in Hin as [[<- <-]|[_ Hin]]; [|by left].
      right. exists k, p. split; [apply list_elem_of_here|done].
    + right. exists k', p'. split; [by apply list_elem_of_further|done].
  - intros t Ht. apply Hs. destruct Ht as [Ht|(k' & p' & [Heq|Hin]%elem_of_cons & Hp)].
    + left. destruct (decide (pt_txid tx = t)) as [->|Hne]; [by rewrite lookup_insert_eq|].
      by rewrite lookup_insert_ne.
    + injection Heq as <- <-. apply prio_tx_of_spec in Htx as [Htx _]. left.
      rewrite Hp in Htx. injection Htx as ->. by rewrite lookup_insert_eq.
    + right. eauto.
Qed.

(** What the listing says of the node. *)
Lemma listing_spec rpc w r w' :
  get_prioritised_transactions rpc w = (r, w') →
  quiet w w' ∧
  ∀ m, r = Ok m → ∀ t,
    node_delta w' t = from_option pt_fee_delta 0%Z (m !! t) ∧
    ∀ tx, m !! t = Some tx → pt_txid tx = t.
Proof.
  unfold get_prioritised_transactions. destruct (send_request _ _ _ w) as [[[status text]|e] w1] eqn:Hs;
    apply send_request_spec in Hs as [Hl Hpost]; intros H.
  2: { simplify_eq. split; [split; [done|congruence]|done]. }
  assert (w1 = w') as -> by (repeat case_match; by simplify_eq).
  split. { split; [done|]. intros _ t. by destruct (node_lists _ _ _ _ _ [] t Hpost). }
  intros m ->. unfold from_response, rpc_decode in H.
  destruct (rpc_response_from_str text) as [[result error]|] eqn:Htext; [|repeat case_match; simplify_eq].
  cbn in H. destruct (is_success status); cbn in H; [|done]. destruct error; [done|].
  destruct result as [[| | | | | |fields]|]; try done. injection H as H.
  apply collect_prio_txs_spec in H as [Hm Hs]. intros t.
  destruct (node_lists _ _ _ _ _ fields t Hpost) as [-> Hlist].
  destruct (Hlist Htext) as [Hall Heach].
  split.
  - destruct (m !! t) as [tx|] eqn:Ht; cbn.
    + destruct (Hm t tx Ht) as [Hin|(k & p & Hin & Hok & <-)]; [by rewrite lookup_empty in Hin|].
      apply prio_tx_of_spec in Hok as [Hk Hp]. rewrite (Heach k p Hin Hk) in Hp. cbn in Hp.
      by case_match; simplify_eq.
    + destruct (decide (node_delta w t = 0%Z)) as [|Hne]; [done|].
      destruct (Hs t) as [x Hx]; [right; by apply Hall|congruence].
  - intros tx Ht. destruct (Hm t tx Ht) as [Hin|(k & p & _ & _ & Heq)]; [by rewrite lookup_empty in Hin|done].
Qed.

(** *** One transaction *)

Definition delta_in (t : Txid) (store : TransactionStore Z) : Z := default 0%Z (store !! t).
(** The stores of [s] account for the delta of [t] at the node. *)
Definition follows (t : Txid) (s : PrioWorld) : Prop :=
  net_lost (pw_net s) = false →
  (pw_manually_prioritized s !! t = None ∨ pw_mempool_space_accelerated s !! t = None) ∧
  node_delta (pw_net s) t =
    (delta_in t (pw_manually_prioritized s) + delta_in t (pw_mempool_space_accelerated s))%Z.
(** A change that leaves [t] alone. *)
Record same_at (t : Txid) (s s' : PrioWorld) : Prop := {
  sa_manual : pw_manually_prioritized s' !! t = pw_manually_prioritized s !! t;
  sa_accelerated : pw_mempool_space_accelerated s' !! t = pw_mempool_space_accelerated s !! t;
  sa_lost : net_lost (pw_net s) = true → net_lost (pw_net s') = true;
  sa_delta : net_lost (pw_net s') = false → node_delta (pw_net s') t = node_delta (pw_net s) t
}.
Lemma same_at_refl t s : same_at t s s.
Proof. by split. Qed.
Lemma same_at_trans t s1 s2 s3 : same_at t s1 s2 → same_at t s2 s3 → same_at t s1 s3.
Proof.
  intros [] []. split; [congruence|congruence|eauto|]. intros Hl.
  destruct (net_lost (pw_net s2)) eqn:E; [|rewrite sa_delta1, sa_delta0; done].
  by rewrite sa_lost1 in Hl.
Qed.
Lemma same_at_follows t s s' : same_at t s s' → follows t s → follows t s'.
Proof.
  intros [Hm Ha Hl Hd] Hf Hlost. unfold delta_in. rewrite Hm, Ha, (Hd Hlost). apply Hf.
  destruct (net_lost (pw_net s)) eqn:E; [|done]. by rewrite Hl in Hlost.
Qed.
Lemma on_net_spec {A} (f : NetWorld → A * NetWorld) s a s' :
  on_net f s = (a, s') → ∃ w', f (pw_net s) = (a, w') ∧ s' = set_pw_net w' s.
Proof. unfold on_net. destruct (f (pw_net s)) as [x w]. intros [= <- <-]. eauto. Qed.
Lemma same_at_net t w s : quiet (pw_net s) w → same_at t s (set_pw_net w s).
Proof. intros [Hl Hd]. split; [done..|]. cbn. intros H. by apply Hd. Qed.

(** Sending a delta changes one transaction only. *)
Lemma prioritise_same_at t rpc txid d s r s' :
  on_net (prioritise_transaction rpc txid d) s = (r, s') →
  (t ≠ txid ∨ ∃ e, r = Err e) → same_at t s s'.
Proof.
  intros (w & Hp & ->)%on_net_spec Hne. apply prioritise_spec in Hp as [Hl Hd].
  split; [done..|]. cbn. intros H. rewrite (Hd H t). destruct Hne as [Hne|[e ->]]; [|done].
  rewrite bool_decide_eq_false_2 by done. by destruct r.
Qed.
Lemma prioritise_changes rpc txid d s s' :
  on_net (prioritise_transaction rpc txid d) s = (Ok tt, s') →
  (net_lost (pw_net s) = true → net_lost (pw_net s') = true) ∧
  (net_lost (pw_net s') = false →
   node_delta (pw_net s') txid = clamp_i64 (node_delta (pw_net s) txid + d)) ∧
  ∃ w', s' = set_pw_net w' s.
Proof.
  intros (w & Hp & ->)%on_net_spec. apply prioritise_spec in Hp as [Hl Hd].
  split; [done|]. split; [|eauto]. intros H. by rewrite (Hd H), bool_decide_eq_true_2.
Qed.
Lemma submit_same_at t rpc tx s r s' :
  on_net (submit_transaction rpc tx) s = (r, s') → same_at t s s'.
Proof. intros (w & Hp & ->)%on_net_spec. by eapply same_at_net, submit_quiet. Qed.
Lemma fetch_same_at t url txid s r s' :
  on_net (fetch_mempool_space_transaction_from url txid) s = (r, s') → same_at t s s'.
Proof. intros (w & Hp & ->)%on_net_spec. by eapply same_at_net, fetch_quiet. Qed.

Lemma update_existing_lookup (t txid : Txid) (v : Z) (store : TransactionStore Z) :
  (store_update_existing txid v store).2 !! t =
    if decide (txid = t) then (λ _, v) <$> store !! t else store !! t.
Proof.
  unfold store_update_existing. case_decide as Ht; destruct (store !! txid) eqn:E; cbn; subst.
  - by rewrite lookup_insert_eq, E.
  - by rewrite E.
  - by rewrite lookup_insert_ne.
  - done.
Qed.
Lemma update_both_other t txid v s : txid ≠ t → same_at t s (update_both txid v s).
Proof.
  intros Hne. unfold update_both. split; [..|done|done]; cbn;
    rewrite update_existing_lookup; by case_decide.
Qed.
(** Writing the node's delta to the stores that track [t]. *)
Lemma update_both_self t v s :
  follows t s → (net_lost (pw_net s) = false → node_delta (pw_net s) t = v) →
  follows t (update_both t v s).
Proof.
  intros Hf Hv Hl. cbn in *. destruct (Hf Hl) as [Hor Hd]. rewrite (Hv Hl) in *. unfold delta_in in *.
  rewrite !update_existing_lookup, !decide_True by done.
  destruct (pw_manually_prioritized s !! t), (pw_mempool_space_accelerated s !! t); cbn in *; naive_solver lia.
Qed.

(** *** The operations *)

Lemma reject_same_at t rpc tx s : pt_txid tx ≠ t → same_at t s (reject_transaction rpc tx s).
Proof.
  intros Hne. unfold reject_transaction. set (s1 := set_pw_bad _ s).
  assert (same_at t s s1) as H1 by done.
  destruct (on_net _ s1) as [[[]|e] s2] eqn:Hp; (eapply same_at_trans; [exact H1|]);
    apply (prioritise_same_at t) in Hp; eauto.
  eapply same_at_trans; [exact Hp|]. by apply update_both_other.
Qed.
Lemma reconcile_same_at t rpc url s tx :
  pt_txid tx ≠ t → same_at t s (reconcile_transaction rpc url s tx).
Proof.
  intros Hne. unfold reconcile_transaction. destruct (store_get _ _); [apply same_at_refl|].
  pose proof (update_both_other t (pt_txid tx) (pt_fee_delta tx) s Hne) as H1.
  set (s1 := update_both _ _ s) in *. destruct (_ || _); [done|].
  destruct (on_net _ s1) as [[fetched|e] s2] eqn:Hf; apply (fetch_same_at t) in Hf;
    (eapply same_at_trans; [exact H1|]); [|done]. eapply same_at_trans; [exact Hf|].
  destruct (on_net _ s2) as [[x|e] s3] eqn:Hs; apply (submit_same_at t) in Hs; [done|].
  eapply same_at_trans; [exact Hs|]. by apply reject_same_at.
Qed.
Lemma reject_follows rpc tx s :
  follows (pt_txid tx) s →
  (net_lost (pw_net s) = false → node_delta (pw_net s) (pt_txid tx) = pt_fee_delta tx) →
  (0 < pt_fee_delta tx)%Z → follows (pt_txid tx) (reject_transaction rpc tx s).
Proof.
  intros Hf Hv Hpos. unfold reject_transaction. set (s1 := set_pw_bad _ s).
  assert (follows (pt_txid tx) s1) as H1 by done.
  destruct (on_net _ s1) as [[[]|e] s2] eqn:Hp.
  2: { eapply same_at_follows; [eapply prioritise_same_at; eauto|done]. }
  apply prioritise_changes in Hp as (Hl & Hd & w' & ->). intros Hlost. cbn in *.
  specialize (Hd Hlost). assert (net_lost (pw_net s) = false) as Hs.
  { destruct (net_lost (pw_net s)); [by rewrite Hl in Hlost|done]. }
  pose proof (node_delta_range (pw_net s) (pt_txid tx)) as Hr. specialize (Hv Hs). rewrite Hv in *.
  rewrite wrap_i64_id in Hd by (unfold in_i64, i64_min, i64_max in *; lia).
  rewrite Z.add_opp_diag_r, clamp_i64_id in Hd by (unfold in_i64, i64_min, i64_max; lia).
  rewrite Hd. destruct (Hf Hs) as [Hor _]. unfold delta_in.
  rewrite !update_existing_lookup, !decide_True by done.
  destruct (pw_manually_prioritized s !! _), (pw_mempool_space_accelerated s !! _); cbn in *; naive_solver lia.
Qed.
Lemma reconcile_follows rpc url s tx :
  follows (pt_txid tx) s →
  (net_lost (pw_net s) = false → node_delta (pw_net s) (pt_txid tx) = pt_fee_delta tx) →
  follows (pt_txid tx) (reconcile_transaction rpc url s tx).
Proof.
  intros Hf Hv. unfold reconcile_transaction. destruct (store_get _ _); [done|].
  pose proof (update_both_self _ _ s Hf Hv) as H1. set (s1 := update_both _ _ s) in *.
  assert (net_lost (pw_net s1) = false → node_delta (pw_net s1) (pt_txid tx) = pt_fee_delta tx) as Hv1 by done.
  clearbody s1. destruct (Z.leb_spec (pt_fee_delta tx) 0); [done|]. destruct (pt_in_mempool tx); [done|].
  cbn. destruct (on_net _ s1) as [[fetched|e] s2] eqn:Hf2; apply (fetch_same_at (pt_txid tx)) in Hf2;
    [|by eapply same_at_follows].
  destruct (on_net _ s2) as [[x|e] s3] eqn:Hs; apply (submit_same_at (pt_txid tx)) in Hs;
    (pose proof (same_at_trans _ _ _ _ Hf2 Hs) as H13); [by eapply same_at_follows|].
  apply reject_follows; [by eapply same_at_follows| |done]. destruct H13 as [_ _ Hl Hd].
  intros Hl3. rewrite (Hd Hl3). apply Hv1. destruct (net_lost (pw_net s1)); [by rewrite Hl in Hl3|done].
Qed.

(** A fold in which one element at most works on [t]. *)
Lemma reconcile_fold_follows t rpc url txs : ∀ s,
  NoDup (map pt_txid txs) → follows t s →
  (∀ tx, tx ∈ txs → pt_txid tx = t → net_lost (pw_net s) = false →
     node_delta (pw_net s) t = pt_fee_delta tx) →
  follows t (fold_left (reconcile_transaction rpc url) txs s).
Proof.
  induction txs as [|tx txs IH]; intros s Hnd Hf Hv; [done|]. cbn [fold_left].
  apply NoDup_cons in Hnd as [Hnin Hnd]. destruct (decide (pt_txid tx = t)) as [<-|Hne].
  - apply IH; [done|apply reconcile_follows; [done|]|].
    + intros Hl. by apply Hv; [apply list_elem_of_here|..].
    + intros tx' Hin Heq. destruct Hnin. rewrite <- Heq. by apply list_elem_of_fmap_2.
  - pose proof (reconcile_same_at t rpc url s tx Hne) as Hsame.
    apply IH; [done|by eapply same_at_follows|]. intros tx' Hin Heq Hl.
    destruct Hsame as [_ _ Hls Hd]. rewrite (Hd Hl). eapply Hv; [by apply list_elem_of_further|done|].
    destruct (net_lost (pw_net s)); [by rewrite Hls in Hl|done].
Qed.

Lemma remove_unlisted_lookup (m : gmap Txid PrioTx) (store : TransactionStore Z) (t : Txid) :
  remove_unlisted m store !! t = match m !! t with Some _ => store !! t | None => None end.
Proof.
  unfold remove_unlisted, store_snapshot_txids.
  assert (∀ (l : list Txid) (st : gmap Txid Z), (∀ t', t' ∈ dom st → t' ∈ l ∨ is_Some (m !! t')) →
    fold_left (λ store txid, match m !! txid with Some _ => store | None => store_remove txid store end) l st !! t =
    match m !! t with Some _ => st !! t | None => None end) as H.
  { induction l as [|x l IH]; intros st Hdom; cbn [fold_left].
    - destruct (m !! t) eqn:Ht; [done|]. apply not_elem_of_dom. intros Hin.
      destruct (Hdom t Hin) as [Hx%elem_of_nil|Hx]; [done|]. rewrite Ht in Hx. by apply is_Some_None in Hx.
    - destruct (m !! x) eqn:Hx.
      + apply IH. intros t' Ht'. destruct (Hdom t' Ht') as [[->|]%elem_of_cons|]; eauto.
      + rewrite IH.
        * destruct (m !! t) eqn:Ht; [|done]. unfold store_remove. rewrite lookup_delete_ne; congruence.
        * unfold store_remove. intros t'. rewrite dom_delete, elem_of_difference, elem_of_singleton. intros [Ht' Hne].
          destruct (Hdom t' Ht') as [[->|]%elem_of_cons|]; [done|by left|by right]. }
  apply H. intros t' Ht'. left. by apply elem_of_elements.
Qed.

(** The entries of a [HashMap], in any order. *)
Definition values_of (into_values : gmap Txid PrioTx → list PrioTx) : Prop :=
  ∀ m, into_values m ≡ₚ (map_to_list m).*2.
Definition entries_of (iter : gmap Txid Z → list (Txid * Z)) : Prop :=
  ∀ m, iter m ≡ₚ map_to_list m.

Lemma values_in (into_values : gmap Txid PrioTx → list PrioTx) (m : gmap Txid PrioTx) (tx : PrioTx) :
  values_of into_values → tx ∈ into_values m ↔ ∃ t, m !! t = Some tx.
Proof.
  intros Hv. rewrite (Hv m), list_elem_of_fmap. split.
  - intros ([t tx'] & -> & Hin%elem_of_map_to_list). eauto.
  - intros [t Ht]. exists (t, tx). split; [done|]. by apply elem_of_map_to_list.
Qed.
Lemma values_NoDup (into_values : gmap Txid PrioTx → list PrioTx) (m : gmap Txid PrioTx) :
  values_of into_values → (∀ t tx, m !! t = Some tx → pt_txid tx = t) →
  NoDup (map pt_txid (into_values m)).
Proof.
  intros Hv Hk. assert (map pt_txid (into_values m) ≡ₚ (map_to_list m).*1) as ->.
  2: apply NoDup_fst_map_to_list.
  rewrite (Permutation_map pt_txid (Hv m)). change (map pt_txid) with (fmap (M := list) pt_txid).
  rewrite <- list_fmap_compose. erewrite (Forall_fmap_ext_1 _ fst); [done|].
  apply Forall_forall. intros [t tx] Hin%elem_of_map_to_list. cbn. by apply Hk.
Qed.

Lemma reconcile_all_follows (t : Txid) (into_values : gmap Txid PrioTx → list PrioTx) rpc url s :
  values_of into_values → follows t s →
  follows t (reconcile_node_prioritized_transactions into_values rpc url s).
Proof.
  intros Hval Hf. unfold reconcile_node_prioritized_transactions.
  destruct (on_net _ s) as [[m|e] s1] eqn:Hl; apply on_net_spec in Hl as (w & Hl & ->);
    apply listing_spec in Hl as [Hq Hm].
  2: { eapply same_at_follows; [by apply same_at_net|done]. }
  specialize (Hm m eq_refl). pose proof (same_at_follows _ _ _ (same_at_net t w s Hq) Hf) as H1.
  apply reconcile_fold_follows.
  - apply values_NoDup; [done|]. intros t' tx Ht. by apply (Hm t').
  - intros Hlost. destruct (H1 Hlost) as [Hor Hd]. destruct (Hm t) as [Hdelta _]. cbn in *.
    unfold delta_in in *. rewrite !remove_unlisted_lookup. destruct (m !! t); [done|].
    split; [by left|]. by rewrite Hdelta.
  - intros tx Hin Heq _. cbn. apply values_in in Hin as [t' Ht']; [|done].
    destruct (Hm t') as [Hd Hk]. rewrite (Hk tx Ht') in Heq. subst t'. by rewrite Hd, Ht'.
Qed.

(** *** What a reconciliation does, whoever changed the deltas before *)

(** The stores that hold [t] in [s] hold it in [s'] with the delta [d], the others do not. *)
Definition tracked_as (t : Txid) (d : Z) (s s' : PrioWorld) : Prop :=
  pw_manually_prioritized s' !! t = (λ _, d) <$> pw_manually_prioritized s !! t ∧
  pw_mempool_space_accelerated s' !! t = (λ _, d) <$> pw_mempool_space_accelerated s !! t.

Lemma update_both_tracked t d s : tracked_as t d s (update_both t d s).
Proof. split; cbn; rewrite update_existing_lookup; by rewrite decide_True. Qed.
Lemma tracked_as_again t d d' s s1 s2 :
  tracked_as t d s s1 → tracked_as t d' s1 s2 → tracked_as t d' s s2.
Proof. intros [H1 H2] [H3 H4]. split; rewrite ?H3, ?H4, ?H1, ?H2; by rewrite <-option_fmap_compose. Qed.
Lemma tracked_as_same t d s s1 s2 : tracked_as t d s s1 → same_at t s1 s2 → tracked_as t d s s2.
Proof. intros [H1 H2] [H3 H4 _ _]. split; congruence. Qed.
Lemma tracked_as_before t d s s1 s2 : same_at t s s1 → tracked_as t d s1 s2 → tracked_as t d s s2.
Proof. intros [H3 H4 _ _] [H1 H2]. split; congruence. Qed.
Lemma same_at_not_lost t s s' :
  same_at t s s' → net_lost (pw_net s') = false → net_lost (pw_net s) = false.
Proof. intros [_ _ Hl _] H. destruct (net_lost (pw_net s)); [by rewrite Hl in H|done]. Qed.

(** A listed transaction that is not known to be bad ends with the node's delta in the stores
    that track it, also when it is refused on the way. *)
Lemma reject_tracked rpc tx s s0 :
  tracked_as (pt_txid tx) (pt_fee_delta tx) s0 s →
  (net_lost (pw_net s) = false → node_delta (pw_net s) (pt_txid tx) = pt_fee_delta tx) →
  let s' := reject_transaction rpc tx s in
  (net_lost (pw_net s) = true → net_lost (pw_net s') = true) ∧
  ((0 < pt_fee_delta tx)%Z → net_lost (pw_net s') = false →
   tracked_as (pt_txid tx) (node_delta (pw_net s') (pt_txid tx)) s0 s').
Proof.
  intros Ht Hv. cbn zeta. unfold reject_transaction. set (s1 := set_pw_bad _ s).
  assert (tracked_as (pt_txid tx) (pt_fee_delta tx) s0 s1) as Ht1 by done.
  destruct (on_net _ s1) as [[[]|e] s2] eqn:Hp.
  - apply prioritise_changes in Hp as (Hl & Hd & w' & ->). split; [exact Hl|]. intros Hpos Hlost.
    cbn in Hd, Hlost, Hl |- *. specialize (Hd Hlost).
    assert (net_lost (pw_net s) = false) as Hs by (destruct (net_lost (pw_net s)); [by rewrite Hl in Hlost|done]).
    pose proof (node_delta_range (pw_net s) (pt_txid tx)) as Hr. specialize (Hv Hs). rewrite Hv in *.
    rewrite wrap_i64_id in Hd by (unfold in_i64, i64_min, i64_max in *; lia).
    rewrite Z.add_opp_diag_r, clamp_i64_id in Hd by (unfold in_i64, i64_min, i64_max; lia).
    rewrite Hd. eapply tracked_as_again; [|apply update_both_tracked]. exact Ht1.
  - apply (prioritise_same_at (pt_txid tx)) in Hp; [|eauto]. split; [apply Hp|]. intros _ Hlost.
    pose proof (same_at_not_lost _ _ _ Hp Hlost) as Hs. pose proof (sa_delta _ _ _ Hp Hlost) as Hd.
    cbn in Hs, Hd. rewrite Hd, (Hv Hs). by eapply tracked_as_same.
Qed.
Lemma reconcile_tracked rpc url s tx :
  pw_bad s !! pt_txid tx = None →
  (net_lost (pw_net s) = false → node_delta (pw_net s) (pt_txid tx) = pt_fee_delta tx) →
  let s' := reconcile_transaction rpc url s tx in
  (net_lost (pw_net s) = true → net_lost (pw_net s') = true) ∧
  (net_lost (pw_net s') = false →
   tracked_as (pt_txid tx) (node_delta (pw_net s') (pt_txid tx)) s s').
Proof.
  intros Hbad Hv. cbn zeta. unfold reconcile_transaction, store_get. rewrite Hbad.
  pose proof (update_both_tracked (pt_txid tx) (pt_fee_delta tx) s) as H1.
  set (s1 := update_both _ _ s) in *.
  assert (net_lost (pw_net s1) = net_lost (pw_net s) ∧
    (net_lost (pw_net s1) = false → node_delta (pw_net s1) (pt_txid tx) = pt_fee_delta tx))
    as [El Hv1] by done. clearbody s1. rewrite <-El.
  assert (∀ s2, same_at (pt_txid tx) s1 s2 →
    (net_lost (pw_net s1) = true → net_lost (pw_net s2) = true) ∧
    (net_lost (pw_net s2) = false →
     tracked_as (pt_txid tx) (node_delta (pw_net s2) (pt_txid tx)) s s2)) as Hend.
  { intros s2 H2. split; [apply H2|]. intros Hl. rewrite (sa_delta _ _ _ H2 Hl), Hv1.
    - by eapply tracked_as_same.
    - by eapply same_at_not_lost. }
  destruct (Z.leb_spec (pt_fee_delta tx) 0); [apply Hend, same_at_refl|].
  destruct (pt_in_mempool tx); [apply Hend, same_at_refl|]. cbn [orb].
  destruct (on_net _ s1) as [[fetched|e] s2] eqn:Hf2; apply (fetch_same_at (pt_txid tx)) in Hf2;
    [|by apply Hend].
  destruct (on_net _ s2) as [[x|e] s3] eqn:Hs; apply (submit_same_at (pt_txid tx)) in Hs;
    (pose proof (same_at_trans _ _ _ _ Hf2 Hs) as H13); [by apply Hend|].
  destruct (reject_tracked rpc tx s3 s) as [Hl Ht].
  - by eapply tracked_as_same.
  - intros Hl3. rewrite (sa_delta _ _ _ H13 Hl3). by apply Hv1; eapply same_at_not_lost.
  - split; [|auto]. intros H0. apply Hl. by apply H13.
Qed.
Lemma reconcile_bad rpc url s tx t :
  pt_txid tx ≠ t → pw_bad (reconcile_transaction rpc url s tx) !! t = pw_bad s !! t.
Proof.
  intros Hne. unfold reconcile_transaction, reject_transaction, on_net. destruct (store_get _ _); [done|].
  destruct (_ || _); [done|].
  destruct (fetch_mempool_space_transaction_from _ _ _) as [[fetched|e] w1]; [|done].
  destruct (submit_transaction _ _ _) as [[x|e] w2]; [done|].
  destruct (prioritise_transaction _ _ _ _) as [[x|e'] w3]; cbn; unfold store_record;
    by rewrite lookup_insert_ne.
Qed.
Lemma reconcile_fold_same t rpc url txs : ∀ s,
  t ∉ map pt_txid txs →
  same_at t s (fold_left (reconcile_transaction rpc url) txs s) ∧
  pw_bad (fold_left (reconcile_transaction rpc url) txs s) !! t = pw_bad s !! t.
Proof.
  induction txs as [|tx txs IH]; intros s Hn; [split; [apply same_at_refl|done]|].
  cbn [map] in Hn. apply not_elem_of_cons in Hn as [Hne Hn]. cbn [fold_left].
  destruct (IH (reconcile_transaction rpc url s tx) Hn) as [H1 H2]. split.
  - eapply same_at_trans; [by apply reconcile_same_at|exact H1].
  - rewrite H2. by apply reconcile_bad.
Qed.

(** What a reconciliation leaves of [t], when the node listed [m]. *)
Definition reconciled (m : gmap Txid PrioTx) (t : Txid) (s s' : PrioWorld) : Prop :=
  match m !! t with
  | None => node_delta (pw_net s') t = 0%Z ∧
      pw_manually_prioritized s' !! t = None ∧ pw_mempool_space_accelerated s' !! t = None
  | Some tx =>
      match pw_bad s !! t with
      | None => tracked_as t (node_delta (pw_net s') t) s s'
      | Some _ => node_delta (pw_net s') t = pt_fee_delta tx ∧
          pw_manually_prioritized s' !! t = pw_manually_prioritized s !! t ∧
          pw_mempool_space_accelerated s' !! t = pw_mempool_space_accelerated s !! t
      end
  end.

Lemma reconcile_all_reconciled (into_values : gmap Txid PrioTx → list PrioTx) rpc url s m w t :
  values_of into_values → get_prioritised_transactions rpc (pw_net s) = (Ok m, w) →
  let s' := reconcile_node_prioritized_transactions into_values rpc url s in
  net_lost (pw_net s') = false → reconciled m t s s'.
Proof.
  intros Hval Hlist. cbn zeta. unfold reconcile_node_prioritized_transactions, on_net. rewrite Hlist.
  apply listing_spec in Hlist as [_ Hm]. specialize (Hm m eq_refl).
  set (s1 := set_pw_accelerated _ _).
  assert (∀ t, node_delta (pw_net s1) t = from_option pt_fee_delta 0%Z (m !! t)) as Hd1
    by (intros t'; apply (Hm t')).
  assert (pw_bad s1 = pw_bad s) as Hb1 by done.
  assert (∀ t, pw_manually_prioritized s1 !! t =
      match m !! t with Some _ => pw_manually_prioritized s !! t | None => None end ∧
    pw_mempool_space_accelerated s1 !! t =
      match m !! t with Some _ => pw_mempool_space_accelerated s !! t | None => None end) as Hs1
    by (intros t'; split; cbn; apply remove_unlisted_lookup).
  clearbody s1. intros Hlost. destruct (Hs1 t) as [Hma Hac]. specialize (Hd1 t).
  pose proof (values_NoDup into_values m Hval (λ t' tx H, proj2 (Hm t') tx H)) as Hnd.
  unfold reconciled. destruct (m !! t) as [tx|] eqn:Ht; cbn in Hd1.
  - pose proof (proj2 (Hm t) tx Ht) as Hk.
    assert (tx ∈ into_values m) as Hin by (apply values_in; eauto).
    apply list_elem_of_split in Hin as (l1 & l2 & El). rewrite El in Hnd, Hlost |- *.
    rewrite map_app in Hnd. cbn [map] in Hnd. rewrite Hk in Hnd.
    apply NoDup_app in Hnd as (_ & Hn1 & [Hn2 _]%NoDup_cons).
    assert (t ∉ map pt_txid l1) as Hn1' by (intros H; apply (Hn1 t H); left).
    rewrite fold_left_app in Hlost |- *. cbn [fold_left] in Hlost |- *.
    destruct (reconcile_fold_same t rpc url l1 s1 Hn1') as [H1 Hb2].
    set (s2 := fold_left _ l1 s1) in *. clearbody s2.
    destruct (reconcile_fold_same t rpc url l2 (reconcile_transaction rpc url s2 tx) Hn2) as [H3 _].
    set (s4 := fold_left _ l2 _) in *. clearbody s4.
    pose proof (same_at_not_lost _ _ _ H3 Hlost) as Hlost3.
    rewrite Hb1 in Hb2. destruct (pw_bad s !! t) as [b|] eqn:Hbad.
    + unfold reconcile_transaction, store_get in H3, Hlost3. rewrite Hk, Hb2 in H3, Hlost3.
      pose proof (same_at_trans _ _ _ _ H1 H3) as [H4 H5 _ H6].
      rewrite (H6 Hlost), H4, H5. done.
    + rewrite <-Hk in Hb2, H1 |- *. destruct (reconcile_tracked rpc url s2 tx Hb2) as [Hl Hx].
      { intros Hl2. rewrite (sa_delta _ _ _ H1 Hl2), Hk. exact Hd1. }
      rewrite <-Hk in H3. rewrite (sa_delta _ _ _ H3 Hlost).
      assert (tracked_as (pt_txid tx) (node_delta (pw_net (reconcile_transaction rpc url s2 tx))
        (pt_txid tx)) s1 s4) as [H5 H6].
      { eapply tracked_as_same; [|exact H3]. eapply tracked_as_before; [exact H1|by apply Hx]. }
      rewrite Hk in *. split; [by rewrite H5, Hma|by rewrite H6, Hac].
  - destruct (reconcile_fold_same t rpc url (into_values m) s1) as [[H4 H5 _ H6] _].
    { intros (tx & -> & [t' Ht']%values_in)%list_elem_of_fmap; [|done].
      rewrite (proj2 (Hm t') tx Ht') in Ht. congruence. }
    by rewrite (H6 Hlost), H4, H5.
Qed.

Lemma adjust_same_at t rpc cached txid d s :
  txid ≠ t → same_at t s (adjust_acceleration rpc cached txid d s).
Proof.
  intros Hne. unfold adjust_acceleration. destruct (_ =? _)%Z; [apply same_at_refl|].
  destruct (on_net _ s) as [[[]|e] s1] eqn:Hp; apply (prioritise_same_at t) in Hp; eauto.
  eapply same_at_trans; [exact Hp|]. split; [done| |done|done]. cbn. unfold store_record.
  by rewrite lookup_insert_ne.
Qed.
Lemma submit_accelerated_same_at t rpc txid s : same_at t s (submit_accelerated rpc txid s).
Proof.
  unfold submit_accelerated. destruct (on_net _ s) as [[tx|e] s1] eqn:Hf;
    apply (fetch_same_at t) in Hf; [|done].
  destruct (on_net _ s1) as [r s2] eqn:Hs. apply (submit_same_at t) in Hs. by eapply same_at_trans.
Qed.
Lemma poll_acceleration_same_at t rpc cached s txid d :
  txid ≠ t → same_at t s (poll_acceleration rpc cached s (txid, d)).
Proof.
  intros Hne. unfold poll_acceleration. pose proof (adjust_same_at t rpc cached txid d s Hne).
  destruct (_ !! txid); [done|]. eapply same_at_trans; [done|apply submit_accelerated_same_at].
Qed.
Lemma poll_acceleration_follows (rpc : BitcoindRpc) (cached : gmap Txid Z) (s : PrioWorld) (txid : Txid) (d : Z) :
  follows txid s → pw_manually_prioritized s !! txid = None →
  cached !! txid = pw_mempool_space_accelerated s !! txid →
  in_i64 d → in_i64 (d - default 0%Z (cached !! txid)) →
  follows txid (poll_acceleration rpc cached s (txid, d)).
Proof.
  intros Hf Hman Hc Hd Hr. unfold poll_acceleration.
  assert (follows txid (adjust_acceleration rpc cached txid d s)) as H1.
  { unfold adjust_acceleration. rewrite wrap_i64_id by done. destruct (Z.eqb_spec (d - default 0%Z (cached !! txid)) 0); [done|].
    destruct (on_net _ s) as [[[]|e] s1] eqn:Hp.
    2: { eapply same_at_follows; [eapply prioritise_same_at; eauto|done]. }
    apply prioritise_changes in Hp as (Hl & Hdelta & w & ->). intros Hlost. cbn in *.
    split; [by left|]. rewrite (Hdelta Hlost). unfold delta_in, store_record. rewrite Hman, lookup_insert_eq. cbn.
    assert (net_lost (pw_net s) = false) as Hs.
    { destruct (net_lost (pw_net s)); [by rewrite Hl in Hlost|done]. }
    destruct (Hf Hs) as [_ ->]. unfold delta_in. rewrite Hman, <- Hc. cbn [default from_option id].
    rewrite clamp_i64_id; [lia|]. replace (_ + _ + _)%Z with d by lia. done. }
  destruct (cached !! txid); [done|]. eapply same_at_follows; [apply submit_accelerated_same_at|done].
Qed.

Lemma poll_fold_follows (t : Txid) (rpc : BitcoindRpc) (cached : gmap Txid Z)
    (l : list (Txid * Z)) : ∀ s,
  NoDup l.*1 → follows t s →
  (∀ d, (t, d) ∈ l → pw_manually_prioritized s !! t = None ∧
     cached !! t = pw_mempool_space_accelerated s !! t ∧
     in_i64 d ∧ in_i64 (d - default 0%Z (cached !! t))) →
  follows t (fold_left (poll_acceleration rpc cached) l s).
Proof.
  induction l as [|[txid d] l IH]; intros s Hnd Hf Hv; [done|]. cbn [fold_left].
  apply NoDup_cons in Hnd as [Hnin Hnd]. destruct (decide (txid = t)) as [->|Hne].
  - destruct (Hv d (list_elem_of_here _ _)) as (Hm & Hc & Hd & Hr).
    apply IH; [done|by apply poll_acceleration_follows|]. intros d' Hin. destruct Hnin.
    apply list_elem_of_fmap. by exists (t, d').
  - pose proof (poll_acceleration_same_at t rpc cached s txid d Hne) as Hsame.
    apply IH; [done|by eapply same_at_follows|]. intros d' Hin. destruct Hsame as [-> -> _ _].
    apply Hv. by apply list_elem_of_further.
Qed.
Definition accelerations_ok (t : Txid) (s : PrioWorld) : Prop :=
  ∀ accelerations w d,
    fetch_mempool_space_accelerations (pw_net s) = (Some accelerations, w) →
    accelerations !! t = Some d →
    pw_manually_prioritized s !! t = None ∧ in_i64 d ∧
    in_i64 (d - delta_in t (pw_mempool_space_accelerated s)).
Lemma poll_follows t iter rpc s :
  entries_of iter → accelerations_ok t s → follows t s →
  follows t (poll_mempool_space_accelerations iter rpc s).
Proof.
  intros Hit Hok Hf. unfold poll_mempool_space_accelerations.
  destruct (on_net _ s) as [[accs|] s1] eqn:Hl; apply on_net_spec in Hl as (w & Hl & ->);
    pose proof (accelerations_quiet _ _ _ Hl) as Hq; pose proof (same_at_net t w s Hq) as Hsame.
  2: by eapply same_at_follows.
  apply poll_fold_follows; [rewrite (Hit accs); apply NoDup_fst_map_to_list|by eapply same_at_follows|].
  intros d Hin. rewrite (Hit accs) in Hin. apply elem_of_map_to_list in Hin.
  destruct (Hok _ _ _ Hl Hin) as (Hm & Hd & Hr). done.
Qed.

Lemma prioritize_follows t px authorization txid d s :
  (txid = t → pw_mempool_space_accelerated s !! t = None ∧
     in_i64 (delta_in t (pw_manually_prioritized s) + d)) →
  follows t s → follows t (prioritize_transaction px authorization txid d s).2.
Proof.
  intros Hok Hf. unfold prioritize_transaction. destruct (d =? 0)%Z; [done|]. destruct px as [px|]; [|done].
  destruct (negb _); [done|]. destruct (store_get txid (pw_bad s)); [done|].
  destruct (on_net _ s) as [[[]|e] s1] eqn:Hp.
  2: { cbn. eapply same_at_follows; [eapply prioritise_same_at; eauto|done]. }
  unfold store_record, store_get. cbn [snd]. destruct (decide (txid = t)) as [->|Hne].
  - destruct (Hok eq_refl) as [Ha Hr]. apply prioritise_changes in Hp as (Hl & Hdelta & w & ->).
    intros Hlost. cbn in *. split; [by right|]. rewrite (Hdelta Hlost).
    assert (net_lost (pw_net s) = false) as Hs.
    { destruct (net_lost (pw_net s)); [by rewrite Hl in Hlost|done]. }
    destruct (Hf Hs) as [_ ->]. unfold delta_in in *. rewrite lookup_insert_eq, Ha.
    cbn [default from_option id]. rewrite Z.add_0_r, clamp_i64_id, wrap_i64_id by done.
    by rewrite Z.add_0_r.
  - apply (prioritise_same_at t) in Hp; [|by left]. eapply same_at_follows; [|exact Hf].
    eapply same_at_trans; [exact Hp|]. split; [|done..]. cbn. by rewrite lookup_insert_ne.
Qed.

(** Restoring: nothing else changes, and a delta that one store holds is taken back. *)
Lemma restore_loop_other (t : Txid) rpc txid stores : ∀ w r w',
  restore_loop rpc txid stores w = (r, w') → t ≠ txid →
  (net_lost w = true → net_lost w' = true) ∧
  (net_lost w' = false → node_delta w' t = node_delta w t).
Proof.
  induction stores as [|store stores IH]; intros w r w'; cbn [restore_loop]; [by intros [= <- <-]|].
  destruct (store_get txid store); [|by apply IH]. destruct (checked_neg z); [|by intros [= <- <-]].
  destruct (prioritise_transaction _ _ _ w) as [[[]|e] w1] eqn:Hp; apply prioritise_spec in Hp as [Hl Hd];
    intros H Hne.
  - destruct (IH _ _ _ H Hne) as [Hl' Hd']. split; [eauto|]. intros Hlost. rewrite (Hd' Hlost).
    rewrite Hd, bool_decide_eq_false_2; [done..|]. destruct (net_lost w1); [by rewrite Hl' in Hlost|done].
  - injection H as <- <-. split; [done|]. intros Hlost. by apply Hd.
Qed.
Lemma restore_loop_kept rpc txid stores : ∀ w r w',
  restore_loop rpc txid stores w = (r, w') → net_lost w' = false → net_lost w = false.
Proof.
  induction stores as [|store stores IH]; intros w r w'; cbn [restore_loop]; [by intros [= <- <-]|].
  destruct (store_get txid store); [|by apply IH]. destruct (checked_neg z); [|by intros [= <- <-]].
  destruct (prioritise_transaction _ _ _ w) as [[[]|e] w1] eqn:Hp; apply prioritise_spec in Hp as [Hl _];
    intros H Hlost; [assert (net_lost w1 = false) by eauto|injection H as <- <-];
    destruct (net_lost w); try done; rewrite Hl in *; done.
Qed.
Lemma restore_one (t : Txid) rpc v w r w' :
  restore_loop rpc t [{[t := v]}] w = (r, w') →
  (net_lost w = false → node_delta w t = v) →
  (net_lost w = true → net_lost w' = true) ∧
  (net_lost w' = false → node_delta w' t = match r with Ok _ => 0%Z | Err _ => node_delta w t end).
Proof.
  cbn [restore_loop]. unfold store_get. rewrite lookup_singleton_eq. intros H Hv.
  destruct (checked_neg v) as [v'|] eqn:Hn; [|injection H as <- <-; done].
  apply checked_neg_Some in Hn as [_ ->].
  destruct (prioritise_transaction _ _ _ w) as [[[]|e] w1] eqn:Hp; apply prioritise_spec in Hp as [Hl Hd];
    injection H as <- <-; (split; [done|]); intros Hlost; rewrite (Hd Hlost t); [|done].
  rewrite bool_decide_eq_true_2 by done. rewrite Hv; [|by destruct (net_lost w); [rewrite Hl in Hlost|]].
  by rewrite Z.add_opp_diag_r.
Qed.
(** Two stores of which one at most holds [t] are restored like one. *)
Lemma restore_loop_self (t : Txid) (rpc : BitcoindRpc) (m a : TransactionStore Z) (w : NetWorld) r w' :
  restore_loop rpc t [m; a] w = (r, w') → m !! t = None ∨ a !! t = None →
  (net_lost w = false → node_delta w t = (delta_in t m + delta_in t a)%Z) →
  (net_lost w = true → net_lost w' = true) ∧
  (net_lost w' = false → node_delta w' t = match r with Ok _ => 0%Z | Err _ => node_delta w t end).
Proof.
  intros H Hor Hv. unfold delta_in in Hv.
  destruct (m !! t) as [v|] eqn:Hm; [destruct Hor as [|Ha]; [done|]|];
    [|destruct (a !! t) as [v|] eqn:Ha]; cbn [default from_option id] in Hv.
  - rewrite Ha in Hv. apply (restore_one t rpc v); [|by rewrite Z.add_0_r in Hv]. rewrite <- H.
    cbn [restore_loop]. unfold store_get. by rewrite Hm, Ha, lookup_singleton_eq.
  - apply (restore_one t rpc v); [|done]. rewrite <- H.
    cbn [restore_loop]. unfold store_get. by rewrite Hm, Ha, lookup_singleton_eq.
  - cbn [restore_loop] in H. unfold store_get in H. rewrite Hm, Ha in H. injection H as <- <-. done.
Qed.
Lemma restore_follows (t : Txid) rpc txid s :
  follows t s → follows t (restore_tx_priority_from_stores rpc txid s).2.
Proof.
  intros Hf. unfold restore_tx_priority_from_stores.
  destruct (on_net _ s) as [r s1] eqn:Hr. apply on_net_spec in Hr as (w & Hr & ->).
  destruct (decide (t = txid)) as [<-|Hne].
  - intros Hlost. assert (net_lost w = false) as Hw by by destruct r.
    assert (net_lost (pw_net s) = false) as Hs by by eapply restore_loop_kept.
    destruct (Hf Hs) as [Hor Hd]. destruct (restore_loop_self t _ _ _ _ _ _ Hr Hor) as [_ Hd']; [done|].
    specialize (Hd' Hw). destruct r as [[]|e]; cbn; rewrite Hd'; [|done].
    unfold delta_in, store_remove. rewrite !lookup_delete_eq. cbn. split; [by left|done].
  - destruct (restore_loop_other t _ _ _ _ _ _ Hr Hne) as [Hl Hd].
    assert (same_at t s (set_pw_net w s)) as Hsame by done.
    destruct r as [[]|e]; [|by eapply same_at_follows]. eapply same_at_follows; [|exact Hf].
    eapply same_at_trans; [exact Hsame|]. unfold store_remove.
    split; [..|done|done]; cbn; by rewrite lookup_delete_ne.
Qed.

(** *** The client as a whole *)

(** What happens under the lock, one after the other. *)
Inductive PrioOp :=
| OpPrioritize (authorization : option str) (txid : Txid) (fee_delta : Z)
| OpRestore (authorization : option str) (txid : Txid)
| OpList (authorization : option str)
| OpReconcile (into_values : gmap Txid PrioTx → list PrioTx) (api_base_url : str)
| OpPoll (iter : gmap Txid Z → list (Txid * Z))
| OpClearBad.
Definition prio_op (px : PrioritizingTxs) (op : PrioOp) (s : PrioWorld) : PrioWorld :=
  match op with
  | OpPrioritize authorization txid fee_delta =>
      (prioritize_transaction (Some px) authorization txid fee_delta s).2
  | OpRestore authorization txid => (restore_tx_priority (Some px) authorization txid s).2
  | OpList authorization => (get_prioritized_transactions (Some px) authorization s).2
  | OpReconcile into_values url =>
      reconcile_node_prioritized_transactions into_values (px_rpc px) url s
  | OpPoll iter => poll_mempool_space_accelerations iter (px_rpc px) s
  | OpClearBad => clear_bad_transactions s
  end.
(** [t] is accelerated by one source at a time, within [i64]. *)
Definition one_source (t : Txid) (op : PrioOp) (s : PrioWorld) : Prop :=
  match op with
  | OpPrioritize _ txid d => txid = t → pw_mempool_space_accelerated s !! t = None ∧
      in_i64 (delta_in t (pw_manually_prioritized s) + d)
  | OpReconcile into_values _ => values_of into_values
  | OpPoll iter => entries_of iter ∧ accelerations_ok t s
  | _ => True
  end.
(** The client starts with empty stores and a node without a delta for [t]
    ([reset_zeroes_node]), and nobody else changes that delta. *)
Inductive prio_reach (px : PrioritizingTxs) (t : Txid) : PrioWorld → Prop :=
| prio_start w : (net_lost w = false → node_delta w t = 0%Z) →
    prio_reach px t (MkPrioWorld store_new store_new store_new w)
| prio_step op s : prio_reach px t s → one_source t op s → prio_reach px t (prio_op px op s)
| prio_outside s w : prio_reach px t s → net_lost w = net_lost (pw_net s) →
    node_delta w t = node_delta (pw_net s) t → prio_reach px t (set_pw_net w s).

Lemma prio_reach_follows px t s : prio_reach px t s → follows t s.
Proof.
  induction 1 as [w Hw|op s _ IH Hone|s w _ IH Hl Hd].
  - intros Hl. cbn. split; [by left|]. by apply Hw.
  - destruct op as [au txid d|au txid|au|iv url|iter|]; cbn in *.
    + by apply prioritize_follows.
    + unfold restore_tx_priority. destruct (negb _); [done|].
      pose proof (restore_follows t (px_rpc px) txid s IH) as H.
      by destruct (restore_tx_priority_from_stores _ _ s) as [[[]|e] s'].
    + unfold get_prioritized_transactions. destruct (negb _); [done|].
      destruct (on_net _ s) as [r s1] eqn:Hr. apply on_net_spec in Hr as (w & Hr & ->).
      apply listing_spec in Hr as [Hq _]. assert (follows t (set_pw_net w s)); [|by destruct r].
      eapply same_at_follows; [by apply same_at_net|done].
    + by apply reconcile_all_follows.
    + destruct Hone. by apply poll_follows.
    + done.
  - intros Hl'. cbn in *. rewrite Hd. apply IH. by rewrite <- Hl.
Qed.

(** C29: The caches follow the node.  First, while no request is lost, a transaction starts
    without a delta, has one source at a time and stays within [i64], and nobody but this
    client changes its delta (no other user of the node, and no block that contains it), what
    the client remembers of it is the delta the node holds, whatever is prioritised,
    restored, polled, refused and reconciled.  Second, and without any of these assumptions:
    whatever the stores hold and whatever others or a block did to the deltas, after a
    reconciliation whose requests were answered, a transaction that the node does not list is
    in neither store and has no delta; one that it lists is in the stores that it was in, each
    of which holds the delta the node has then, also when the node refused the transaction
    meanwhile; only the transactions already known to be bad are left as they were. *)
Theorem caches_follow_node px t s :
  (prio_reach px t s → net_lost (pw_net s) = false →
   node_delta (pw_net s) t =
     (default 0 (store_get t (pw_manually_prioritized s)) +
      default 0 (store_get t (pw_mempool_space_accelerated s)))%Z) ∧
  ∀ (into_values : gmap Txid PrioTx → list PrioTx) url m w,
    values_of into_values →
    get_prioritised_transactions (px_rpc px) (pw_net s) = (Ok m, w) →
    let s' := reconcile_node_prioritized_transactions into_values (px_rpc px) url s in
    net_lost (pw_net s') = false → reconciled m t s s'.
Proof.
  split; [|intros; by eapply reconcile_all_reconciled].
  intros Hr Hl. by destruct (prio_reach_follows px t s Hr Hl) as [_ H].
Qed.

(** Restoring takes back exactly what was given: after a successful restore the node holds
    no delta for the transaction and both stores have forgotten it; after a failed one nothing
    was taken back and nothing was forgotten. *)
Theorem restore_takes_back px t authorization s :
  prio_reach px t s →
  let '((status, response), s') := restore_tx_priority (Some px) authorization t s in
  net_lost (pw_net s') = false →
  if ar_success response
  then status = 200%N ∧ node_delta (pw_net s') t = 0%Z ∧
       store_get t (pw_manually_prioritized s') = None ∧
       store_get t (pw_mempool_space_accelerated s') = None
  else (400 <= status)%N ∧ node_delta (pw_net s') t = node_delta (pw_net s) t ∧
       pw_manually_prioritized s' = pw_manually_prioritized s ∧
       pw_mempool_space_accelerated s' = pw_mempool_space_accelerated s.
Proof.
  intros Hr%prio_reach_follows. unfold restore_tx_priority. destruct (negb _); [done|].
  unfold restore_tx_priority_from_stores. destruct (on_net _ s) as [r s1] eqn:Ho.
  apply on_net_spec in Ho as (w & Ho & ->).
  assert (net_lost w = false → node_delta w t = match r with Ok _ => 0%Z | Err _ => node_delta (pw_net s) t end) as Hd.
  { intros Hl. destruct (Hr (restore_loop_kept _ _ _ _ _ _ Ho Hl)) as [Hor Hsum].
    by apply (restore_loop_self t _ _ _ _ _ _ Ho Hor). }
  destruct r as [[]|e]; cbn; intros Hl; (split; [|split; [by apply Hd|]]).
  - done.
  - unfold store_get, store_remove. by rewrite !lookup_delete_eq.
  - destruct e; cbn; lia.
  - done.
Qed.

(** What is accelerated by both sources is counted twice: once the node was listed, both stores
    hold the whole delta, and restoring takes it back twice. *)
Theorem two_sources_restored_twice rpc url t tx s s' :
  pt_txid tx = t → is_Some (pw_manually_prioritized s !! t) →
  is_Some (pw_mempool_space_accelerated s !! t) → pw_bad s !! t = None →
  pt_in_mempool tx = true → node_delta (pw_net s) t = pt_fee_delta tx →
  restore_tx_priority_from_stores rpc t (reconcile_transaction rpc url s tx) = (Ok tt, s') →
  net_lost (pw_net s') = false → node_delta (pw_net s') t = (- pt_fee_delta tx)%Z.
Proof.
  intros Ht [a Ha] [b Hb] Hbad Hin Hd. unfold reconcile_transaction, store_get.
  rewrite Ht, Hbad, Hin, orb_true_r. unfold restore_tx_priority_from_stores.
  destruct (on_net _ _) as [[[]|e] s1] eqn:Ho; [|done]. intros [= <-] Hl. cbn in *.
  apply on_net_spec in Ho as (w & Ho & ->). cbn in *. unfold store_get in Ho.
  rewrite !update_existing_lookup, !decide_True, Ha, Hb in Ho by done. cbn in Ho.
  destruct (checked_neg _) as [v|] eqn:Hn; [|done]. apply checked_neg_Some in Hn as [Hmin ->].
  destruct (prioritise_transaction _ _ _ (pw_net s)) as [[[]|e] w1] eqn:Hp1; [|done].
  destruct (prioritise_transaction _ _ _ w1) as [[[]|e] w2] eqn:Hp2; [|done].
  injection Ho as ->. apply prioritise_spec in Hp1 as [Hl1 Hd1]. apply prioritise_spec in Hp2 as [Hl2 Hd2].
  rewrite (Hd2 Hl), bool_decide_eq_true_2 by done.
  rewrite Hd1, bool_decide_eq_true_2 by (done || by destruct (net_lost w1); [rewrite Hl2 in Hl|]).
  pose proof (node_delta_range (pw_net s) t) as Hr. rewrite Hd in *. rewrite Z.add_opp_diag_r.
  unfold clamp_i64, in_i64, i64_min, i64_max in *. lia.
Qed.

(** *** The reset at start-up *)

Lemma reset_adjust_spec rpc txid adjustments : ∀ w b w',
  reset_adjust rpc txid adjustments w = (b, w') →
  (net_lost w = true → net_lost w' = true) ∧
  (net_lost w' = false → ∀ t,
    (t ≠ txid → node_delta w' t = node_delta w t) ∧
    (b = true → t = txid →
     node_delta w' t = fold_left (λ d a, clamp_i64 (d + a)) adjustments (node_delta w t))).
Proof.
  induction adjustments as [|a adjustments IH]; intros w b w'; cbn [reset_adjust]; [by intros [= <- <-]|].
  destruct (prioritise_transaction _ _ _ w) as [[[]|e] w1] eqn:Hp; apply prioritise_spec in Hp as [Hl Hd]; intros H.
  - destruct (IH _ _ _ H) as [Hl' Hd']. split; [eauto|]. intros Hlost t.
    assert (net_lost w1 = false) as Hl1 by (destruct (net_lost w1); [by rewrite Hl' in Hlost|done]).
    destruct (Hd' Hlost t) as [Hne Heq]. specialize (Hd Hl1 t). split.
    + intros Ht. by rewrite (Hne Ht), Hd, bool_decide_eq_false_2.
    + intros Hb Ht. cbn [fold_left]. by rewrite (Heq Hb Ht), Hd, bool_decide_eq_true_2.
  - injection H as <- <-. split; [done|]. intros Hlost t. split; [|done]. intros _. by apply Hd.
Qed.
Lemma reset_adjustments_zero d :
  in_i64 d → fold_left (λ d a, clamp_i64 (d + a)) (reset_adjustments d) d = 0%Z.
Proof.
  intros Hd. unfold reset_adjustments, checked_neg, in_i64, clamp_i64, i64_min, i64_max in *.
  destruct (Z.eqb_spec d (-9223372036854775808)); cbn; lia.
Qed.
Definition nonzero (tx : PrioTx) : bool := negb (pt_fee_delta tx =? 0)%Z.
Lemma reset_loop_spec rpc txs : ∀ w k n w',
  reset_loop rpc txs k w = (n, w') → NoDup (map pt_txid txs) →
  (net_lost w = true → net_lost w' = true) ∧
  (net_lost w' = false →
   (∀ tx, tx ∈ txs → node_delta w (pt_txid tx) = pt_fee_delta tx) →
   ∃ failed, failed ⊆+ filter nonzero txs ∧ (n + N.of_nat (length failed) = k + N.of_nat (length (filter nonzero txs)))%N ∧
     (∀ t, t ∉ map pt_txid txs → node_delta w' t = node_delta w t) ∧
     ∀ tx, tx ∈ txs → tx ∉ failed → node_delta w' (pt_txid tx) = 0%Z).
Proof.
  induction txs as [|tx txs IH]; intros w k n w'; cbn [reset_loop map].
  { intros [= <- <-] _. split; [done|]. intros _ _. exists []. split_and!; [done|done|done|].
    intros tx H%elem_of_nil. done. }
  intros H [Hnin Hnd]%NoDup_cons. assert (Hin : ∀ tx', tx' ∈ txs → pt_txid tx' ≠ pt_txid tx).
  { intros tx' Hin Heq. destruct Hnin. rewrite <- Heq. by apply list_elem_of_fmap_2. }
  rewrite filter_cons. assert (nonzero tx ↔ pt_fee_delta tx ≠ 0%Z) as Hnz.
  { unfold nonzero. by destruct (Z.eqb_spec (pt_fee_delta tx) 0). }
  destruct (Z.eqb_spec (pt_fee_delta tx) 0) as [Hz|Hz]; destruct (decide (nonzero tx)) as [Hn|Hn];
    try (exfalso; tauto); clear Hn Hnz.
  - destruct (IH _ _ _ _ H Hnd) as [Hl Hr]. split; [done|]. intros Hlost Hv.
    destruct Hr as (failed & Hsub & Hcount & Hout & Hzero); [done|by intros; apply Hv, list_elem_of_further|].
    exists failed. split_and!; [done|done| |].
    + intros t [_ Ht]%not_elem_of_cons. by apply Hout.
    + intros tx' [->|Hin']%elem_of_cons Hf; [|by apply Hzero].
      rewrite (Hout _ Hnin), (Hv tx); [done|apply list_elem_of_here].
  - destruct (reset_adjust _ _ _ w) as [b w1] eqn:Ha. apply reset_adjust_spec in Ha as [Hl1 Hd1].
    assert (∃ k1, reset_loop rpc txs k1 w1 = (n, w') ∧ k1 = (k + if b then 1 else 0)%N) as (k1 & H1 & Hk1).
    { destruct b; eexists; (split; [done|]); lia. }
    destruct (IH _ _ _ _ H1 Hnd) as [Hl Hr]. split; [eauto|]. intros Hlost Hv.
    assert (net_lost w1 = false) as Hw1 by (destruct (net_lost w1); [by rewrite Hl in Hlost|done]).
    specialize (Hd1 Hw1). destruct Hr as (failed & Hsub & Hcount & Hout & Hzero); [done| |].
    { intros tx' Hin'. rewrite (proj1 (Hd1 (pt_txid tx')) (Hin tx' Hin')). by apply Hv, list_elem_of_further. }
    assert (∀ t, t ∉ pt_txid tx :: map pt_txid txs → node_delta w' t = node_delta w t) as Hout'.
    { intros t [Hne Ht]%not_elem_of_cons. rewrite (Hout _ Ht). by apply (Hd1 t). }
    destruct b.
    + exists failed. split_and!; [by apply submseteq_cons|cbn [length]; lia|done|].
      intros tx' [->|Hin']%elem_of_cons Hf; [|by apply Hzero]. rewrite (Hout _ Hnin).
      destruct (Hd1 (pt_txid tx)) as [_ ->]; [|done..]. rewrite <- (Hv tx) by apply list_elem_of_here.
      apply reset_adjustments_zero, node_delta_range.
    + exists (tx :: failed). split_and!; [by apply submseteq_skip|cbn [length]; lia|done|].
      intros tx' [->|Hin']%elem_of_cons [Hne Hf]%not_elem_of_cons; [done|by apply Hzero].
Qed.

(** The reset at start-up leaves a node without fee deltas: when it counts as many resets as
    the node listed deltas that are not zero, no transaction has a delta any more, the largest
    negative one included; every transaction it did not count is one whose adjustment the node
    refused. *)
Theorem reset_zeroes_node (into_values : gmap Txid PrioTx → list PrioTx) rpc w n w' :
  values_of into_values →
  reset_node_fee_deltas into_values rpc w = (Ok n, w') → net_lost w' = false →
  ∃ listed failed : list PrioTx,
    (∀ t, node_delta w t ≠ 0%Z ↔ t ∈ map pt_txid listed) ∧
    failed ⊆+ listed ∧ (n + N.of_nat (length failed) = N.of_nat (length listed))%N ∧
    ∀ t, t ∉ map pt_txid failed → node_delta w' t = 0%Z.
Proof.
  intros Hval. unfold reset_node_fee_deltas.
  destruct (get_prioritised_transactions rpc w) as [[m|e] w1] eqn:Hl; [|done].
  apply listing_spec in Hl as [Hq Hm]. specialize (Hm m eq_refl).
  destruct (reset_loop _ _ 0 w1) as [n' w2] eqn:Hr. intros [= -> ->] Hlost.
  assert (∀ tx, tx ∈ into_values m ↔ m !! pt_txid tx = Some tx) as Hin.
  { intros tx. rewrite values_in by done. split; [|eauto]. intros [t Ht]. by rewrite (proj2 (Hm t) tx Ht). }
  apply reset_loop_spec in Hr as [Hlw Hr]; [|apply values_NoDup; [done|]; intros t tx Ht; by apply (Hm t)].
  assert (net_lost w1 = false) as Hw1 by (destruct (net_lost w1); [by rewrite Hlw in Hlost|done]).
  destruct Hr as (failed & Hsub & Hcount & Hout & Hzero); [done| |].
  { intros tx Htx%Hin. destruct (Hm (pt_txid tx)) as [-> _]. by rewrite Htx. }
  exists (filter nonzero (into_values m)), failed. split_and!; [|done|lia|].
  - intros t. destruct Hq as [_ Hq]. rewrite <- (Hq Hw1 t), (proj1 (Hm t)). rewrite list_elem_of_fmap.
    unfold nonzero. split.
    + destruct (m !! t) as [tx|] eqn:Ht; [|done]. cbn. intros Hne. exists tx.
      pose proof (proj2 (Hm t) tx Ht) as Hk. split; [done|]. apply list_elem_of_filter.
      rewrite Hin, Hk. split; [|done]. by destruct (Z.eqb_spec (pt_fee_delta tx) 0).
    + intros (tx & -> & [Hne Htx%Hin]%list_elem_of_filter). rewrite Htx. cbn.
      by destruct (Z.eqb_spec (pt_fee_delta tx) 0).
  - intros t Ht. destruct (m !! t) as [tx|] eqn:Hmt.
    + pose proof (proj2 (Hm t) tx Hmt) as <-. apply Hzero; [by apply Hin|].
      intros Hf. apply Ht. by apply list_elem_of_fmap_2.
    + rewrite Hout, (proj1 (Hm t)), Hmt; [done|]. intros (tx & -> & Htx%Hin)%list_elem_of_fmap. congruence.
Qed.

(** *** Authorization and refused transactions *)

Lemma authorized_spec authorization token :
  is_authorized_for_tx_prioritization authorization token = true ↔
  authorization = Some (lit "Bearer " ++ token).
Proof.
  unfold is_authorized_for_tx_prioritization. destruct authorization as [value|]; cbn [mbind option_bind].
  - destruct (strip_prefix (lit "Bearer ") value) as [t|] eqn:E.
    + apply strip_prefix_Some in E as ->. rewrite bool_decide_eq_true. split; [by intros ->|].
      by intros [= ->].
    + split; [done|]. intros H. assert (value = lit "Bearer " ++ token) as Hv by congruence.
      apply strip_prefix_Some in Hv. congruence.
  - done.
Qed.
(** Without the token a request changes nothing and asks the node nothing. *)
Theorem unauthorized_changes_nothing px authorization txid d s :
  authorization ≠ Some (lit "Bearer " ++ px_api_tx_token px) → d ≠ 0%Z →
  prioritize_transaction (Some px) authorization txid d s = ((401%N, api_error (Some MsgUnauthorized)), s) ∧
  restore_tx_priority (Some px) authorization txid s = ((401%N, api_error (Some MsgUnauthorized)), s) ∧
  get_prioritized_transactions (Some px) authorization s = ((401%N, api_error (Some MsgUnauthorized)), s).
Proof.
  intros Hau Hd. unfold prioritize_transaction, restore_tx_priority, get_prioritized_transactions.
  destruct (Z.eqb_spec d 0); [done|].
  destruct (is_authorized_for_tx_prioritization _ _) eqn:E; [by apply authorized_spec in E|done].
Qed.

(** A refused transaction is accelerated again: its delta was taken back and remembered as
    zero, but the next poll of the accelerations gives it back, without looking at the refused
    transactions, and no reconciliation touches it until they are cleared. *)
Theorem refused_is_accelerated_again rpc cached t d s s' :
  pw_bad s !! t = Some d → cached !! t = Some 0%Z → in_i64 d → d ≠ 0%Z →
  node_delta (pw_net s) t = 0%Z →
  on_net (prioritise_transaction rpc t d) s = (Ok tt, s') → net_lost (pw_net s') = false →
  let s1 := poll_acceleration rpc cached s (t, d) in
  node_delta (pw_net s1) t = d ∧
  ∀ url tx, pt_txid tx = t → reconcile_transaction rpc url s1 tx = s1.
Proof.
  intros Hbad Hc Hr Hd Hz Hp Hl. unfold poll_acceleration, adjust_acceleration. rewrite Hc.
  cbn [default from_option id]. rewrite Z.sub_0_r, wrap_i64_id by done.
  destruct (Z.eqb_spec d 0); [done|]. rewrite Hp. apply prioritise_changes in Hp as (_ & Hdelta & w & ->).
  cbn in *. split; [rewrite (Hdelta Hl), Hz; by apply clamp_i64_id|].
  intros url tx Ht. unfold reconcile_transaction, store_get. rewrite Ht. cbn. by rewrite Hbad.
Qed.

End net.

(** ** A concrete node

    It knows one transaction, whose identifier is empty; a text is a flag and the number it
    carries.  [True] in the state is a lost request. *)
Definition toy_text (d : Z) : str :=
  if (d <? 0)%Z then [3%N; Z.to_N (- d)] else [2%N; Z.to_N d].
Definition toy_answer (text : str) : option RpcResponse :=
  let listing d := Some (MkRpcResponse (Some (JObject [([],
    JObject [(lit "fee_delta", JInt d); (lit "in_mempool", JBool true)])])) None) in
  match text with
  | [1%N] => Some (MkRpcResponse (Some (JBool true)) None)
  | [2%N; n] => listing (Z.of_N n)
  | [3%N; n] => listing (- Z.of_N n)%Z
  | _ => None
  end.
Definition toy_post (body : Json) (w : Z * bool) : result (N * str) ReqwestError * (Z * bool) :=
  match body with
  | JObject [_; _; (_, JString method); (_, JArray params)] =>
      if bool_decide (method = lit "prioritisetransaction") then
        match params with
        | [JString []; _; JInt d] => (Ok (200%N, [1%N]), (clamp_i64 (clamp_i64 w.1 + d), w.2))
        | _ => (Ok (500%N, []), w)
        end
      else if bool_decide (method = lit "getprioritisedtransactions")
      then (Ok (200%N, toy_text (clamp_i64 w.1)), w)
      else (Ok (500%N, []), w)
  | _ => (Ok (500%N, []), w)
  end.
#[export] Instance toy_node_lib : NodeLib (B := bitcoin_model) := {|
  NetWorld := Z * bool;
  rpc_post _ body w := toy_post body w;
  http_get _ w := (Err ReqwestOther, w);
  rpc_response_from_str := toy_answer;
  accelerations_from_str _ := None;
  parse_txid s := match s with [] => Some [] | _ => None end;
  txid_to_string txid := map Byte.to_N txid;
  deserialize_hex _ := None;
  serialize_hex _ := []
|}.
Lemma clamp_i64_idem z : clamp_i64 (clamp_i64 z) = clamp_i64 z.
Proof. unfold clamp_i64, i64_min, i64_max. lia. Qed.
Lemma toy_text_answer d : toy_answer (toy_text d) =
  Some (MkRpcResponse (Some (JObject [([],
    JObject [(lit "fee_delta", JInt d); (lit "in_mempool", JBool true)])])) None).
Proof.
  unfold toy_text, toy_answer. destruct (Z.ltb_spec d 0).
  - by rewrite Z2N.id, Z.opp_involutive by lia.
  - by rewrite Z2N.id by lia.
Qed.
#[export] Instance toy_node_laws : NodeLaws (NL := toy_node_lib).
Proof.
  refine {| node_delta (w : @NetWorld _ toy_node_lib) (t : Txid) :=
              match t with [] => clamp_i64 (fst w) | _ => 0%Z end;
            net_lost := snd |}.
  - intros w [|]; unfold in_i64, clamp_i64, i64_min, i64_max; lia.
  - intros rpc body w. unfold rpc_post, toy_node_lib, toy_post. by repeat case_match.
  - intros rpc body w e w'. unfold rpc_post, toy_node_lib, toy_post. intros. by repeat case_match.
  - done.
  - done.
  - intros rpc txid d w status text w' t. cbn [rpc_post toy_node_lib toy_post request_body].
    rewrite bool_decide_eq_true_2 by done. destruct txid as [|b txid]; cbn [map txid_to_string toy_node_lib]; intros [= <- <- <-].
    + destruct t as [|b t]; cbn; [by rewrite clamp_i64_idem|done].
    + unfold answers_true. cbn. by rewrite andb_false_r.
  - intros rpc w status text w' fields t. cbn [rpc_post toy_node_lib toy_post request_body].
    rewrite bool_decide_eq_false_2, bool_decide_eq_true_2 by done. intros [= <- <- <-]. split; [done|].
    cbn [rpc_response_from_str toy_node_lib]. rewrite toy_text_answer. intros [= <-]. split.
    + destruct t; [|done]. intros _. eexists [], _. split; [apply list_elem_of_here|done].
    + intros k p [= -> ->]%list_elem_of_singleton. cbn. by intros [= <-].
  - intros rpc hex w status text w' t. cbn [rpc_post toy_node_lib toy_post request_body].
    rewrite !bool_decide_eq_false_2 by done. by intros [= <- <- <-].
Defined.

(** ** Witnesses *)
Definition toy_rpc : BitcoindRpc := MkBitcoindRpc [] [] [].
Definition toy_px : PrioritizingTxs := MkPrioritizingTxs toy_rpc (lit "t").
Definition toy_bearer : option str := Some (lit "Bearer t").
Definition toy_start : PrioWorld := MkPrioWorld ∅ ∅ ∅ ((0%Z, false) : NetWorld).
Definition toy_prioritized : PrioWorld := prio_op toy_px (OpPrioritize toy_bearer [] 5) toy_start.
Lemma toy_prioritized_reach : prio_reach toy_px [] toy_prioritized.
Proof.
  apply prio_step.
  - by apply prio_start.
  - cbn. intros _. split; [done|]. split; vm_compute; discriminate.
Qed.

Lemma restore_takes_back_witness :
  let '((status, response), s') := restore_tx_priority (Some toy_px) toy_bearer [] toy_prioritized in
  ar_success response = true ∧ node_delta (pw_net s') [] = 0%Z.
Proof.
  pose proof (restore_takes_back toy_px [] toy_bearer toy_prioritized toy_prioritized_reach) as H.
  assert (ar_success (restore_tx_priority (Some toy_px) toy_bearer [] toy_prioritized).1.2 = true) as Hs
    by (vm_compute; reflexivity).
  assert (net_lost (pw_net (restore_tx_priority (Some toy_px) toy_bearer [] toy_prioritized).2) = false) as Hl
    by (vm_compute; reflexivity).
  destruct (restore_tx_priority _ _ _ _) as [[status response] s']. cbn [fst snd] in *. rewrite Hs in H.
  split; [done|]. by apply H.
Defined.
Definition toy_both : PrioWorld :=
  MkPrioWorld {[ [] := 3%Z ]} {[ [] := 4%Z ]} ∅ ((7%Z, false) : NetWorld).
Definition toy_restored : result unit BitcoindRpcError * PrioWorld :=
  restore_tx_priority_from_stores toy_rpc []
    (reconcile_transaction toy_rpc [] toy_both (MkPrioTx [] 7 true None)).
Lemma two_sources_restored_twice_witness :
  toy_restored.1 = Ok tt ∧ node_delta (pw_net toy_restored.2) [] = (-7)%Z.
Proof.
  assert (toy_restored.1 = Ok tt) as Hr by (vm_compute; reflexivity).
  assert (net_lost (pw_net toy_restored.2) = false) as Hl by (vm_compute; reflexivity).
  split; [done|].
  apply (two_sources_restored_twice toy_rpc [] [] (MkPrioTx [] 7 true None) toy_both); [done|..].
  - exists 3%Z. vm_compute; reflexivity.
  - exists 4%Z. vm_compute; reflexivity.
  - vm_compute; reflexivity.
  - done.
  - vm_compute; reflexivity.
  - change (restore_tx_priority_from_stores _ _ _) with toy_restored.
    rewrite (surjective_pairing toy_restored), Hr. done.
  - done.
Defined.
Definition toy_into_values (m : gmap Txid PrioTx) : list PrioTx := (map_to_list m).*2.
Lemma reset_zeroes_node_witness :
  ∃ listed failed : list PrioTx,
    (∀ t, node_delta (((-9223372036854775808)%Z, false) : NetWorld) t ≠ 0%Z ↔ t ∈ map pt_txid listed) ∧
    failed ⊆+ listed ∧ (1 + N.of_nat (length failed) = N.of_nat (length listed))%N ∧
    ∀ t, t ∉ map pt_txid failed → node_delta ((0%Z, false) : NetWorld) t = 0%Z.
Proof.
  apply (reset_zeroes_node toy_into_values toy_rpc); [by intros m|by vm_compute|done].
Defined.

(** A prioritised transaction; and stores that others have put out of step with the node. *)
Lemma caches_follow_node_witness :
  node_delta (pw_net toy_prioritized) [] =
    (default 0 (store_get [] (pw_manually_prioritized toy_prioritized)) +
     default 0 (store_get [] (pw_mempool_space_accelerated toy_prioritized)))%Z ∧
  let s' := reconcile_node_prioritized_transactions toy_into_values toy_rpc [] toy_both in
  node_delta (pw_net s') [] = 7%Z ∧ pw_manually_prioritized s' !! [] = Some 7%Z ∧
  pw_mempool_space_accelerated s' !! [] = Some 7%Z.
Proof.
  split.
  - apply (proj1 (caches_follow_node toy_px [] toy_prioritized)); [apply toy_prioritized_reach|by vm_compute].
  - destruct (get_prioritised_transactions toy_rpc (pw_net toy_both)) as [[m|e] w] eqn:E;
      [|vm_compute in E; discriminate].
    pose proof (proj2 (caches_follow_node toy_px [] toy_both) toy_into_values [] m w
      ltac:(by intros ?) E ltac:(by vm_compute)) as H.
    unfold reconciled in H. vm_compute in E. injection E as <- _.
    cbv zeta. vm_compute in H |- *. destruct H as [H1 H2]. auto.
Defined.
