(* ===== verification/ProxyProtocol.v ===== *)
(** * The PROXY protocol ([proxy_protocol.rs])

    A load balancer in front of the client announces the address of the miner in a
    PROXY protocol header, of version 1 (text) or 2 (binary), before the first byte of
    the miner.  [accept] recognizes the header without consuming anything, reads it, and
    leaves the stream at the miner's first byte.

    A [TcpStream] is what has arrived, the segments still to come and how it ends: a
    peek sees what has arrived, and each turn of waiting lets one segment arrive.  A
    computation on it gives [None] when it waits for ever; its caller drops the
    connection after five seconds then. *)

From S2P Require Import Prelude Str F32 Sv1 Net.

(** ** Data *)
Definition V1_PREFIX : bytes := ascii_bytes "PROXY ".
Definition V1_MAX_HEADER_LEN : nat := 108.
Definition V2_SIGNATURE : bytes :=
  [Byte.x0d; Byte.x0a; Byte.x0d; Byte.x0a; Byte.x00; Byte.x0d; Byte.x0a;
   Byte.x51; Byte.x55; Byte.x49; Byte.x54; Byte.x0a].
Definition crlf : bytes := [Byte.x0d; Byte.x0a].

Inductive ProxyProtocolMode := Disabled | Required | Optional.
#[export] Instance mode_eq_dec : EqDecision ProxyProtocolMode.
Proof. solve_decision. Defined.
Inductive ProxyHeaderKind := V1 | V2 | KindNotProxy.
Inductive PrefixMatch := Complete (kind : ProxyHeaderKind) | NeedMore | NotProxy.

Inductive ProxyProtocolError :=
  | HeaderTooLong
  | InvalidMode (value : str)
  | InvalidV1Header
  | InvalidV2Header
  | MissingHeader
  | UnsupportedProtocol
  | Io.

(** After the last segment the peer has closed the connection, the connection breaks, or
    the peer stays silent. *)
Inductive Ending := Closed | Broken | Silent.
Record TcpStream := MkTcpStream {
  ts_arrived : bytes; ts_incoming : list bytes; ts_ending : Ending
}.

Record AcceptedStream := MkAcceptedStream {
  as_stream : TcpStream;
  as_source_addr : SocketAddr;
  as_destination_addr : option SocketAddr;
  as_used_proxy_protocol : bool
}.
Record ParsedHeader := MkParsedHeader {
  ph_source_addr : SocketAddr; ph_destination_addr : option SocketAddr
}.

Definition into_accepted (h : ParsedHeader) (stream : TcpStream) : AcceptedStream :=
  MkAcceptedStream stream (ph_source_addr h) (ph_destination_addr h) true.

(** ** The mode *)
Definition mode_from_str (raw : str) : result ProxyProtocolMode ProxyProtocolError :=
  let s := to_ascii_lowercase (trim raw) in
  if bool_decide (s ∈ lit <$> [""; "0"; "false"; "off"; "disabled"]%string)
  then Ok Disabled
  else if bool_decide (s ∈ lit <$> ["1"; "true"; "on"; "required"]%string)
  then Ok Required
  else if bool_decide (s = lit "optional") then Ok Optional
  else Err (InvalidMode raw).

(** What [env::var] returns. *)
Inductive EnvVar := Present (value : str) | NotPresent | NotUnicode.
Definition mode_from_env (var_name : str) (var : EnvVar) :
    result ProxyProtocolMode ProxyProtocolError :=
  match var with
  | Present value => mode_from_str value
  | NotPresent => Ok Disabled
  | NotUnicode => Err (InvalidMode (var_name ++ lit "=<non-unicode>"))
  end.

(** ** Recognizing a header *)
Definition classify_proxy_prefix (prefix : bytes) : PrefixMatch :=
  if (length prefix <? length V2_SIGNATURE)
     && bool_decide (prefix `prefix_of` V2_SIGNATURE) then NeedMore
  else if bool_decide (prefix = V2_SIGNATURE) then Complete V2
  else if (length prefix <? length V1_PREFIX)
     && bool_decide (prefix `prefix_of` V1_PREFIX) then NeedMore
  else if bool_decide (V1_PREFIX `prefix_of` prefix) then Complete V1
  else NotProxy.

(** A computation that reads from the stream. *)
Definition Reading (A : Type) : Type :=
  TcpStream → option (result (A * TcpStream) ProxyProtocolError).
#[export] Instance reading_ret : MRet Reading := λ A a s, Some (Ok (a, s)).
#[export] Instance reading_bind : MBind Reading := λ A B k m s,
  match m s with
  | Some (Ok (a, s)) => k a s
  | Some (Err e) => Some (Err e)
  | None => None
  end.
Definition waiting {A} : Reading A := λ _, None.
Definition reading_of {A} (r : result A ProxyProtocolError) : Reading A := λ s,
  match r with Ok a => Some (Ok (a, s)) | Err e => Some (Err e) end.

(** The loop of [detect_proxy_header].  [peek] waits for a first byte, then reports the
    first bytes that have arrived, again and again; between two peeks a segment may
    arrive.  The stream keeps every byte. *)
Fixpoint detect_loop (arrived : bytes) (incoming : list bytes) (ending : Ending) :
    option (result (ProxyHeaderKind * TcpStream) ProxyProtocolError) :=
  let answer kind := Some (Ok (kind, MkTcpStream arrived incoming ending)) in
  let prefix := take (length V2_SIGNATURE) arrived in
  let found := if length prefix =? 0 then NeedMore else classify_proxy_prefix prefix in
  match found with
  | Complete kind => answer kind
  | NotProxy => answer KindNotProxy
  | NeedMore =>
      match incoming with
      | segment :: incoming => detect_loop (arrived ++ segment) incoming ending
      | [] =>
          if length prefix =? 0 then
            match ending with
            | Closed => Some (Err MissingHeader)
            | Broken => Some (Err Io)
            | Silent => None
            end
          else None
      end
  end.
Definition detect_proxy_header : Reading ProxyHeaderKind := λ s,
  detect_loop (ts_arrived s) (ts_incoming s) (ts_ending s).

(** [AsyncReadExt::read_exact] *)
Fixpoint read_exact_loop (n : nat) (arrived : bytes) (incoming : list bytes)
    (ending : Ending) : option (result (bytes * TcpStream) ProxyProtocolError) :=
  if n <=? length arrived
  then Some (Ok (take n arrived, MkTcpStream (drop n arrived) incoming ending))
  else match incoming with
  | segment :: incoming => read_exact_loop n (arrived ++ segment) incoming ending
  | [] => match ending with Silent => None | _ => Some (Err Io) end
  end.
Definition read_exact (n : nat) : Reading bytes := λ s,
  read_exact_loop n (ts_arrived s) (ts_incoming s) (ts_ending s).

(** ** Version 1 *)
Definition parse_ip_v1 (s : str) : result IpAddr ProxyProtocolError :=
  ok_or (parse_ip s) InvalidV1Header.
Definition parse_port_v1 (s : str) : result N ProxyProtocolError :=
  ok_or (parse_uint u16_max s) InvalidV1Header.

Definition parse_v1_header (header : bytes) (peer_addr : SocketAddr) :
    result ParsedHeader ProxyProtocolError :=
  let? header := ok_or (from_utf8 header) InvalidV1Header in
  let? header := ok_or (strip_suffix [13; 10]%N header) InvalidV1Header in
  match split_whitespace header with
  | proxy :: family :: rest =>
      if negb (bool_decide (proxy = lit "PROXY")) then Err InvalidV1Header
      else if bool_decide (family = lit "UNKNOWN") then Ok (MkParsedHeader peer_addr None)
      else match rest with
      | [source; destination; source_port; destination_port] =>
          let? source_ip := parse_ip_v1 source in
          let? destination_ip := parse_ip_v1 destination in
          let? source_port := parse_port_v1 source_port in
          let? destination_port := parse_port_v1 destination_port in
          let parsed := MkParsedHeader (MkSocketAddr source_ip source_port)
                          (Some (MkSocketAddr destination_ip destination_port)) in
          match source_ip, destination_ip with
          | Net.V4 _, Net.V4 _ =>
              if bool_decide (family = lit "TCP4") then Ok parsed else Err InvalidV1Header
          | Net.V6 _, Net.V6 _ =>
              if bool_decide (family = lit "TCP6") then Ok parsed else Err InvalidV1Header
          | _, _ => Err InvalidV1Header
          end
      | _ => Err InvalidV1Header
      end
  | _ => Err InvalidV1Header
  end.

(** The loop of [read_v1_header].  Each turn lengthens the header, which ends it:
    [fuel] is how many turns are left ([read_v1_loop_turn]). *)
Fixpoint read_v1_loop (fuel : nat) (header : bytes) : Reading bytes :=
  match fuel with
  | 0 => waiting
  | S fuel =>
      byte ← read_exact 1;
      let header := header ++ byte in
      if V1_MAX_HEADER_LEN <? length header then reading_of (Err HeaderTooLong)
      else if bool_decide (crlf `suffix_of` header) then reading_of (Ok header)
      else read_v1_loop fuel header
  end.
Definition read_v1_header (peer_addr : SocketAddr) : Reading ParsedHeader :=
  header ← read_v1_loop (S V1_MAX_HEADER_LEN) [];
  reading_of (parse_v1_header header peer_addr).

(** ** Version 2 *)
Definition high_nibble (b : byte) : N := N.shiftr (Byte.to_N b) 4.
Definition low_nibble (b : byte) : N := N.land (Byte.to_N b) 15.

(** The bytes [from..to) of a slice. *)
Definition slice (from to : nat) (l : bytes) : bytes := take (to - from) (drop from l).

Definition parse_v2_header (version_command family_protocol : byte) (payload : bytes)
    (peer_addr : SocketAddr) : result ParsedHeader ProxyProtocolError :=
  let version := high_nibble version_command in
  let command := low_nibble version_command in
  if negb (version =? 2)%N then Err InvalidV2Header
  else if (command =? 0)%N then Ok (MkParsedHeader peer_addr None)
  else if negb (command =? 1)%N then Err InvalidV2Header
  else
    let family := high_nibble family_protocol in
    let protocol := low_nibble family_protocol in
    if negb (protocol =? 1)%N then Err UnsupportedProtocol
    else if (family =? 1)%N then
      if length payload <? 12 then Err InvalidV2Header
      else Ok (MkParsedHeader
        (MkSocketAddr (Net.V4 (slice 0 4 payload)) (be_value (slice 8 10 payload)))
        (Some (MkSocketAddr (Net.V4 (slice 4 8 payload)) (be_value (slice 10 12 payload)))))
    else if (family =? 2)%N then
      if length payload <? 36 then Err InvalidV2Header
      else
        let? source := ok_or (to_array 16 (slice 0 16 payload)) InvalidV2Header in
        let? destination := ok_or (to_array 16 (slice 16 32 payload)) InvalidV2Header in
        Ok (MkParsedHeader
          (MkSocketAddr (Net.V6 source) (be_value (slice 32 34 payload)))
          (Some (MkSocketAddr (Net.V6 destination) (be_value (slice 34 36 payload)))))
    else Err UnsupportedProtocol.

Definition read_v2_header (peer_addr : SocketAddr) : Reading ParsedHeader :=
  prefix ← read_exact 12;
  if negb (bool_decide (prefix = V2_SIGNATURE)) then reading_of (Err InvalidV2Header)
  else
    header ← read_exact 4;
    match header with
    | [version_command; family_protocol; len_high; len_low] =>
        payload ← read_exact (N.to_nat (be_value [len_high; len_low]));
        reading_of (parse_v2_header version_command family_protocol payload peer_addr)
    | _ => waiting (* [read_exact] fills its buffer, [read_exact_loop_length] *)
    end.

(** ** Accepting a connection *)
Definition accept_unproxied (peer_addr : SocketAddr) : TcpStream → AcceptedStream := λ s,
  MkAcceptedStream s peer_addr None false.
Definition accept_parsed (m : Reading ParsedHeader) (s : TcpStream) :
    option (result AcceptedStream ProxyProtocolError) :=
  match m s with
  | Some (Ok (parsed, s)) => Some (Ok (into_accepted parsed s))
  | Some (Err e) => Some (Err e)
  | None => None
  end.

(** [accept_optional] *)
Definition accept_optional (peer_addr : SocketAddr) (s : TcpStream) :
    option (result AcceptedStream ProxyProtocolError) :=
  match detect_proxy_header s with
  | Some (Ok (V2, s)) => accept_parsed (read_v2_header peer_addr) s
  | Some (Ok (V1, s)) => accept_parsed (read_v1_header peer_addr) s
  | Some (Ok (KindNotProxy, s)) => Some (Ok (accept_unproxied peer_addr s))
  | Some (Err e) => Some (Err e)
  | None => None
  end.

(** [accept_required] *)
Definition accept_required (peer_addr : SocketAddr) (s : TcpStream) :
    option (result AcceptedStream ProxyProtocolError) :=
  match detect_proxy_header s with
  | Some (Ok (V2, s)) => accept_parsed (read_v2_header peer_addr) s
  | Some (Ok (V1, s)) => accept_parsed (read_v1_header peer_addr) s
  | Some (Ok (KindNotProxy, s)) => Some (Err MissingHeader)
  | Some (Err e) => Some (Err e)
  | None => None
  end.

Definition accept (s : TcpStream) (peer_addr : SocketAddr) (mode : ProxyProtocolMode) :
    option (result AcceptedStream ProxyProtocolError) :=
  match mode with
  | Disabled => Some (Ok (accept_unproxied peer_addr s))
  | Optional => accept_optional peer_addr s
  | Required => accept_required peer_addr s
  end.
