(* ===== verification/ProxyProtocolProps.v ===== *)
(** * What the PROXY protocol reader promises

    However the bytes of a connection are cut into segments, [accept] answers as
    [accept_bytes], its reference on the whole byte sequence; headers are read back, and
    the stream is left at the first byte after them. *)

From S2P Require Import Prelude Str F32 Sv1 Net ProxyProtocol.

(** ** The reference: streams as byte sequences *)
Definition content (s : TcpStream) : bytes := ts_arrived s ++ concat (ts_incoming s).

(** A computation on the bytes that are left and the ending after them. *)
Definition Spec (A : Type) : Type :=
  bytes → Ending → option (result (A * (bytes * Ending)) ProxyProtocolError).

Definition erase {A} (r : option (result (A * TcpStream) ProxyProtocolError)) :
    option (result (A * (bytes * Ending)) ProxyProtocolError) :=
  match r with
  | Some (Ok (a, s)) => Some (Ok (a, (content s, ts_ending s)))
  | Some (Err e) => Some (Err e)
  | None => None
  end.
Definition refines {A} (m : Reading A) (spec : Spec A) : Prop :=
  ∀ s, erase (m s) = spec (content s) (ts_ending s).

Definition spec_bind {A B} (m : Spec A) (k : A → Spec B) : Spec B := λ c e,
  match m c e with
  | Some (Ok (a, (c, e))) => k a c e
  | Some (Err e) => Some (Err e)
  | None => None
  end.
Definition spec_of {A} (r : result A ProxyProtocolError) : Spec A := λ c e,
  match r with Ok a => Some (Ok (a, (c, e))) | Err e => Some (Err e) end.

(** What a reader says at the end of the bytes. *)
Definition at_end {A} (e : Ending) : option (result A ProxyProtocolError) :=
  match e with Silent => None | _ => Some (Err Io) end.

Definition read_exact_bytes (n : nat) : Spec bytes := λ c e,
  if n <=? length c then Some (Ok (take n c, (drop n c, e))) else at_end e.

Definition detect_bytes : Spec ProxyHeaderKind := λ c e,
  match c with
  | [] => match e with
          | Closed => Some (Err MissingHeader) | Broken => Some (Err Io) | Silent => None
          end
  | _ => match classify_proxy_prefix (take 12 c) with
         | Complete kind => Some (Ok (kind, (c, e)))
         | NotProxy => Some (Ok (KindNotProxy, (c, e)))
         | NeedMore => None
         end
  end.

(** The length of the shortest prefix that ends in CR LF. *)
Definition ends_in_crlf (c : bytes) (n : nat) : bool := bool_decide (crlf `suffix_of` take n c).
Definition header_end (c : bytes) : option nat :=
  position (ends_in_crlf c) (seq 0 (S (length c))).
Definition v1_line_bytes : Spec bytes := λ c e,
  match header_end c with
  | Some n =>
      if n <=? V1_MAX_HEADER_LEN then Some (Ok (take n c, (drop n c, e)))
      else Some (Err HeaderTooLong)
  | None => if V1_MAX_HEADER_LEN <? length c then Some (Err HeaderTooLong) else at_end e
  end.
Definition v1_header_bytes (peer_addr : SocketAddr) : Spec ParsedHeader :=
  spec_bind v1_line_bytes (λ line, spec_of (parse_v1_header line peer_addr)).

Definition v2_header_bytes (peer_addr : SocketAddr) : Spec ParsedHeader :=
  spec_bind (read_exact_bytes 12) (λ prefix,
    if negb (bool_decide (prefix = V2_SIGNATURE)) then spec_of (Err InvalidV2Header)
    else spec_bind (read_exact_bytes 4) (λ header,
      match header with
      | [version_command; family_protocol; len_high; len_low] =>
          spec_bind (read_exact_bytes (N.to_nat (be_value [len_high; len_low])))
            (λ payload, spec_of
              (parse_v2_header version_command family_protocol payload peer_addr))
      | _ => λ _ _, None
      end)).

(** What [accept] answers: the addresses, whether they came from a header, and the
    bytes left for the miner's session. *)
Definition Answer : Type := SocketAddr * option SocketAddr * bool.
Definition parsed_answer (h : ParsedHeader) : Answer :=
  (ph_source_addr h, ph_destination_addr h, true).
Definition accept_bytes (peer_addr : SocketAddr) (mode : ProxyProtocolMode) : Spec Answer :=
  let unproxied := spec_of (Ok (peer_addr, None, false)) in
  match mode with
  | Disabled => unproxied
  | _ => spec_bind detect_bytes (λ kind,
      match kind with
      | V2 => spec_bind (v2_header_bytes peer_addr) (λ h, spec_of (Ok (parsed_answer h)))
      | V1 => spec_bind (v1_header_bytes peer_addr) (λ h, spec_of (Ok (parsed_answer h)))
      | KindNotProxy =>
          match mode with Optional => unproxied | _ => spec_of (Err MissingHeader) end
      end)
  end.

Definition answer_of (r : option (result AcceptedStream ProxyProtocolError)) :
    option (result (Answer * (bytes * Ending)) ProxyProtocolError) :=
  match r with
  | Some (Ok a) => Some (Ok
      ((as_source_addr a, as_destination_addr a, as_used_proxy_protocol a),
       (content (as_stream a), ts_ending (as_stream a))))
  | Some (Err e) => Some (Err e)
  | None => None
  end.

(** ** The parts refine their references *)
Lemma refines_bind {A B} (m : Reading A) (k : A → Reading B) p q :
  refines m p → (∀ a, refines (k a) (q a)) → refines (m ≫= k) (spec_bind p q).
Proof.
  intros Hm Hk s. unfold mbind, reading_bind, spec_bind. rewrite <- Hm.
  destruct (m s) as [[[a s']|e]|]; [apply Hk|done|done].
Qed.

Lemma refines_of {A} (r : result A ProxyProtocolError) : refines (reading_of r) (spec_of r).
Proof. intros s. by destruct r. Qed.

Lemma read_exact_refines n : refines (read_exact n) (read_exact_bytes n).
Proof.
  intros [arrived incoming e]. unfold read_exact, read_exact_bytes, content. simpl.
  revert arrived. induction incoming as [|seg incoming IH]; intros arrived; simpl.
  - rewrite app_nil_r. destruct (Nat.leb_spec n (length arrived)); simpl.
    + unfold content. simpl. by rewrite app_nil_r.
    + by destruct e.
  - destruct (Nat.leb_spec n (length arrived)); simpl.
    + destruct (Nat.leb_spec n (length (arrived ++ seg ++ concat incoming)));
        [|rewrite !length_app in *; lia].
      unfold content. simpl. rewrite take_app_le, drop_app_le by lia. done.
    + by rewrite IH, <- app_assoc.
Qed.

(** More bytes do not change what has been recognized. *)
Lemma take_prefix_mono (n : nat) (p q : bytes) : p `prefix_of` q → take n p `prefix_of` take n q.
Proof. intros [k ->]. rewrite take_app. apply prefix_app_r. done. Qed.

Lemma prefix_weak_or (p q r : bytes) :
  p `prefix_of` q → r `prefix_of` q → length p <= length r → p `prefix_of` r.
Proof.
  intros [k ->] [j Hj] Hl. exists (take (length r - length p) k).
  assert (take (length r) (p ++ k) = r) as H by (rewrite Hj; apply take_app_length).
  rewrite <- H at 1. by rewrite take_app, take_ge by lia.
Qed.

(** The cases of [classify_proxy_prefix] as propositions. *)
Inductive Classified (p : bytes) : PrefixMatch → Prop :=
  | cl_more : (p `prefix_of` V2_SIGNATURE ∧ length p < 12) ∨
              (p `prefix_of` V1_PREFIX ∧ length p < 6) → Classified p NeedMore
  | cl_v2 : p = V2_SIGNATURE → Classified p (Complete V2)
  | cl_v1 : V1_PREFIX `prefix_of` p → ¬ p `prefix_of` V2_SIGNATURE →
            Classified p (Complete V1)
  | cl_none : ¬ p `prefix_of` V2_SIGNATURE → ¬ p `prefix_of` V1_PREFIX →
              ¬ V1_PREFIX `prefix_of` p → Classified p NotProxy.

Lemma prefix_full (p q : bytes) : p `prefix_of` q → length q <= length p → p = q.
Proof.
  intros [k ->] Hl. rewrite length_app in Hl. destruct k; [by rewrite app_nil_r|].
  simpl in Hl. lia.
Qed.

Lemma classify_cases p : Classified p (classify_proxy_prefix p).
Proof.
  assert (p `prefix_of` V2_SIGNATURE → length p < 12 ∨ p = V2_SIGNATURE) as H2.
  { intros H. destruct (Nat.lt_ge_cases (length p) 12) as [|Hl]; [by left|right].
    by apply prefix_full. }
  assert (p `prefix_of` V1_PREFIX → length p < 6 ∨ V1_PREFIX `prefix_of` p) as H1.
  { intros H. destruct (Nat.lt_ge_cases (length p) 6) as [|Hl]; [by left|right].
    by rewrite (prefix_full _ _ H) by done. }
  unfold classify_proxy_prefix. change (length V2_SIGNATURE) with 12.
  change (length V1_PREFIX) with 6.
  destruct (Nat.ltb_spec (length p) 12) as [L2|L2], (bool_decide_reflect (p `prefix_of` V2_SIGNATURE))
    as [P2|P2]; cbn [andb]; [constructor; by left| | |].
  all: destruct (bool_decide_reflect (p = V2_SIGNATURE)) as [E|E]; [by constructor|].
  all: destruct (Nat.ltb_spec (length p) 6) as [L1|L1],
    (bool_decide_reflect (p `prefix_of` V1_PREFIX)) as [P1|P1]; cbn [andb];
    try (constructor; by right).
  all: destruct (bool_decide_reflect (V1_PREFIX `prefix_of` p)) as [Q1|Q1];
    constructor; try done; intros H; destruct (H2 H) || destruct (H1 H); (done || lia).
Qed.

Lemma classified_fun p m m' : Classified p m → Classified p m' → m = m'.
Proof.
  assert (p = V2_SIGNATURE → p `prefix_of` V2_SIGNATURE ∧ ¬ length p < 12 ∧
    ¬ p `prefix_of` V1_PREFIX ∧ ¬ V1_PREFIX `prefix_of` p) as H2.
  { intros ->. repeat split; [done|simpl; lia| |]; intros [k Hk]; discriminate. }
  assert (V1_PREFIX `prefix_of` p → ¬ length p < 6 ∧ ¬ p `prefix_of` V2_SIGNATURE) as H1.
  { intros [k ->]. split; [simpl; lia|]. intros [j Hj]; discriminate. }
  intros C C'. destruct C, C'; first [reflexivity | exfalso; tauto].
Qed.

Lemma classify_mono p q :
  p `prefix_of` q → length q <= 12 → classify_proxy_prefix p ≠ NeedMore →
  classify_proxy_prefix q = classify_proxy_prefix p.
Proof.
  intros Hpq Hq Hp. pose proof (prefix_length _ _ Hpq) as Hlen.
  assert (V1_PREFIX `prefix_of` p → ¬ p `prefix_of` V2_SIGNATURE) as Hx.
  { intros [k ->] [j Hj]. discriminate. }
  apply (classified_fun q); [apply classify_cases|].
  pose proof (classify_cases p) as C. revert Hp C. generalize (classify_proxy_prefix p).
  intros m Hm C. destruct C as [ | -> |H1 H2|H1 H2 H3]; [done| | |].
  - rewrite <- (prefix_full V2_SIGNATURE q) by done. by constructor.
  - constructor; [by trans p|]. intros H. apply H2. by trans q.
  - constructor.
    + intros H. apply H1. by trans q.
    + intros H. apply H2. by trans q.
    + intros H. destruct (Nat.le_gt_cases (length p) 6) as [Hl|Hl].
      * apply H2. by eapply prefix_weak_or.
      * apply H3. eapply prefix_weak_or; [exact H|exact Hpq|].
        change (length V1_PREFIX) with 6. lia.
Qed.

Lemma detect_bytes_cons b c e :
  detect_bytes (b :: c) e =
    match classify_proxy_prefix (take 12 (b :: c)) with
    | Complete kind => Some (Ok (kind, (b :: c, e)))
    | NotProxy => Some (Ok (KindNotProxy, (b :: c, e)))
    | NeedMore => None
    end.
Proof. done. Qed.

Lemma detect_refines : refines detect_proxy_header detect_bytes.
Proof.
  intros [arrived incoming e]. unfold detect_proxy_header, content. cbn [ts_arrived ts_incoming ts_ending].
  revert arrived. induction incoming as [|seg incoming IH]; intros arrived;
    destruct arrived as [|b arrived]; cbn [detect_loop concat].
  - by destruct e.
  - rewrite app_nil_r, detect_bytes_cons. cbn [length V2_SIGNATURE take Nat.eqb].
    destruct (classify_proxy_prefix _); simpl; unfold content; simpl; by rewrite ?app_nil_r.
  - apply IH.
  - cbn [app]. rewrite detect_bytes_cons.
    pose proof (classify_mono (take 12 (b :: arrived))
      (take 12 (b :: arrived ++ seg ++ concat incoming))) as Hm.
    cbn [length V2_SIGNATURE take Nat.eqb] in *.
    pose proof (IH (b :: arrived ++ seg)) as IH'. cbn [app] in IH'.
    rewrite <- app_assoc in IH'. rewrite detect_bytes_cons in IH'. cbn [take] in IH'.
    destruct (classify_proxy_prefix (b :: take 11 arrived)) eqn:E.
    + rewrite Hm; [done| |simpl; rewrite length_take; lia|done].
      apply prefix_cons, take_prefix_mono. by exists (seg ++ concat incoming).
    + exact IH'.
    + rewrite Hm; [done| |simpl; rewrite length_take; lia|done].
      apply prefix_cons, take_prefix_mono. by exists (seg ++ concat incoming).
Qed.

(** The line of version 1: reading byte by byte up to CR LF. *)
Fixpoint line_loop_bytes (fuel : nat) (header : bytes) : Spec bytes :=
  match fuel with
  | 0 => λ _ _, None
  | S fuel => spec_bind (read_exact_bytes 1) (λ byte,
      let header := header ++ byte in
      if V1_MAX_HEADER_LEN <? length header then spec_of (Err HeaderTooLong)
      else if bool_decide (crlf `suffix_of` header) then spec_of (Ok header)
      else line_loop_bytes fuel header)
  end.

Lemma read_v1_loop_refines fuel header :
  refines (read_v1_loop fuel header) (line_loop_bytes fuel header).
Proof.
  revert header. induction fuel as [|fuel IH]; intros header; cbn [read_v1_loop line_loop_bytes];
    [by intros s|].
  apply refines_bind; [apply read_exact_refines|]. intros byte. cbv zeta.
  repeat case_if; [apply refines_of..|apply IH].
Qed.

Lemma header_end_Some c n :
  header_end c = Some n ↔
    n <= length c ∧ ends_in_crlf c n = true ∧ ∀ m, m < n → ends_in_crlf c m = false.
Proof.
  unfold header_end. rewrite position_Some. split.
  - intros (x & Hx & HP & Hb). apply lookup_seq in Hx as [-> Hl]. cbn [Nat.add] in *.
    split; [lia|]. split; [done|]. intros m Hm. apply (Hb m m Hm).
    apply lookup_seq. split; [done|lia].
  - intros (Hl & HP & Hb). exists n. split; [apply lookup_seq; split; [done|lia]|].
    split; [done|]. intros j y Hj Hy. apply lookup_seq in Hy as [-> _]. by apply Hb.
Qed.

Lemma header_end_None c :
  header_end c = None ↔ ∀ m, m <= length c → ends_in_crlf c m = false.
Proof.
  unfold header_end. rewrite position_None. split.
  - intros H m Hm. apply H, elem_of_seq. lia.
  - intros H x Hx. apply elem_of_seq in Hx. apply H. lia.
Qed.

(** [header] holds no CR LF: every longer line is still to be found. *)
Definition no_crlf (header : bytes) : Prop := ∀ m, m <= length header → ends_in_crlf header m = false.

Lemma ends_in_crlf_app h c m : m <= length h → ends_in_crlf (h ++ c) m = ends_in_crlf h m.
Proof. intros Hm. unfold ends_in_crlf. by rewrite take_app_le by done. Qed.

Lemma line_loop_reference fuel header c e :
  length header + fuel = S V1_MAX_HEADER_LEN → 0 < fuel → no_crlf header →
  line_loop_bytes fuel header c e = v1_line_bytes (header ++ c) e.
Proof.
  revert header c. induction fuel as [|fuel IH]; intros header c Hf Hpos Hno; [lia|].
  cbn [line_loop_bytes]. unfold spec_bind at 1, read_exact_bytes, v1_line_bytes.
  unfold V1_MAX_HEADER_LEN in *. destruct c as [|b c]; simpl length.
  - rewrite app_nil_r. rewrite (proj2 (header_end_None header) Hno).
    destruct (Nat.ltb_spec 108 (length header)); [lia|]. simpl. by destruct e.
  - cbn [Nat.leb take drop]. rewrite take_0, drop_0.
    assert (length (header ++ [b]) = S (length header)) as Hl by (rewrite length_app; simpl; lia).
    replace (header ++ b :: c) with ((header ++ [b]) ++ c) by by rewrite <- app_assoc.
    assert (∀ m, m <= length header → ends_in_crlf ((header ++ [b]) ++ c) m = false) as Hno'.
    { intros m Hm. rewrite <- app_assoc, ends_in_crlf_app by done. by apply Hno. }
    destruct (Nat.ltb_spec 108 (length (header ++ [b]))) as [Hlong|Hshort].
    + cbn [spec_of]. destruct (header_end ((header ++ [b]) ++ c)) as [n|] eqn:E.
      * apply header_end_Some in E as (_ & Hn & _). destruct (Nat.leb_spec n 108) as [Hs|]; [|done].
        rewrite Hno' in Hn by lia. done.
      * destruct (Nat.ltb_spec 108 (length ((header ++ [b]) ++ c))); [done|].
        pose proof (length_app (header ++ [b]) c). lia.
    + case_bool_decide as Hend.
      * assert (header_end ((header ++ [b]) ++ c) = Some (length (header ++ [b]))) as ->.
        { apply header_end_Some. split; [rewrite (length_app (header ++ [b])); lia|]. split.
          - unfold ends_in_crlf. rewrite take_app_length. by apply bool_decide_eq_true.
          - intros m Hm. apply Hno'. lia. }
        destruct (Nat.leb_spec (length (header ++ [b])) 108); [|lia].
        by rewrite take_app_length, drop_app_length.
      * rewrite IH; [done|lia|lia|]. intros m Hm.
        destruct (Nat.eq_dec m (S (length header))) as [->|].
        -- unfold ends_in_crlf. rewrite <- Hl, take_ge by lia. by apply bool_decide_eq_false.
        -- rewrite ends_in_crlf_app by lia. apply Hno. lia.
Qed.

Lemma read_v1_header_refines peer : refines (read_v1_header peer) (v1_header_bytes peer).
Proof.
  apply refines_bind; [|intros line; apply refines_of].
  intros s. rewrite read_v1_loop_refines, line_loop_reference; [done|done|unfold V1_MAX_HEADER_LEN; lia|].
  intros m Hm. by destruct m.
Qed.

Lemma read_v2_header_refines peer : refines (read_v2_header peer) (v2_header_bytes peer).
Proof.
  apply refines_bind; [apply read_exact_refines|]. intros prefix.
  case_if; [apply refines_of|].
  apply refines_bind; [apply read_exact_refines|]. intros header.
  destruct header as [|vc [|fp [|lh [|ll [|]]]]]; try by intros s.
  apply refines_bind; [apply read_exact_refines|]. intros payload. apply refines_of.
Qed.

(** ** Texts *)
(** Printable ASCII without white space: no token of a header holds anything else. *)
Definition token_char (c : char) : bool := (33 <=? c)%N && (c <=? 126)%N.
Lemma token_char_facts c :
  token_char c = true → is_whitespace c = false ∧ (c < 128)%N ∧ c ≠ 13%N.
Proof.
  unfold token_char. intros H. bool_to_prop. split; [|lia]. unfold is_whitespace.
  rewrite !orb_false_iff, !andb_false_iff, !N.eqb_neq, !N.leb_gt. lia.
Qed.

Lemma words_token cur w s :
  forallb token_char w = true → reverse cur ++ w ≠ [] →
  words_aux cur (w ++ 32%N :: s) = (reverse cur ++ w) :: words_aux [] s.
Proof.
  revert cur. induction w as [|c w IH]; intros cur Hw Hne; simpl.
  - rewrite app_nil_r in *. destruct (decide (cur = [])) as [->|]; done.
  - simpl in Hw. apply andb_true_iff in Hw as [Hc Hw].
    rewrite (proj1 (token_char_facts c Hc)), IH; rewrite ?reverse_cons, <- ?app_assoc; [done..|].
    by destruct (reverse cur).
Qed.
Lemma words_last cur w :
  forallb token_char w = true → reverse cur ++ w ≠ [] → words_aux cur w = [reverse cur ++ w].
Proof.
  revert cur. induction w as [|c w IH]; intros cur Hw Hne; simpl.
  - rewrite app_nil_r in *. destruct (decide (cur = [])) as [->|]; done.
  - simpl in Hw. apply andb_true_iff in Hw as [Hc Hw].
    rewrite (proj1 (token_char_facts c Hc)), IH; rewrite ?reverse_cons, <- ?app_assoc; [done..|].
    by destruct (reverse cur).
Qed.

Definition text_bytes (s : str) : bytes := byte_of_N <$> s.
Lemma from_utf8_ascii s :
  Forall (λ c, (c < 128)%N) s → from_utf8 (text_bytes s) = Some s.
Proof.
  induction 1 as [|c s Hc Hs IH]; [done|]. cbn [text_bytes fmap list_fmap from_utf8].
  rewrite byte_of_N_lt by lia. rewrite (proj2 (N.ltb_lt c 128) Hc).
  unfold text_bytes in IH. by rewrite IH.
Qed.

Lemma length_decimal k fuel n acc :
  (n < 10 ^ N.of_nat (S k))%N → length (decimal fuel n acc) <= S k + length acc.
Proof.
  revert k n acc. induction fuel as [|fuel IH]; intros k n acc Hn; simpl;
    destruct (N.ltb_spec n 10) as [|H]; simpl; try lia.
  rewrite Nat2N.inj_succ, N.pow_succ_r' in Hn. destruct k as [|k]; [simpl in Hn; lia|].
  etrans; [apply (IH k)|simpl; lia].
  apply N.Div0.div_lt_upper_bound. lia.
Qed.
Lemma display_octet_length n : (n <= 255)%N → length (display_N n) <= 3.
Proof. intros Hn. etrans; [apply (length_decimal 2); simpl; lia|simpl; lia]. Qed.
Lemma display_port_length n : (n <= u16_max)%N → length (display_N n) <= 5.
Proof.
  unfold u16_max. intros Hn. etrans; [apply (length_decimal 4); simpl; lia|simpl; lia].
Qed.
Lemma display_token n : forallb token_char (display_N n) = true.
Proof.
  pose proof (decimal_digits (N.size_nat n) n [] eq_refl) as H. fold (display_N n) in H.
  rewrite forallb_forall in *. intros c Hc. specialize (H c Hc). unfold is_digit, token_char in *.
  bool_to_prop. apply andb_true_iff. split; apply N.leb_le; lia.
Qed.
Lemma display_nonempty n : display_N n ≠ [].
Proof. apply decimal_nonempty. Qed.

(** ** The line of version 1 *)
Lemma header_end_line body rest :
  Byte.x0d ∉ body → header_end (body ++ crlf ++ rest) = Some (length (body ++ crlf)).
Proof.
  intros Hno. apply header_end_Some. rewrite app_assoc. split; [rewrite (length_app (_ ++ _)); lia|].
  split.
  - unfold ends_in_crlf. rewrite take_app_length. apply bool_decide_eq_true. by exists body.
  - intros m Hm. apply bool_decide_eq_false. rewrite length_app in Hm. simpl in Hm.
    rewrite take_app_le by (rewrite length_app; simpl; lia). intros [k Hk]. apply Hno.
    assert (length (take m (body ++ crlf)) = length k + 2) as Hl by (rewrite Hk, length_app; done).
    rewrite length_take, length_app in Hl. simpl in Hl.
    assert ((body ++ crlf) !! length k = Some Byte.x0d) as Hx.
    { rewrite <- (lookup_take_lt _ m) by lia. rewrite Hk, lookup_app_r, Nat.sub_diag by lia. done. }
    rewrite lookup_app_l in Hx by lia. by eapply list_elem_of_lookup_2.
Qed.

(** A header line of version 1 for a family, two addresses and two ports. *)
Definition space : str := [32%N].
Definition v1_body (family source destination : str) (source_port destination_port : N) : str :=
  lit "PROXY" ++ space ++ family ++ space ++ source ++ space ++ destination ++ space
  ++ display_N source_port ++ space ++ display_N destination_port.
Definition encode_v1 (family source destination : str) (source_port destination_port : N) : bytes :=
  text_bytes (v1_body family source destination source_port destination_port ++ [13; 10]%N).

Definition family_text (source destination : IpAddr) : str :=
  match source, destination with Net.V4 _, Net.V4 _ => lit "TCP4" | _, _ => lit "TCP6" end.
Definition same_family (source destination : IpAddr) : Prop :=
  match source, destination with
  | Net.V4 _, Net.V4 _ | Net.V6 _, Net.V6 _ => True | _, _ => False
  end.

Section version_1.
Context (src dst : IpAddr) (s d : str) (sp dp : N).
Context (Hs : forallb token_char s = true) (Hd : forallb token_char d = true).
Context (Hps : parse_ip s = Some src) (Hpd : parse_ip d = Some dst).
Context (Hfam : same_family src dst) (Hsp : (sp <= u16_max)%N) (Hdp : (dp <= u16_max)%N).
Local Abbreviation body := (v1_body (family_text src dst) s d sp dp).

Lemma family_token : forallb token_char (family_text src dst) = true ∧ family_text src dst ≠ [].
Proof using Hfam. clear -Hfam. by destruct src, dst. Qed.

Lemma address_nonempty w ip : parse_ip w = Some ip → w ≠ [].
Proof. by intros H ->. Qed.

Lemma v1_body_words :
  split_whitespace body = [lit "PROXY"; family_text src dst; s; d; display_N sp; display_N dp].
Proof using All.
  destruct family_token as [Hf Hfn]. unfold split_whitespace, v1_body, space.
  assert (∀ w x, forallb token_char w = true → w ≠ [] →
    words_aux [] (w ++ [32%N] ++ x) = w :: words_aux [] x) as Hw
    by (intros w x H1 H2; by apply (words_token [])).
  rewrite !Hw by (done || apply display_token || apply display_nonempty
    || by eapply address_nonempty).
  do 5 f_equal. apply (words_last []); [apply display_token|apply display_nonempty].
Qed.

Lemma forallb_token_Forall w (P : char → Prop) :
  (∀ c, token_char c = true → P c) → forallb token_char w = true → Forall P w.
Proof.
  intros HP Hw. apply Forall_forall. intros c Hc. apply HP.
  rewrite forallb_forall in Hw. by apply Hw, list_elem_of_In.
Qed.

Lemma v1_body_chars : Forall (λ c, (c < 128)%N ∧ c ≠ 13%N) body.
Proof using All.
  destruct family_token as [Hf _].
  assert (∀ w, forallb token_char w = true → Forall (λ c, (c < 128)%N ∧ c ≠ 13%N) w) as Hw
    by (intros w; apply forallb_token_Forall; intros c Hc; by apply token_char_facts).
  unfold v1_body, space, lit. rewrite !Forall_app.
  repeat split; try (by apply Hw); try apply Hw, display_token;
    repeat constructor; (done || lia).
Qed.

Lemma parse_v1_encoded peer :
  parse_v1_header (encode_v1 (family_text src dst) s d sp dp) peer =
    Ok (MkParsedHeader (MkSocketAddr src sp) (Some (MkSocketAddr dst dp))).
Proof using All.
  unfold parse_v1_header, encode_v1. rewrite from_utf8_ascii.
  2: { apply Forall_app. split; [|repeat constructor; lia].
       eapply Forall_impl; [apply v1_body_chars|]. by intros c [? _]. }
  cbn [ok_or rbind].
  assert (strip_suffix [13; 10]%N (body ++ [13; 10]%N) = Some body) as ->
    by by apply strip_suffix_Some.
  cbn [ok_or rbind]. rewrite v1_body_words. cbn [bool_decide negb].
  rewrite bool_decide_true by done. cbn [negb].
  rewrite bool_decide_false by (clear -Hfam; by destruct src, dst).
  unfold parse_ip_v1, parse_port_v1. rewrite Hps, Hpd, !parse_uint_display by done.
  cbn [ok_or rbind]. clear -Hfam. by destruct src, dst.
Qed.

(** The line is found at the front of a stream. *)
Lemma v1_line_encoded rest e :
  length body <= 106 →
  v1_line_bytes (encode_v1 (family_text src dst) s d sp dp ++ rest) e =
    Some (Ok (encode_v1 (family_text src dst) s d sp dp, (rest, e))).
Proof using All.
  intros Hl. unfold v1_line_bytes, encode_v1, text_bytes. rewrite fmap_app.
  change (byte_of_N <$> [13; 10]%N) with crlf. rewrite <- app_assoc, header_end_line.
  - rewrite app_assoc, take_app_length, drop_app_length, !length_app, length_fmap.
    change (length crlf) with 2. unfold V1_MAX_HEADER_LEN. destruct (Nat.leb_spec (length body + 2) 108); [done|lia].
  - intros Hx. apply list_elem_of_fmap in Hx as (c & Hc & Hin).
    pose proof v1_body_chars as H. rewrite Forall_forall in H. destruct (H c Hin) as [H1 H2].
    apply (f_equal Byte.to_N) in Hc. rewrite byte_of_N_lt in Hc by lia. simpl in Hc. congruence.
Qed.
End version_1.

(** ** Detection on the whole sequence *)
Lemma detect_complete prefix kind c e :
  prefix `prefix_of` c → prefix ≠ [] → length prefix <= 12 →
  classify_proxy_prefix prefix = Complete kind →
  detect_bytes c e = Some (Ok (kind, (c, e))).
Proof.
  intros Hp Hne Hl Hc. destruct c as [|b c]; [by apply prefix_nil_inv in Hp|].
  rewrite detect_bytes_cons, (classify_mono prefix); [by rewrite Hc| | |by rewrite Hc].
  - rewrite <- (take_ge prefix 12) by lia. by apply take_prefix_mono.
  - rewrite length_take. lia.
Qed.
Lemma detect_v1 c e : V1_PREFIX `prefix_of` c → detect_bytes c e = Some (Ok (V1, (c, e))).
Proof. intros H. apply (detect_complete V1_PREFIX); [done..|simpl; lia|by vm_compute]. Qed.
Lemma detect_v2 c e : V2_SIGNATURE `prefix_of` c → detect_bytes c e = Some (Ok (V2, (c, e))).
Proof. intros H. apply (detect_complete V2_SIGNATURE); [done..|simpl; lia|by vm_compute]. Qed.

(** ** Acceptance *)
Lemma accept_answers s peer mode :
  answer_of (accept s peer mode) = accept_bytes peer mode (content s) (ts_ending s).
Proof.
  assert (∀ m spec s', refines m spec → answer_of (accept_parsed m s') =
    spec_bind spec (λ h, spec_of (Ok (parsed_answer h))) (content s') (ts_ending s')) as Hm.
  { intros m spec s' H. unfold accept_parsed, spec_bind. rewrite <- H.
    by destruct (m s') as [[[]|]|]. }
  pose proof (read_v1_header_refines peer) as H1. pose proof (read_v2_header_refines peer) as H2.
  destruct mode; [done|..]; unfold accept, accept_required, accept_optional, accept_bytes;
    cbv zeta; unfold spec_bind at 1; rewrite <- detect_refines;
    destruct (detect_proxy_header s) as [[[kind s']|]|]; cbn [erase]; try done;
    destruct kind; try done; by apply Hm.
Qed.

(** C26: However the network cuts the bytes of a connection into segments, [accept]
    gives the answer of [accept_bytes] on the whole byte sequence: the same addresses or
    error, and the same bytes left for the miner's session.  In particular a fragmented
    header is neither rejected early nor read past its end. *)
Theorem accept_refines_bytes s peer mode :
  answer_of (accept s peer mode) = accept_bytes peer mode (content s) (ts_ending s).
Proof. apply accept_answers. Qed.

(** The text of an address: any text the standard parser reads, of the length of an IPv6
    address at most. *)
Definition address_text (ip : IpAddr) (s : str) : Prop :=
  parse_ip s = Some ip ∧ forallb token_char s = true ∧ length s <= 39.

Lemma display_ipv4_text a b c d :
  (a <= 255)%N → (b <= 255)%N → (c <= 255)%N → (d <= 255)%N →
  address_text (Net.V4 [byte_of_N a; byte_of_N b; byte_of_N c; byte_of_N d]) (display_ipv4 a b c d).
Proof.
  intros Ha Hb Hc Hd. split; [by apply parse_display_ipv4|]. unfold display_ipv4, dot.
  rewrite !forallb_app, !length_app, !display_token. split; [done|].
  pose proof (display_octet_length a Ha). pose proof (display_octet_length b Hb).
  pose proof (display_octet_length c Hc). pose proof (display_octet_length d Hd). simpl. lia.
Qed.

(** In both proxied modes a version 1 header of any two addresses of one family and
    any ports, followed by anything and cut into any segments, yields exactly these
    addresses and leaves the stream at the first byte after the line. *)
Theorem accept_v1_roundtrip src dst st dt sp dp peer mode s rest :
  same_family src dst → address_text src st → address_text dst dt →
  (sp <= u16_max)%N → (dp <= u16_max)%N → mode ≠ Disabled →
  content s = encode_v1 (family_text src dst) st dt sp dp ++ rest →
  answer_of (accept s peer mode) =
    Some (Ok ((MkSocketAddr src sp, Some (MkSocketAddr dst dp), true), (rest, ts_ending s))).
Proof.
  intros Hf (Hps & Hst & Hls) (Hpd & Hdt & Hld) Hsp Hdp Hmode Hc.
  rewrite accept_answers, Hc.
  assert (V1_PREFIX `prefix_of` encode_v1 (family_text src dst) st dt sp dp ++ rest) as Hpre
    by (apply prefix_app_r; eexists; reflexivity).
  assert (length (v1_body (family_text src dst) st dt sp dp) <= 106) as Hl.
  { pose proof (display_port_length sp Hsp). pose proof (display_port_length dp Hdp).
    assert (length (family_text src dst) = 4) as Hlf by (by destruct src, dst).
    unfold v1_body. rewrite !length_app, Hlf. simpl. lia. }
  assert (v1_header_bytes peer (encode_v1 (family_text src dst) st dt sp dp ++ rest) (ts_ending s) =
    Some (Ok (MkParsedHeader (MkSocketAddr src sp) (Some (MkSocketAddr dst dp)),
      (rest, ts_ending s)))) as Hh.
  { unfold v1_header_bytes, spec_bind. rewrite v1_line_encoded by done.
    by rewrite parse_v1_encoded. }
  destruct mode; [done|..]; unfold accept_bytes, spec_bind at 1; rewrite detect_v1 by done;
    unfold spec_bind; by rewrite Hh.
Qed.

(** A header of an IPv6 miner, arriving in four segments. *)
Definition sample_v6 : IpAddr :=
  Net.V6 [Byte.x20; Byte.x01; Byte.x0d; Byte.xb8; Byte.x00; Byte.x00; Byte.x00; Byte.x00;
          Byte.x00; Byte.x00; Byte.x00; Byte.x00; Byte.x00; Byte.x00; Byte.x00; Byte.x07].
Definition sample_peer : SocketAddr :=
  MkSocketAddr (Net.V4 [Byte.x0a; Byte.x00; Byte.x00; Byte.x01]) 1234.
Definition sample_v1 : TcpStream :=
  MkTcpStream [] [ascii_bytes "PRO"; ascii_bytes "XY TCP6 2001:db8::7 2001:d";
    ascii_bytes "b8:0::7 54321 20000" ++ [Byte.x0d]; [Byte.x0a] ++ ascii_bytes "{"] Silent.

Lemma accept_v1_roundtrip_witness :
  answer_of (accept sample_v1 sample_peer Optional) =
    Some (Ok ((MkSocketAddr sample_v6 54321, Some (MkSocketAddr sample_v6 20000), true),
      (ascii_bytes "{", Silent))).
Proof.
  apply (accept_v1_roundtrip sample_v6 sample_v6 (lit "2001:db8::7") (lit "2001:db8:0::7")
    54321 20000 sample_peer Optional sample_v1 (ascii_bytes "{")).
  - exact I.
  - split; [vm_compute; reflexivity|]. split; [reflexivity|]. apply Nat.leb_le. reflexivity.
  - split; [vm_compute; reflexivity|]. split; [reflexivity|]. apply Nat.leb_le. reflexivity.
  - apply N.leb_le. reflexivity.
  - apply N.leb_le. reflexivity.
  - discriminate.
  - vm_compute. reflexivity.
Defined.

(** ** Version 2 *)
Definition octets (ip : IpAddr) : bytes := match ip with Net.V4 o | Net.V6 o => o end.
Definition family_byte (ip : IpAddr) : byte :=
  match ip with Net.V4 _ => Byte.x11 | Net.V6 _ => Byte.x21 end.

(** A version 2 header for a connection, with any extension fields after the ports. *)
Definition v2_payload (src dst : SocketAddr) (tlvs : bytes) : bytes :=
  octets (sa_ip src) ++ octets (sa_ip dst)
  ++ be_bytes 2 (sa_port src) ++ be_bytes 2 (sa_port dst) ++ tlvs.
Definition encode_v2 (src dst : SocketAddr) (tlvs : bytes) : bytes :=
  let payload := v2_payload src dst tlvs in
  V2_SIGNATURE ++ [Byte.x21; family_byte (sa_ip src)]
  ++ be_bytes 2 (N.of_nat (length payload)) ++ payload.

Lemma slice_middle (x y z : bytes) from to :
  from = length x → to = length x + length y → slice from to (x ++ y ++ z) = y.
Proof.
  intros -> ->. unfold slice. rewrite drop_app_length.
  replace (length x + length y - length x) with (length y) by lia. apply take_app_length.
Qed.

Lemma slice_front (y z : bytes) to : to = length y → slice 0 to (y ++ z) = y.
Proof. intros H. by apply (slice_middle [] y z). Qed.

Lemma parse_v2_encoded src dst tlvs peer :
  ip_wf (sa_ip src) → ip_wf (sa_ip dst) → same_family (sa_ip src) (sa_ip dst) →
  (sa_port src <= u16_max)%N → (sa_port dst <= u16_max)%N →
  parse_v2_header Byte.x21 (family_byte (sa_ip src)) (v2_payload src dst tlvs) peer =
    Ok (MkParsedHeader src (Some dst)).
Proof.
  destruct src as [si sp], dst as [di dp]. unfold v2_payload. cbn [sa_ip sa_port].
  intros Hs Hd Hf Hsp Hdp. unfold u16_max in *.
  set (p1 := be_bytes 2 sp). set (p2 := be_bytes 2 dp).
  assert (length p1 = 2 ∧ length p2 = 2) as [L1 L2] by (split; apply length_be_bytes).
  assert (be_value p1 = sp ∧ be_value p2 = dp) as [Hv1 Hv2]
    by (split; apply be_value_be_bytes; simpl; lia).
  clearbody p1 p2.
  destruct si as [so|so], di as [d|d]; try done; cbn [ip_wf octets family_byte] in *;
    unfold parse_v2_header; cbv zeta;
    change (high_nibble Byte.x21) with 2%N; change (low_nibble Byte.x21) with 1%N;
    change (high_nibble Byte.x11) with 1%N; change (low_nibble Byte.x11) with 1%N;
    cbn [N.eqb Pos.eqb negb];
    match goal with |- context [length ?p <? ?n] => destruct (Nat.ltb_spec (length p) n) as [Hl|_] end;
    [rewrite !length_app in Hl; lia| |rewrite !length_app in Hl; lia|].
  - rewrite (slice_front so _ 4), (slice_middle so d _ 4 8) by lia.
    rewrite !(app_assoc so), (slice_middle (so ++ d) p1 _ 8 10) by (rewrite length_app; lia).
    rewrite (app_assoc (so ++ d)), (slice_middle ((so ++ d) ++ p1) p2 _ 10 12)
      by (rewrite !length_app; lia). by rewrite Hv1, Hv2.
  - rewrite (slice_front so _ 16), (slice_middle so d _ 16 32) by lia.
    unfold to_array. rewrite Hs, Hd. cbn [Nat.eqb ok_or rbind].
    rewrite !(app_assoc so), (slice_middle (so ++ d) p1 _ 32 34) by (rewrite length_app; lia).
    rewrite (app_assoc (so ++ d)), (slice_middle ((so ++ d) ++ p1) p2 _ 34 36)
      by (rewrite !length_app; lia). by rewrite Hv1, Hv2.
Qed.

Lemma read_exact_bytes_app n a c e :
  n = length a → read_exact_bytes n (a ++ c) e = Some (Ok (a, (c, e))).
Proof.
  intros ->. unfold read_exact_bytes. rewrite take_app_length, drop_app_length, length_app.
  destruct (Nat.leb_spec (length a) (length a + length c)); [done|lia].
Qed.
Lemma spec_bind_ok {A B} (m : Spec A) (k : A → Spec B) c e a c' e' :
  m c e = Some (Ok (a, (c', e'))) → spec_bind m k c e = k a c' e'.
Proof. unfold spec_bind. by intros ->. Qed.

Lemma v2_header_encoded src dst tlvs peer rest e :
  ip_wf (sa_ip src) → ip_wf (sa_ip dst) → same_family (sa_ip src) (sa_ip dst) →
  (sa_port src <= u16_max)%N → (sa_port dst <= u16_max)%N →
  (N.of_nat (length (v2_payload src dst tlvs)) <= u16_max)%N →
  v2_header_bytes peer (encode_v2 src dst tlvs ++ rest) e =
    Some (Ok (MkParsedHeader src (Some dst), (rest, e))).
Proof.
  intros Hs Hd Hf Hsp Hdp Hlen.
  pose proof (parse_v2_encoded src dst tlvs peer Hs Hd Hf Hsp Hdp) as Hp.
  unfold encode_v2. cbv zeta. set (p := v2_payload src dst tlvs) in *. clearbody p.
  pose proof (be_value_be_bytes 2 (N.of_nat (length p)) ltac:(unfold u16_max in *; simpl; lia)) as Hv.
  destruct (be_bytes 2 (N.of_nat (length p))) as [|lh [|ll [|]]] eqn:E;
    try (apply (f_equal length) in E; rewrite length_be_bytes in E; discriminate).
  unfold v2_header_bytes. rewrite <- (app_assoc V2_SIGNATURE).
  erewrite spec_bind_ok by by apply read_exact_bytes_app.
  rewrite bool_decide_true by done. cbn [negb].
  change (([Byte.x21; family_byte (sa_ip src)] ++ [lh; ll] ++ p) ++ rest)
    with ([Byte.x21; family_byte (sa_ip src); lh; ll] ++ (p ++ rest)).
  erewrite spec_bind_ok by by apply read_exact_bytes_app. cbv iota.
  rewrite Hv, Nat2N.id. erewrite spec_bind_ok by by apply read_exact_bytes_app.
  by rewrite Hp.
Qed.

(** C27: In both proxied modes a version 2 header of any connection with any extension
    fields, followed by anything and cut into any segments, yields exactly its two
    addresses and leaves the stream at the first byte after the announced length. *)
Theorem accept_v2_roundtrip src dst tlvs peer mode s rest :
  ip_wf (sa_ip src) → ip_wf (sa_ip dst) → same_family (sa_ip src) (sa_ip dst) →
  (sa_port src <= u16_max)%N → (sa_port dst <= u16_max)%N →
  (N.of_nat (length (v2_payload src dst tlvs)) <= u16_max)%N → mode ≠ Disabled →
  content s = encode_v2 src dst tlvs ++ rest →
  answer_of (accept s peer mode) = Some (Ok ((src, Some dst, true), (rest, ts_ending s))).
Proof.
  intros Hs Hd Hf Hsp Hdp Hlen Hmode Hc. rewrite accept_answers, Hc.
  assert (v2_header_bytes peer (encode_v2 src dst tlvs ++ rest) (ts_ending s) =
    Some (Ok (MkParsedHeader src (Some dst), (rest, ts_ending s)))) as Hh.
  { by apply v2_header_encoded. }
  assert (V2_SIGNATURE `prefix_of` encode_v2 src dst tlvs ++ rest) as Hpre
    by (apply prefix_app_r, prefix_app_r; done).
  destruct mode; [done|..]; unfold accept_bytes, spec_bind at 1; rewrite detect_v2 by done;
    unfold spec_bind; by rewrite Hh.
Qed.

(** An IPv4 connection with an extension field, its signature cut in two. *)
Definition sample_v4 (d : byte) (port : N) : SocketAddr :=
  MkSocketAddr (Net.V4 [Byte.xcb; Byte.x00; Byte.x71; d]) port.
Definition sample_v2 : TcpStream :=
  let e := encode_v2 (sample_v4 Byte.x0a 54321) (sample_v4 Byte.x0b 20000) [Byte.x04; Byte.x00; Byte.x00] in
  MkTcpStream (take 5 e) [[]; drop 5 e ++ ascii_bytes "{"] Closed.
Lemma accept_v2_roundtrip_witness :
  answer_of (accept sample_v2 sample_peer Required) =
    Some (Ok ((sample_v4 Byte.x0a 54321, Some (sample_v4 Byte.x0b 20000), true),
      (ascii_bytes "{", Closed))).
Proof.
  apply (accept_v2_roundtrip (sample_v4 Byte.x0a 54321) (sample_v4 Byte.x0b 20000)
    [Byte.x04; Byte.x00; Byte.x00] sample_peer Required sample_v2 (ascii_bytes "{"));
    first [reflexivity | exact I | discriminate | apply N.leb_le; reflexivity].
Defined.

(** ** What an accepted connection is *)
Definition v1_header (header : bytes) (peer : SocketAddr) (h : ParsedHeader) : Prop :=
  V1_PREFIX `prefix_of` header ∧ crlf `suffix_of` header ∧
  length header <= V1_MAX_HEADER_LEN ∧ parse_v1_header header peer = Ok h.
Definition v2_header (header : bytes) (peer : SocketAddr) (h : ParsedHeader) : Prop :=
  ∃ vc fp lh ll payload, header = V2_SIGNATURE ++ [vc; fp; lh; ll] ++ payload ∧
    N.of_nat (length payload) = be_value [lh; ll] ∧ parse_v2_header vc fp payload peer = Ok h.

Lemma spec_bind_inv {A B} (m : Spec A) (k : A → Spec B) c e b :
  spec_bind m k c e = Some (Ok b) →
  ∃ a c' e', m c e = Some (Ok (a, (c', e'))) ∧ k a c' e' = Some (Ok b).
Proof. unfold spec_bind. destruct (m c e) as [[[a [c' e']]|]|]; naive_solver. Qed.
Lemma spec_of_inv {A} (r : result A ProxyProtocolError) c e a c' e' :
  spec_of r c e = Some (Ok (a, (c', e'))) → r = Ok a ∧ c' = c ∧ e' = e.
Proof. destruct r; naive_solver. Qed.
Lemma read_exact_bytes_inv n c e a c' e' :
  read_exact_bytes n c e = Some (Ok (a, (c', e'))) → c = a ++ c' ∧ length a = n ∧ e' = e.
Proof.
  unfold read_exact_bytes, at_end. destruct (Nat.leb_spec n (length c)); [|by destruct e].
  intros [= <- <- <-]. rewrite take_drop, length_take. split; [done|]. split; [lia|done].
Qed.

Lemma v1_header_inv peer c e h c' e' :
  v1_header_bytes peer c e = Some (Ok (h, (c', e'))) → V1_PREFIX `prefix_of` c →
  ∃ header, c = header ++ c' ∧ e' = e ∧ v1_header header peer h.
Proof.
  intros (line & c1 & e1 & Hl & Hp)%spec_bind_inv Hpre.
  apply spec_of_inv in Hp as (Hp & -> & ->). unfold v1_line_bytes in Hl.
  destruct (header_end c) as [n|] eqn:E; [|repeat case_match; try done; by destruct e].
  apply header_end_Some in E as (Hn & Hend & _).
  destruct (Nat.leb_spec n V1_MAX_HEADER_LEN) as [Hs|]; [|done]. injection Hl as <- <- <-.
  exists (take n c). rewrite take_drop. split; [done|]. split; [done|].
  unfold ends_in_crlf in Hend. apply bool_decide_eq_true in Hend.
  split; [|split; [done|split; [rewrite length_take; lia|done]]].
  destruct (Nat.le_gt_cases (length V1_PREFIX) (length (take n c))) as [Hl|Hl].
  - eapply prefix_weak_or; [exact Hpre| |done]. by exists (drop n c); rewrite take_drop.
  - assert (take n c `prefix_of` V1_PREFIX) as [k Hk].
    { eapply prefix_weak_or; [|exact Hpre|lia]. by exists (drop n c); rewrite take_drop. }
    destruct Hend as [j Hj]. rewrite Hj in Hk.
    assert (Byte.x0a ∈ V1_PREFIX) as Hin by (rewrite Hk; set_solver).
    exfalso. revert Hin. decide_now.
Qed.

Lemma v2_header_inv peer c e h c' e' :
  v2_header_bytes peer c e = Some (Ok (h, (c', e'))) →
  ∃ header, c = header ++ c' ∧ e' = e ∧ v2_header header peer h.
Proof.
  intros (prefix & c1 & e1 & H1 & H)%spec_bind_inv.
  apply read_exact_bytes_inv in H1 as (-> & _ & ->).
  destruct (bool_decide_reflect (prefix = V2_SIGNATURE)) as [->|]; [|done]. cbn [negb] in H.
  apply spec_bind_inv in H as (header & c2 & e2 & H2 & H).
  apply read_exact_bytes_inv in H2 as (-> & _ & ->).
  destruct header as [|vc [|fp [|lh [|ll [|]]]]]; try done.
  apply spec_bind_inv in H as (payload & c3 & e3 & H3 & H).
  apply read_exact_bytes_inv in H3 as (-> & Hlen & ->).
  apply spec_of_inv in H as (H & -> & ->).
  exists (V2_SIGNATURE ++ [vc; fp; lh; ll] ++ payload). rewrite <- !app_assoc.
  split; [done|]. split; [done|]. exists vc, fp, lh, ll, payload.
  split; [done|]. split; [|done]. rewrite Hlen. apply N2Nat.id.
Qed.

Lemma detect_bytes_inv c e kind c' e' :
  detect_bytes c e = Some (Ok (kind, (c', e'))) →
  c' = c ∧ e' = e ∧
  match kind with
  | V1 => V1_PREFIX `prefix_of` c
  | V2 => V2_SIGNATURE `prefix_of` c
  | KindNotProxy => ¬ V1_PREFIX `prefix_of` c ∧ ¬ V2_SIGNATURE `prefix_of` c
  end.
Proof.
  intros H. destruct (decide (V1_PREFIX `prefix_of` c)) as [H1|H1];
    [rewrite detect_v1 in H by done; naive_solver|].
  destruct (decide (V2_SIGNATURE `prefix_of` c)) as [H2|H2];
    [rewrite detect_v2 in H by done; naive_solver|].
  destruct c as [|b c]; [by destruct e|]. rewrite detect_bytes_cons in H.
  assert (∀ p, p `prefix_of` take 12 (b :: c) → p `prefix_of` b :: c) as Ht.
  { intros p Hp. trans (take 12 (b :: c)); [done|]. by exists (drop 12 (b :: c)); rewrite take_drop. }
  destruct (classify_cases (take 12 (b :: c))) as [|E|E|]; [done| | |naive_solver].
  - exfalso. apply H2, Ht. by rewrite E.
  - exfalso. by apply H1, Ht.
Qed.

(** A connection is accepted only in one of two ways: behind a well-formed header of
    one of the two versions, which is taken off its front completely and gives the
    addresses; or with nothing consumed and the address of the peer, when the protocol
    is disabled, or optional and the bytes begin with no header.  No byte of the miner
    is lost, and [Required] never accepts a connection without a header. *)
Theorem accepted_header_consumed s peer mode a :
  accept s peer mode = Some (Ok a) →
  ts_ending (as_stream a) = ts_ending s ∧
  if as_used_proxy_protocol a then
    mode ≠ Disabled ∧ ∃ header, content s = header ++ content (as_stream a) ∧
      let h := MkParsedHeader (as_source_addr a) (as_destination_addr a) in
      (v1_header header peer h ∨ v2_header header peer h)
  else
    content (as_stream a) = content s ∧
    as_source_addr a = peer ∧ as_destination_addr a = None ∧
    (mode = Disabled ∨ mode = Optional ∧
      ¬ V1_PREFIX `prefix_of` content s ∧ ¬ V2_SIGNATURE `prefix_of` content s).
Proof.
  intros H. pose proof (accept_answers s peer mode) as Ha. rewrite H in Ha. clear H.
  destruct a as [t src dst used]. cbn [answer_of as_stream as_source_addr as_destination_addr
    as_used_proxy_protocol] in *. symmetry in Ha. revert Ha.
  generalize (content s) (ts_ending s) (content t) (ts_ending t). intros c e c' e' Ha.
  unfold accept_bytes in Ha. destruct (decide (mode = Disabled)) as [->|Hm].
  { apply spec_of_inv in Ha as ([= <- <- <-] & -> & ->). auto 10. }
  assert (spec_bind detect_bytes (λ kind, match kind with
    | V2 => spec_bind (v2_header_bytes peer) (λ h, spec_of (Ok (parsed_answer h)))
    | V1 => spec_bind (v1_header_bytes peer) (λ h, spec_of (Ok (parsed_answer h)))
    | KindNotProxy => match mode with
        Optional => spec_of (Ok (peer, None, false)) | _ => spec_of (Err MissingHeader) end
    end) c e = Some (Ok ((src, dst, used), (c', e')))) as H by (by destruct mode). clear Ha.
  apply spec_bind_inv in H as (kind & c1 & e1 & (-> & -> & Hk)%detect_bytes_inv & H).
  destruct kind.
  - apply spec_bind_inv in H as ([hs hd] & c2 & e2 & Hh & H).
    apply spec_of_inv in H as ([= <- <- <-] & -> & ->).
    apply v1_header_inv in Hh as (header & -> & -> & Hv); [|done]. eauto 10.
  - apply spec_bind_inv in H as ([hs hd] & c2 & e2 & Hh & H).
    apply spec_of_inv in H as ([= <- <- <-] & -> & ->).
    apply v2_header_inv in Hh as (header & -> & -> & Hv). eauto 10.
  - destruct mode; try done. apply spec_of_inv in H as ([= <- <- <-] & -> & ->).
    destruct Hk. auto 10.
Qed.

Lemma accepted_header_consumed_witness :
  ∃ a, accept sample_v2 sample_peer Optional = Some (Ok a) ∧
    as_used_proxy_protocol a = true ∧ ts_ending (as_stream a) = Closed.
Proof.
  destruct (accept sample_v2 sample_peer Optional) as [[a|]|] eqn:E.
  - exists a. split; [reflexivity|]. split.
    + vm_compute in E. injection E as <-. reflexivity.
    + exact (proj1 (accepted_header_consumed sample_v2 sample_peer Optional a E)).
  - vm_compute in E. discriminate.
  - vm_compute in E. discriminate.
Defined.

(** A peer that sends part of a header's start and closes the connection is never
    noticed: every peek reports the same bytes.  Only the caller's time limit ends it,
    and no other miner is accepted until then. *)
Theorem closed_in_prefix_never_noticed s peer mode :
  ts_ending s = Closed → mode ≠ Disabled → content s ≠ [] → content s ≠ V2_SIGNATURE →
  content s `prefix_of` V2_SIGNATURE ∨
    content s `prefix_of` V1_PREFIX ∧ content s ≠ V1_PREFIX →
  accept s peer mode = None.
Proof.
  intros He Hm Hne H2 Hp. pose proof (accept_answers s peer mode) as Ha. rewrite He in Ha.
  assert (detect_bytes (content s) Closed = None) as Hd.
  { assert (length (content s) < 12) as Hl.
    { destruct Hp as [Hp|[Hp _]].
      - destruct (Nat.lt_ge_cases (length (content s)) 12); [done|]. exfalso. apply H2.
        by apply prefix_full.
      - apply prefix_length in Hp. simpl in Hp. lia. }
    assert (classify_proxy_prefix (take 12 (content s)) = NeedMore) as Hc.
    { rewrite take_ge by lia. apply (classified_fun (content s)); [apply classify_cases|].
      constructor. destruct Hp as [Hp|[Hp H1]]; [by left|right]. split; [done|].
      destruct (Nat.lt_ge_cases (length (content s)) 6); [done|]. exfalso. apply H1.
      by apply prefix_full. }
    destruct (content s) as [|b c]; [done|]. by rewrite detect_bytes_cons, Hc. }
  destruct (accept s peer mode) as [[]|]; [..|done]; exfalso; revert Ha;
    destruct mode; (done || unfold accept_bytes, spec_bind at 1; by rewrite Hd).
Qed.
