(* ===== verification/Ingress.v ===== *)
(** * The SV1 ingress ([ingress/sv1_ingress.rs])

    The listener accepts connections one after the other: it pauses while all slots are
    taken or the accept rate is used up, reads a PROXY protocol header within five
    seconds, and hands the connection with its slot to a relay task.  The relay passes
    the lines of the miner up as they are, and the lines of the translator down as one
    line each, with an [id] for the firmware that needs one.

    Instants and durations are nanoseconds; each [Instant::now] and [elapsed] of the
    source is a reading of the clock, passed in the order the source takes them. *)

From S2P Require Import Prelude Str F32 Sv1 Net ProxyProtocol.

(** ** The accept window *)
Record AcceptWindowLimiter := MkAcceptWindowLimiter {
  wl_max_accepts_per_window : option N;
  wl_window : N;
  wl_window_started_at : N;
  wl_accepted_in_window : N
}.

(** [AcceptWindowLimiter::new] *)
Definition limiter_new (max_accepts_per_window : option N) (window now : N) : AcceptWindowLimiter :=
  MkAcceptWindowLimiter
    (max_accepts_per_window ≫= λ value, if (0 <? value)%N then Some value else None)
    window now 0.

(** [Instant::elapsed], read at [now]: it saturates at zero. *)
Definition elapsed (since now : N) : N := (now - since)%N.

Definition refresh_window (t1 t2 : N) (l : AcceptWindowLimiter) : AcceptWindowLimiter :=
  if (wl_window l <=? elapsed (wl_window_started_at l) t1)%N
  then MkAcceptWindowLimiter (wl_max_accepts_per_window l) (wl_window l) t2 0
  else l.

(** [AcceptWindowLimiter::wait_duration] *)
Definition limiter_wait_duration (t1 t2 t3 : N) (l : AcceptWindowLimiter) :
    option N * AcceptWindowLimiter :=
  let l := refresh_window t1 t2 l in
  match wl_max_accepts_per_window l with
  | None => (None, l)
  | Some limit =>
      if (wl_accepted_in_window l <? limit)%N then (None, l)
      else (Some (wl_window l - elapsed (wl_window_started_at l) t3)%N, l)
  end.

(** [AcceptWindowLimiter::record_accept] *)
Definition record_accept (t1 t2 : N) (l : AcceptWindowLimiter) : AcceptWindowLimiter :=
  let l := refresh_window t1 t2 l in
  match wl_max_accepts_per_window l with
  | Some _ => MkAcceptWindowLimiter (wl_max_accepts_per_window l) (wl_window l)
      (wl_window_started_at l) (saturating_add usize_max (wl_accepted_in_window l) 1)
  | None => l
  end.

(** ** The accept loop *)

(** The permits of a [Semaphore], [None] without a limit on the active connections. *)
Record Listener := MkListener {
  ln_limiter : AcceptWindowLimiter;
  ln_permits : option N;
  ln_mode : ProxyProtocolMode
}.

(** The start of [start_listen_for_downstream]: a semaphore with the configured number of
    permits, and the limiter. *)
Definition listener_new (max_active max_accepts_per_window : option N) (accept_window now : N)
    (mode : ProxyProtocolMode) : Listener :=
  MkListener (limiter_new max_accepts_per_window accept_window now) max_active mode.

(** What one turn of the loop meets: its clock readings, what [accept] of the listener
    returns, whether the PROXY protocol takes longer than five seconds, and how many
    relays end while the turn waits for the connection. *)
Record Turn := MkTurn {
  tn_wait_t1 : N; tn_wait_t2 : N; tn_wait_t3 : N;
  tn_connection : option (TcpStream * SocketAddr);
  tn_late : bool;
  tn_released : N;
  tn_record_t1 : N; tn_record_t2 : N
}.

Inductive TurnResult :=
  | SlotsTaken                        (** sleeps for the backoff *)
  | RateLimited (wait_for : N)        (** sleeps for what is left of the window *)
  | AcceptFailed
  | HeaderRefused (e : ProxyProtocolError)
  | HeaderTimedOut
  | SlotBlocked                       (** waits for a permit *)
  | Started (stream : TcpStream) (address : IpAddr).

(** Relays that end give their permits back. *)
Definition release_permits (n : N) (l : Listener) : Listener :=
  MkListener (ln_limiter l) (N.add n <$> ln_permits l) (ln_mode l).

(** One turn of the loop of [start_listen_for_downstream]. *)
Definition accept_turn (t : Turn) (l : Listener) : TurnResult * Listener :=
  if bool_decide (ln_permits l = Some 0%N) then (SlotsTaken, release_permits (tn_released t) l)
  else
    let '(wait, limiter) :=
      limiter_wait_duration (tn_wait_t1 t) (tn_wait_t2 t) (tn_wait_t3 t) (ln_limiter l) in
    let l := release_permits (tn_released t) (MkListener limiter (ln_permits l) (ln_mode l)) in
    match wait with
    | Some wait_for => (RateLimited wait_for, l)
    | None =>
        match tn_connection t with
        | None => (AcceptFailed, l)
        | Some (stream, peer_addr) =>
            match (if tn_late t then None else accept stream peer_addr (ln_mode l)) with
            | None => (HeaderTimedOut, l)
            | Some (Err e) => (HeaderRefused e, l)
            | Some (Ok accepted) =>
                match ln_permits l with
                | Some 0%N => (SlotBlocked, l)
                | permits =>
                    (Started (as_stream accepted) (sa_ip (as_source_addr accepted)),
                     MkListener (record_accept (tn_record_t1 t) (tn_record_t2 t) (ln_limiter l))
                       (N.pred <$> permits) (ln_mode l))
                end
            end
        end
    end.

(** ** The relay *)
Inductive Firmware := Luxor | Other | Uninitialized.
Definition is_initialized (f : Firmware) : bool :=
  match f with Uninitialized => false | _ => true end.
Definition is_luxor (f : Firmware) : bool := match f with Luxor => true | _ => false end.

(** [str::contains] *)
Fixpoint str_contains (p s : str) : bool :=
  str_starts_with p s || match s with [] => false | _ :: s => str_contains p s end.

(** One message of [receive_from_downstream_and_relay_up]: it is sent as it is, and the
    first subscription decides the firmware. *)
Definition relay_up_message (message : str) (st : bool * Firmware) : bool * Firmware :=
  let '(is_subscribed, firmware) := st in
  if negb is_subscribed && str_contains (lit "mining.subscribe") message
  then (true, if str_contains (lit "LUXminer") message then Luxor else Other)
  else (is_subscribed, firmware).

(** [message.replace] of the line breaks. *)
Definition strip_newlines (message : str) : str :=
  List.filter (λ c, negb ((c =? 10)%N || (c =? 13)%N)) message.

(** [find] of the first brace and [insert_str] behind it. *)
Fixpoint insert_after_brace (inserted message : str) : str :=
  match message with
  | [] => []
  | c :: message =>
      if (c =? 123)%N then c :: inserted ++ message
      else c :: insert_after_brace inserted message
  end.
Definition QUOTED_ID : str := 34%N :: lit "id" ++ [34]%N.
Definition NULL_ID : str := QUOTED_ID ++ lit ":null,".

(** One message of [receive_from_upstream_and_relay_down]: the line that is sent, and the
    firmware the relay remembers; [shared] is what the other direction has detected. *)
Definition relay_down_message (shared : Firmware) (message : str) (firmware : Firmware) :
    str * Firmware :=
  let message := strip_newlines message in
  if negb (is_initialized firmware) then (message, shared)
  else if is_luxor firmware && negb (str_contains QUOTED_ID message)
  then (insert_after_brace NULL_ID message, firmware)
  else (message, firmware).

(** Both directions of [Downstream::start]: what the miner's socket and the translator's
    channel deliver, in the order the two tasks handle it.  The translator gets the first
    list, the miner the second. *)
Inductive RelayEvent := FromMiner (message : str) | FromTranslator (message : str).
Record Relay := MkRelay {
  ry_subscribed : bool;       (** of the upward task *)
  ry_shared : Firmware;       (** behind the mutex *)
  ry_firmware : Firmware;     (** of the downward task *)
  ry_up : list str;
  ry_down : list str
}.
Definition relay_new : Relay := MkRelay false Uninitialized Uninitialized [] [].
Definition relay_event (r : Relay) (e : RelayEvent) : Relay :=
  match e with
  | FromMiner message =>
      let '(subscribed, shared) := relay_up_message message (ry_subscribed r, ry_shared r) in
      MkRelay subscribed shared (ry_firmware r) (ry_up r ++ [message]) (ry_down r)
  | FromTranslator message =>
      let '(line, firmware) := relay_down_message (ry_shared r) message (ry_firmware r) in
      MkRelay (ry_subscribed r) (ry_shared r) firmware (ry_up r) (ry_down r ++ [line])
  end.
Definition relay_events (es : list RelayEvent) : Relay := fold_left relay_event es relay_new.
