(* ===== verification/IngressProps.v ===== *)
(** * What the ingress promises

    The accept rate and the number of active connections are bounded, the loop never
    waits for a slot it has just seen free, and the relay passes every line on. *)

From stdpp Require Import sorting.
From S2P Require Import Prelude Str F32 Sv1 Net ProxyProtocol Ingress.

(** ** Running the loop *)

(** The loop with what it has done: the connections whose relay runs, and when each
    connection was recorded, with the window it counted in. *)
Record Run := MkRun { rn_listener : Listener; rn_active : N; rn_log : list (N * N) }.
Definition run_new (l : Listener) : Run := MkRun l 0 [].

(** The reading a record counts at: the second one, taken only when the window starts
    anew, or the first. *)
Definition record_time (t1 t2 : N) (l : AcceptWindowLimiter) : N :=
  if (wl_window l <=? elapsed (wl_window_started_at l) t1)%N then t2 else t1.

Definition run_turn (t : Turn) (r : Run) : TurnResult * Run :=
  let '(result, l) := accept_turn t (rn_listener r) in
  let active := (rn_active r - tn_released t)%N in
  match result with
  | Started _ _ =>
      let before := (limiter_wait_duration (tn_wait_t1 t) (tn_wait_t2 t) (tn_wait_t3 t)
        (ln_limiter (rn_listener r))).2 in
      (result, MkRun l (active + 1)
        (rn_log r ++ [(wl_window_started_at (ln_limiter l),
                       record_time (tn_record_t1 t) (tn_record_t2 t) before)]))
  | _ => (result, MkRun l active (rn_log r))
  end.
Definition run_turns (ts : list Turn) (r : Run) : Run := fold_left (λ r t, (run_turn t r).2) ts r.

(** The readings of the turns, in order. *)
Definition readings (t : Turn) : list N :=
  [tn_wait_t1 t; tn_wait_t2 t; tn_wait_t3 t; tn_record_t1 t; tn_record_t2 t].

(** ** Slots *)
Definition slots_wf (max : N) (r : Run) : Prop :=
  ∃ permits, ln_permits (rn_listener r) = Some permits ∧ (permits + rn_active r = max)%N.

Lemma turn_slots max t r :
  slots_wf max r → (tn_released t <= rn_active r)%N →
  slots_wf max (run_turn t r).2 ∧ (run_turn t r).1 ≠ SlotBlocked.
Proof.
  intros (p & Hp & Hsum) Hrel. unfold run_turn, accept_turn, release_permits, slots_wf.
  rewrite Hp. destruct (bool_decide_reflect (Some p = Some 0%N)) as [[= ->]|Hne]; simpl.
  { split; [|done]. eexists. split; [done|]. simpl. lia. }
  assert (p ≠ 0)%N as Hp0 by congruence.
  destruct (limiter_wait_duration _ _ _ _) as [wait limiter]. cbn [fmap option_fmap option_map].
  assert (∃ q, (tn_released t + p)%N = N.pos q) as [q Hq]
    by (destruct (tn_released t + p)%N eqn:E; [lia|eauto]).
  rewrite Hq. repeat case_match; simpl in *; simplify_eq; simpl; (split; [|done]);
    eexists; (split; [reflexivity|lia]).
Qed.

(** Relays end only when they run. *)
Fixpoint releases_ok (ts : list Turn) (r : Run) : Prop :=
  match ts with
  | [] => True
  | t :: ts => (tn_released t <= rn_active r)%N ∧ releases_ok ts (run_turn t r).2
  end.

Lemma run_slots max ts r :
  slots_wf max r → releases_ok ts r → slots_wf max (run_turns ts r).
Proof.
  revert r. induction ts as [|t ts IH]; intros r Hr; [done|]. intros [Ht Hts].
  apply IH; [|done]. by apply turn_slots.
Qed.

Lemma releases_ok_app ts t r :
  releases_ok (ts ++ [t]) r → releases_ok ts r ∧ (tn_released t <= rn_active (run_turns ts r))%N.
Proof.
  revert r. induction ts as [|u ts IH]; intros r; simpl; [tauto|].
  intros [Hu H]. destruct (IH _ H). auto.
Qed.

(** C28: With a limit on the active connections there are never more of them, and the
    loop never waits for a slot: the permit it has seen free is still free when the
    connection is accepted, so no accepted miner is kept waiting. *)
Theorem active_connections_bounded max rate window now mode ts t :
  let start := run_new (listener_new (Some max) rate window now mode) in
  releases_ok (ts ++ [t]) start →
  (rn_active (run_turns ts start) <= max)%N ∧ (run_turn t (run_turns ts start)).1 ≠ SlotBlocked.
Proof.
  intros start [Hts Ht]%releases_ok_app.
  assert (slots_wf max start) as H0 by (exists max; split; [done|simpl; lia]).
  pose proof (run_slots max ts start H0 Hts) as H. split.
  - destruct H as (p & _ & Hp). lia.
  - by eapply turn_slots.
Qed.

(** ** Rate *)

(** The window of the limiter and the records: the last ones, as many as it has counted,
    are those of the current window, every other window ended before, no more than
    [limit] records share a window, and each lies in its window. *)
Definition rate_wf (limit window now : N) (l : AcceptWindowLimiter) (log : list (N * N)) : Prop :=
  wl_max_accepts_per_window l = Some limit ∧ wl_window l = window ∧
  (wl_window_started_at l <= now)%N ∧
  (N.to_nat (wl_accepted_in_window l) <= length log) ∧
  (wl_accepted_in_window l <= limit)%N ∧
  (∀ i w x, log !! i = Some (w, x) → (w <= x <= w + window)%N ∧
     if i <? length log - N.to_nat (wl_accepted_in_window l)
     then (w + window <= wl_window_started_at l)%N else w = wl_window_started_at l) ∧
  (∀ i w x w' x', log !! i = Some (w, x) → log !! (i + N.to_nat limit) = Some (w', x') →
     (w + window <= w')%N).

Lemma refresh_rate limit window now t1 t2 l log :
  rate_wf limit window now l log → (now <= t1)%N → (t1 <= t2)%N →
  rate_wf limit window t2 (refresh_window t1 t2 l) log.
Proof.
  intros (Hm & Hw & Hs & Hc & Hl & Hlog & Hsp) H1 H2. unfold refresh_window.
  rewrite Hw. destruct (N.leb_spec window (elapsed (wl_window_started_at l) t1)) as [He|He].
  - unfold elapsed in He. split; [done|]. split; [done|]. split; [simpl; lia|].
    split; [simpl; lia|]. split; [simpl; lia|]. split; [|done]. intros i w x Hi.
    destruct (Hlog i w x Hi) as [Hx Hin]. split; [done|].
    pose proof (lookup_lt_Some _ _ _ Hi). simpl. change (N.to_nat 0) with 0.
    rewrite Nat.sub_0_r. destruct (Nat.ltb_spec i (length log)); [|lia].
    revert Hin. case_if; lia.
  - split; [done|]. split; [done|]. split; [lia|]. done.
Qed.

Lemma rate_now limit window now now' l log :
  rate_wf limit window now l log → (now <= now')%N → rate_wf limit window now' l log.
Proof. intros (Hm & Hw & Hs & H) Hn. split; [done|]. split; [done|]. split; [lia|done]. Qed.

Lemma record_rate limit window now t1 t2 l log :
  rate_wf limit window now l log → (now <= t1)%N → (t1 <= t2)%N →
  (wl_accepted_in_window l < limit)%N → (limit <= usize_max)%N →
  rate_wf limit window t2 (record_accept t1 t2 l)
    (log ++ [(wl_window_started_at (record_accept t1 t2 l), record_time t1 t2 l)]).
Proof.
  intros H H1 H2 Hlt Hmax. pose proof (refresh_rate _ _ _ t1 t2 _ _ H H1 H2) as Hr.
  assert (wl_accepted_in_window (refresh_window t1 t2 l) < limit)%N as Hlt'
    by (unfold refresh_window; case_if; simpl; lia).
  assert (wl_window_started_at (refresh_window t1 t2 l) <= record_time t1 t2 l <=
    wl_window_started_at (refresh_window t1 t2 l) + window)%N as Hx.
  { destruct H as (_ & Hw & Hs & _). unfold refresh_window, record_time, elapsed. rewrite Hw.
    destruct (N.leb_spec window (t1 - wl_window_started_at l)%N); simpl; lia. }
  unfold record_accept. revert Hr Hlt' Hx. generalize (refresh_window t1 t2 l) (record_time t1 t2 l).
  intros l' x (Hm & Hw & Hs & Hc & Hl & Hlog & Hsp) Hlt' Hx. rewrite Hm. cbn [wl_window_started_at].
  unfold saturating_add. rewrite N.min_r by lia.
  split; [done|]. split; [done|]. split; [done|]. cbn [wl_accepted_in_window wl_window_started_at].
  rewrite length_app. cbn [length]. split; [lia|]. split; [lia|]. split.
  - intros i w y [Hi|[Hn [Hz [= <- <-]]%list_lookup_singleton_Some]]%lookup_app_Some.
    + destruct (Hlog i w y Hi) as [Hy Hin]. split; [done|]. revert Hin.
      replace (length log + 1 - N.to_nat (wl_accepted_in_window l' + 1))
        with (length log - N.to_nat (wl_accepted_in_window l')) by lia. done.
    + split; [lia|]. destruct (Nat.ltb_spec i
        (length log + 1 - N.to_nat (wl_accepted_in_window l' + 1))); [lia|done].
  - intros i w y w' y' [Hi|[Hn [Hz [= <- <-]]%list_lookup_singleton_Some]]%lookup_app_Some Hi'.
    + apply lookup_app_Some in Hi' as [Hi'|[Hn [Hz [= <- <-]]%list_lookup_singleton_Some]];
        [by eapply Hsp|].
      destruct (Hlog i w y Hi) as [_ Hin]. revert Hin.
      destruct (Nat.ltb_spec i (length log - N.to_nat (wl_accepted_in_window l'))); [done|lia].
    + apply lookup_lt_Some in Hi'. rewrite length_app in Hi'. simpl in Hi'. lia.
Qed.

Lemma turn_rate limit window now t r :
  rate_wf limit window now (ln_limiter (rn_listener r)) (rn_log r) →
  Sorted N.le (now :: readings t) → (limit <= usize_max)%N →
  let r' := (run_turn t r).2 in
  rate_wf limit window (tn_record_t2 t) (ln_limiter (rn_listener r')) (rn_log r').
Proof.
  intros H Hs Hmax r'. subst r'.
  assert ((now <= tn_wait_t1 t)%N ∧ (tn_wait_t1 t <= tn_wait_t2 t)%N ∧
    (tn_wait_t2 t <= tn_record_t1 t)%N ∧ (tn_record_t1 t <= tn_record_t2 t)%N)
    as (H1 & H2 & H3 & H4).
  { unfold readings in Hs. repeat match goal with
    | H : Sorted _ (_ :: _) |- _ => inversion H; clear H; subst
    | H : HdRel _ _ (_ :: _) |- _ => inversion H; clear H; subst
    end. lia. }
  pose proof (refresh_rate _ _ _ _ _ _ _ H H1 H2) as Hr.
  unfold run_turn, accept_turn. destruct (bool_decide _); simpl.
  { by eapply rate_now; [exact H|lia]. }
  unfold limiter_wait_duration. revert Hr.
  generalize (refresh_window (tn_wait_t1 t) (tn_wait_t2 t) (ln_limiter (rn_listener r))).
  intros l Hr. assert (rate_wf limit window (tn_record_t2 t) l (rn_log r)) as Hr'
    by (eapply rate_now; [exact Hr|lia]).
  destruct Hr as (Hm & Hrest). rewrite Hm.
  destruct (N.ltb_spec (wl_accepted_in_window l) limit) as [Hlt|]; [|done].
  repeat case_match; simplify_eq; simpl; try done;
    (eapply record_rate; [|exact H3|exact H4|done|done]; by split).
Qed.

Lemma run_rate limit window now ts r :
  rate_wf limit window now (ln_limiter (rn_listener r)) (rn_log r) →
  Sorted N.le (now :: concat (readings <$> ts)) → (limit <= usize_max)%N →
  ∃ now', rate_wf limit window now' (ln_limiter (rn_listener (run_turns ts r)))
    (rn_log (run_turns ts r)).
Proof.
  revert now r. induction ts as [|t ts IH]; intros now r H Hs Hmax; [by exists now|].
  cbn [fmap list_fmap concat] in Hs. rewrite app_comm_cons in Hs.
  apply (IH (tn_record_t2 t) (run_turn t r).2).
  - apply (turn_rate limit window now); [done| |done]. clear -Hs.
    generalize dependent (concat (readings <$> ts)). intros k Hs.
    rewrite <- app_comm_cons in Hs. unfold readings in *. cbn [app] in Hs.
    repeat match goal with
    | H : Sorted _ (_ :: _) |- _ => inversion H; clear H; subst
    | H : HdRel _ _ (_ :: _) |- _ => inversion H; clear H; subst
    end; repeat constructor; done.
  - unfold readings in Hs at 1. cbn [app] in Hs. 
    by repeat match goal with
    | H : Sorted _ (?a :: _ :: _) |- _ => apply Sorted_inv in H as [H _]
    end.
  - done.
Qed.

(** Whatever the connections do and however the turns are spaced, the configured
    number of accepts per window bounds the rate: among any [2 * limit + 1] consecutive
    recorded connections, the last comes at least a whole window after the first.  (The
    windows do not slide, so that one window's worth more than [limit] can pass around
    the end of a window.) *)
Theorem accept_rate_bounded max limit window now mode ts i a b :
  let start := run_new (listener_new max (Some limit) window now mode) in
  (0 < limit <= usize_max)%N → Sorted N.le (now :: concat (readings <$> ts)) →
  let times := (rn_log (run_turns ts start)).*2 in
  times !! i = Some a → times !! (i + 2 * N.to_nat limit) = Some b → (a + window <= b)%N.
Proof.
  intros start Hl Hs times Ha Hb.
  destruct (run_rate limit window now ts start) as (now' & _ & _ & _ & _ & _ & Hlog & Hsp);
    [|done|lia|].
  { unfold start, rate_wf. simpl. rewrite (proj2 (N.ltb_lt 0 limit)) by lia.
    split; [done|]. split; [done|]. split; [done|]. split; [simpl; lia|]. split; [lia|].
    split; intros; done. }
  subst times. rewrite !list_lookup_fmap in *.
  destruct (rn_log (run_turns ts start) !! i) as [[w x]|] eqn:E0; [|done].
  destruct (rn_log (run_turns ts start) !! (i + 2 * N.to_nat limit)) as [[w2 x2]|] eqn:E2; [|done].
  injection Ha as <-. injection Hb as <-.
  destruct (lookup_lt_is_Some_2 (rn_log (run_turns ts start)) (i + N.to_nat limit)) as [[w1 x1] E1].
  { apply lookup_lt_Some in E2. lia. }
  pose proof (Hsp _ _ _ _ _ E0 E1) as H01.
  replace (i + 2 * N.to_nat limit) with (i + N.to_nat limit + N.to_nat limit) in E2 by lia.
  pose proof (Hsp _ _ _ _ _ E1 E2) as H12.
  destruct (Hlog _ _ _ E0) as [? _], (Hlog _ _ _ E2) as [? _]. lia.
Qed.

Definition sample_address : SocketAddr :=
  MkSocketAddr (Net.V4 [Byte.x0a; Byte.x00; Byte.x00; Byte.x01]) 1234.
Definition sample_stream : TcpStream := MkTcpStream (ascii_bytes "{") [] Silent.

(** ** The relay *)
Definition miner_messages (es : list RelayEvent) : list str :=
  omap (λ e, match e with FromMiner m => Some m | _ => None end) es.
Definition translator_messages (es : list RelayEvent) : list str :=
  omap (λ e, match e with FromTranslator m => Some m | _ => None end) es.

(** The line of a message for a Luxor miner that expects an identifier. *)
Definition with_id (message line : str) : Prop :=
  str_contains QUOTED_ID (strip_newlines message) = false ∧
  line = insert_after_brace NULL_ID (strip_newlines message).
Definition one_line (line : str) : Prop := (10%N ∉ line) ∧ (13%N ∉ line).
Definition said_luxor (messages : list str) : Prop :=
  ∃ m, m ∈ messages ∧ str_contains (lit "mining.subscribe") m = true ∧
       str_contains (lit "LUXminer") m = true.

Lemma strip_newlines_one_line m : one_line (strip_newlines m).
Proof.
  unfold strip_newlines. split; intros [_ H]%list_elem_of_In%filter_In;
    discriminate.
Qed.

Lemma elem_of_insert_after_brace c inserted m :
  c ∈ insert_after_brace inserted m → c ∈ inserted ∨ c ∈ m.
Proof.
  induction m as [|d m IH]; simpl; [by right|]. case_if; set_solver.
Qed.
Lemma with_id_one_line m line : with_id m line → one_line line.
Proof.
  intros [_ ->]. destruct (strip_newlines_one_line m) as [H1 H2].
  split; intros [H|H]%elem_of_insert_after_brace; try done; revert H; decide_now.
Qed.

Lemma str_contains_app p s t : str_contains p (s ++ p ++ t) = true.
Proof.
  induction s as [|c s IH]; simpl.
  - assert (str_starts_with p (p ++ t) = true) as H by (apply str_starts_with_spec; eauto).
    destruct (p ++ t); simpl; by rewrite H.
  - by rewrite IH, orb_true_r.
Qed.

Lemma insert_after_brace_contains inserted m :
  123%N ∈ m → ∃ s t, insert_after_brace inserted m = s ++ inserted ++ t.
Proof.
  induction m as [|c m IH]; intros H; [set_solver|]. simpl. destruct (N.eqb_spec c 123) as [->|Hc].
  - by exists [123%N], m.
  - destruct IH as (s & t & ->); [set_solver|]. by exists (c :: s), t.
Qed.

Lemma relay_down_line shared m firmware :
  let '(line, f) := relay_down_message shared m firmware in
  (line = strip_newlines m ∨ firmware = Luxor ∧ with_id m line) ∧ (f = firmware ∨ f = shared).
Proof.
  unfold relay_down_message, with_id. destruct firmware; simpl; auto.
  destruct (str_contains QUOTED_ID (strip_newlines m)) eqn:E; simpl; auto 10.
Qed.

(** The state of the relay, as the events made it. *)
Definition relay_wf (es : list RelayEvent) (r : Relay) : Prop :=
  ry_up r = miner_messages es ∧
  Forall2 (λ m line, line = strip_newlines m ∨ said_luxor (miner_messages es) ∧ with_id m line)
    (translator_messages es) (ry_down r) ∧
  (ry_shared r = Luxor → said_luxor (miner_messages es)) ∧
  (ry_firmware r = Luxor → said_luxor (miner_messages es)).

Lemma said_luxor_app ms m : said_luxor ms → said_luxor (ms ++ m).
Proof. intros (x & Hx & H). exists x. set_solver. Qed.

Lemma miner_messages_app es es' :
  miner_messages (es ++ es') = miner_messages es ++ miner_messages es'.
Proof. apply omap_app. Qed.
Lemma translator_messages_app es es' :
  translator_messages (es ++ es') = translator_messages es ++ translator_messages es'.
Proof. apply omap_app. Qed.

Lemma relay_event_wf es r e : relay_wf es r → relay_wf (es ++ [e]) (relay_event r e).
Proof.
  intros (Hup & Hdown & Hsh & Hfw). unfold relay_wf.
  rewrite miner_messages_app, translator_messages_app. destruct e as [m|m]; cbn [relay_event].
  - change (translator_messages [FromMiner m]) with (@nil str).
    change (miner_messages [FromMiner m]) with [m]. rewrite app_nil_r.
    destruct (relay_up_message m (ry_subscribed r, ry_shared r)) as [sub sh] eqn:E.
    simpl. split; [by rewrite Hup|]. split.
    { eapply Forall2_impl; [exact Hdown|]. intros x y [H|[H1 H2]]; [by left|right].
      split; [by apply said_luxor_app|done]. }
    split; [|intros H; by apply said_luxor_app, Hfw].
    intros ->. unfold relay_up_message in E.
    destruct (ry_subscribed r), (str_contains (lit "mining.subscribe") m) eqn:E1; cbn [negb andb] in E;
      try (injection E as _ E; by apply said_luxor_app, Hsh).
    destruct (str_contains (lit "LUXminer") m) eqn:E2; [|done]. exists m.
    split; [apply elem_of_app; right; by left|done].
  - change (translator_messages [FromTranslator m]) with [m].
    change (miner_messages [FromTranslator m]) with (@nil str). rewrite app_nil_r.
    pose proof (relay_down_line (ry_shared r) m (ry_firmware r)) as H.
    destruct (relay_down_message _ _ _) as [line f]. destruct H as [Hline Hf]. simpl.
    split; [done|]. split; [|naive_solver].
    apply Forall2_app; [done|]. constructor; [|constructor]. naive_solver.
Qed.

Lemma relay_events_wf es : relay_wf es (relay_events es).
Proof.
  induction es as [|e es IH] using rev_ind; [by repeat split; try constructor|].
  unfold relay_events in *. rewrite fold_left_app. by apply relay_event_wf.
Qed.

(** The relay is transparent: the translator gets the miner's messages unchanged and
    in order, and the miner gets one line for each message of the translator, in order
    and free of line breaks: the message without its line breaks, or, only for a miner
    that subscribed as LUXminer and a message without an identifier, with a null
    identifier behind its first brace.  Once such a miner's firmware is known, every
    line with a brace has an identifier. *)
Theorem relay_transparent es m :
  ry_up (relay_events es) = miner_messages es ∧
  Forall2 (λ m line, one_line line ∧
      (line = strip_newlines m ∨ said_luxor (miner_messages es) ∧ with_id m line))
    (translator_messages es) (ry_down (relay_events es)) ∧
  (ry_firmware (relay_events es) = Luxor → 123%N ∈ m →
     ∃ line, ry_down (relay_events (es ++ [FromTranslator m])) = ry_down (relay_events es) ++ [line]
       ∧ str_contains QUOTED_ID line = true).
Proof.
  destruct (relay_events_wf es) as (Hup & Hdown & _ & _). split; [done|]. split.
  { eapply Forall2_impl; [exact Hdown|]. intros x y [->|[H1 H2]].
    - split; [apply strip_newlines_one_line|by left].
    - split; [by eapply with_id_one_line|by right]. }
  intros Hfw Hm. unfold relay_events. rewrite fold_left_app. fold (relay_events es). simpl.
  unfold relay_down_message. rewrite Hfw. cbn [is_initialized negb is_luxor andb].
  destruct (str_contains QUOTED_ID (strip_newlines m)) eqn:E; cbn [negb]; eexists;
    (split; [reflexivity|]); [done|].
  destruct (insert_after_brace_contains NULL_ID (strip_newlines m)) as (s & t & ->).
  { unfold strip_newlines. apply list_elem_of_In, filter_In. split; [by apply list_elem_of_In|done]. }
  unfold NULL_ID. rewrite <- app_assoc. apply str_contains_app.
Qed.

(** ** Witnesses *)
Definition example_turn (t : N) (released : N) : Turn :=
  MkTurn t t t (Some (sample_stream, sample_address)) false released t t.

Lemma active_connections_bounded_witness :
  let start := run_new (listener_new (Some 2%N) None 1000%N 0%N Optional) in
  let ts := [example_turn 1%N 0%N; example_turn 2%N 0%N; example_turn 3%N 0%N; example_turn 4%N 1%N] in
  rn_active (run_turns ts start) = 1%N ∧
  (run_turn (example_turn 5%N 0%N) (run_turns ts start)).1 ≠ SlotBlocked.
Proof.
  split; [vm_compute; reflexivity|].
  apply (active_connections_bounded 2 None 1000%N 0%N Optional
    [example_turn 1%N 0%N; example_turn 2%N 0%N; example_turn 3%N 0%N; example_turn 4%N 1%N] (example_turn 5%N 0%N)).
  vm_compute. repeat split; discriminate.
Defined.

(** One accept per window of ten: two accepts around the end of a window. *)
Lemma accept_rate_bounded_witness :
  (rn_log (run_turns (flip example_turn 0%N <$> [9; 11; 12; 21; 22]%N)
    (run_new (listener_new None (Some 1%N) 10%N 0%N Optional)))).*2 = [9; 11; 21]%N ∧ (9 + 10 <= 21)%N.
Proof.
  split; [vm_compute; reflexivity|].
  apply (accept_rate_bounded None 1 10 0 Optional (flip example_turn 0%N <$> [9; 11; 12; 21; 22]%N) 0).
  - split; [reflexivity|discriminate].
  - vm_compute. repeat (constructor; try discriminate).
  - vm_compute. reflexivity.
  - vm_compute. reflexivity.
Defined.
