(* ===== verification/Router.v ===== *)
(** * Choice of the pool and connection to it

    [router/mod.rs] and [minin_pool_connection/mod.rs]: measuring the pools, choosing one,
    connecting, and the two relays of the connection.  What happens on the network while a
    pool is measured is an input; durations are nanoseconds. *)

From S2P Require Import Prelude Str Net ProxyState Effects.

#[export] Instance ip_addr_eq_dec : EqDecision IpAddr.
Proof. solve_decision. Defined.
#[export] Instance socket_addr_eq_dec : EqDecision SocketAddr.
Proof. solve_decision. Defined.

(** ** Measuring a pool *)
Record PoolLatency := MkPoolLatency {
  pl_pool : SocketAddr;
  pl_open_sv2_mining_connection : option N;
  pl_setup_a_channel : option N;
  pl_receive_first_job : option N;
  pl_receive_first_set_new_prev_hash : option N;
  pl_open_sv2_jd_connection : option N;
  pl_get_a_mining_token : option N
}.
Definition pool_latency_new (pool : SocketAddr) : PoolLatency :=
  MkPoolLatency pool None None None None None None.

(** What the relay of the pool delivers, with the time it was received. *)
Inductive FirstMessage := FirstJob | FirstPrevHash | FirstOther.
(** [get_mining_setup_latencies]: when the socket was open, whether the connection was
    initialized, when the setup succeeded, whether the request for a channel could be sent,
    and the messages until the channel ended. *)
Record MiningSetup := MkMiningSetup {
  mi_connected : option N;
  mi_initialized : bool;
  mi_set_up : option N;
  mi_channel_sent : bool;
  mi_messages : list (FirstMessage * N)
}.
Fixpoint first_messages (messages : list (FirstMessage * N))
    (received_new_job received_prev_hash : bool) (p : PoolLatency) : PoolLatency :=
  match messages with
  | [] => p
  | (message, elapsed) :: messages =>
      let '(p, received_new_job) :=
        match message with
        | FirstJob =>
            (MkPoolLatency (pl_pool p) (pl_open_sv2_mining_connection p) (pl_setup_a_channel p)
               (Some elapsed) (pl_receive_first_set_new_prev_hash p)
               (pl_open_sv2_jd_connection p) (pl_get_a_mining_token p), true)
        | _ => (p, received_new_job)
        end in
      let '(p, received_prev_hash) :=
        match message with
        | FirstPrevHash =>
            (MkPoolLatency (pl_pool p) (pl_open_sv2_mining_connection p) (pl_setup_a_channel p)
               (pl_receive_first_job p) (Some elapsed)
               (pl_open_sv2_jd_connection p) (pl_get_a_mining_token p), true)
        | _ => (p, received_prev_hash)
        end in
      if received_new_job && received_prev_hash then p
      else first_messages messages received_new_job received_prev_hash p
  end.
Definition get_mining_setup_latencies (i : MiningSetup) (p : PoolLatency)
    : result unit unit * PoolLatency :=
  match mi_connected i with
  | None => (Err tt, p)
  | Some elapsed =>
      let p := MkPoolLatency (pl_pool p) (Some elapsed) (pl_setup_a_channel p)
        (pl_receive_first_job p) (pl_receive_first_set_new_prev_hash p)
        (pl_open_sv2_jd_connection p) (pl_get_a_mining_token p) in
      if negb (mi_initialized i) then (Err tt, p)
      else match mi_set_up i with
      | None => (Err tt, p)
      | Some elapsed =>
          let p := MkPoolLatency (pl_pool p) (pl_open_sv2_mining_connection p) (Some elapsed)
            (pl_receive_first_job p) (pl_receive_first_set_new_prev_hash p)
            (pl_open_sv2_jd_connection p) (pl_get_a_mining_token p) in
          if negb (mi_channel_sent i) then (Err tt, p)
          else (Ok tt, first_messages (mi_messages i) false false p)
      end
  end.

(** [get_jd_latencies]: whether the socket was open in time, whether a template provider is
    configured, when the setup succeeded, whether the declarator could be created, and how
    long the token took. *)
Record JdSetup := MkJdSetup {
  jd_connected : bool;
  jd_tp_address : bool;
  jd_set_up : option N;
  jd_declarator : bool;
  jd_token : N
}.
Definition get_jd_latencies (i : JdSetup) (p : PoolLatency) : result unit unit * PoolLatency :=
  let set connection token p :=
    MkPoolLatency (pl_pool p) (pl_open_sv2_mining_connection p) (pl_setup_a_channel p)
      (pl_receive_first_job p) (pl_receive_first_set_new_prev_hash p) connection token in
  if negb (jd_connected i) then (Err tt, p)
  else if jd_tp_address i then
    match jd_set_up i with
    | None => (Err tt, p)
    | Some elapsed =>
        let p := set (Some elapsed) (pl_get_a_mining_token p) p in
        if negb (jd_declarator i) then (Err tt, p)
        else (Ok tt, set (pl_open_sv2_jd_connection p) (Some (jd_token i)) p)
    end
  else (Ok tt, set (Some 0%N) (Some 0%N) p).

(** A measurement: whether the mining setup ran into the eight seconds, and both setups. *)
Record Measurement := MkMeasurement {
  me_timeout : bool;
  me_mining : MiningSetup;
  me_jd : JdSetup
}.
Definition sum_of_latencies (p : PoolLatency) : N :=
  foldr N.add 0%N (omap id
    [pl_open_sv2_mining_connection p; pl_setup_a_channel p; pl_receive_first_job p;
     pl_receive_first_set_new_prev_hash p; pl_open_sv2_jd_connection p; pl_get_a_mining_token p]).
Definition get_latency (pool_address : SocketAddr) (m : Measurement) : result N unit :=
  let pool := pool_latency_new pool_address in
  if me_timeout m then Err tt
  else match get_mining_setup_latencies (me_mining m) pool with
  | (Err e, _) => Err e
  | (Ok _, pool) =>
      match get_jd_latencies (me_jd m) pool with
      | (Err _, _) => Err tt
      | (Ok _, pool) => Ok (sum_of_latencies pool)
      end
  end.

(** ** [Router] *)
Record Router := MkRouter {
  ro_pool_addresses : list SocketAddr;
  ro_current_pool : option SocketAddr;
  ro_latency : option N
}.
Definition router_new (pool_addresses : list SocketAddr) : Router :=
  MkRouter pool_addresses None None.
Definition set_ro_current_pool v r := MkRouter (ro_pool_addresses r) v (ro_latency r).
Definition set_ro_latency v r := MkRouter (ro_pool_addresses r) (ro_current_pool r) v.

(** [Duration::MAX] *)
Definition duration_max : N := u64_max * 1000000000 + 999999999.
(** The measurements of the pools, one after the other. *)
Fixpoint select_pool_loop (pools : list SocketAddr) (measure : nat → Measurement) (i : nat)
    (best_pool : option SocketAddr) (least_latency : N) : option (SocketAddr * N) :=
  match pools with
  | [] => (λ pool, (pool, least_latency)) <$> best_pool
  | pool_addr :: pools =>
      match get_latency pool_addr (measure i) with
      | Ok latency =>
          if (latency <? least_latency)%N
          then select_pool_loop pools measure (S i) (Some pool_addr) latency
          else select_pool_loop pools measure (S i) best_pool least_latency
      | Err _ => select_pool_loop pools measure (S i) best_pool least_latency
      end
  end.
Definition select_pool (measure : nat → Measurement) (r : Router) : option (SocketAddr * N) :=
  select_pool_loop (ro_pool_addresses r) measure 0 None duration_max.
Definition select_pool_connect (measure : nat → Measurement) (r : Router)
    : option SocketAddr * Router :=
  match ro_pool_addresses r with
  | [] => (None, r)
  | [pool] => (Some pool, r)
  | _ =>
      match select_pool measure r with
      | Some (pool, latency) => (Some pool, set_ro_latency (Some latency) r)
      | None => (None, r)
      end
  end.
(** The current pool is measured after the others. *)
Definition select_pool_monitor (measure : nat → Measurement) (current : Measurement)
    (epsilon : N) (r : Router) : option SocketAddr :=
  match select_pool measure r with
  | Some (best_pool, best_pool_latency) =>
      match ro_current_pool r with
      | Some current_pool =>
          if bool_decide (best_pool = current_pool) then None
          else match get_latency current_pool current with
          | Err _ => None
          | Ok current_latency =>
              if (best_pool_latency <? current_latency - epsilon)%N then Some best_pool else None
          end
      | None => Some best_pool
      end
  | None => None
  end.
Definition monitor_upstream (measure : nat → Measurement) (current : Measurement) (epsilon : N)
    (r : Router) : option SocketAddr :=
  match select_pool_monitor measure current epsilon r with
  | Some best_pool =>
      if bool_decide (Some best_pool ≠ ro_current_pool r) then Some best_pool else None
  | None => None
  end.

(** ** Connecting *)
Inductive PoolError :=
| SV2Connection | FramingSv2 | RolesSv2Logic | UpstreamIncoming | PoolTimeout | Shutdown
| Unrecoverable | UnexpectedMessage | MiningPoolMutexCorrupted | MiningPoolTaskManagerFailed.

(** [mining_setup_connection]: whether the message was framed and sent, and the answer within
    the time limit. *)
Inductive SetupAnswer :=
| NoAnswer | BadFrame | NoHeader | NotCommon | SetupSuccess | OtherCommon.
Definition mining_setup_connection (framed sent : bool) (answer : SetupAnswer)
    : result unit PoolError :=
  if negb framed then Err RolesSv2Logic
  else if negb sent then Err Unrecoverable
  else match answer with
  | NoAnswer => Err PoolTimeout
  | BadFrame => Err FramingSv2
  | NoHeader => Err UnexpectedMessage
  | NotCommon => Err UpstreamIncoming
  | SetupSuccess => Ok tt
  | OtherCommon => Err UnexpectedMessage
  end.

(** [connect_pool] of [minin_pool_connection]: the stages between its [select!]s.  An event is
    what the [select!] takes; [changed] says whether the signal could be read and its value. *)
Inductive ConnectStage :=
| Connecting | WaitingToRetry | Handshaking | SettingUp | ConnectReturns (r : result unit PoolError).
Inductive ConnectEvent :=
| SignalChanged (ok value : bool)
| SocketOpen | SocketFailed | RetryElapsed
| HandshakeEnds (ok : bool)
| SetupEnds (r : result unit PoolError) (task_manager relay_up relay_down : bool).
Definition shutdown_requested (ok value : bool) : bool := ok && value.
Definition connect_event (stage : ConnectStage) (e : ConnectEvent) : ConnectStage :=
  match stage, e with
  | Connecting, SignalChanged ok value =>
      if shutdown_requested ok value then ConnectReturns (Err Shutdown) else Connecting
  | Connecting, SocketOpen => Handshaking
  | Connecting, SocketFailed => WaitingToRetry
  | WaitingToRetry, SignalChanged ok value =>
      if shutdown_requested ok value then ConnectReturns (Err Shutdown) else Connecting
  | WaitingToRetry, RetryElapsed => Connecting
  | Handshaking, SignalChanged ok value =>
      ConnectReturns (Err (if shutdown_requested ok value then Shutdown else Unrecoverable))
  | Handshaking, HandshakeEnds ok =>
      if ok then SettingUp else ConnectReturns (Err SV2Connection)
  | SettingUp, SignalChanged ok value =>
      ConnectReturns (Err (if shutdown_requested ok value then Shutdown else Unrecoverable))
  | SettingUp, SetupEnds (Err e) _ _ _ => ConnectReturns (Err e)
  | SettingUp, SetupEnds (Ok _) task_manager relay_up relay_down =>
      if negb task_manager then ConnectReturns (Err MiningPoolTaskManagerFailed)
      else if negb relay_up then ConnectReturns (Err MiningPoolTaskManagerFailed)
      else if negb relay_down then ConnectReturns (Err MiningPoolTaskManagerFailed)
      else ConnectReturns (Ok tt)
  | _, _ => stage
  end.

(** [Router::connect_pool], given what the connection returned. *)
Record ConnectWorld := MkConnectWorld {
  cw_router : Router;
  cw_active_pool_address : Mutex (option SocketAddr);
  cw_reports : list ProxyUpdate
}.
Definition connect_target (pool_addr : option SocketAddr) (measure : nat → Measurement)
    (r : Router) : option SocketAddr * Router :=
  match pool_addr with Some addr => (Some addr, r) | None => select_pool_connect measure r end.
Definition connect_pool (pool_addr : option SocketAddr) (measure : nat → Measurement)
    (connection : result unit PoolError) (w : ConnectWorld)
    : result unit PoolError * ConnectWorld :=
  match connect_target pool_addr measure (cw_router w) with
  | (None, r) =>
      (Err Unrecoverable, MkConnectWorld r (cw_active_pool_address w) (cw_reports w))
  | (Some pool, r) =>
      let r := set_ro_current_pool (Some pool) r in
      match connection with
      | Err e => (Err e, MkConnectWorld r (cw_active_pool_address w) (cw_reports w))
      | Ok _ =>
          match lock (cw_active_pool_address w) with
          | Some _ =>
              (Ok tt, MkConnectWorld r (store (cw_active_pool_address w) (Some pool)) (cw_reports w))
          | None =>
              (Ok tt, MkConnectWorld r (cw_active_pool_address w)
                 (cw_reports w ++ [UpdateInconsistency (Some 1%N)]))
          end
      end
  end.

(** ** The relays of the connection *)
Section relays.
Context {Msg Frame : Type}.

(** [relay_up]; [to_frame] is the conversion to a frame.  [false] is the end of the task. *)
Record PoolRelay (A : Type) := MkPoolRelay {
  rl_send : Sender A;
  rl_reports : list ProxyUpdate
}.
Arguments MkPoolRelay {A} _ _.
Arguments rl_send {A} _.
Arguments rl_reports {A} _.
Definition relay_up_turn (to_frame : Msg → option Frame) (received : option Msg)
    (w : PoolRelay Frame) : bool * PoolRelay Frame :=
  match received with
  | None => (false, w)
  | Some msg =>
      match to_frame msg with
      | Some frame =>
          if tx_open (rl_send w)
          then (true, MkPoolRelay (sender_push frame (rl_send w)) (rl_reports w))
          else (false, MkPoolRelay (rl_send w) (rl_reports w ++ [UpdatePool PoolDown]))
      | None => (true, w)
      end
  end.

(** [relay_down]; a frame may be none, have no header, or hold no message. *)
Inductive PoolFrame := NotAFrame | FrameNoHeader | FrameNoMessage | FrameMessage (msg : Msg).
Definition relay_down_turn (received : option PoolFrame) (w : PoolRelay Msg)
    : bool * PoolRelay Msg :=
  let ends := (false, MkPoolRelay (rl_send w) (rl_reports w ++ [UpdatePool PoolDown])) in
  match received with
  | Some (FrameMessage msg) =>
      if tx_open (rl_send w)
      then (true, MkPoolRelay (sender_push msg (rl_send w)) (rl_reports w))
      else (true, MkPoolRelay (rl_send w) (rl_reports w ++ [UpdateInconsistency (Some 1%N)]))
  | _ => ends
  end.
End relays.
