(* ===== verification/Supervisor.v ===== *)
(** * The supervisor

    [initialize_proxy] and [monitor] of [lib.rs]: the proxy is started, watched and started
    again.  What starting the parts and the outside answer are inputs. *)

From S2P Require Import Prelude Str Net ProxyState Effects Router.

Inductive Reconnect := NewUpstream (pool : SocketAddr) | NoUpstream.

(** [AbortOnDrop::is_finished]: whether all tasks of a part are. *)
Definition is_finished (tasks : list bool) : bool := forallb id tasks.

(** ** [monitor] *)

(** What one turn of the loop meets. *)
Record MonitorTurn := MkMonitorTurn {
  mt_shutdown : bool;
  mt_monitor : bool;              (** [Configuration::monitor()] *)
  mt_measure : nat → Measurement;
  mt_current : Measurement;
  mt_tasks : list (list bool);    (** the tasks of every part *)
  mt_state : Mutex ProxyState
}.
Inductive MonitorResult :=
| MonitorWaits (should_check_upstreams_latency : N)
| MonitorReturns (reconnect : Reconnect)
| MonitorExits.
(** The counter, and the pool to change to. *)
Definition check_upstreams (epsilon : N) (r : Router) (i : MonitorTurn)
    (should_check_upstreams_latency : N) : N * option SocketAddr :=
  if mt_monitor i then
    if (should_check_upstreams_latency =? 10 * 100)%N
    then match monitor_upstream (mt_measure i) (mt_current i) epsilon r with
         | Some new_upstream => (0%N, Some new_upstream)
         | None => (1%N, None)
         end
    else ((should_check_upstreams_latency + 1)%N, None)
  else (should_check_upstreams_latency, None).
Definition monitor_turn (epsilon : N) (r : Router) (i : MonitorTurn)
    (should_check_upstreams_latency : N) : MonitorResult :=
  if mt_shutdown i then MonitorReturns NoUpstream
  else match check_upstreams epsilon r i should_check_upstreams_latency with
  | (_, Some new_upstream) => MonitorReturns (NewUpstream new_upstream)
  | (should_check_upstreams_latency, None) =>
      if existsb is_finished (mt_tasks i) then
        match is_proxy_down (mt_state i) with
        | None => MonitorExits
        | Some _ => MonitorReturns NoUpstream
        end
      else
        match is_proxy_down (mt_state i) with
        | None => MonitorExits
        | Some (true, _) => MonitorReturns NoUpstream
        | Some (false, _) => MonitorWaits should_check_upstreams_latency
        end
  end.

(** ** Starting the parts *)

(** Whether the translator starts and hands over its channels, what the mutex of the template
    provider's address holds, and whether the job declaration client and the share accounter
    start. *)
Record StartUp := MkStartUp {
  su_translator : bool;
  su_channels : bool;
  su_tp : Mutex (option str);
  su_jdc : bool;
  su_share_accounter : bool
}.
Inductive StartResult :=
| Started (parts : list str)
| StartReturns
| StartPanics.
Definition start_parts (i : StartUp) : StartResult * list ProxyUpdate :=
  if negb (su_translator i)
  then (StartReturns, [UpdateTranslator TranslatorDown; UpdateTp TpDown])
  else if negb (su_channels i) then (StartPanics, [])
  else match lock (su_tp i) with
  | None => (StartReturns, [])
  | Some tp =>
      let jdc := match tp with Some _ => su_jdc i | None => false end in
      let updates :=
        match tp with Some _ => if su_jdc i then [] else [UpdateTp TpDown] | None => [] end in
      if negb (su_share_accounter i) then (StartReturns, updates)
      else (Started ([lit "pool_connection"; lit "sv1_ingress"; lit "translator";
              lit "share_accounter"] ++ if jdc then [lit "jdc"] else []), updates)
  end.

(** ** [initialize_proxy] *)
Inductive SupervisorStage :=
| SupStarts
| SupMonitors (should_check_upstreams_latency : N)
| SupReturns
| SupPanics.
Record Supervisor := MkSupervisor {
  sv_pool_addr : option SocketAddr;
  sv_stage : SupervisorStage;
  sv_connect : ConnectWorld;   (** the router, the active pool and what was reported *)
  sv_epsilon : N
}.
Definition set_sv_stage v s := MkSupervisor (sv_pool_addr s) v (sv_connect s) (sv_epsilon s).
Definition sv_report (us : list ProxyUpdate) s :=
  MkSupervisor (sv_pool_addr s) (sv_stage s)
    (MkConnectWorld (cw_router (sv_connect s)) (cw_active_pool_address (sv_connect s))
       (cw_reports (sv_connect s) ++ us)) (sv_epsilon s).

Definition start_turn (shutdown : bool) (measure : nat → Measurement)
    (connection : result unit PoolError) (i : StartUp) (s : Supervisor) : Supervisor :=
  if shutdown then set_sv_stage SupReturns s
  else
    let '(r, c) := connect_pool (sv_pool_addr s) measure connection (sv_connect s) in
    let s := MkSupervisor (sv_pool_addr s) (sv_stage s) c (sv_epsilon s) in
    match r with
    | Err Shutdown => set_sv_stage SupReturns s
    | Err _ => set_sv_stage SupStarts s
    | Ok _ =>
        match start_parts i with
        | (Started _, us) => set_sv_stage (SupMonitors 0) (sv_report us s)
        | (StartReturns, us) => set_sv_stage SupReturns (sv_report us s)
        | (StartPanics, us) => set_sv_stage SupPanics (sv_report us s)
        end
    end.
Definition watch_turn (i : MonitorTurn) (count : N) (s : Supervisor) : Supervisor :=
  match monitor_turn (sv_epsilon s) (cw_router (sv_connect s)) i count with
  | MonitorWaits count => set_sv_stage (SupMonitors count) s
  | MonitorReturns reconnect =>
      let s := sv_report [UpdateProxyUp] s in
      MkSupervisor
        (match reconnect with NewUpstream new_pool_addr => Some new_pool_addr | NoUpstream => None end)
        SupStarts (sv_connect s) (sv_epsilon s)
  | MonitorExits => set_sv_stage SupReturns s
  end.

Inductive SupervisorEvent :=
| EvStart (shutdown : bool) (measure : nat → Measurement) (connection : result unit PoolError)
    (i : StartUp)
| EvMonitor (i : MonitorTurn).
Definition supervisor_event (s : Supervisor) (e : SupervisorEvent) : Supervisor :=
  match sv_stage s, e with
  | SupStarts, EvStart shutdown measure connection i => start_turn shutdown measure connection i s
  | SupMonitors count, EvMonitor i => watch_turn i count s
  | _, _ => s
  end.
(** [start_internal], from the choice of the first pool. *)
Definition supervisor_new (pool_addresses : list SocketAddr) (measure : nat → Measurement)
    (active : Mutex (option SocketAddr)) : Supervisor :=
  let '(best_upstream, r) := select_pool_connect measure (router_new pool_addresses) in
  MkSupervisor best_upstream SupStarts (MkConnectWorld r active []) 30000000000.

(** * Properties *)

(** ** The choice of a pool *)

(** [latency] was measured for [pool], and it is the least, the earliest of its kind. *)
Definition least_measured (pools : list SocketAddr) (measure : nat → Measurement)
    (pool : SocketAddr) (latency : N) : Prop :=
  ∃ k, pools !! k = Some pool ∧ get_latency pool (measure k) = Ok latency ∧
    ∀ j pool' latency', pools !! j = Some pool' →
      get_latency pool' (measure j) = Ok latency' →
      (latency <= latency')%N ∧ (j < k → (latency < latency')%N).

Lemma select_pool_loop_spec pools measure : ∀ i best least,
  match select_pool_loop pools measure i best least with
  | Some (pool, latency) =>
      (Some pool = best ∧ latency = least ∨
       ∃ k, pools !! k = Some pool ∧ get_latency pool (measure (i + k)) = Ok latency ∧
         (latency < least)%N ∧
         ∀ j pool' latency', j < k → pools !! j = Some pool' →
           get_latency pool' (measure (i + j)) = Ok latency' → (latency < latency')%N) ∧
      (latency <= least)%N ∧
      ∀ j pool' latency', pools !! j = Some pool' →
        get_latency pool' (measure (i + j)) = Ok latency' → (latency <= latency')%N
  | None => best = None ∧
      ∀ j pool' latency', pools !! j = Some pool' →
        get_latency pool' (measure (i + j)) = Ok latency' → (least <= latency')%N
  end.
Proof.
  induction pools as [|pool pools IH]; intros i best least; cbn [select_pool_loop].
  { destruct best; cbn; [split_and!; [by left|lia|]|split; [done|]]; intros; by simplify_eq. }
  assert (∀ latency, (∀ j pool' latency', pools !! j = Some pool' →
      get_latency pool' (measure (S i + j)) = Ok latency' → (latency <= latency')%N) →
    (∀ l, get_latency pool (measure i) = Ok l → (latency <= l)%N) →
    ∀ j pool' latency', (pool :: pools) !! j = Some pool' →
      get_latency pool' (measure (i + j)) = Ok latency' → (latency <= latency')%N) as Hall.
  { intros latency Htl Hhd [|j] pool' latency' Hj; cbn in Hj.
    - injection Hj as <-. rewrite Nat.add_0_r. apply Hhd.
    - rewrite <- Nat.add_succ_comm. by apply Htl. }
  destruct (get_latency pool (measure i)) as [l|e] eqn:Hl.
  2: { specialize (IH (S i) best least). destruct (select_pool_loop _ _ _ _ _) as [[p lat]|].
    - destruct IH as (Hc & Hle & Htl). split_and!; [|done|by apply Hall].
      destruct Hc as [|(k & Hk & Hm & Hlt & Hearly)]; [by left|right]. exists (S k).
      rewrite <- Nat.add_succ_comm. split_and!; [done..|]. intros [|j] pool' latency' Hj Hp Hg; cbn in Hp.
      + injection Hp as <-. rewrite Nat.add_0_r in Hg. congruence.
      + rewrite <- Nat.add_succ_comm in Hg. apply (Hearly j pool'); [lia|done..].
    - destruct IH as [-> Htl]. split; [done|]. by apply Hall. }
  destruct (N.ltb_spec l least) as [Hlt|Hge].
  - specialize (IH (S i) (Some pool) l). destruct (select_pool_loop _ _ _ _ _) as [[p lat]|]; [|by destruct IH].
    destruct IH as (Hc & Hle & Htl). split_and!; [right|lia|apply Hall; [done|]; intros ? [= <-]; done].
    destruct Hc as [[[= ->] ->]|(k & Hk & Hm & Hlt' & Hearly)].
    + exists 0. rewrite Nat.add_0_r. split_and!; [done..|lia].
    + exists (S k). rewrite <- Nat.add_succ_comm. split_and!; [done|done|lia|].
      intros [|j] pool' latency' Hj Hp Hg; cbn in Hp.
      * injection Hp as <-. rewrite Nat.add_0_r, Hl in Hg. injection Hg as <-. done.
      * rewrite <- Nat.add_succ_comm in Hg. apply (Hearly j pool'); [lia|done..].
  - specialize (IH (S i) best least). destruct (select_pool_loop _ _ _ _ _) as [[p lat]|].
    + destruct IH as (Hc & Hle & Htl). split_and!; [|done|apply Hall; [done|]; intros ? [= <-]; lia].
      destruct Hc as [|(k & Hk & Hm & Hlt & Hearly)]; [by left|right]. exists (S k).
      rewrite <- Nat.add_succ_comm. split_and!; [done..|]. intros [|j] pool' latency' Hj Hp Hg; cbn in Hp.
      * injection Hp as <-. rewrite Nat.add_0_r, Hl in Hg. injection Hg as <-. lia.
      * rewrite <- Nat.add_succ_comm in Hg. apply (Hearly j pool'); [lia|done..].
    + destruct IH as [-> Htl]. split; [done|]. apply Hall; [done|]. intros ? [= <-]. lia.
Qed.

Lemma select_pool_spec measure r :
  match select_pool measure r with
  | Some (pool, latency) => least_measured (ro_pool_addresses r) measure pool latency
  | None => ∀ j pool latency, ro_pool_addresses r !! j = Some pool →
      get_latency pool (measure j) = Ok latency → (duration_max <= latency)%N
  end.
Proof.
  unfold select_pool. pose proof (select_pool_loop_spec (ro_pool_addresses r) measure 0 None duration_max) as H.
  cbn [Nat.add] in H. destruct (select_pool_loop _ _ _ _ _) as [[pool latency]|]; [|by destruct H].
  destruct H as ([[H _]|(k & Hk & Hm & _ & Hearly)] & _ & Hall); [done|]. exists k. split_and!; [done..|].
  intros j pool' latency' Hj Hg. split; [by eapply Hall|]. intros Hjk. by eapply Hearly.
Qed.

(** The proxy leaves its pool only for a faster one: the pool [monitor_upstream] names is
    configured, is not the current one, has the least measured latency, and is faster than the
    current pool, measured afterwards, by more than [epsilon]. *)
Theorem switch_only_to_faster measure current epsilon r pool :
  monitor_upstream measure current epsilon r = Some pool →
  ro_current_pool r ≠ Some pool ∧
  ∃ latency, least_measured (ro_pool_addresses r) measure pool latency ∧
    ∀ current_pool, ro_current_pool r = Some current_pool →
      ∃ current_latency, get_latency current_pool current = Ok current_latency ∧
        (latency + epsilon < current_latency)%N.
Proof.
  unfold monitor_upstream, select_pool_monitor. pose proof (select_pool_spec measure r) as Hs.
  destruct (select_pool measure r) as [[best latency]|]; [|done].
  destruct (ro_current_pool r) as [current_pool|].
  2: { case_bool_decide; [|done]. intros [= <-]. split; [done|]. by exists latency. }
  case_bool_decide as Hne; [done|]. destruct (get_latency current_pool current) as [cl|] eqn:Hc; [|done].
  destruct (N.ltb_spec latency (cl - epsilon)); [|done]. case_bool_decide; [|done]. intros [= <-].
  split; [congruence|]. exists latency. split; [done|]. intros ? [= <-]. exists cl. split; [done|]. lia.
Qed.

(** Messages that never come are not counted: a pool whose connection ends before the first job
    and the first previous hash is measured faster than the same pool that delivers them. *)
Theorem missing_messages_are_free pool timeout connected set_up jd job prev_hash latency :
  let measure messages :=
    get_latency pool (MkMeasurement timeout (MkMiningSetup (Some connected) true (Some set_up) true messages) jd) in
  measure [(FirstJob, job); (FirstPrevHash, prev_hash)] = Ok latency →
  measure [] = Ok (latency - job - prev_hash)%N ∧ (job + prev_hash <= latency)%N.
Proof.
  cbn zeta. unfold get_latency. cbn. destruct timeout; [done|].
  unfold get_jd_latencies. destruct (jd_connected jd); [|done]. cbn.
  destruct (jd_tp_address jd), (jd_set_up jd), (jd_declarator jd); cbn; try done;
    unfold sum_of_latencies; cbn; intros [= <-]; split; try (f_equal; lia); lia.
Qed.

(** ** The supervisor *)

Inductive supervisor_reach (pools : list SocketAddr) : Supervisor → Prop :=
| sup_new measure active :
    guarded active = None → supervisor_reach pools (supervisor_new pools measure active)
| sup_event s e : supervisor_reach pools s → supervisor_reach pools (supervisor_event s e)
| sup_poison s : supervisor_reach pools s →
    supervisor_reach pools
      (MkSupervisor (sv_pool_addr s) (sv_stage s)
        (MkConnectWorld (cw_router (sv_connect s)) (poison (cw_active_pool_address (sv_connect s)))
          (cw_reports (sv_connect s))) (sv_epsilon s)).

Definition configured_pool (pools : list SocketAddr) (pool : option SocketAddr) : Prop :=
  ∀ a, pool = Some a → a ∈ pools.
Record connect_ok (pools : list SocketAddr) (w : ConnectWorld) : Prop := {
  co_pools : ro_pool_addresses (cw_router w) = pools;
  co_current : configured_pool pools (ro_current_pool (cw_router w));
  co_active : configured_pool pools (guarded (cw_active_pool_address w))
}.
Lemma select_pool_in measure r pool latency :
  select_pool measure r = Some (pool, latency) → pool ∈ ro_pool_addresses r.
Proof.
  intros H. pose proof (select_pool_spec measure r) as Hs. rewrite H in Hs.
  destruct Hs as (k & Hk & _). by eapply list_elem_of_lookup_2.
Qed.
Lemma select_pool_connect_ok measure r pool r' :
  select_pool_connect measure r = (pool, r') →
  configured_pool (ro_pool_addresses r) pool ∧
  ro_pool_addresses r' = ro_pool_addresses r ∧ ro_current_pool r' = ro_current_pool r.
Proof.
  unfold select_pool_connect. destruct (ro_pool_addresses r) as [|p [|p' ps]] eqn:E.
  - intros [= <- <-]. split; [by intros ?|done].
  - intros [= <- <-]. split; [|done]. intros a [= <-]. apply list_elem_of_here.
  - destruct (select_pool measure r) as [[q l]|] eqn:Hs; intros [= <- <-].
    + split; [|done]. intros a [= <-]. apply select_pool_in in Hs. by rewrite E in Hs.
    + split; [by intros ?|done].
Qed.
Lemma connect_pool_ok pools pool_addr measure connection w :
  connect_ok pools w → configured_pool pools pool_addr →
  connect_ok pools (connect_pool pool_addr measure connection w).2.
Proof.
  intros [Hp Hc Ha] Haddr. unfold connect_pool.
  destruct (connect_target pool_addr measure (cw_router w)) as [target r] eqn:Ht.
  assert (configured_pool pools target ∧ ro_pool_addresses r = pools ∧
    ro_current_pool r = ro_current_pool (cw_router w)) as (Hto & Hpr & Hcr).
  { unfold connect_target in Ht. destruct pool_addr; [by injection Ht as <- <-|].
    apply select_pool_connect_ok in Ht. by rewrite Hp in Ht. }
  destruct target as [pool|]; [|by split; cbn; rewrite ?Hcr].
  destruct connection as [[]|e]; [|by split].
  destruct (lock _); split; cbn; done.
Qed.
Lemma supervisor_reach_ok pools s :
  supervisor_reach pools s → configured_pool pools (sv_pool_addr s) ∧ connect_ok pools (sv_connect s).
Proof.
  induction 1 as [measure active Ha|s e _ [IHa IHc]|s _ [IHa [Hp Hc Hac]]]; [|destruct e as [sd me cn i|i]|].
  - unfold supervisor_new. destruct (select_pool_connect _ _) as [best r] eqn:E.
    apply select_pool_connect_ok in E as (Hb & Hp & Hc). split; [done|].
    split; cbn; [done|rewrite Hc; by intros ?|by rewrite Ha].
  - unfold supervisor_event. destruct (sv_stage s); try done. unfold start_turn. destruct sd; [done|].
    pose proof (connect_pool_ok pools (sv_pool_addr s) me cn (sv_connect s) IHc IHa) as Hok.
    destruct (connect_pool _ _ _ _) as [r c]. cbn in Hok.
    assert (∀ st us, configured_pool pools (sv_pool_addr s) ∧ connect_ok pools (sv_connect
      (set_sv_stage st (sv_report us (MkSupervisor (sv_pool_addr s) (sv_stage s) c (sv_epsilon s)))))) as Hr.
    { intros st us. split; [done|]. by destruct Hok. }
    destruct r as [u|err]; [destruct (start_parts i) as [[] us]; apply Hr|by destruct err].
  - unfold supervisor_event. destruct (sv_stage s) as [|count| |]; try done. unfold watch_turn.
    unfold monitor_turn. destruct (mt_shutdown i); [split; [by intros ?|by destruct IHc]|].
    destruct (check_upstreams _ _ _ _) as [n [new|]] eqn:Hcu.
    + split; [|by destruct IHc]. intros a [= <-]. unfold check_upstreams in Hcu.
      destruct (mt_monitor i); [|done]. destruct (_ =? _)%N; [|done].
      destruct (monitor_upstream _ _ _ _) as [a|] eqn:Hm; [|done]. injection Hcu as _ ->.
      unfold monitor_upstream, select_pool_monitor in Hm.
      destruct (select_pool _ _) as [[best l]|] eqn:Hs; [|done]. apply select_pool_in in Hs.
      rewrite (co_pools _ _ IHc) in Hs. by repeat case_match; simplify_eq.
    + destruct (existsb _ _), (is_proxy_down (mt_state i)) as [[[] m]|]; try done;
        (split; [by intros ?|by destruct IHc]).
  - split; [done|]. by split.
Qed.

(** C33: The proxy connects to configured pools only: the pool it is told to use, the router's
    current pool and the address that the job declaration client reads are always among the
    configured ones, however it is started, watched and started again. *)
Theorem only_configured_pools pools s :
  supervisor_reach pools s →
  (∀ a, sv_pool_addr s = Some a → a ∈ pools) ∧
  (∀ a, ro_current_pool (cw_router (sv_connect s)) = Some a → a ∈ pools) ∧
  (∀ a, guarded (cw_active_pool_address (sv_connect s)) = Some a → a ∈ pools).
Proof. by intros [H1 [_ H2 H3]]%supervisor_reach_ok. Qed.

(** A monitored proxy that has no trouble and finds no better pool, for a number of turns. *)
Fixpoint quiet_turns (epsilon : N) (r : Router) (turns : list MonitorTurn) (count : N)
    : option N :=
  match turns with
  | [] => Some count
  | i :: turns =>
      match monitor_turn epsilon r i count with
      | MonitorWaits count => quiet_turns epsilon r turns count
      | _ => None
      end
  end.
Definition measures (i : MonitorTurn) (count : N) : bool := mt_monitor i && (count =? 1000)%N.

Lemma quiet_turns_count epsilon r turns count : ∀ start,
  quiet_turns epsilon r turns start = Some count → Forall (λ i, mt_monitor i = true) turns →
  (start <= 1000)%N →
  (count <= 1000)%N ∧
  ((1 <= start)%N → (count = (start - 1 + N.of_nat (length turns)) mod 1000 + 1)%N).
Proof.
  induction turns as [|i turns IH]; intros start; cbn [quiet_turns length].
  { intros [= ->] _ Hs. split; [done|]. intros H1. rewrite N.add_0_r, N.mod_small; lia. }
  destruct (monitor_turn epsilon r i start) as [n|rc|] eqn:Hm; try done. intros Hq [Hi Hall]%Forall_cons Hs.
  assert (n = if (start =? 1000)%N then 1%N else (start + 1)%N) as Hn.
  { unfold monitor_turn, check_upstreams in Hm. rewrite Hi in Hm. destruct (mt_shutdown i); [done|].
    change (10 * 100)%N with 1000%N in Hm. destruct (start =? 1000)%N.
    - destruct (monitor_upstream _ _ _ _); [done|]. by repeat case_match; simplify_eq.
    - by repeat case_match; simplify_eq. }
  destruct (IH n Hq Hall) as [Hle Hmod]; [destruct (N.eqb_spec start 1000); lia|].
  split; [done|]. intros H1. rewrite Hmod; [|destruct (N.eqb_spec start 1000); lia].
  destruct (N.eqb_spec start 1000) as [->|Hne]; subst n.
  - replace (1000 - 1 + N.of_nat (S (length turns)))%N with (1 - 1 + N.of_nat (length turns) + 1 * 1000)%N by lia.
    by rewrite N.Div0.mod_add.
  - f_equal. f_equal. lia.
Qed.

(** The pools are measured again after every thousand turns of a monitored proxy: from the
    start of monitoring, the turn after [n] quiet ones measures them exactly when [n] is a
    positive multiple of a thousand. *)
Theorem latency_checked_every_thousand_turns epsilon r turns count i :
  quiet_turns epsilon r turns 0 = Some count →
  Forall (λ i, mt_monitor i = true) turns → mt_monitor i = true →
  measures i count = true ↔
    (0 < length turns)%nat ∧ (N.of_nat (length turns) mod 1000 = 0)%N.
Proof.
  intros Hq Hall Hi. unfold measures. rewrite Hi. cbn [andb]. rewrite N.eqb_eq.
  destruct turns as [|i0 turns]; cbn [quiet_turns length] in *.
  { injection Hq as <-. split; [done|]. intros [H _]. lia. }
  apply Forall_cons in Hall as [Hi0 Hall].
  destruct (monitor_turn epsilon r i0 0) as [n|rc|] eqn:Hm; try done.
  assert (n = 1%N) as ->.
  { unfold monitor_turn, check_upstreams in Hm. rewrite Hi0 in Hm. cbn in Hm.
    by repeat case_match; simplify_eq. }
  destruct (quiet_turns_count _ _ _ _ _ Hq Hall) as [_ Hcount]; [lia|]. rewrite Hcount by lia.
  rewrite Nat2N.inj_succ. replace (1 - 1 + N.of_nat (length turns))%N with (N.of_nat (length turns)) by lia.
  pose proof (N.Div0.div_mod (N.of_nat (length turns)) 1000) as Hdm.
  pose proof (N.mod_lt (N.of_nat (length turns)) 1000) as Hlt.
  set (q := (N.of_nat (length turns) / 1000)%N) in *. set (m := (N.of_nat (length turns) mod 1000)%N) in *.
  replace (N.succ (N.of_nat (length turns))) with (m + 1 + q * 1000)%N by lia.
  rewrite N.Div0.mod_add. split.
  - intros H. split; [lia|]. replace (m + 1)%N with 1000%N by lia. done.
  - intros [_ H]. destruct (N.eq_dec m 999%N) as [E|Hne]; [by rewrite E|].
    rewrite N.mod_small in H by lia. lia.
Qed.

(** A pool that was chosen is kept: as long as its connection fails for any reason but a
    shutdown, every new attempt goes to the same pool, and no other configured pool is tried. *)
Theorem failing_pool_retried s pool attempts :
  sv_stage s = SupStarts → sv_pool_addr s = Some pool →
  (∀ e, e ∈ attempts → ∃ measure connection i,
     e = EvStart false measure (Err connection) i ∧ connection ≠ Shutdown) →
  let s' := fold_left supervisor_event attempts s in
  sv_stage s' = SupStarts ∧ sv_pool_addr s' = Some pool ∧
  (attempts ≠ [] → ro_current_pool (cw_router (sv_connect s')) = Some pool) ∧
  guarded (cw_active_pool_address (sv_connect s')) = guarded (cw_active_pool_address (sv_connect s)).
Proof.
  revert s. induction attempts as [|e attempts IH]; intros s Hs Hp Hall; [done|]. cbn [fold_left].
  destruct (Hall e (list_elem_of_here _ _)) as (me & cn & i & -> & Hcn).
  assert (∃ c, supervisor_event s (EvStart false me (Err cn) i) =
      MkSupervisor (Some pool) SupStarts c (sv_epsilon s) ∧
      ro_current_pool (cw_router c) = Some pool ∧
      cw_active_pool_address c = cw_active_pool_address (sv_connect s)) as (c & -> & Hc & Ha).
  { unfold supervisor_event. rewrite Hs. unfold start_turn, connect_pool, connect_target. rewrite Hp.
    eexists (MkConnectWorld _ _ _). by destruct cn. }
  destruct (IH (MkSupervisor (Some pool) SupStarts c (sv_epsilon s))) as (H1 & H2 & H3 & H4);
    [done..|by intros e He; apply Hall, list_elem_of_further|].
  split_and!; [done|done| |by rewrite H4; cbn; rewrite Ha].
  intros _. destruct attempts; [done|]. by apply H3.
Qed.

(** ** The relays *)

(** [relay_down] gives the client the pool's messages, in order, up to the first frame that is
    none, and reports that the pool is down whenever it ends. *)
Fixpoint relay_down_run {Msg} (received : list (PoolFrame (Msg := Msg))) (w : PoolRelay Msg)
    : bool * PoolRelay Msg :=
  match received with
  | [] => relay_down_turn None w
  | frame :: received =>
      match relay_down_turn (Some frame) w with
      | (true, w) => relay_down_run received w
      | (false, w) => (false, w)
      end
  end.
Fixpoint leading_messages {Msg} (received : list (PoolFrame (Msg := Msg))) : list Msg :=
  match received with
  | FrameMessage msg :: received => msg :: leading_messages received
  | _ => []
  end.
Theorem relay_down_until_bad_frame {Msg} (received : list (PoolFrame (Msg := Msg))) w :
  tx_open (rl_send _ w) = true →
  let '(runs, w') := relay_down_run received w in
  runs = false ∧ tx_sent (rl_send _ w') = tx_sent (rl_send _ w) ++ leading_messages received ∧
  rl_reports _ w' = rl_reports _ w ++ [UpdatePool PoolDown].
Proof.
  revert w. induction received as [|frame received IH]; intros w Hw; cbn [relay_down_run leading_messages].
  { cbn. by rewrite app_nil_r. }
  destruct frame as [| | |msg]; cbn; rewrite ?app_nil_r; try done. rewrite Hw.
  specialize (IH (MkPoolRelay _ (sender_push msg (rl_send _ w)) (rl_reports _ w)) Hw).
  destruct (relay_down_run received _) as [runs w']. destruct IH as (H1 & H2 & H3).
  split; [done|]. split; [|done]. rewrite H2. cbn. by rewrite <- app_assoc.
Qed.

(** ** Witnesses *)
Definition toy_pool_at (port : N) : SocketAddr := MkSocketAddr (V4 []) port.
(** A pool without a template provider, measured at [latency] in all. *)
Definition toy_measured (latency : N) : Measurement :=
  MkMeasurement false
    (MkMiningSetup (Some latency) true (Some 0%N) true [(FirstJob, 0%N); (FirstPrevHash, 0%N)])
    (MkJdSetup true false None true 0).
Definition toy_measures (i : nat) : Measurement := toy_measured (if i =? 0 then 900 else 20).

Lemma switch_only_to_faster_witness :
  ro_current_pool (MkRouter [toy_pool_at 1; toy_pool_at 2] (Some (toy_pool_at 1)) None)
    ≠ Some (toy_pool_at 2) ∧
  ∃ latency, least_measured [toy_pool_at 1; toy_pool_at 2] toy_measures (toy_pool_at 2) latency ∧
    ∀ current_pool, Some (toy_pool_at 1) = Some current_pool →
      ∃ current_latency, get_latency current_pool (toy_measured 900) = Ok current_latency ∧
        (latency + 500 < current_latency)%N.
Proof.
  apply (switch_only_to_faster toy_measures (toy_measured 900) 500
    (MkRouter [toy_pool_at 1; toy_pool_at 2] (Some (toy_pool_at 1)) None) (toy_pool_at 2)).
  vm_compute. reflexivity.
Defined.
Definition toy_supervisor : Supervisor :=
  supervisor_new [toy_pool_at 1; toy_pool_at 2] toy_measures (MkMutex None false).
Lemma only_configured_pools_witness :
  sv_pool_addr toy_supervisor = Some (toy_pool_at 2) ∧ toy_pool_at 2 ∈ [toy_pool_at 1; toy_pool_at 2].
Proof.
  split; [vm_compute; reflexivity|].
  destruct (only_configured_pools [toy_pool_at 1; toy_pool_at 2] toy_supervisor) as [H _].
  - by apply sup_new.
  - apply H. vm_compute; reflexivity.
Defined.
Lemma failing_pool_retried_witness :
  let s' := supervisor_event toy_supervisor
    (EvStart false toy_measures (Err PoolTimeout) (MkStartUp true true (MkMutex None false) true true)) in
  sv_stage s' = SupStarts ∧ sv_pool_addr s' = Some (toy_pool_at 2).
Proof.
  destruct (failing_pool_retried toy_supervisor (toy_pool_at 2)
    [EvStart false toy_measures (Err PoolTimeout) (MkStartUp true true (MkMutex None false) true true)])
    as (H1 & H2 & _); [vm_compute; reflexivity..| |by split].
  intros e ->%list_elem_of_singleton. eexists _, _, _. by split.
Defined.
