(* ===== verification/Config.v ===== *)
(** * Configuration

    [config.rs]: the settings from the command line, the configuration file and the
    environment, the parsers of their values, and the addresses of the pools.  The command
    line is what [clap] parsed; the file is what was read and decoded, or nothing; the
    environment holds the variables that are Unicode; resolving a host name belongs to the
    system.  What is only printed is left out. *)

From S2P Require Import Prelude Str F32 Sv1 Net Effects MinerTag.

(** ** Values of the standard library *)

(** [str::parse::<f32>]: the decimal value, rounded to nearest. *)
Definition f32_of_decimal (negative : bool) (digits : N) (exponent : Z) : f32 :=
  match digits with
  | 0%N => S754_zero negative
  | Npos m =>
      if (0 <=? exponent)%Z
      then binary_normalize 24 128 (cond_Zopp negative (Zpos m * 10 ^ exponent)) 0 negative
      else SFdiv 24 128 (S754_finite negative m 0)
             (S754_finite false (Z.to_pos (10 ^ (- exponent))) 0)
  end.
Fixpoint span_digits (s : str) : str * str :=
  match s with
  | c :: s' => if is_digit c then let '(ds, rest) := span_digits s' in (c :: ds, rest) else ([], s)
  | [] => ([], [])
  end.
Definition parse_sign (s : str) : bool * str :=
  match s with
  | c :: rest => if (c =? 45)%N then (true, rest) else if (c =? 43)%N then (false, rest) else (false, s)
  | [] => (false, s)
  end.
Definition parse_exponent (s : str) : option Z :=
  match s with
  | [] => Some 0%Z
  | c :: rest =>
      if (c =? 101)%N || (c =? 69)%N then
        let '(negative, rest) := parse_sign rest in
        let '(digits, rest) := span_digits rest in
        if (length digits =? 0) || negb (length rest =? 0) then None
        else Some (cond_Zopp negative (Z.of_N (digits_value digits 0)))
      else None
  end.
Definition parse_f32 (s : str) : option f32 :=
  let '(negative, s) := parse_sign s in
  let lower := to_ascii_lowercase s in
  if bool_decide (lower = lit "inf") || bool_decide (lower = lit "infinity")
  then Some (S754_infinity negative)
  else if bool_decide (lower = lit "nan") then Some S754_nan
  else
    let '(whole, rest) := span_digits s in
    let '(fraction, rest) :=
      match rest with
      | c :: rest' => if (c =? 46)%N then span_digits rest' else ([], rest)
      | [] => ([], rest)
      end in
    if (length whole + length fraction =? 0)%nat then None
    else match parse_exponent rest with
    | None => None
    | Some exponent =>
        Some (f32_of_decimal negative (digits_value (whole ++ fraction) 0)
          (exponent - Z.of_nat (length fraction)))
    end.

(** ** Parsers *)
Inductive HashUnit := Tera | Peta | Exa.
Definition multiplier (u : HashUnit) : f32 :=
  match u with
  | Tera => f32_of_Z (10 ^ 12)
  | Peta => f32_of_Z (10 ^ 15)
  | Exa => f32_of_Z (10 ^ 18)
  end.
(** [HashUnit::from_str] of one character; no other character has these upper cases. *)
Definition unit_from_str (c : char) : option HashUnit :=
  if (c =? 84)%N || (c =? 116)%N then Some Tera
  else if (c =? 80)%N || (c =? 112)%N then Some Peta
  else if (c =? 69)%N || (c =? 101)%N then Some Exa
  else None.
Inductive HashrateError :=
| HashrateEmpty | HashrateNumber | HashrateUnit | HashrateTooLarge.
(** The slice before the last byte panics when that byte is inside a character. *)
Definition parse_hashrate (hashrate_str : str) : Outcome HashrateError f32 :=
  let hashrate_str := trim hashrate_str in
  match last hashrate_str with
  | None => Failed HashrateEmpty
  | Some unit =>
      if negb (char_len_utf8 unit =? 1) then Panicked
      else match parse_f32 (take (length hashrate_str - 1) hashrate_str) with
      | None => Failed HashrateNumber
      | Some num =>
          match unit_from_str unit with
          | None => Failed HashrateUnit
          | Some unit =>
              let hashrate := f32_mul num (multiplier unit) in
              if is_finite hashrate then Done hashrate else Failed HashrateTooLarge
          end
      end
  end.
Definition parse_downstream_min_difficulty (value : str) : option f32 :=
  let value := trim value in
  if bool_decide (value = []) then None
  else match parse_f32 value with
  | None => None
  | Some difficulty =>
      if negb (is_finite difficulty) || f32_ltb difficulty (S754_zero false) then None
      else Some difficulty
  end.

(** [std::env::var(name).ok()] *)
Definition Env : Type := str → option str.
Definition env_bool (env : Env) (name : str) : option bool :=
  match env name with
  | None => None
  | Some value =>
      let value := to_ascii_lowercase (trim value) in
      if bool_decide (value ∈ [lit "1"; lit "true"; lit "yes"; lit "on"]) then Some true
      else if bool_decide (value ∈ [lit "0"; lit "false"; lit "no"; lit "off"]) then Some false
      else None
  end.
Definition env_parse {A} (parse : str → option A) (env : Env) (name : str) : option A :=
  env name ≫= parse.

Definition split_pool_addresses (values : list str) : list str :=
  filter (λ address, address ≠ []) (concat (map (λ value, map trim (split_on 44%N value)) values)).
Definition env_pool_addresses (env : Env) (env_names : list str) : list str :=
  fold_right (λ env_name addresses_after,
    match env env_name with
    | Some value =>
        match split_pool_addresses [value] with
        | [] => addresses_after
        | addresses => addresses
        end
    | None => addresses_after
    end) [] env_names.
Definition configured_pool_addresses (cli_addresses : list str)
    (config_addresses : option (list str)) (env_names : list str) (env : Env) : list str :=
  match cli_addresses with
  | _ :: _ => split_pool_addresses cli_addresses
  | [] =>
      match split_pool_addresses (default [] config_addresses) with
      | [] => env_pool_addresses env env_names
      | addresses => addresses
      end
  end.
Definition normalize_optional_url (url : str) : option str :=
  let url := trim_end_matches (λ c, (c =? 47)%N) (trim url) in
  if bool_decide (url = []) then None else Some url.

(** ** Data *)
Record Args := MkArgs {
  ar_staging : bool; ar_testnet3 : bool; ar_local : bool;
  ar_downstream_hashrate : option f32; ar_downstream_min_difficulty : option f32;
  ar_loglevel : option str; ar_noise_connection_log : option str;
  ar_sv1_loglevel : bool; ar_share_log : bool; ar_file_logging : bool;
  ar_delay : option N; ar_adjustment_interval : option N;
  ar_token : option str; ar_tp_address : option str; ar_api_base_url : option str;
  ar_pool_addresses : list str; ar_listening_addr : option str;
  ar_max_active_downstreams : option N; ar_accept_backoff_ms : option N;
  ar_accept_backlog : option N; ar_max_accepts_per_window : option N;
  ar_accept_window_ms : option N; ar_api_server_port : option str;
  ar_monitor : bool; ar_auto_update : bool; ar_miner_name : option str;
  ar_rpc_url : option str; ar_rpc_user : option str; ar_rpc_pwd : option str;
  ar_api_tx_token : option str
}.
Record ConfigFile := MkConfigFile {
  cf_token : option str; cf_tp_address : option str; cf_api_base_url : option str;
  cf_pool_addresses : option (list str); cf_interval : option N; cf_delay : option N;
  cf_downstream_hashrate : option str; cf_downstream_min_difficulty : option f32;
  cf_loglevel : option str; cf_nc_loglevel : option str; cf_sv1_log : option bool;
  cf_share_log : option bool; cf_staging : option bool; cf_local : option bool;
  cf_testnet3 : option bool; cf_listening_addr : option str;
  cf_max_active_downstreams : option N; cf_accept_backoff_ms : option N;
  cf_accept_backlog : option N; cf_max_accepts_per_window : option N;
  cf_accept_window_ms : option N; cf_api_server_port : option str;
  cf_monitor : option bool; cf_auto_update : option bool; cf_miner_name : option str;
  cf_rpc_url : option str; cf_rpc_user : option str; cf_rpc_pwd : option str;
  cf_api_tx_token : option str
}.
Definition config_file_default : ConfigFile :=
  MkConfigFile None None None None None None None None None None None None None None None None
    None None None None None None None None None None None None None.
Record BitcoindRpcConfig := MkBitcoindRpcConfig {
  bc_url : str; bc_user : str; bc_pwd : str; bc_api_tx_token : str
}.
Record Configuration := MkConfiguration {
  cn_token : option str; cn_tp_address : option str; cn_api_base_url : option str;
  cn_pool_addresses : list str; cn_interval : N; cn_delay : N;
  cn_downstream_hashrate : f32; cn_downstream_min_difficulty : f32;
  cn_loglevel : str; cn_nc_loglevel : str; cn_sv1_log : bool; cn_share_log : bool;
  cn_file_logging : bool; cn_staging : bool; cn_testnet3 : bool; cn_local : bool;
  cn_listening_addr : option str; cn_max_active_downstreams : option N;
  cn_accept_backoff_ms : N; cn_accept_backlog : N; cn_max_accepts_per_window : option N;
  cn_accept_window_ms : N; cn_api_server_port : str; cn_monitor : bool;
  cn_auto_update : bool; cn_miner_name : option str;
  cn_prioritizing_txs_config : option BitcoindRpcConfig;
  cn_missing_prioritizing_txs_variables : list str
}.

(** ** Building the configuration *)
Definition build_prioritizing_txs_config (url user pwd api_tx_token : str)
    : option BitcoindRpcConfig * list str :=
  let missing_if name value := if bool_decide (trim value = []) then [lit name] else [] in
  let missing := missing_if "RPC_URL"%string url ++ missing_if "RPC_USER"%string user
    ++ missing_if "RPC_PWD"%string pwd ++ missing_if "API_TX_TOKEN"%string api_tx_token in
  match missing with
  | _ :: _ => (None, missing)
  | [] => (Some (MkBitcoindRpcConfig url user pwd api_tx_token), missing)
  end.
Definition validate_supported_delay (delay : N) : bool := (delay =? 0)%N.

(** [a.or(b).or_else(c)] *)
Definition first_of {A} (cli file env : option A) : option A :=
  match cli with Some _ => cli | None => match file with Some _ => file | None => env end end.
(** A flag of the command line can only switch on. *)
Definition flag_of (cli : bool) (file env : option bool) (otherwise : bool) : bool :=
  cli || default otherwise (match file with Some _ => file | None => env end).

Definition DEFAULT_SV1_HASHPOWER : f32 := f32_of_Z 100000000000000.
Definition default_min_difficulty : f32 := f32_of_Z 131072.

(** The hash rate of the file: [parse_hashrate(d).ok()], which may panic. *)
Definition file_hashrate (file : option str) : option (option f32) :=
  match file with
  | None => Some None
  | Some d =>
      match parse_hashrate d with
      | Done hashrate => Some (Some hashrate)
      | Failed _ => Some None
      | Panicked => None
      end
  end.
Definition positive (value : option N) : option N :=
  match value with Some v => if (0 <? v)%N then Some v else None | None => None end.

(** [Configuration::new]; [None] is a panic. *)
Definition configuration_new (token tp_address api_base_url : option str)
    (pool_addresses : list str) (interval delay : N)
    (downstream_hashrate downstream_min_difficulty : f32) (loglevel nc_loglevel : str)
    (sv1_log share_log file_logging staging testnet3 local : bool)
    (listening_addr : option str) (max_active_downstreams : option N)
    (accept_backoff_ms accept_backlog : N) (max_accepts_per_window : option N)
    (accept_window_ms : N) (api_server_port : str) (monitor auto_update : bool)
    (miner_name : option str) (rpc_url rpc_user rpc_pwd api_tx_token : str)
    : option Configuration :=
  if negb (validate_supported_delay delay) then None
  else
    let '(prioritizing_txs_config, missing_prioritizing_txs_variables) :=
      build_prioritizing_txs_config rpc_url rpc_user rpc_pwd api_tx_token in
    Some (MkConfiguration token tp_address api_base_url pool_addresses interval delay
      downstream_hashrate downstream_min_difficulty loglevel nc_loglevel sv1_log share_log
      file_logging staging testnet3 local listening_addr max_active_downstreams
      accept_backoff_ms accept_backlog max_accepts_per_window accept_window_ms api_server_port
      monitor auto_update miner_name prioritizing_txs_config missing_prioritizing_txs_variables).

(** [from_cli]; [None] is a panic. *)
Definition from_cli (args : Args) (file : option ConfigFile) (env : Env)
    : option Configuration :=
  let config := default config_file_default file in
  let var name := env (lit name) in
  let miner_name := first_of (ar_miner_name args) (cf_miner_name config) (var "MINER_NAME"%string) in
  if match miner_name with
     | Some miner_name => match validate_miner_name miner_name with Ok _ => true | Err _ => false end
     | None => true
     end then
    match (match ar_downstream_hashrate args with
           | Some hashrate => Some (Some hashrate)
           | None => file_hashrate (cf_downstream_hashrate config)
           end) with
    | None => None
    | Some cli_or_file_hashrate =>
        configuration_new
          (first_of (ar_token args) (cf_token config) (var "TOKEN"%string))
          (first_of (ar_tp_address args) (cf_tp_address config) (var "TP_ADDRESS"%string))
          (match first_of (ar_api_base_url args) (cf_api_base_url config)
                   (match var "API_BASE_URL"%string with
                    | Some url => Some url
                    | None => var "DMND_CLIENT_API_BASE_URL"%string
                    end) with
           | Some url => normalize_optional_url url
           | None => None
           end)
          (configured_pool_addresses (ar_pool_addresses args) (cf_pool_addresses config)
             [lit "POOL_ADDRESSES"; lit "POOL_ADDRESS"; lit "DMND_CLIENT_POOL_ADDRESSES"] env)
          (default 120000%N (first_of (ar_adjustment_interval args) (cf_interval config)
             (env_parse (parse_uint u64_max) env (lit "INTERVAL"))))
          (default 0%N (first_of (ar_delay args) (cf_delay config)
             (env_parse (parse_uint u64_max) env (lit "DELAY"))))
          (default DEFAULT_SV1_HASHPOWER
             (first_of cli_or_file_hashrate None (env_parse parse_f32 env (lit "DOWNSTREAM_HASHRATE"))))
          (default default_min_difficulty
             (first_of (ar_downstream_min_difficulty args) (cf_downstream_min_difficulty config)
                (env_parse parse_downstream_min_difficulty env (lit "DOWNSTREAM_MIN_DIFFICULTY"))))
          (default (lit "info") (first_of (ar_loglevel args) (cf_loglevel config) (var "LOGLEVEL"%string)))
          (default (lit "off")
             (first_of (ar_noise_connection_log args) (cf_nc_loglevel config) (var "NC_LOGLEVEL"%string)))
          (flag_of (ar_sv1_loglevel args) (cf_sv1_log config) (env_bool env (lit "SV1_LOGLEVEL")) false)
          (flag_of (ar_share_log args) (cf_share_log config) (env_bool env (lit "SHARE_LOG")) false)
          (flag_of (ar_file_logging args) None (env_bool env (lit "FILE_LOGGING")) false)
          (flag_of (ar_staging args) (cf_staging config) (env_bool env (lit "STAGING")) false)
          (flag_of (ar_testnet3 args) (cf_testnet3 config) (env_bool env (lit "TESTNET3")) false)
          (flag_of (ar_local args) (cf_local config) (env_bool env (lit "LOCAL")) false)
          (first_of (ar_listening_addr args) (cf_listening_addr config) (var "LISTENING_ADDR"%string))
          (positive (Some (default 8001%N
             (first_of (ar_max_active_downstreams args) (cf_max_active_downstreams config)
                (env_parse (parse_uint usize_max) env (lit "MAX_ACTIVE_DOWNSTREAMS"))))))
          (default 250%N (first_of (ar_accept_backoff_ms args) (cf_accept_backoff_ms config)
             (env_parse (parse_uint u64_max) env (lit "ACCEPT_BACKOFF_MS"))))
          (default 16384%N (first_of (ar_accept_backlog args) (cf_accept_backlog config)
             (env_parse (parse_uint u32_max) env (lit "ACCEPT_BACKLOG"))))
          (positive (Some (default 512%N
             (first_of (ar_max_accepts_per_window args) (cf_max_accepts_per_window config)
                (env_parse (parse_uint usize_max) env (lit "MAX_ACCEPTS_PER_WINDOW"))))))
          (default 250%N (first_of (ar_accept_window_ms args) (cf_accept_window_ms config)
             (env_parse (parse_uint u64_max) env (lit "ACCEPT_WINDOW_MS"))))
          (default (lit "3001")
             (first_of (ar_api_server_port args) (cf_api_server_port config) (var "API_SERVER_PORT"%string)))
          (flag_of (ar_monitor args) (cf_monitor config) (env_bool env (lit "MONITOR")) false)
          (flag_of (ar_auto_update args) (cf_auto_update config) (env_bool env (lit "AUTO_UPDATE")) true)
          miner_name
          (default [] (first_of (ar_rpc_url args) (cf_rpc_url config) (var "RPC_URL"%string)))
          (default [] (first_of (ar_rpc_user args) (cf_rpc_user config) (var "RPC_USER"%string)))
          (default [] (first_of (ar_rpc_pwd args) (cf_rpc_pwd config) (var "RPC_PWD"%string)))
          (default [] (first_of (ar_api_tx_token args) (cf_api_tx_token config) (var "API_TX_TOKEN"%string)))
    end
  else None.

(** ** What the rest of the client reads *)
Definition environment (c : Configuration) : str :=
  if cn_staging c then lit "staging"
  else if cn_local c then lit "local"
  else if cn_testnet3 c then lit "testnet3"
  else lit "production".
Definition STAGING_URL : str := lit "https://staging-user-dashboard-server.dmnd.work".
Definition TESTNET3_URL : str := lit "https://testnet3-user-dashboard-server.dmnd.work".
Definition PRODUCTION_URL : str := lit "https://production-user-dashboard-server.dmnd.work".
(** [None] is the unreachable case. *)
Definition dashboard_base_url (c : Configuration) : option str :=
  match cn_api_base_url c with
  | Some url => Some url
  | None =>
      let environment := environment c in
      if bool_decide (environment = lit "staging") then Some STAGING_URL
      else if bool_decide (environment = lit "testnet3") then Some TESTNET3_URL
      else if bool_decide (environment = lit "production") then Some PRODUCTION_URL
      else if bool_decide (environment = lit "local") then Some (lit "http://localhost:8787")
      else None
  end.
Definition difficulty_updates_disabled (c : Configuration) : bool := (100000 <? cn_delay c)%N.
Definition max_active_downstreams (c : Configuration) : option N :=
  positive (cn_max_active_downstreams c).
Definition max_accepts_per_window (c : Configuration) : option N :=
  positive (cn_max_accepts_per_window c).
Definition log_levels : list str :=
  [lit "trace"; lit "debug"; lit "info"; lit "warn"; lit "error"; lit "off"].
(** The six words have no letter that another character lowers to. *)
Definition loglevel (c : Configuration) : str :=
  if bool_decide (to_ascii_lowercase (cn_loglevel c) ∈ log_levels) then cn_loglevel c else lit "info".
Definition nc_loglevel (c : Configuration) : str :=
  if bool_decide (cn_nc_loglevel c ∈ log_levels) then cn_nc_loglevel c else lit "off".
Definition prioritizing_txs_enabled (c : Configuration) : bool :=
  match cn_prioritizing_txs_config c with Some _ => true | None => false end.
Definition bitcoind_rpc_config (c : Configuration) : option BitcoindRpcConfig :=
  if negb (prioritizing_txs_enabled c) then None else cn_prioritizing_txs_config c.

(** ** The addresses of the pools *)
Section pools.
(** [to_socket_addrs]: an error, or the addresses of a host and port. *)
Context (to_socket_addrs : str → option (list SocketAddr)).

Definition parse_address (addr : str) : option SocketAddr := to_socket_addrs addr ≫= head.
(** The attempts to fetch the addresses, each of which gets a response or none. *)
Fixpoint fetch_attempts {R} (retries : nat) (attempts : nat → option R) (i : nat)
    : option R * nat :=
  match attempts i with
  | Some response => (Some response, S i)
  | None =>
      match retries with
      | 0 => (None, S i)
      | S retries => fetch_attempts retries attempts (S i)
      end
  end.
(** A response is its hosts and ports, if it could be decoded.  [inl] is an error, [inr None]
    a panic. *)
Definition fetch_pool_urls (c : Configuration)
    (attempts : nat → option (option (list (str * N))))
    : unit + option (list SocketAddr) :=
  match cn_pool_addresses c with
  | _ :: _ => inr (Some (omap parse_address (cn_pool_addresses c)))
  | [] =>
      if cn_local c
      then inr (match parse_address (lit "127.0.0.1:20000") with Some a => Some [a] | None => None end)
      else match dashboard_base_url c, cn_token c with
      | Some _, Some _ =>
          match (fetch_attempts 8 attempts 0).1 with
          | Some (Some addresses) =>
              inr (Some (omap (λ a, parse_address (a.1 ++ lit ":" ++ display_N a.2)) addresses))
          | _ => inl tt
          end
      | _, _ => inr None
      end
  end.
(** [pool_address]: [None] is a panic. *)
Definition pool_address (c : Configuration) (attempts : nat → option (option (list (str * N))))
    : option (option (list SocketAddr)) :=
  match fetch_pool_urls c attempts with
  | inl _ => Some None
  | inr (Some addresses) => Some (Some addresses)
  | inr None => None
  end.
End pools.
