(* ===== verification/ConfigProps.v ===== *)
(** * Properties of the configuration *)

From S2P Require Import Prelude Str F32 Sv1 Net Effects MinerTag Config.

(** ** Precedence *)

Lemma first_of_agree {A} (x y z z' : option A) :
  (x = None → y = None → z = z') → first_of x y z = first_of x y z'.
Proof. destruct x, y; cbn; auto. Qed.
Lemma flag_of_agree x (y z z' : option bool) b :
  (x = false → y = None → z = z') → flag_of x y z b = flag_of x y z' b.
Proof. destruct x, y; cbn; intros H; try done. by rewrite H. Qed.
Lemma env_parse_agree {A} (parse : str → option A) (e e' : Env) n :
  e n = e' n → env_parse parse e n = env_parse parse e' n.
Proof. unfold env_parse. by intros ->. Qed.
Lemma env_bool_agree (e e' : Env) n : e n = e' n → env_bool e n = env_bool e' n.
Proof. unfold env_bool. by intros ->. Qed.

(** Two environments that agree on the variables of every setting that neither the command line
    nor the file gives. *)
Definition absent {A B} (x : option A) (y : option B) : Prop := x = None ∧ y = None.
Definition agree_on (e e' : Env) (names : list string) : Prop :=
  Forall (λ n, e (lit n) = e' (lit n)) names.
Record agree_where_absent (a : Args) (f : ConfigFile) (e e' : Env) : Prop := {
  ag_token : absent (ar_token a) (cf_token f) → agree_on e e' ["TOKEN"%string];
  ag_tp : absent (ar_tp_address a) (cf_tp_address f) → agree_on e e' ["TP_ADDRESS"%string];
  ag_url : absent (ar_api_base_url a) (cf_api_base_url f) →
    agree_on e e' ["API_BASE_URL"; "DMND_CLIENT_API_BASE_URL"]%string;
  ag_pools : ar_pool_addresses a = [] →
    split_pool_addresses (default [] (cf_pool_addresses f)) = [] →
    agree_on e e' ["POOL_ADDRESSES"; "POOL_ADDRESS"; "DMND_CLIENT_POOL_ADDRESSES"]%string;
  ag_interval : absent (ar_adjustment_interval a) (cf_interval f) → agree_on e e' ["INTERVAL"%string];
  ag_delay : absent (ar_delay a) (cf_delay f) → agree_on e e' ["DELAY"%string];
  ag_hashrate : ar_downstream_hashrate a = None → (∀ d h, cf_downstream_hashrate f = Some d →
    parse_hashrate d ≠ Done h) → agree_on e e' ["DOWNSTREAM_HASHRATE"%string];
  ag_difficulty : absent (ar_downstream_min_difficulty a) (cf_downstream_min_difficulty f) →
    agree_on e e' ["DOWNSTREAM_MIN_DIFFICULTY"%string];
  ag_loglevel : absent (ar_loglevel a) (cf_loglevel f) → agree_on e e' ["LOGLEVEL"%string];
  ag_nc : absent (ar_noise_connection_log a) (cf_nc_loglevel f) → agree_on e e' ["NC_LOGLEVEL"%string];
  ag_sv1 : ar_sv1_loglevel a = false → cf_sv1_log f = None → agree_on e e' ["SV1_LOGLEVEL"%string];
  ag_share : ar_share_log a = false → cf_share_log f = None → agree_on e e' ["SHARE_LOG"%string];
  ag_file_logging : ar_file_logging a = false → agree_on e e' ["FILE_LOGGING"%string];
  ag_staging : ar_staging a = false → cf_staging f = None → agree_on e e' ["STAGING"%string];
  ag_testnet3 : ar_testnet3 a = false → cf_testnet3 f = None → agree_on e e' ["TESTNET3"%string];
  ag_local : ar_local a = false → cf_local f = None → agree_on e e' ["LOCAL"%string];
  ag_listening : absent (ar_listening_addr a) (cf_listening_addr f) → agree_on e e' ["LISTENING_ADDR"%string];
  ag_max_active : absent (ar_max_active_downstreams a) (cf_max_active_downstreams f) →
    agree_on e e' ["MAX_ACTIVE_DOWNSTREAMS"%string];
  ag_backoff : absent (ar_accept_backoff_ms a) (cf_accept_backoff_ms f) →
    agree_on e e' ["ACCEPT_BACKOFF_MS"%string];
  ag_backlog : absent (ar_accept_backlog a) (cf_accept_backlog f) → agree_on e e' ["ACCEPT_BACKLOG"%string];
  ag_max_accepts : absent (ar_max_accepts_per_window a) (cf_max_accepts_per_window f) →
    agree_on e e' ["MAX_ACCEPTS_PER_WINDOW"%string];
  ag_window : absent (ar_accept_window_ms a) (cf_accept_window_ms f) →
    agree_on e e' ["ACCEPT_WINDOW_MS"%string];
  ag_port : absent (ar_api_server_port a) (cf_api_server_port f) → agree_on e e' ["API_SERVER_PORT"%string];
  ag_monitor : ar_monitor a = false → cf_monitor f = None → agree_on e e' ["MONITOR"%string];
  ag_auto_update : ar_auto_update a = false → cf_auto_update f = None → agree_on e e' ["AUTO_UPDATE"%string];
  ag_miner_name : absent (ar_miner_name a) (cf_miner_name f) → agree_on e e' ["MINER_NAME"%string];
  ag_rpc_url : absent (ar_rpc_url a) (cf_rpc_url f) → agree_on e e' ["RPC_URL"%string];
  ag_rpc_user : absent (ar_rpc_user a) (cf_rpc_user f) → agree_on e e' ["RPC_USER"%string];
  ag_rpc_pwd : absent (ar_rpc_pwd a) (cf_rpc_pwd f) → agree_on e e' ["RPC_PWD"%string];
  ag_api_tx_token : absent (ar_api_tx_token a) (cf_api_tx_token f) → agree_on e e' ["API_TX_TOKEN"%string]
}.

(** One consulted variable, from the hypothesis of its setting. *)
Ltac agree H :=
  first [apply first_of_agree | apply flag_of_agree]; intros ? ?;
  try apply env_parse_agree; try apply env_bool_agree;
  let Hn := fresh in
  pose proof H as Hn; unfold absent in Hn; specialize (Hn ltac:(auto)) || specialize (Hn ltac:(auto) ltac:(auto));
  by apply Forall_cons in Hn as [? _].

Lemma configured_pool_addresses_agree a f (e e' : Env) names :
  (ar_pool_addresses a = [] → split_pool_addresses (default [] (cf_pool_addresses f)) = [] →
   agree_on e e' names) →
  configured_pool_addresses (ar_pool_addresses a) (cf_pool_addresses f) (map lit names) e =
  configured_pool_addresses (ar_pool_addresses a) (cf_pool_addresses f) (map lit names) e'.
Proof.
  intros H. unfold configured_pool_addresses. destruct (ar_pool_addresses a); [|done].
  destruct (split_pool_addresses (default [] _)); [|done]. specialize (H eq_refl eq_refl).
  unfold env_pool_addresses. induction H as [|n names Hn _ IH]; [done|]. cbn [map fold_right].
  by rewrite Hn, IH.
Qed.

Lemma api_base_url_agree a f e e' :
  agree_where_absent a f e e' →
  first_of (ar_api_base_url a) (cf_api_base_url f)
    (match e (lit "API_BASE_URL") with Some url => Some url | None => e (lit "DMND_CLIENT_API_BASE_URL") end) =
  first_of (ar_api_base_url a) (cf_api_base_url f)
    (match e' (lit "API_BASE_URL") with Some url => Some url | None => e' (lit "DMND_CLIENT_API_BASE_URL") end).
Proof.
  intros H. apply first_of_agree. intros H1 H2.
  by pose proof (ag_url _ _ _ _ H (conj H1 H2)) as [-> [-> _]%Forall_cons]%Forall_cons.
Qed.
Lemma hashrate_agree a f e e' hashrate :
  agree_where_absent a f e e' →
  match ar_downstream_hashrate a with
  | Some hashrate => Some (Some hashrate)
  | None => file_hashrate (cf_downstream_hashrate f)
  end = Some hashrate →
  first_of hashrate None (env_parse parse_f32 e (lit "DOWNSTREAM_HASHRATE")) =
  first_of hashrate None (env_parse parse_f32 e' (lit "DOWNSTREAM_HASHRATE")).
Proof.
  intros H Hh. apply first_of_agree. intros -> _. apply env_parse_agree.
  assert (agree_on e e' ["DOWNSTREAM_HASHRATE"%string]) as Hag; [|by apply Forall_cons in Hag as [? _]].
  destruct (ar_downstream_hashrate a) eqn:Ha; [done|]. apply (ag_hashrate _ _ _ _ H); [done|].
  intros d h Hd Hp. unfold file_hashrate in Hh. rewrite Hd, Hp in Hh. done.
Qed.

(** The environment comes last: it decides only the settings that neither the command line
    nor the configuration file gives.  Two environments that agree on the variables of those
    settings lead to the same configuration, or to the same refusal. *)
Theorem environment_last a f e e' :
  agree_where_absent a f e e' → from_cli a (Some f) e = from_cli a (Some f) e'.
Proof.
  intros H. unfold from_cli. cbn [default from_option id].
  assert (first_of (ar_miner_name a) (cf_miner_name f) (e (lit "MINER_NAME")) =
    first_of (ar_miner_name a) (cf_miner_name f) (e' (lit "MINER_NAME"))) as -> by agree (ag_miner_name _ _ _ _ H).
  destruct (match first_of (ar_miner_name a) _ _ with Some _ => _ | None => true end); [|done].
  destruct (match ar_downstream_hashrate a with Some _ => _ | None => _ end) as [hashrate|] eqn:Hh; [|done].
  f_equal.
  - agree (ag_token _ _ _ _ H).
  - agree (ag_tp _ _ _ _ H).
  - by rewrite (api_base_url_agree a f e e' H).
  - apply (configured_pool_addresses_agree _ _ _ _ ["POOL_ADDRESSES"; "POOL_ADDRESS"; "DMND_CLIENT_POOL_ADDRESSES"]%string), H.
  - f_equal. agree (ag_interval _ _ _ _ H).
  - f_equal. agree (ag_delay _ _ _ _ H).
  - f_equal. by apply (hashrate_agree a f).
  - f_equal. agree (ag_difficulty _ _ _ _ H).
  - f_equal. agree (ag_loglevel _ _ _ _ H).
  - f_equal. agree (ag_nc _ _ _ _ H).
  - agree (ag_sv1 _ _ _ _ H).
  - agree (ag_share _ _ _ _ H).
  - apply flag_of_agree. intros Hf _. apply env_bool_agree. by pose proof (ag_file_logging _ _ _ _ H Hf) as [? _]%Forall_cons.
  - agree (ag_staging _ _ _ _ H).
  - agree (ag_testnet3 _ _ _ _ H).
  - agree (ag_local _ _ _ _ H).
  - agree (ag_listening _ _ _ _ H).
  - do 3 f_equal. agree (ag_max_active _ _ _ _ H).
  - f_equal. agree (ag_backoff _ _ _ _ H).
  - f_equal. agree (ag_backlog _ _ _ _ H).
  - do 3 f_equal. agree (ag_max_accepts _ _ _ _ H).
  - f_equal. agree (ag_window _ _ _ _ H).
  - f_equal. agree (ag_port _ _ _ _ H).
  - agree (ag_monitor _ _ _ _ H).
  - agree (ag_auto_update _ _ _ _ H).
  - f_equal. agree (ag_rpc_url _ _ _ _ H).
  - f_equal. agree (ag_rpc_user _ _ _ _ H).
  - f_equal. agree (ag_rpc_pwd _ _ _ _ H).
  - f_equal. agree (ag_api_tx_token _ _ _ _ H).
Qed.

(** ** What every configuration satisfies *)

Lemma build_prioritizing_spec url user pwd token config missing :
  build_prioritizing_txs_config url user pwd token = (config, missing) →
  (config = Some (MkBitcoindRpcConfig url user pwd token) ∧ missing = [] ∧
     Forall (λ value, trim value ≠ []) [url; user; pwd; token]) ∨
  (config = None ∧ missing ≠ [] ∧ ¬ Forall (λ value, trim value ≠ []) [url; user; pwd; token]).
Proof.
  unfold build_prioritizing_txs_config. rewrite !Forall_cons.
  repeat case_bool_decide; cbn; intros [= <- <-]; naive_solver.
Qed.

Definition prioritizing_complete (c : Configuration) : Prop :=
  match cn_prioritizing_txs_config c with
  | Some b => cn_missing_prioritizing_txs_variables c = [] ∧
      Forall (λ value, trim value ≠ []) [bc_url b; bc_user b; bc_pwd b; bc_api_tx_token b]
  | None => cn_missing_prioritizing_txs_variables c ≠ []
  end.
(** The environment has one of four names, each with its dashboard. *)
Lemma dashboard_base_url_total c : is_Some (dashboard_base_url c).
Proof.
  unfold dashboard_base_url, environment. destruct (cn_api_base_url c); [by eexists|].
  destruct (cn_staging c), (cn_local c), (cn_testnet3 c); vm_compute; by eexists.
Qed.

(** What a minimum difficulty has to be. *)
Definition valid_difficulty (d : f32) : Prop :=
  is_finite d = true ∧ f32_ltb d (S754_zero false) = false.
Lemma parsed_difficulty_valid value d :
  parse_downstream_min_difficulty value = Some d → valid_difficulty d.
Proof.
  unfold parse_downstream_min_difficulty. case_bool_decide; [done|].
  destruct (parse_f32 _) as [x|]; [|done].
  destruct (is_finite x) eqn:Hf, (f32_ltb x _) eqn:Hl; try done. by intros [= <-].
Qed.
Lemma chosen_difficulty_valid args config env :
  cf_downstream_min_difficulty config = None →
  (∀ d, ar_downstream_min_difficulty args = Some d → valid_difficulty d) →
  valid_difficulty (default default_min_difficulty
    (first_of (ar_downstream_min_difficulty args) (cf_downstream_min_difficulty config)
       (env_parse parse_downstream_min_difficulty env (lit "DOWNSTREAM_MIN_DIFFICULTY")))).
Proof.
  intros -> Ha. unfold first_of. destruct (ar_downstream_min_difficulty args) as [d|]; [by apply Ha|].
  unfold env_parse. destruct (env _) as [value|]; [|by split].
  cbn. destruct (parse_downstream_min_difficulty value) eqn:E; [|by split].
  by eapply parsed_difficulty_valid.
Qed.

(** A limit as it is configured: zero means that there is none. *)
Definition limit (value : N) : option N := if (value =? 0)%N then None else Some value.
Lemma positive_limit value : positive (Some value) = limit value.
Proof. by destruct value. Qed.
Lemma positive_idem value : positive (positive value) = positive value.
Proof. by destruct value as [[]|]. Qed.

(** C37: What a configuration that [from_cli] returns satisfies.  The delay is zero, so that
    difficulty updates are never disabled.  The limits of the downstreams and of the accepts
    of a window are stored as the first of command line, file, environment and default has
    them, except that zero is stored as no limit, and are read as they are stored.  The miner
    name fits the coinbase tag.  Unless the file gives the minimum difficulty, which is not
    checked there, it is finite and not negative (on the command line by the check of its
    parser).  Prioritisation is configured completely or names what is missing; and there is
    a dashboard to talk to.  Of the other numbers nothing is promised. *)
Theorem configuration_sound args file env c :
  from_cli args file env = Some c →
  let config := default config_file_default file in
  cn_delay c = 0%N ∧ difficulty_updates_disabled c = false ∧
  cn_max_active_downstreams c = limit (default 8001%N
    (first_of (ar_max_active_downstreams args) (cf_max_active_downstreams config)
       (env_parse (parse_uint usize_max) env (lit "MAX_ACTIVE_DOWNSTREAMS")))) ∧
  cn_max_accepts_per_window c = limit (default 512%N
    (first_of (ar_max_accepts_per_window args) (cf_max_accepts_per_window config)
       (env_parse (parse_uint usize_max) env (lit "MAX_ACCEPTS_PER_WINDOW")))) ∧
  max_active_downstreams c = cn_max_active_downstreams c ∧
  max_accepts_per_window c = cn_max_accepts_per_window c ∧
  (∀ name, cn_miner_name c = Some name → validate_miner_name name = Ok tt) ∧
  (cf_downstream_min_difficulty config = None →
   (∀ d, ar_downstream_min_difficulty args = Some d →
      ∃ value, parse_downstream_min_difficulty value = Some d) →
   valid_difficulty (cn_downstream_min_difficulty c)) ∧
  prioritizing_complete c ∧ is_Some (dashboard_base_url c).
Proof.
  unfold from_cli. set (config := default _ file).
  destruct (match first_of (ar_miner_name args) _ _ with Some _ => _ | None => true end) eqn:Hn; [|done].
  destruct (match ar_downstream_hashrate args with Some _ => _ | None => _ end) as [hashrate|]; [|done].
  unfold configuration_new. destruct (validate_supported_delay _) eqn:Hd; [|done]. cbn [negb].
  apply N.eqb_eq in Hd. destruct (build_prioritizing_txs_config _ _ _ _) as [prio missing] eqn:Hp.
  apply build_prioritizing_spec in Hp. intros [= <-].
  split_and!.
  - done.
  - unfold difficulty_updates_disabled. cbn [cn_delay]. by rewrite Hd.
  - apply positive_limit.
  - apply positive_limit.
  - apply (positive_idem (Some _)).
  - apply (positive_idem (Some _)).
  - cbn [cn_miner_name]. intros name Hname. rewrite Hname in Hn. by destruct (validate_miner_name name) as [[]|].
  - intros Hf Ha. apply chosen_difficulty_valid; [done|]. intros d Hd'.
    destruct (Ha d Hd') as [value Hv]. by eapply parsed_difficulty_valid.
  - unfold prioritizing_complete. cbn [cn_prioritizing_txs_config cn_missing_prioritizing_txs_variables]. destruct Hp as [(-> & -> & H)|(-> & H & _)]; done.
  - apply dashboard_base_url_total.
Qed.

(** ** Addresses of pools *)

Lemma split_on_no_sep sep s : Forall (λ w, sep ∉ w) (split_on sep s).
Proof.
  induction s as [|c s IH]; cbn [split_on].
  { constructor; [apply not_elem_of_nil|done]. }
  destruct (N.eqb_spec c sep) as [->|Hne].
  - constructor; [apply not_elem_of_nil|done].
  - destruct (split_on sep s) as [|w ws]; constructor; try done.
    + apply not_elem_of_cons. split; [done|apply not_elem_of_nil].
    + apply Forall_cons in IH as [Hw _]. by apply not_elem_of_cons.
    + by apply Forall_cons in IH as [_ ?].
Qed.
Lemma split_on_id sep s : sep ∉ s → split_on sep s = [s].
Proof.
  induction s as [|c s IH]; [done|]. intros [Hne Hs]%not_elem_of_cons. cbn [split_on].
  destruct (N.eqb_spec c sep); [done|]. by rewrite IH.
Qed.
Lemma trim_start_sub p s x : x ∈ trim_start_matches p s → x ∈ s.
Proof. destruct (trim_start_suffix p s) as [t Ht]. intros H. rewrite Ht. apply elem_of_app. by right. Qed.
Lemma trim_sub s x : x ∈ trim s → x ∈ s.
Proof.
  unfold trim, trim_end_matches. rewrite elem_of_reverse. intros H%trim_start_sub.
  rewrite elem_of_reverse in H. by apply trim_start_sub in H.
Qed.
Lemma trim_idem s : trim (trim s) = trim s.
Proof.
  unfold trim at 1. rewrite trim_start_id.
  - unfold trim, trim_end_matches. rewrite reverse_involutive. f_equal. apply trim_start_id.
    intros c t H. by eapply trim_start_head.
  - intros c t H. unfold trim, trim_end_matches in H.
    destruct (trim_start_suffix is_whitespace (reverse (trim_start_matches is_whitespace s))) as [u Hu].
    assert (trim_start_matches is_whitespace s = (c :: t) ++ reverse u) as Hs.
    { rewrite <- H, <- reverse_app, <- Hu, reverse_involutive. done. }
    by eapply trim_start_head.
Qed.
Definition pool_entry (s : str) : Prop := s ≠ [] ∧ (44%N ∉ s) ∧ trim s = s.

Lemma split_pool_entries values : Forall pool_entry (split_pool_addresses values).
Proof.
  unfold split_pool_addresses. apply Forall_forall. intros a [Hne Ha]%list_elem_of_filter.
  apply list_elem_of_In, in_concat in Ha as (l & Hl & Ha). apply in_map_iff in Hl as (v & <- & _).
  apply in_map_iff in Ha as (w & <- & Hw). split; [done|]. split; [|apply trim_idem].
  intros H%trim_sub. pose proof (split_on_no_sep 44%N v) as Hf. rewrite Forall_forall in Hf.
  by apply (Hf w); [apply list_elem_of_In|].
Qed.
Lemma split_pool_id entries : Forall pool_entry entries → split_pool_addresses entries = entries.
Proof.
  unfold split_pool_addresses. induction 1 as [|s entries (Hne & Hc & Ht) _ IH]; [done|].
  cbn [map concat]. rewrite (split_on_id _ _ Hc). cbn [map app]. rewrite filter_cons, Ht.
  by rewrite decide_True, IH.
Qed.

(** The configured pool addresses are clean: whatever the lists on the command line, in the
    file or in the environment look like, every address is trimmed, not empty and without a
    comma, and splitting them again changes nothing; a list with such an address on the command
    line decides, then one in the file. *)
Theorem pool_addresses_clean cli file names env :
  let addresses := configured_pool_addresses cli file names env in
  Forall pool_entry addresses ∧ split_pool_addresses addresses = addresses ∧
  (cli ≠ [] → addresses = split_pool_addresses cli) ∧
  (cli = [] → split_pool_addresses (default [] file) ≠ [] →
   addresses = split_pool_addresses (default [] file)).
Proof.
  cbn zeta. assert (Forall pool_entry (configured_pool_addresses cli file names env)) as H.
  { unfold configured_pool_addresses. destruct cli; [|apply split_pool_entries].
    destruct (split_pool_addresses (default [] file)) as [|x l] eqn:E.
    - unfold env_pool_addresses. induction names as [|n names IH]; [done|]. cbn [fold_right].
      destruct (env n) as [v|]; [|done]. pose proof (split_pool_entries [v]).
      by destruct (split_pool_addresses [v]).
    - rewrite <- E. apply split_pool_entries. }
  split; [done|]. split; [by apply split_pool_id|]. unfold configured_pool_addresses.
  split; [by destruct cli|]. intros ->. by destruct (split_pool_addresses (default [] file)).
Qed.

(** ** Hash rates *)

(** [parse_hashrate] accepts exactly a number followed by one of the six letters whose
    product is finite, and returns that product; it panics exactly when the last character is
    not ASCII. *)
Theorem parse_hashrate_exact s :
  match parse_hashrate s with
  | Done hashrate => is_finite hashrate = true ∧
      ∃ number c num unit, trim s = number ++ [c] ∧ parse_f32 number = Some num ∧
        unit_from_str c = Some unit ∧ hashrate = f32_mul num (multiplier unit)
  | Panicked => ∃ rest c, trim s = rest ++ [c] ∧ (128 <= c)%N
  | Failed _ => ∀ rest c, trim s = rest ++ [c] → (c < 128)%N ∧
      ∀ num unit, parse_f32 rest = Some num → unit_from_str c = Some unit →
        is_finite (f32_mul num (multiplier unit)) = false
  end.
Proof.
  unfold parse_hashrate. destruct (last (trim s)) as [c|] eqn:Hl.
  2: { apply last_None in Hl. intros rest c H. rewrite Hl in H. by destruct rest. }
  apply last_Some in Hl as [number Hs]. rewrite Hs.
  replace (take (length (number ++ [c]) - 1) (number ++ [c])) with number.
  2: { rewrite length_app. cbn [length]. replace (length number + 1 - 1)%nat with (length number) by lia. by rewrite take_app_length. }
  assert ((char_len_utf8 c =? 1) = true ↔ (c < 128)%N) as Hc.
  { unfold char_len_utf8. destruct (N.ltb_spec c 128); [done|].
    destruct (c <? 2048)%N, (c <? 65536)%N; cbn; split; (done || lia). }
  assert (∀ rest c', number ++ [c] = rest ++ [c'] → rest = number ∧ c' = c) as Hinj.
  { intros rest c' [-> [= ->]]%app_inj_tail. done. }
  destruct (char_len_utf8 c =? 1) eqn:E; cbn [negb].
  2: { exists number, c. split; [done|]. destruct (N.le_gt_cases 128 c); [done|]. by apply Hc in H. }
  destruct (parse_f32 number) as [num|] eqn:Hnum.
  2: { intros rest c' [-> ->]%Hinj. split; [by apply Hc|congruence]. }
  destruct (unit_from_str c) as [unit|] eqn:Hu.
  2: { intros rest c' [-> ->]%Hinj. split; [by apply Hc|congruence]. }
  destruct (is_finite (f32_mul num (multiplier unit))) eqn:Hf.
  - split; [done|]. by exists number, c, num, unit.
  - intros rest c' [-> ->]%Hinj. split; [by apply Hc|]. intros ? ? Hn' Hu'. congruence.
Qed.

(** What the environment says of the hash rate is read as a plain number: a value with a unit,
    as the command line and the file take it, is ignored. *)
Definition no_args : Args :=
  MkArgs false false false None None None None false false false None None None None None [] None
    None None None None None None false false None None None None None.
Definition only_var (name value : string) : Env :=
  λ n, if bool_decide (n = lit name) then Some (lit value) else None.
Theorem env_hashrate_unit_ignored :
  cn_downstream_hashrate <$> from_cli no_args None (only_var "DOWNSTREAM_HASHRATE" "250T") =
    Some DEFAULT_SV1_HASHPOWER ∧
  parse_hashrate (lit "250T") = Done (f32_mul (f32_of_Z 250) (multiplier Tera)) ∧
  f32_eqb DEFAULT_SV1_HASHPOWER (f32_mul (f32_of_Z 250) (multiplier Tera)) = false.
Proof. split_and!; vm_compute; reflexivity. Qed.

(** The minimum difficulty of the file is not checked, unlike those of the command line and the
    environment. *)
Theorem file_difficulty_unchecked difficulty :
  cn_downstream_min_difficulty <$> from_cli no_args
    (Some (MkConfigFile None None None None None None None (Some difficulty) None None None None None
       None None None None None None None None None None None None None None None None)) (λ _, None) =
  Some difficulty.
Proof. vm_compute. reflexivity. Qed.

(** ** Fetching the pools *)

Lemma fetch_attempts_spec {R} retries (attempts : nat → option R) : ∀ i r n,
  fetch_attempts retries attempts i = (r, n) →
  i < n ≤ i + S retries ∧
  (∀ j, i ≤ j → j < n - 1 → attempts j = None) ∧ attempts (n - 1) = r ∧
  (r = None → n = i + S retries).
Proof.
  induction retries as [|retries IH]; intros i r n; cbn [fetch_attempts];
    destruct (attempts i) as [x|] eqn:Hi; intros H.
  1-3: injection H as <- <-; replace (S i - 1) with i by lia; split_and!; [lia|lia|intros; lia|done|done || lia].
  apply IH in H as (H1 & H2 & H3 & H4). split_and!; [lia|lia| |done|intros; rewrite H4; [lia|done]].
  intros j Hj Hjn. destruct (decide (j = i)) as [->|]; [done|]. apply H2; lia.
Qed.

(** The addresses are asked for at most nine times: the first response that arrives within
    nine attempts is used, and the request is given up only after nine failures. *)
Theorem pools_fetched_within_nine {R} (attempts : nat → option R) r n :
  fetch_attempts 8 attempts 0 = (r, n) →
  (n ≤ 9)%nat ∧
  match r with
  | Some _ => attempts (n - 1) = r ∧ ∀ j, (j < n - 1)%nat → attempts j = None
  | None => n = 9 ∧ ∀ j, (j < 9)%nat → attempts j = None
  end.
Proof.
  intros H. apply fetch_attempts_spec in H as (Hn & Hearly & Hlast & Hnone). split; [lia|].
  destruct r as [x|]; [split; [done|]; intros; apply Hearly; lia|].
  specialize (Hnone eq_refl). split; [lia|]. intros j Hj.
  destruct (decide (j = n - 1)) as [->|]; [done|]. apply Hearly; lia.
Qed.

(** ** Witnesses *)
Definition empty_env : Env := λ _, None.
(** An environment that switches the limit of the downstreams off. *)
Definition unlimited_env : Env := only_var "MAX_ACTIVE_DOWNSTREAMS" "0".
Lemma configuration_sound_witness :
  ∃ c, from_cli no_args None unlimited_env = Some c ∧
    cn_max_active_downstreams c = None ∧ cn_max_accepts_per_window c = Some 512%N ∧
    valid_difficulty (cn_downstream_min_difficulty c) ∧ prioritizing_complete c.
Proof.
  destruct (from_cli no_args None unlimited_env) as [c|] eqn:E; [|by vm_compute in E].
  exists c. split; [done|].
  destruct (configuration_sound _ _ _ _ E) as (_ & _ & Ha & Hw & _ & _ & _ & Hd & Hp & _).
  split; [exact Ha|]. split; [exact Hw|]. split; [|exact Hp]. apply Hd; done.
Defined.
Lemma environment_last_witness :
  let file := MkConfigFile (Some (lit "t")) None None None None None None None None None None None None
       None None None None None None None None None None None None None None None None in
  from_cli no_args (Some file) (only_var "TOKEN" "a") = from_cli no_args (Some file) (only_var "TOKEN" "b").
Proof.
  apply environment_last. split; unfold absent, agree_on; cbn [no_args];
    intros; try (destruct_and?; done); repeat constructor; vm_compute; reflexivity.
Defined.
Lemma pools_fetched_within_nine_witness :
  (2 ≤ 9)%nat ∧ (λ i, if i =? 1 then Some tt else None) (2 - 1) = Some tt ∧
  ∀ j, (j < 2 - 1)%nat → (λ i, if i =? 1 then Some tt else None) j = None.
Proof. apply (pools_fetched_within_nine (λ i, if i =? 1 then Some tt else None) (Some tt) 2). reflexivity. Defined.
