(* ===== verification/Routes.v ===== *)
(** * The statistics and health handlers of the HTTP API

    [api/routes.rs], outside transaction prioritisation: what the statistics task answered,
    the queue of the hand-off to the translator, the configuration and the state of the proxy
    are inputs. *)

From S2P Require Import Prelude Str F32 Stats ProxyState Net Router Config ConfigProps NodeRpc TxPriority.

(** The answer of [StatsSender::collect_stats], in the order in which the map is iterated. *)
Abbreviation CollectedStats := (option (list (N * DownstreamConnectionStats))) (only parsing).

Definition get_downstream_stats (stats : CollectedStats)
    : N * APIResponse (list (N * DownstreamConnectionStats)) :=
  match stats with
  | Some stats => (200%N, api_success (Some stats))
  | None => (500%N, api_error (Some MsgStatsFailed))
  end.

Record AggregateStates := MkAggregateStates {
  ag_total_connected_device : N;
  ag_aggregate_hashrate : f64;
  ag_aggregate_accepted_shares : N;
  ag_aggregate_rejected_shares : N;
  ag_aggregate_diff : f64
}.
Definition add_downstream (total : AggregateStates)
    (downstream : N * DownstreamConnectionStats) : AggregateStates :=
  let d := downstream.2 in
  MkAggregateStates
    (wrapping_add u32_max (ag_total_connected_device total) 1)
    (f64_add (ag_aggregate_hashrate total) (f64_of_f32 (cs_hashrate d)))
    (wrapping_add u64_max (ag_aggregate_accepted_shares total) (cs_accepted_shares d))
    (wrapping_add u64_max (ag_aggregate_rejected_shares total) (cs_rejected_shares d))
    (f64_add (ag_aggregate_diff total) (f64_of_f32 (cs_current_difficulty d))).
Definition get_aggregate_stats (stats : CollectedStats) : N * APIResponse AggregateStates :=
  match stats with
  | None => (500%N, api_error (Some MsgStatsFailed))
  | Some stats =>
      (200%N, api_success (Some (fold_left add_downstream stats
        (MkAggregateStates 0 (f64_of_N 0) 0 0 (f64_of_N 0)))))
  end.

(** The address of the pool, and the latency in milliseconds. *)
Definition get_pool_info (r : Router) : N * APIResponse (SocketAddr * N) :=
  match ro_current_pool r, ro_latency r with
  | Some address, Some latency => (200%N, api_success (Some (address, latency / 1000000)%N))
  | _, _ => (404%N, api_error (Some MsgPoolUnavailable))
  end.

Record Handoff := MkHandoff { ho_closed : bool; ho_capacity : N; ho_max_capacity : N }.
Definition overloaded (c : Configuration) (stats : CollectedStats) : option (N * N) :=
  match max_active_downstreams c, stats with
  | Some max_active_downstreams, Some stats =>
      let active_downstreams := N.of_nat (length stats) in
      if (max_active_downstreams <=? active_downstreams)%N
      then Some (active_downstreams, max_active_downstreams) else None
  | _, _ => None
  end.
(** [None] is the exit of the process. *)
Definition health_check (handoff : Handoff) (c : Configuration) (stats : CollectedStats)
    (state : Mutex ProxyState) : option (N * APIResponse str) :=
  if ho_closed handoff then Some (503%N, api_error (Some MsgHandoffClosed))
  else if (ho_capacity handoff =? 0)%N
  then Some (503%N, api_error (Some (MsgHandoffFull (ho_max_capacity handoff))))
  else match overloaded c stats with
  | Some (active, max) => Some (503%N, api_error (Some (MsgOverloaded active max)))
  | None =>
      match is_proxy_down state with
      | None => None
      | Some (false, None) => Some (200%N, api_success (Some (lit "Proxy OK")))
      | Some (true, Some states) => Some (503%N, api_error (Some (MsgProxyDown states)))
      | Some _ => Some (503%N, api_error (Some MsgUnknownState))
      end
  end.

(** ** Properties *)

(** The proxy reports that it is healthy exactly when a miner could be taken: the hand-off
    to the translator is open and has room, the limit of active miners, if there is one and
    the statistics are there, is not reached, and no part is down; otherwise the answer is 503
    with a reason, and never an unknown state. *)
Theorem healthy_iff_ready handoff c stats state answer :
  health_check handoff c stats state = Some answer →
  (answer.1 = 200%N ↔
     ho_closed handoff = false ∧ ho_capacity handoff ≠ 0%N ∧
     (∀ max l, max_active_downstreams c = Some max → stats = Some l → (N.of_nat (length l) < max)%N) ∧
     is_proxy_down state = Some (false, None)) ∧
  (answer.1 ≠ 200%N → answer.1 = 503%N ∧ ar_success answer.2 = false ∧
     ∃ reason, ar_message answer.2 = Some reason ∧ reason ≠ MsgUnknownState).
Proof.
  unfold health_check. destruct (ho_closed handoff).
  { intros [= <-]. cbn. split; [split; [done|]; by intros (? & _)|]. intros _. split_and!; [done..|]. by eexists. }
  destruct (N.eqb_spec (ho_capacity handoff) 0).
  { intros [= <-]. cbn. split; [split; [done|]; by intros (_ & ? & _)|]. intros _. split_and!; [done..|]. by eexists. }
  destruct (overloaded c stats) as [[active max]|] eqn:Ho.
  { intros [= <-]. cbn. split; [|intros _; split_and!; [done..|]; by eexists]. split; [done|].
    intros (_ & _ & H & _). unfold overloaded in Ho. destruct (max_active_downstreams c) as [m|]; [|done].
    destruct stats as [l|]; [|done]. destruct (N.leb_spec m (N.of_nat (length l))) as [Hle|]; [|done].
    specialize (H m l eq_refl eq_refl). lia. }
  assert (∀ max l, max_active_downstreams c = Some max → stats = Some l → (N.of_nat (length l) < max)%N) as Hroom.
  { intros m l Hm ->. unfold overloaded in Ho. rewrite Hm in Ho. by destruct (N.leb_spec m (N.of_nat (length l))). }
  unfold is_proxy_down. destruct (get_errors state) as [errors|]; [|done]. cbn [mbind option_bind].
  destruct (length errors =? 0); intros [= <-]; cbn.
  - split; [by split|]. done.
  - split; [split; [done|]; by intros (_ & _ & _ & ?)|]. intros _. split_and!; [done..|]. by eexists.
Qed.
Lemma aggregate_counts stats : ∀ total,
  let s := fold_left add_downstream stats total in
  ((ag_total_connected_device total + N.of_nat (length stats) <= u32_max)%N →
   ag_total_connected_device s = (ag_total_connected_device total + N.of_nat (length stats))%N) ∧
  ((ag_aggregate_accepted_shares total + foldr N.add 0 (map (λ d, cs_accepted_shares d.2) stats) <= u64_max)%N →
   ag_aggregate_accepted_shares s =
     (ag_aggregate_accepted_shares total + foldr N.add 0 (map (λ d, cs_accepted_shares d.2) stats))%N) ∧
  ((ag_aggregate_rejected_shares total + foldr N.add 0 (map (λ d, cs_rejected_shares d.2) stats) <= u64_max)%N →
   ag_aggregate_rejected_shares s =
     (ag_aggregate_rejected_shares total + foldr N.add 0 (map (λ d, cs_rejected_shares d.2) stats))%N).
Proof.
  assert (∀ limit a b, (a + b <= limit)%N → wrapping_add limit a b = (a + b)%N) as Hwrap.
  { intros limit a b H. unfold wrapping_add. rewrite N.mod_small; lia. }
  induction stats as [|d stats IH]; intros total; cbn [fold_left length map foldr].
  { rewrite !N.add_0_r. done. }
  destruct (IH (add_downstream total d)) as (H1 & H2 & H3).
  assert (ag_total_connected_device (add_downstream total d) =
    wrapping_add u32_max (ag_total_connected_device total) 1) as E1 by done.
  assert (ag_aggregate_accepted_shares (add_downstream total d) =
    wrapping_add u64_max (ag_aggregate_accepted_shares total) (cs_accepted_shares d.2)) as E2 by done.
  assert (ag_aggregate_rejected_shares (add_downstream total d) =
    wrapping_add u64_max (ag_aggregate_rejected_shares total) (cs_rejected_shares d.2)) as E3 by done.
  split_and!; intros H.
  - rewrite H1, E1, Hwrap; lia || (rewrite E1, Hwrap; lia).
  - rewrite H2, E2, Hwrap; lia || (rewrite E2, Hwrap; lia).
  - rewrite H3, E3, Hwrap; lia || (rewrite E3, Hwrap; lia).
Qed.

(** The aggregate counts what the statistics hold, unless a sum overflows. *)
Theorem aggregate_is_sum stats answer :
  (N.of_nat (length stats) <= u32_max)%N →
  (foldr N.add 0 (map (λ d, cs_accepted_shares d.2) stats) <= u64_max)%N →
  (foldr N.add 0 (map (λ d, cs_rejected_shares d.2) stats) <= u64_max)%N →
  get_aggregate_stats (Some stats) = (200%N, answer) →
  ∃ total, ar_data answer = Some total ∧
    ag_total_connected_device total = N.of_nat (length stats) ∧
    ag_aggregate_accepted_shares total = foldr N.add 0%N (map (λ d, cs_accepted_shares d.2) stats) ∧
    ag_aggregate_rejected_shares total = foldr N.add 0%N (map (λ d, cs_rejected_shares d.2) stats).
Proof.
  intros Hd Ha Hr. unfold get_aggregate_stats. intros [= <-]. eexists. split; [done|].
  destruct (aggregate_counts stats (MkAggregateStates 0 (f64_of_N 0) 0 0 (f64_of_N 0))) as (H1 & H2 & H3).
  by rewrite H1, H2, H3.
Qed.

(** ** Witness *)
Definition toy_configuration : option Configuration := from_cli no_args None empty_env.
Lemma healthy_iff_ready_witness :
  ∃ c answer, toy_configuration = Some c ∧
    health_check (MkHandoff false 4 8) c None (MkMutex proxy_state_new false) = Some answer ∧
    answer.1 = 200%N.
Proof.
  destruct toy_configuration as [c|] eqn:E; [|by vm_compute in E].
  assert (health_check (MkHandoff false 4 8) c None (MkMutex proxy_state_new false) =
    Some (200%N, api_success (Some (lit "Proxy OK")))) as Hh.
  { unfold health_check, overloaded. by destruct (max_active_downstreams c). }
  exists c, (200%N, api_success (Some (lit "Proxy OK"))). split; [done|]. split; [done|].
  refine (proj2 (proj1 (healthy_iff_ready _ _ _ _ _ Hh)) _). by split_and!.
Defined.
